(** * Scene batch collection of rbfx (Urho3D/Graphics)

    A shallow embedding of [SceneBatchCollector.cpp] and [ScenePass.cpp]:
    visibility and source-batch collection, technique selection, lit-geometry
    queries, and the classification of intermediate batches into final
    batches with their pipeline states.

    Conventions of the embedding.
    - [unsigned] values that carry the sentinel [M_MAX_UNSIGNED], and bit
      masks, are [N]; loop counters, lane indices and array positions are
      [nat].
    - A C++ [float] is a primitive float.  Only comparisons of floats are
      embedded; every binary32 value is a binary64 value and the comparisons
      agree on them.
    - A pointer that may be null is an [option]; objects are records, and a
      drawable is identified by its drawable index.
    - Indexing a vector out of range, or dereferencing null, is undefined in
      C++: the embedding returns [Undefined].  [assert(0)] returns
      [AssertFailed] unless the build defines NDEBUG. *)

From Stdlib Require Import NArith List Lia PrimFloat String.
From stdpp Require Import base option list numbers gmap.

Local Open Scope nat_scope.

(** ** Outcomes of a run *)

Inductive result (A : Type) : Type :=
| Ok (a : A)
| AssertFailed
| Undefined.
Arguments Ok {A} a.
Arguments AssertFailed {A}.
Arguments Undefined {A}.

#[global] Instance result_ret : MRet result := fun A a => Ok a.
#[global] Instance result_bind : MBind result := fun A B k m =>
  match m with
  | Ok a => k a
  | AssertFailed => AssertFailed
  | Undefined => Undefined
  end.

(** [v[i]] where a miss is undefined behaviour. *)
Definition defined {A} (o : option A) : result A :=
  match o with
  | Some a => Ok a
  | None => Undefined
  end.

(** [assert(0)]: a no-op under NDEBUG, an abort otherwise. *)
Definition assert0 (ndebug : bool) : result unit :=
  if ndebug then Ok tt else AssertFailed.

(** A loop [for (i = start; i < start + size(l); ++i) body(i, l[i - start])]
    over mutable state. *)
Fixpoint forEachIndexed {A St} (body : nat -> A -> St -> result St)
    (i : nat) (l : list A) (st : St) : result St :=
  match l with
  | [] => Ok st
  | x :: rest => st' ← body i x st; forEachIndexed body (S i) rest st'
  end.

(** ** Machine values *)

Definition unsigned := N.
Definition M_MAX_UNSIGNED : unsigned := 4294967295%N.

(** [v[i]] for an [unsigned] index, without building the index in unary. *)
Fixpoint at_index {A} (l : list A) (i : unsigned) : option A :=
  match l with
  | [] => None
  | x :: rest => if (i =? 0)%N then Some x else at_index rest (N.pred i)
  end.

(** C++ truth of an integer. *)
Definition nonzero (x : N) : bool := negb (x =? 0)%N.

(** [a > b], [a >= b] on floats. *)
Definition fgt (a b : float) : bool := PrimFloat.ltb b a.
Definition fge (a b : float) : bool := PrimFloat.leb b a.

(** ** Collaborators: passes, techniques, materials, drawables *)

Inductive Pass := MkPass (id : N).
Inductive Geometry := MkGeometry (id : N).
Inductive PipelineState := MkPipelineState (id : N).

#[global] Instance Pass_eq_dec : EqDecision Pass.
Proof. solve_decision. Defined.
#[global] Instance Geometry_eq_dec : EqDecision Geometry.
Proof. solve_decision. Defined.
#[global] Instance PipelineState_eq_dec : EqDecision PipelineState.
Proof. solve_decision. Defined.

(** Modelled from the spec: a technique is a set of passes looked up by pass
    index ([Technique.h] is not part of the sources); [GetPass] yields null
    where the technique has no pass at the index. *)
Record Technique := {
  passes : list (option Pass);
  IsSupported : bool;
}.

Definition GetPass (technique : Technique) (passIndex : unsigned) : option Pass :=
  mjoin (at_index (passes technique) passIndex).

Record TechniqueEntry := {
  technique_ : option Technique;
  qualityLevel_ : N;
  lodDistance_ : float;
}.

Record Material := {
  GetTechniques : list TechniqueEntry;
}.

Record SourceBatch := {
  sb_geometry_ : option Geometry;
  sb_material_ : option Material;
}.

Record Vector3 := { x_ : float; y_ : float; z_ : float }.
Record BoundingBox := { min_ : Vector3; max_ : Vector3 }.

Inductive LightType := LIGHT_DIRECTIONAL | LIGHT_SPOT | LIGHT_POINT.

(** A drawable after its [UpdateBatches] callback ran for the frame.  The last
    three fields are those of the [Light] subclass and are read only where the
    source casts the drawable to a light; [EffectiveColorIsBlack] is the value
    of [GetEffectiveColor().Equals(Color::BLACK)]. *)
Record Drawable := {
  GetDrawableIndex : nat;
  GetDrawableFlags : N;
  GetDrawDistance : float;
  GetDistance : float;
  GetLodDistance : float;
  GetLightMask : N;
  GetWorldBoundingBox : BoundingBox;
  GetBatches : list SourceBatch;
  EffectiveColorIsBlack : bool;
  GetLightMaskEffective : N;
  GetLightType : LightType;
}.

Definition DRAWABLE_GEOMETRY : N := 1.
Definition DRAWABLE_LIGHT : N := 2.

Definition QUALITY_LOW : N := 0.
Definition VO_LOW_MATERIAL_QUALITY : N := 1.

Record Renderer := {
  GetDefaultMaterial : Material;
  GetMaterialQuality : N;
}.

(** ** ThreadedVector and the parallel for *)

(** Modelled from the spec: a [ThreadedVector] is one buffer per lane, merged
    by lane index and then by insertion order ([ThreadedVector.h] is not part
    of the sources).  [Insert] appends to the lane's buffer and returns the
    position of the element in it. *)
Abbreviation ThreadedVector T := (list (list T)) (only parsing).

Definition tv_Clear {T} (numThreads : nat) : ThreadedVector T :=
  replicate numThreads [].

Definition tv_Insert {T} (tv : ThreadedVector T) (threadIndex : nat) (value : T)
  : result (ThreadedVector T * nat) :=
  match tv !! threadIndex with
  | Some lane => Ok (<[threadIndex := lane ++ [value]]> tv, length lane)
  | None => Undefined
  end.

Definition tv_Size {T} (tv : ThreadedVector T) : nat := length (concat tv).

Definition tv_Get {T} (tv : ThreadedVector T) (threadIndex elementIndex : nat)
  : result T :=
  lane ← defined (tv !! threadIndex); defined (lane !! elementIndex).

Definition tv_Set {T} (tv : ThreadedVector T) (threadIndex elementIndex : nat)
    (value : T) : ThreadedVector T :=
  alter (fun lane => <[elementIndex := value]> lane) threadIndex tv.

Definition tv_CopyTo {T} (tv : ThreadedVector T) : list T := concat tv.

(** The sequence [ForEach] visits: lane index, position in the lane, element. *)
Definition tv_elements {T} (tv : ThreadedVector T) : list (nat * nat * T) :=
  concat (imap (fun threadIndex lane =>
                  imap (fun elementIndex x => (threadIndex, elementIndex, x)) lane) tv).

(** A loop over a list, over mutable state. *)
Fixpoint forEach {A St} (body : A -> St -> result St) (l : list A) (st : St)
  : result St :=
  match l with
  | [] => Ok st
  | x :: rest => st' ← body x st; forEach body rest st'
  end.

(** [ForEach]: single-threaded, lane by lane. *)
Definition tv_ForEach {T St} (callback : nat -> nat -> T -> St -> result St)
    (tv : ThreadedVector T) (st : St) : result St :=
  forEach (fun '(threadIndex, elementIndex, x) => callback threadIndex elementIndex x)
          (tv_elements tv) st.

(** Modelled from the spec: [ForEachParallel] cuts the collection into
    consecutive chunks, hands every chunk to one lane together with the offset
    of its first element, and returns when all chunks are done.  The work
    queue is not part of the sources: [schedule] lists, chunk by chunk, the
    lane that runs the chunk and the number of elements in it.  Chunks touch
    disjoint elements and lane-local buffers only, so running them one after
    the other is one of the interleavings with the same outcome. *)
Fixpoint ForEachParallel {T St} (schedule : list (nat * nat))
    (callback : nat -> nat -> list T -> St -> result St)
    (offset : nat) (collection : list T) (st : St) : result St :=
  match schedule with
  | [] => Ok st
  | (threadIndex, count) :: rest =>
      st' ← callback threadIndex offset (take count collection) st;
      ForEachParallel rest callback (offset + count) (drop count collection) st'
  end.

(** [v.resize(n)]: keeps the first [n] elements and pads with
    value-initialised ones. *)
Definition resize {T} (n : nat) (fresh : T) (v : list T) : list T :=
  take n v ++ replicate (n - length v) fresh.

(** C++ truth of a pointer. *)
Definition notnull {A} (p : option A) : bool :=
  match p with
  | Some _ => true
  | None => false
  end.

(** ** Batches *)

(** [IntermediateSceneBatch], the same four members in both files. *)
Record IntermediateSceneBatch := {
  geometry_ : option Drawable;
  sourceBatchIndex_ : nat;
  basePass_ : option Pass;
  additionalPass_ : option Pass;
}.

(** The per-drawable light accumulator, seen through [GetPixelLights]: the
    ranked (penalty, light index) pairs; [Reset] empties it. *)
Definition DrawableLightData := list (float * unsigned).

(** Bits of [TransientDrawableIndex::traits_]. *)
Definition DrawableUpdated : N := 1.
Definition DrawableVisibleGeometry : N := 2.
Definition ForwardLit : N := 4.

(** [traits_[i] |= flag]. *)
Definition or_trait (traits : list N) (i : nat) (flag : N) : result (list N) :=
  t ← defined (traits !! i); Ok (<[i := N.lor t flag]> traits).

(** ** SceneBatchCollector.cpp *)

Module SceneBatchCollector.

Inductive Intersection := OUTSIDE | INTERSECTS | INSIDE.

(** C++ truth of an [Intersection]: [OUTSIDE] is the enumerator 0. *)
Definition hit (i : Intersection) : bool :=
  match i with
  | OUTSIDE => false
  | _ => true
  end.

(** [PointLightLitGeometriesQuery]: the result vector, the light sphere seen
    through [IsInsideFast], the visibility cache and the light mask. *)
Record PointLightLitGeometriesQuery := {
  pq_result_ : list Drawable;
  sphere_IsInsideFast : BoundingBox -> Intersection;
  pq_transientData_ : list N;
  pq_lightMask_ : N;
}.

Fixpoint PointLight_TestDrawables (q : PointLightLitGeometriesQuery)
    (range : list Drawable) (inside : bool) : result PointLightLitGeometriesQuery :=
  match range with
  | [] => Ok q
  | drawable :: rest =>
      let drawableIndex := GetDrawableIndex drawable in
      traits ← defined (pq_transientData_ q !! drawableIndex);
      let q' :=
        if nonzero (N.land traits DrawableVisibleGeometry) then
          if nonzero (N.land (GetLightMask drawable) (pq_lightMask_ q)) then
            if inside || hit (sphere_IsInsideFast q (GetWorldBoundingBox drawable)) then
              {| pq_result_ := pq_result_ q ++ [drawable];
                 sphere_IsInsideFast := sphere_IsInsideFast q;
                 pq_transientData_ := pq_transientData_ q;
                 pq_lightMask_ := pq_lightMask_ q |}
            else q
          else q
        else q in
      PointLight_TestDrawables q' rest inside
  end.

(** [SpotLightLitGeometriesQuery]: as above with the light frustum. *)
Record SpotLightLitGeometriesQuery := {
  sq_result_ : list Drawable;
  frustum_IsInsideFast : BoundingBox -> Intersection;
  sq_transientData_ : list N;
  sq_lightMask_ : N;
}.

Fixpoint SpotLight_TestDrawables (q : SpotLightLitGeometriesQuery)
    (range : list Drawable) (inside : bool) : result SpotLightLitGeometriesQuery :=
  match range with
  | [] => Ok q
  | drawable :: rest =>
      let drawableIndex := GetDrawableIndex drawable in
      traits ← defined (sq_transientData_ q !! drawableIndex);
      let q' :=
        if nonzero (N.land traits DrawableVisibleGeometry) then
          if nonzero (N.land (GetLightMask drawable) (sq_lightMask_ q)) then
            if inside || hit (frustum_IsInsideFast q (GetWorldBoundingBox drawable)) then
              {| sq_result_ := sq_result_ q ++ [drawable];
                 frustum_IsInsideFast := frustum_IsInsideFast q;
                 sq_transientData_ := sq_transientData_ q;
                 sq_lightMask_ := sq_lightMask_ q |}
            else q
          else q
        else q in
      SpotLight_TestDrawables q' rest inside
  end.

(** The octree is a collaborator: [GetDrawables(query)] walks the octants the
    query volume reaches and hands each octant's drawables to
    [TestDrawables], flagged [inside] when the octant lies wholly inside the
    volume.  [visits] is that sequence of calls. *)
Fixpoint Octree_GetDrawables {Q} (TestDrawables : Q -> list Drawable -> bool -> result Q)
    (visits : list (list Drawable * bool)) (query : Q) : result Q :=
  match visits with
  | [] => Ok query
  | (range, inside) :: rest =>
      query' ← TestDrawables query range inside;
      Octree_GetDrawables TestDrawables rest query'
  end.

Inductive ScenePassType := Unlit | ForwardLitBase | ForwardUnlitBase.

#[global] Instance ScenePassType_eq_dec : EqDecision ScenePassType.
Proof. solve_decision. Defined.

Record ScenePassDescription := {
  type_ : ScenePassType;
  basePassName_ : string;
  firstLightPassName_ : string;
  additionalLightPassName_ : string;
}.

(** Modelled from the spec: the final batch of this collector ([SceneBatch]
    is declared in a header that is not part of the sources): drawable,
    drawable index, source-batch index, geometry, material, light index or
    none, pipeline-state handle. *)
Record SceneBatch := {
  drawable_ : option Drawable;
  drawableIndex_ : nat;
  batch_sourceBatchIndex_ : nat;
  batch_geometry_ : option Geometry;
  material_ : option Material;
  lightIndex_ : unsigned;
  pipelineState_ : option PipelineState;
}.

Definition SceneBatch_default : SceneBatch :=
  {| drawable_ := None; drawableIndex_ := 0; batch_sourceBatchIndex_ := 0;
     batch_geometry_ := None; material_ := None; lightIndex_ := M_MAX_UNSIGNED;
     pipelineState_ := None |}.

Record PassData := {
  desc_ : ScenePassDescription;
  basePassIndex_ : unsigned;
  firstLightPassIndex_ : unsigned;
  additionalLightPassIndex_ : unsigned;
  unlitBatches_ : ThreadedVector IntermediateSceneBatch;
  litBatches_ : ThreadedVector IntermediateSceneBatch;
  unlitBaseSceneBatches_ : list SceneBatch;
  litBaseSceneBatches_ : list SceneBatch;
}.

Definition PassData_default : PassData :=
  {| desc_ := {| type_ := Unlit; basePassName_ := ""; firstLightPassName_ := "";
                 additionalLightPassName_ := "" |};
     basePassIndex_ := 0%N; firstLightPassIndex_ := 0%N;
     additionalLightPassIndex_ := 0%N;
     unlitBatches_ := []; litBatches_ := [];
     unlitBaseSceneBatches_ := []; litBaseSceneBatches_ := [] |}.

Definition CheckSubPasses (p : PassData) (hasBase hasFirstLight hasAdditionalLight : bool)
  : bool :=
  Bool.eqb (negb (basePassIndex_ p =? M_MAX_UNSIGNED)%N) hasBase
  && Bool.eqb (negb (firstLightPassIndex_ p =? M_MAX_UNSIGNED)%N) hasFirstLight
  && Bool.eqb (negb (additionalLightPassIndex_ p =? M_MAX_UNSIGNED)%N) hasAdditionalLight.

Definition IsValid (p : PassData) : bool :=
  match type_ (desc_ p) with
  | Unlit => CheckSubPasses p true false false
  | ForwardLitBase => CheckSubPasses p false true true || CheckSubPasses p true true true
  | ForwardUnlitBase => CheckSubPasses p true false true
  end.

Definition CreateIntermediateSceneBatch (p : PassData) (geometry : Drawable)
    (sourceBatchIndex : nat) (basePass firstLightPass additionalLightPass : option Pass)
  : IntermediateSceneBatch :=
  if bool_decide (type_ (desc_ p) = Unlit) || negb (notnull additionalLightPass) then
    {| geometry_ := Some geometry; sourceBatchIndex_ := sourceBatchIndex;
       basePass_ := basePass; additionalPass_ := None |}
  else if bool_decide (type_ (desc_ p) = ForwardUnlitBase)
          && notnull basePass && notnull additionalLightPass then
    {| geometry_ := Some geometry; sourceBatchIndex_ := sourceBatchIndex;
       basePass_ := basePass; additionalPass_ := additionalLightPass |}
  else if bool_decide (type_ (desc_ p) = ForwardLitBase)
          && notnull firstLightPass && notnull additionalLightPass then
    {| geometry_ := Some geometry; sourceBatchIndex_ := sourceBatchIndex;
       basePass_ := firstLightPass; additionalPass_ := additionalLightPass |}
  else
    {| geometry_ := None; sourceBatchIndex_ := 0; basePass_ := None;
       additionalPass_ := None |}.

(** [PassData::Clear]. *)
Definition PassData_Clear (numThreads : nat) (p : PassData) : PassData :=
  {| desc_ := desc_ p; basePassIndex_ := basePassIndex_ p;
     firstLightPassIndex_ := firstLightPassIndex_ p;
     additionalLightPassIndex_ := additionalLightPassIndex_ p;
     unlitBatches_ := tv_Clear numThreads; litBatches_ := tv_Clear numThreads;
     unlitBaseSceneBatches_ := unlitBaseSceneBatches_ p;
     litBaseSceneBatches_ := litBaseSceneBatches_ p |}.

Definition set_unlitBatches (tv : ThreadedVector IntermediateSceneBatch) (p : PassData)
  : PassData :=
  {| desc_ := desc_ p; basePassIndex_ := basePassIndex_ p;
     firstLightPassIndex_ := firstLightPassIndex_ p;
     additionalLightPassIndex_ := additionalLightPassIndex_ p;
     unlitBatches_ := tv; litBatches_ := litBatches_ p;
     unlitBaseSceneBatches_ := unlitBaseSceneBatches_ p;
     litBaseSceneBatches_ := litBaseSceneBatches_ p |}.

Definition set_litBatches (tv : ThreadedVector IntermediateSceneBatch) (p : PassData)
  : PassData :=
  {| desc_ := desc_ p; basePassIndex_ := basePassIndex_ p;
     firstLightPassIndex_ := firstLightPassIndex_ p;
     additionalLightPassIndex_ := additionalLightPassIndex_ p;
     unlitBatches_ := unlitBatches_ p; litBatches_ := tv;
     unlitBaseSceneBatches_ := unlitBaseSceneBatches_ p;
     litBaseSceneBatches_ := litBaseSceneBatches_ p |}.

Definition set_baseSceneBatches (unlit lit : list SceneBatch) (p : PassData) : PassData :=
  {| desc_ := desc_ p; basePassIndex_ := basePassIndex_ p;
     firstLightPassIndex_ := firstLightPassIndex_ p;
     additionalLightPassIndex_ := additionalLightPassIndex_ p;
     unlitBatches_ := unlitBatches_ p; litBatches_ := litBatches_ p;
     unlitBaseSceneBatches_ := unlit; litBaseSceneBatches_ := lit |}.

(** The collector's members that the embedded functions read or write.  The
    view-space Z ranges ([transient_.zRange_], [sceneZRange_]) are products of
    float arithmetic that no embedded branch reads; they are left out. *)
Record Collector := {
  renderer_ : Renderer;
  numThreads_ : nat;
  materialQuality_ : N;
  numDrawables_ : nat;
  passes_ : list PassData;
  visibleGeometries_ : ThreadedVector Drawable;
  visibleLightsTemp_ : ThreadedVector Drawable;
  visibleLights_ : list Drawable;
  traits_ : list N;
  drawableLighting_ : list DrawableLightData;
}.

Definition set_passes (ps : list PassData) (c : Collector) : Collector :=
  {| renderer_ := renderer_ c; numThreads_ := numThreads_ c;
     materialQuality_ := materialQuality_ c; numDrawables_ := numDrawables_ c;
     passes_ := ps; visibleGeometries_ := visibleGeometries_ c;
     visibleLightsTemp_ := visibleLightsTemp_ c; visibleLights_ := visibleLights_ c;
     traits_ := traits_ c; drawableLighting_ := drawableLighting_ c |}.

Definition set_visibleGeometries (tv : ThreadedVector Drawable) (c : Collector) : Collector :=
  {| renderer_ := renderer_ c; numThreads_ := numThreads_ c;
     materialQuality_ := materialQuality_ c; numDrawables_ := numDrawables_ c;
     passes_ := passes_ c; visibleGeometries_ := tv;
     visibleLightsTemp_ := visibleLightsTemp_ c; visibleLights_ := visibleLights_ c;
     traits_ := traits_ c; drawableLighting_ := drawableLighting_ c |}.

Definition set_visibleLightsTemp (tv : ThreadedVector Drawable) (c : Collector) : Collector :=
  {| renderer_ := renderer_ c; numThreads_ := numThreads_ c;
     materialQuality_ := materialQuality_ c; numDrawables_ := numDrawables_ c;
     passes_ := passes_ c; visibleGeometries_ := visibleGeometries_ c;
     visibleLightsTemp_ := tv; visibleLights_ := visibleLights_ c;
     traits_ := traits_ c; drawableLighting_ := drawableLighting_ c |}.

Definition set_visibleLights (l : list Drawable) (c : Collector) : Collector :=
  {| renderer_ := renderer_ c; numThreads_ := numThreads_ c;
     materialQuality_ := materialQuality_ c; numDrawables_ := numDrawables_ c;
     passes_ := passes_ c; visibleGeometries_ := visibleGeometries_ c;
     visibleLightsTemp_ := visibleLightsTemp_ c; visibleLights_ := l;
     traits_ := traits_ c; drawableLighting_ := drawableLighting_ c |}.

Definition set_traits (t : list N) (c : Collector) : Collector :=
  {| renderer_ := renderer_ c; numThreads_ := numThreads_ c;
     materialQuality_ := materialQuality_ c; numDrawables_ := numDrawables_ c;
     passes_ := passes_ c; visibleGeometries_ := visibleGeometries_ c;
     visibleLightsTemp_ := visibleLightsTemp_ c; visibleLights_ := visibleLights_ c;
     traits_ := t; drawableLighting_ := drawableLighting_ c |}.

Definition set_drawableLighting (l : list DrawableLightData) (c : Collector) : Collector :=
  {| renderer_ := renderer_ c; numThreads_ := numThreads_ c;
     materialQuality_ := materialQuality_ c; numDrawables_ := numDrawables_ c;
     passes_ := passes_ c; visibleGeometries_ := visibleGeometries_ c;
     visibleLightsTemp_ := visibleLightsTemp_ c; visibleLights_ := visibleLights_ c;
     traits_ := traits_ c; drawableLighting_ := l |}.

(** The scan of [FindTechnique]: [Some tech] when the loop returns [tech],
    [None] when it runs to the end. *)
Fixpoint FindTechnique_scan (materialQuality : N) (lodDistance : float)
    (techniques : list TechniqueEntry) : option Technique :=
  match techniques with
  | [] => None
  | entry :: rest =>
      match technique_ entry with
      | None => FindTechnique_scan materialQuality lodDistance rest
      | Some tech =>
          if negb (IsSupported tech) || (materialQuality <? qualityLevel_ entry)%N then
            FindTechnique_scan materialQuality lodDistance rest
          else if fge lodDistance (lodDistance_ entry) then Some tech
          else FindTechnique_scan materialQuality lodDistance rest
      end
  end.

Definition FindTechnique (c : Collector) (drawable : Drawable) (material : Material)
  : option Technique :=
  let techniques := GetTechniques material in
  match techniques with
  | [only] => technique_ only
  | _ =>
      let lodDistance := GetLodDistance drawable in
      match FindTechnique_scan (materialQuality_ c) lodDistance techniques with
      | Some tech => Some tech
      | None =>
          match list.last techniques with
          | Some back => technique_ back
          | None => None
          end
      end
  end.

(** What [InitializeFrame] reads from the frame info, the work queue and the
    camera. *)
Record FrameInfo := {
  workQueue_GetNumThreads : nat;
  octree_numDrawables : nat;
  camera_GetViewOverrideFlags : N;
}.

Definition InitializeFrame (frameInfo : FrameInfo) (c : Collector) : Collector :=
  let numThreads := workQueue_GetNumThreads frameInfo + 1 in
  let numDrawables := octree_numDrawables frameInfo in
  {| renderer_ := renderer_ c;
     numThreads_ := numThreads;
     materialQuality_ :=
       if nonzero (N.land (camera_GetViewOverrideFlags frameInfo) VO_LOW_MATERIAL_QUALITY)
       then QUALITY_LOW else GetMaterialQuality (renderer_ c);
     numDrawables_ := numDrawables;
     passes_ := passes_ c;
     visibleGeometries_ := tv_Clear numThreads;
     visibleLightsTemp_ := tv_Clear numThreads;
     visibleLights_ := visibleLights_ c;
     traits_ := replicate numDrawables 0%N;
     drawableLighting_ := resize numDrawables [] (drawableLighting_ c) |}.

(** The body of the loop of [InitializePasses] for one slot of [passes_]:
    [None] when the loop takes its [continue]. *)
Definition InitializePass (ndebug : bool) (GetPassIndex : string -> unsigned)
    (numThreads : nat) (desc : ScenePassDescription) (passData : PassData)
  : result PassData :=
  let passData :=
    {| desc_ := desc;
       basePassIndex_ := GetPassIndex (basePassName_ desc);
       firstLightPassIndex_ := GetPassIndex (firstLightPassName_ desc);
       additionalLightPassIndex_ := GetPassIndex (additionalLightPassName_ desc);
       unlitBatches_ := unlitBatches_ passData; litBatches_ := litBatches_ passData;
       unlitBaseSceneBatches_ := unlitBaseSceneBatches_ passData;
       litBaseSceneBatches_ := litBaseSceneBatches_ passData |} in
  if negb (IsValid passData) then
    _ ← assert0 ndebug;
    Ok passData
  else
    Ok (PassData_Clear numThreads passData).

Fixpoint InitializePasses_loop (ndebug : bool) (GetPassIndex : string -> unsigned)
    (numThreads : nat) (passes : list ScenePassDescription) (slots : list PassData)
  : result (list PassData) :=
  match passes, slots with
  | desc :: passes', passData :: slots' =>
      passData' ← InitializePass ndebug GetPassIndex numThreads desc passData;
      rest ← InitializePasses_loop ndebug GetPassIndex numThreads passes' slots';
      Ok (passData' :: rest)
  | _, _ => Ok []
  end.

(** [Technique::GetPassIndex], a static of a class outside the sources, is
    the parameter [GetPassIndex]. *)
Definition InitializePasses (ndebug : bool) (GetPassIndex : string -> unsigned)
    (passes : list ScenePassDescription) (c : Collector) : result Collector :=
  let numPasses := length passes in
  let slots := resize numPasses PassData_default (passes_ c) in
  slots' ← InitializePasses_loop ndebug GetPassIndex (numThreads_ c) passes slots;
  Ok (set_passes slots' c).

(** The body of the loop "Fill passes" for one pass: the pass and the traits
    after it. *)
Definition FillPass (threadIndex : nat) (drawable : Drawable) (i : nat)
    (technique : Technique) (pass : PassData) (traits : list N)
  : result (PassData * list N) :=
  let basePass := GetPass technique (basePassIndex_ pass) in
  let firstLightPass := GetPass technique (firstLightPassIndex_ pass) in
  let additionalLightPass := GetPass technique (additionalLightPassIndex_ pass) in
  let sceneBatch :=
    CreateIntermediateSceneBatch pass drawable i basePass firstLightPass additionalLightPass in
  if notnull (additionalPass_ sceneBatch) then
    traits' ← or_trait traits (GetDrawableIndex drawable) ForwardLit;
    '(lit, _) ← tv_Insert (litBatches_ pass) threadIndex sceneBatch;
    Ok (set_litBatches lit pass, traits')
  else if notnull (basePass_ sceneBatch) then
    '(unlit, _) ← tv_Insert (unlitBatches_ pass) threadIndex sceneBatch;
    Ok (set_unlitBatches unlit pass, traits)
  else
    Ok (pass, traits).

Fixpoint FillPasses (threadIndex : nat) (drawable : Drawable) (i : nat)
    (technique : Technique) (passes : list PassData) (traits : list N)
  : result (list PassData * list N) :=
  match passes with
  | [] => Ok ([], traits)
  | pass :: rest =>
      '(pass', traits') ← FillPass threadIndex drawable i technique pass traits;
      '(rest', traits'') ← FillPasses threadIndex drawable i technique rest traits';
      Ok (pass' :: rest', traits'')
  end.

(** The body of the loop "Collect batches" for source batch [i]. *)
Definition CollectSourceBatch (threadIndex : nat) (drawable : Drawable) (i : nat)
    (sourceBatch : SourceBatch) (c : Collector) : result Collector :=
  let material :=
    match sb_material_ sourceBatch with
    | Some m => m
    | None => GetDefaultMaterial (renderer_ c)
    end in
  match FindTechnique c drawable material with
  | None => Ok c
  | Some technique =>
      '(passes, traits) ←
        FillPasses threadIndex drawable i technique (passes_ c) (traits_ c);
      Ok (set_traits traits (set_passes passes c))
  end.

(** "Skip if too far". *)
Definition tooFar (drawable : Drawable) : bool :=
  let maxDistance := GetDrawDistance drawable in
  fgt maxDistance 0%float && fgt (GetDistance drawable) maxDistance.

(** The geometry branch of the loop over the drawables of a chunk. *)
Definition CollectGeometry (threadIndex : nat) (drawable : Drawable) (c : Collector)
  : result Collector :=
  let drawableIndex := GetDrawableIndex drawable in
  '(geometries, _) ← tv_Insert (visibleGeometries_ c) threadIndex drawable;
  let c := set_visibleGeometries geometries c in
  traits ← or_trait (traits_ c) drawableIndex DrawableVisibleGeometry;
  let c := set_traits traits c in
  c ← forEachIndexed (CollectSourceBatch threadIndex drawable) 0 (GetBatches drawable) c;
  _ ← defined (drawableLighting_ c !! drawableIndex);
  Ok (set_drawableLighting (<[drawableIndex := []]> (drawableLighting_ c)) c).

(** The light branch. *)
Definition CollectLight (threadIndex : nat) (light : Drawable) (c : Collector)
  : result Collector :=
  if negb (EffectiveColorIsBlack light) && negb (GetLightMaskEffective light =? 0)%N then
    '(lights, _) ← tv_Insert (visibleLightsTemp_ c) threadIndex light;
    Ok (set_visibleLightsTemp lights c)
  else
    Ok c.

Fixpoint UpdateAndCollectSourceBatchesForThread (threadIndex : nat)
    (drawables : list Drawable) (c : Collector) : result Collector :=
  match drawables with
  | [] => Ok c
  | drawable :: rest =>
      let drawableIndex := GetDrawableIndex drawable in
      traits ← or_trait (traits_ c) drawableIndex DrawableUpdated;
      let c := set_traits traits c in
      if tooFar drawable then
        Ok c
      else
        c ← (if nonzero (N.land (GetDrawableFlags drawable) DRAWABLE_GEOMETRY) then
               CollectGeometry threadIndex drawable c
             else if nonzero (N.land (GetDrawableFlags drawable) DRAWABLE_LIGHT) then
               CollectLight threadIndex drawable c
             else Ok c);
        UpdateAndCollectSourceBatchesForThread threadIndex rest c
  end.

Definition UpdateAndCollectSourceBatches (schedule : list (nat * nat))
    (drawables : list Drawable) (c : Collector) : result Collector :=
  c ← ForEachParallel schedule
        (fun threadIndex _ drawablesRange =>
           UpdateAndCollectSourceBatchesForThread threadIndex drawablesRange)
        0 drawables c;
  Ok (set_visibleLights (tv_CopyTo (visibleLightsTemp_ c)) c).

(** [CollectLitGeometries].  [visits] are the calls the octree makes for the
    light's query and [volume] is the light's frustum (spot) or sphere
    (point) seen through [IsInsideFast]; [litGeometries] is
    [lightData.litGeometries_]. *)
Definition CollectLitGeometries (visits : list (list Drawable * bool))
    (volume : BoundingBox -> Intersection) (light : Drawable)
    (litGeometries : list Drawable) (c : Collector) : result (list Drawable) :=
  match GetLightType light with
  | LIGHT_SPOT =>
      query ← Octree_GetDrawables SpotLight_TestDrawables visits
        {| sq_result_ := litGeometries; frustum_IsInsideFast := volume;
           sq_transientData_ := traits_ c;
           sq_lightMask_ := GetLightMaskEffective light |};
      Ok (sq_result_ query)
  | LIGHT_POINT =>
      query ← Octree_GetDrawables PointLight_TestDrawables visits
        {| pq_result_ := litGeometries; sphere_IsInsideFast := volume;
           pq_transientData_ := traits_ c;
           pq_lightMask_ := GetLightMaskEffective light |};
      Ok (pq_result_ query)
  | LIGHT_DIRECTIONAL =>
      let lightMask := GetLightMask light in
      Ok (litGeometries ++
          filter (fun drawable => nonzero (N.land (GetLightMask drawable) lightMask) = true)
                 (tv_CopyTo (visibleGeometries_ c)))
  end.

(** The callback of the parallel for in [CollectSceneBatches], for one chunk
    of unlit intermediate batches; the state is [unlitBaseSceneBatches_]. *)
Definition CollectSceneBatches_chunk (defaultMaterial : Material) (offset : nat)
    (batches : list IntermediateSceneBatch) (out : list SceneBatch)
  : result (list SceneBatch) :=
  forEachIndexed (fun i intermediateBatch out =>
      sceneBatch ← defined (out !! (i + offset));
      drawable ← defined (geometry_ intermediateBatch);
      sourceBatch ←
        defined (GetBatches drawable !! sourceBatchIndex_ intermediateBatch);
      Ok (<[i + offset :=
             {| drawable_ := Some drawable;
                drawableIndex_ := GetDrawableIndex drawable;
                batch_sourceBatchIndex_ := sourceBatchIndex_ intermediateBatch;
                batch_geometry_ := sb_geometry_ sourceBatch;
                material_ :=
                  Some match sb_material_ sourceBatch with
                       | Some m => m
                       | None => defaultMaterial
                       end;
                lightIndex_ := lightIndex_ sceneBatch;
                pipelineState_ := pipelineState_ sceneBatch |}]> out))
    0 batches out.

(** The body of the loop of [CollectSceneBatches] for one pass. *)
Definition CollectSceneBatches_pass (schedule : list (nat * nat))
    (defaultMaterial : Material) (passData : PassData) : result PassData :=
  let unlit := resize (tv_Size (unlitBatches_ passData)) SceneBatch_default
                 (unlitBaseSceneBatches_ passData) in
  let lit := resize (tv_Size (litBatches_ passData)) SceneBatch_default
               (litBaseSceneBatches_ passData) in
  unlit' ← ForEachParallel schedule
             (fun _ offset batches => CollectSceneBatches_chunk defaultMaterial offset batches)
             0 (tv_CopyTo (unlitBatches_ passData)) unlit;
  Ok (set_baseSceneBatches unlit' lit passData).

Fixpoint CollectSceneBatches_loop (schedule : nat -> list (nat * nat))
    (defaultMaterial : Material) (k : nat) (passes : list PassData)
  : result (list PassData) :=
  match passes with
  | [] => Ok []
  | passData :: rest =>
      passData' ← CollectSceneBatches_pass (schedule k) defaultMaterial passData;
      rest' ← CollectSceneBatches_loop schedule defaultMaterial (S k) rest;
      Ok (passData' :: rest')
  end.

(** [schedule k] is the schedule of the parallel for of the [k]-th pass. *)
Definition CollectSceneBatches (schedule : nat -> list (nat * nat)) (c : Collector)
  : result Collector :=
  passes ← CollectSceneBatches_loop schedule (GetDefaultMaterial (renderer_ c)) 0 (passes_ c);
  Ok (set_passes passes c).

End SceneBatchCollector.

(** ** ScenePass.cpp *)

Module ScenePass.

Inductive Camera := MkCamera (id : N).

Record SceneLight := {
  GetPipelineStateHash : unsigned;
}.

(** Modelled from the spec: the final batch ([BaseSceneBatch] is declared in
    a header that is not part of the sources): the members of the spec's
    FinalSceneBatch and the pass.  The constructor that takes a light index,
    an intermediate batch and the default material fills them as
    [SceneBatchCollector::CollectSceneBatches] does for its batches, and
    leaves the pipeline state null; a value-initialised batch has drawable
    index 0 and no light. *)
Record BaseSceneBatch := {
  lightIndex_ : unsigned;
  drawableIndex_ : nat;
  batch_sourceBatchIndex_ : nat;
  drawable_ : option Drawable;
  batch_geometry_ : option Geometry;
  material_ : option Material;
  pass_ : option Pass;
  pipelineState_ : option PipelineState;
}.

Definition BaseSceneBatch_default : BaseSceneBatch :=
  {| lightIndex_ := M_MAX_UNSIGNED; drawableIndex_ := 0; batch_sourceBatchIndex_ := 0;
     drawable_ := None; batch_geometry_ := None; material_ := None; pass_ := None;
     pipelineState_ := None |}.

Definition BaseSceneBatch_make (lightIndex : unsigned)
    (intermediateBatch : IntermediateSceneBatch) (defaultMaterial : Material)
  : result BaseSceneBatch :=
  drawable ← defined (geometry_ intermediateBatch);
  sourceBatch ← defined (GetBatches drawable !! sourceBatchIndex_ intermediateBatch);
  Ok {| lightIndex_ := lightIndex;
        drawableIndex_ := GetDrawableIndex drawable;
        batch_sourceBatchIndex_ := sourceBatchIndex_ intermediateBatch;
        drawable_ := Some drawable;
        batch_geometry_ := sb_geometry_ sourceBatch;
        material_ := Some match sb_material_ sourceBatch with
                          | Some m => m
                          | None => defaultMaterial
                          end;
        pass_ := basePass_ intermediateBatch;
        pipelineState_ := None |}.

Definition set_pipelineState (ps : option PipelineState) (b : BaseSceneBatch)
  : BaseSceneBatch :=
  {| lightIndex_ := lightIndex_ b; drawableIndex_ := drawableIndex_ b;
     batch_sourceBatchIndex_ := batch_sourceBatchIndex_ b; drawable_ := drawable_ b;
     batch_geometry_ := batch_geometry_ b; material_ := material_ b;
     pass_ := pass_ b; pipelineState_ := ps |}.

(** [lightBatch.lightIndex_ = lightIndex; lightBatch.pass_ = pass]. *)
Definition set_light (lightIndex : unsigned) (pass : option Pass) (b : BaseSceneBatch)
  : BaseSceneBatch :=
  {| lightIndex_ := lightIndex; drawableIndex_ := drawableIndex_ b;
     batch_sourceBatchIndex_ := batch_sourceBatchIndex_ b; drawable_ := drawable_ b;
     batch_geometry_ := batch_geometry_ b; material_ := material_ b;
     pass_ := pass; pipelineState_ := pipelineState_ b |}.

(** Modelled from the spec: the cache key is the structural identity of
    geometry, material, pass and source-batch index, combined with a light
    hash. *)
Record ScenePipelineStateKey := {
  key_geometry_ : option Geometry;
  key_material_ : option Material;
  key_pass_ : option Pass;
  key_sourceBatchIndex_ : nat;
  key_lightHash_ : unsigned;
}.

Definition MakeKey (sceneBatch : BaseSceneBatch) (lightHash : unsigned)
  : ScenePipelineStateKey :=
  {| key_geometry_ := batch_geometry_ sceneBatch;
     key_material_ := material_ sceneBatch;
     key_pass_ := pass_ sceneBatch;
     key_sourceBatchIndex_ := batch_sourceBatchIndex_ sceneBatch;
     key_lightHash_ := lightHash |}.

Record ScenePipelineStateContext := {
  ctx_camera_ : Camera;
  ctx_light_ : option SceneLight;
  ctx_drawable_ : option Drawable;
}.

(** The callback that creates a pipeline state for a key; it may fail and
    yield null. *)
Definition ScenePipelineStateCacheCallback :=
  ScenePipelineStateKey -> ScenePipelineStateContext -> option PipelineState.

Inductive WhichCache := UnlitCache | LitCache | AdditionalLightCache.

(** The calls made to the pipeline-state caches, in order (ghost state). *)
Inductive CacheCall :=
| CallGet (cache : WhichCache) (key : ScenePipelineStateKey)
    (found : option PipelineState)
| CallGetOrCreate (cache : WhichCache) (key : ScenePipelineStateKey)
    (ctx : ScenePipelineStateContext) (created : option PipelineState).

Section WithCache.

(** The pipeline-state cache is a collaborator: a state with a read-only
    lookup and a get-or-create that may change the cache. *)
Variable Cache : Type.
Variable GetPipelineState : Cache -> ScenePipelineStateKey -> option PipelineState.
Variable GetOrCreatePipelineState :
  Cache -> ScenePipelineStateKey -> ScenePipelineStateContext ->
  ScenePipelineStateCacheCallback -> Cache * option PipelineState.

(** The members of a scene pass.  A pointer into [unlitBaseBatches_] or
    [litBaseBatches_] is the position it points at; [calls_] is ghost state. *)
Record ScenePass := {
  renderer_ : Renderer;
  unlitBasePassIndex_ : unsigned;
  litBasePassIndex_ : unsigned;
  lightPassIndex_ : unsigned;
  numThreads_ : nat;
  unlitBatches_ : ThreadedVector IntermediateSceneBatch;
  litBatches_ : ThreadedVector IntermediateSceneBatch;
  unlitBaseBatchesDirty_ : ThreadedVector nat;
  litBaseBatchesDirty_ : ThreadedVector nat;
  lightBatchesDirty_ : ThreadedVector nat;
  unlitBaseBatches_ : list BaseSceneBatch;
  litBaseBatches_ : list BaseSceneBatch;
  lightBatches_ : ThreadedVector BaseSceneBatch;
  unlitPipelineStateCache_ : Cache;
  litPipelineStateCache_ : Cache;
  additionalLightPipelineStateCache_ : Cache;
  calls_ : list CacheCall;
}.

(** [workQueue_GetNumThreads] is [workQueue_->GetNumThreads()]. *)
Definition BeginFrame (workQueue_GetNumThreads : nat) (sp : ScenePass) : ScenePass :=
  let numThreads := workQueue_GetNumThreads + 1 in
  {| renderer_ := renderer_ sp;
     unlitBasePassIndex_ := unlitBasePassIndex_ sp;
     litBasePassIndex_ := litBasePassIndex_ sp;
     lightPassIndex_ := lightPassIndex_ sp;
     numThreads_ := numThreads;
     unlitBatches_ := tv_Clear numThreads;
     litBatches_ := tv_Clear numThreads;
     unlitBaseBatchesDirty_ := tv_Clear numThreads;
     litBaseBatchesDirty_ := tv_Clear numThreads;
     lightBatchesDirty_ := tv_Clear numThreads;
     unlitBaseBatches_ := [];
     litBaseBatches_ := [];
     lightBatches_ := tv_Clear numThreads;
     unlitPipelineStateCache_ := unlitPipelineStateCache_ sp;
     litPipelineStateCache_ := litPipelineStateCache_ sp;
     additionalLightPipelineStateCache_ := additionalLightPipelineStateCache_ sp;
     calls_ := calls_ sp |}.

Definition set_batches (unlit lit : ThreadedVector IntermediateSceneBatch)
    (sp : ScenePass) : ScenePass :=
  {| renderer_ := renderer_ sp;
     unlitBasePassIndex_ := unlitBasePassIndex_ sp;
     litBasePassIndex_ := litBasePassIndex_ sp;
     lightPassIndex_ := lightPassIndex_ sp;
     numThreads_ := numThreads_ sp;
     unlitBatches_ := unlit;
     litBatches_ := lit;
     unlitBaseBatchesDirty_ := unlitBaseBatchesDirty_ sp;
     litBaseBatchesDirty_ := litBaseBatchesDirty_ sp;
     lightBatchesDirty_ := lightBatchesDirty_ sp;
     unlitBaseBatches_ := unlitBaseBatches_ sp;
     litBaseBatches_ := litBaseBatches_ sp;
     lightBatches_ := lightBatches_ sp;
     unlitPipelineStateCache_ := unlitPipelineStateCache_ sp;
     litPipelineStateCache_ := litPipelineStateCache_ sp;
     additionalLightPipelineStateCache_ := additionalLightPipelineStateCache_ sp;
     calls_ := calls_ sp |}.

(** [threadIndex] is [WorkQueue::GetWorkerThreadIndex()]. *)
Definition AddSourceBatch (ndebug : bool) (threadIndex : nat) (drawable : Drawable)
    (sourceBatchIndex : nat) (technique : Technique) (sp : ScenePass)
  : result (ScenePass * bool) :=
  let unlitBasePass := GetPass technique (unlitBasePassIndex_ sp) in
  let litBasePass := GetPass technique (litBasePassIndex_ sp) in
  let lightPass := GetPass technique (lightPassIndex_ sp) in
  if notnull lightPass then
    if notnull litBasePass then
      '(lit, _) ← tv_Insert (litBatches_ sp) threadIndex
        {| geometry_ := Some drawable; sourceBatchIndex_ := sourceBatchIndex;
           basePass_ := litBasePass; additionalPass_ := lightPass |};
      Ok (set_batches (unlitBatches_ sp) lit sp, true)
    else if notnull unlitBasePass then
      '(unlit, _) ← tv_Insert (unlitBatches_ sp) threadIndex
        {| geometry_ := Some drawable; sourceBatchIndex_ := sourceBatchIndex;
           basePass_ := unlitBasePass; additionalPass_ := None |};
      '(lit, _) ← tv_Insert (litBatches_ sp) threadIndex
        {| geometry_ := Some drawable; sourceBatchIndex_ := sourceBatchIndex;
           basePass_ := None; additionalPass_ := lightPass |};
      Ok (set_batches unlit lit sp, true)
    else
      _ ← assert0 ndebug;
      Ok (sp, false)
  else
    '(unlit, _) ← tv_Insert (unlitBatches_ sp) threadIndex
      {| geometry_ := Some drawable; sourceBatchIndex_ := sourceBatchIndex;
         basePass_ := unlitBasePass; additionalPass_ := None |};
    Ok (set_batches unlit (litBatches_ sp) sp, false).

(** What the parallel phase of [CollectUnlitBatches] writes:
    [unlitBaseBatches_], [unlitBaseBatchesDirty_] and the ghost call log. *)
Record UnlitPhase := {
  up_batches : list BaseSceneBatch;
  up_dirty : ThreadedVector nat;
  up_calls : list CacheCall;
}.

(** The body of the loop of the parallel callback of [CollectUnlitBatches]. *)
Definition CollectUnlitBatches_element (sp : ScenePass) (threadIndex offset i : nat)
    (intermediateBatch : IntermediateSceneBatch) (st : UnlitPhase) : result UnlitPhase :=
  let defaultMaterial := GetDefaultMaterial (renderer_ sp) in
  _ ← defined (up_batches st !! (i + offset));
  sceneBatch ← BaseSceneBatch_make M_MAX_UNSIGNED intermediateBatch defaultMaterial;
  let key := MakeKey sceneBatch 0%N in
  let found := GetPipelineState (unlitPipelineStateCache_ sp) key in
  let sceneBatch := set_pipelineState found sceneBatch in
  let batches := <[i + offset := sceneBatch]> (up_batches st) in
  let calls := up_calls st ++ [CallGet UnlitCache key found] in
  if negb (notnull found) then
    '(dirty, _) ← tv_Insert (up_dirty st) threadIndex (i + offset);
    Ok {| up_batches := batches; up_dirty := dirty; up_calls := calls |}
  else
    Ok {| up_batches := batches; up_dirty := up_dirty st; up_calls := calls |}.

(** What the single-threaded pass over the dirty batches writes: the batches,
    the cache and the ghost call log. *)
Record Resolve := {
  rs_batches : list BaseSceneBatch;
  rs_cache : Cache;
  rs_calls : list CacheCall;
}.

(** The callback of [unlitBaseBatchesDirty_.ForEach]. *)
Definition CollectUnlitBatches_resolve (camera : Camera)
    (callback : ScenePipelineStateCacheCallback) (sceneBatchPtr : nat) (st : Resolve)
  : result Resolve :=
  sceneBatch ← defined (rs_batches st !! sceneBatchPtr);
  let key := MakeKey sceneBatch 0%N in
  let subPassContext :=
    {| ctx_camera_ := camera; ctx_light_ := None; ctx_drawable_ := drawable_ sceneBatch |} in
  let '(cache, created) :=
    GetOrCreatePipelineState (rs_cache st) key subPassContext callback in
  Ok {| rs_batches := <[sceneBatchPtr := set_pipelineState created sceneBatch]> (rs_batches st);
        rs_cache := cache;
        rs_calls := rs_calls st ++ [CallGetOrCreate UnlitCache key subPassContext created] |}.

Definition CollectUnlitBatches (schedule : list (nat * nat)) (camera : Camera)
    (callback : ScenePipelineStateCacheCallback) (sp : ScenePass) : result ScenePass :=
  let unlitBaseBatches :=
    resize (tv_Size (unlitBatches_ sp)) BaseSceneBatch_default (unlitBaseBatches_ sp) in
  phase ← ForEachParallel schedule
    (fun threadIndex offset batches =>
       forEachIndexed (CollectUnlitBatches_element sp threadIndex offset) 0 batches)
    0 (tv_CopyTo (unlitBatches_ sp))
    {| up_batches := unlitBaseBatches; up_dirty := unlitBaseBatchesDirty_ sp;
       up_calls := calls_ sp |};
  resolved ← tv_ForEach
    (fun _ _ sceneBatchPtr => CollectUnlitBatches_resolve camera callback sceneBatchPtr)
    (up_dirty phase)
    {| rs_batches := up_batches phase; rs_cache := unlitPipelineStateCache_ sp;
       rs_calls := up_calls phase |};
  Ok {| renderer_ := renderer_ sp;
        unlitBasePassIndex_ := unlitBasePassIndex_ sp;
        litBasePassIndex_ := litBasePassIndex_ sp;
        lightPassIndex_ := lightPassIndex_ sp;
        numThreads_ := numThreads_ sp;
        unlitBatches_ := unlitBatches_ sp;
        litBatches_ := litBatches_ sp;
        unlitBaseBatchesDirty_ := up_dirty phase;
        litBaseBatchesDirty_ := litBaseBatchesDirty_ sp;
        lightBatchesDirty_ := lightBatchesDirty_ sp;
        unlitBaseBatches_ := rs_batches resolved;
        litBaseBatches_ := litBaseBatches_ sp;
        lightBatches_ := lightBatches_ sp;
        unlitPipelineStateCache_ := rs_cache resolved;
        litPipelineStateCache_ := litPipelineStateCache_ sp;
        additionalLightPipelineStateCache_ := additionalLightPipelineStateCache_ sp;
        calls_ := rs_calls resolved |}.

(** What the parallel phase of [CollectLitBatches] writes. *)
Record LitPhase := {
  lp_base : list BaseSceneBatch;
  lp_baseDirty : ThreadedVector nat;
  lp_light : ThreadedVector BaseSceneBatch;
  lp_lightDirty : ThreadedVector nat;
  lp_calls : list CacheCall;
}.

(** [hasLitBase]. *)
Definition hasLitBase (pixelLights : DrawableLightData) (mainLightIndex : unsigned) : bool :=
  match pixelLights with
  | [] => false
  | first :: _ => (snd first =? mainLightIndex)%N
  end.

(** The body of the loop over [j]: one additional light batch. *)
Definition CollectLitBatches_light (sp : ScenePass) (sceneLights : list SceneLight)
    (threadIndex : nat) (intermediateBatch : IntermediateSceneBatch)
    (sceneBatch : BaseSceneBatch) (pixelLight : float * unsigned) (st : LitPhase)
  : result LitPhase :=
  let lightIndex := snd pixelLight in
  sceneLight ← defined (at_index sceneLights lightIndex);
  let lightHash := GetPipelineStateHash sceneLight in
  let lightBatch := set_light lightIndex (additionalPass_ intermediateBatch) sceneBatch in
  let key := MakeKey lightBatch lightHash in
  let found := GetPipelineState (additionalLightPipelineStateCache_ sp) key in
  let lightBatch := set_pipelineState found lightBatch in
  let calls := lp_calls st ++ [CallGet AdditionalLightCache key found] in
  '(light, batchIndex) ← tv_Insert (lp_light st) threadIndex lightBatch;
  if negb (notnull found) then
    '(dirty, _) ← tv_Insert (lp_lightDirty st) threadIndex batchIndex;
    Ok {| lp_base := lp_base st; lp_baseDirty := lp_baseDirty st; lp_light := light;
          lp_lightDirty := dirty; lp_calls := calls |}
  else
    Ok {| lp_base := lp_base st; lp_baseDirty := lp_baseDirty st; lp_light := light;
          lp_lightDirty := lp_lightDirty st; lp_calls := calls |}.

(** The body of the loop of the parallel callback of [CollectLitBatches].
    The pixel lights are read at the drawable index stored in the slot
    [litBaseBatches_[i + offset]] before the slot is assigned. *)
Definition CollectLitBatches_element (sp : ScenePass) (mainLightIndex mainLightHash : unsigned)
    (sceneLights : list SceneLight) (drawableLighting : list DrawableLightData)
    (threadIndex offset i : nat) (intermediateBatch : IntermediateSceneBatch)
    (st : LitPhase) : result LitPhase :=
  let defaultMaterial := GetDefaultMaterial (renderer_ sp) in
  slot ← defined (lp_base st !! (i + offset));
  pixelLights ← defined (drawableLighting !! drawableIndex_ slot);
  let hasLitBase := hasLitBase pixelLights mainLightIndex in
  let baseLightIndex := if hasLitBase then mainLightIndex else M_MAX_UNSIGNED in
  let baseLightHash := if hasLitBase then mainLightHash else 0%N in
  sceneBatch ← BaseSceneBatch_make baseLightIndex intermediateBatch defaultMaterial;
  let key := MakeKey sceneBatch baseLightHash in
  let found := GetPipelineState (litPipelineStateCache_ sp) key in
  let sceneBatch := set_pipelineState found sceneBatch in
  let base := <[i + offset := sceneBatch]> (lp_base st) in
  let calls := lp_calls st ++ [CallGet LitCache key found] in
  baseDirty ←
    (if negb (notnull found) then
       '(dirty, _) ← tv_Insert (lp_baseDirty st) threadIndex (i + offset); Ok dirty
     else Ok (lp_baseDirty st));
  forEach (CollectLitBatches_light sp sceneLights threadIndex intermediateBatch sceneBatch)
    (drop (if hasLitBase then 1 else 0) pixelLights)
    {| lp_base := base; lp_baseDirty := baseDirty; lp_light := lp_light st;
       lp_lightDirty := lp_lightDirty st; lp_calls := calls |}.

(** The callback of [litBaseBatchesDirty_.ForEach]. *)
Definition CollectLitBatches_resolveBase (camera : Camera)
    (callback : ScenePipelineStateCacheCallback) (mainLight : option SceneLight)
    (baseLightHash : unsigned) (sceneBatchPtr : nat) (st : Resolve) : result Resolve :=
  sceneBatch ← defined (rs_batches st !! sceneBatchPtr);
  let baseSubPassContext :=
    {| ctx_camera_ := camera; ctx_light_ := mainLight;
       ctx_drawable_ := drawable_ sceneBatch |} in
  let baseKey := MakeKey sceneBatch baseLightHash in
  let '(cache, created) :=
    GetOrCreatePipelineState (rs_cache st) baseKey baseSubPassContext callback in
  Ok {| rs_batches := <[sceneBatchPtr := set_pipelineState created sceneBatch]> (rs_batches st);
        rs_cache := cache;
        rs_calls := rs_calls st ++ [CallGetOrCreate LitCache baseKey baseSubPassContext created] |}.

(** What the pass over the dirty light batches writes. *)
Record ResolveLight := {
  rl_light : ThreadedVector BaseSceneBatch;
  rl_cache : Cache;
  rl_calls : list CacheCall;
}.

(** The callback of [lightBatchesDirty_.ForEach]. *)
Definition CollectLitBatches_resolveLight (camera : Camera)
    (callback : ScenePipelineStateCacheCallback) (sceneLights : list SceneLight)
    (threadIndex batchIndex : nat) (st : ResolveLight) : result ResolveLight :=
  lightBatch ← tv_Get (rl_light st) threadIndex batchIndex;
  sceneLight ← defined (at_index sceneLights (lightIndex_ lightBatch));
  let lightSubPassContext :=
    {| ctx_camera_ := camera; ctx_light_ := Some sceneLight;
       ctx_drawable_ := drawable_ lightBatch |} in
  let lightKey := MakeKey lightBatch (GetPipelineStateHash sceneLight) in
  let '(cache, created) :=
    GetOrCreatePipelineState (rl_cache st) lightKey lightSubPassContext callback in
  Ok {| rl_light := tv_Set (rl_light st) threadIndex batchIndex
                      (set_pipelineState created lightBatch);
        rl_cache := cache;
        rl_calls := rl_calls st
                    ++ [CallGetOrCreate AdditionalLightCache lightKey lightSubPassContext created] |}.

Definition CollectLitBatches (schedule : list (nat * nat)) (camera : Camera)
    (callback : ScenePipelineStateCacheCallback) (mainLightIndex : unsigned)
    (sceneLights : list SceneLight) (drawableLighting : list DrawableLightData)
    (sp : ScenePass) : result ScenePass :=
  let litBaseBatches :=
    resize (tv_Size (litBatches_ sp)) BaseSceneBatch_default (litBaseBatches_ sp) in
  mainLight ←
    (if negb (mainLightIndex =? M_MAX_UNSIGNED)%N then
       sceneLight ← defined (at_index sceneLights mainLightIndex); Ok (Some sceneLight)
     else Ok None);
  let mainLightHash :=
    match mainLight with
    | Some sceneLight => GetPipelineStateHash sceneLight
    | None => 0%N
    end in
  phase ← ForEachParallel schedule
    (fun threadIndex offset batches =>
       forEachIndexed
         (CollectLitBatches_element sp mainLightIndex mainLightHash sceneLights
            drawableLighting threadIndex offset) 0 batches)
    0 (tv_CopyTo (litBatches_ sp))
    {| lp_base := litBaseBatches; lp_baseDirty := litBaseBatchesDirty_ sp;
       lp_light := lightBatches_ sp; lp_lightDirty := lightBatchesDirty_ sp;
       lp_calls := calls_ sp |};
  let baseLightHash :=
    if negb (mainLightIndex =? M_MAX_UNSIGNED)%N then mainLightHash else 0%N in
  resolvedBase ← tv_ForEach
    (fun _ _ sceneBatchPtr =>
       CollectLitBatches_resolveBase camera callback mainLight baseLightHash sceneBatchPtr)
    (lp_baseDirty phase)
    {| rs_batches := lp_base phase; rs_cache := litPipelineStateCache_ sp;
       rs_calls := lp_calls phase |};
  resolvedLight ← tv_ForEach
    (fun threadIndex _ batchIndex =>
       CollectLitBatches_resolveLight camera callback sceneLights threadIndex batchIndex)
    (lp_lightDirty phase)
    {| rl_light := lp_light phase; rl_cache := additionalLightPipelineStateCache_ sp;
       rl_calls := rs_calls resolvedBase |};
  Ok {| renderer_ := renderer_ sp;
        unlitBasePassIndex_ := unlitBasePassIndex_ sp;
        litBasePassIndex_ := litBasePassIndex_ sp;
        lightPassIndex_ := lightPassIndex_ sp;
        numThreads_ := numThreads_ sp;
        unlitBatches_ := unlitBatches_ sp;
        litBatches_ := litBatches_ sp;
        unlitBaseBatchesDirty_ := unlitBaseBatchesDirty_ sp;
        litBaseBatchesDirty_ := lp_baseDirty phase;
        lightBatchesDirty_ := lp_lightDirty phase;
        unlitBaseBatches_ := unlitBaseBatches_ sp;
        litBaseBatches_ := rs_batches resolvedBase;
        lightBatches_ := rl_light resolvedLight;
        unlitPipelineStateCache_ := unlitPipelineStateCache_ sp;
        litPipelineStateCache_ := rs_cache resolvedBase;
        additionalLightPipelineStateCache_ := rl_cache resolvedLight;
        calls_ := rl_calls resolvedLight |}.

(** [scheduleUnlit] and [scheduleLit] are the schedules of the two parallel
    fors. *)
Definition CollectSceneBatches (scheduleUnlit scheduleLit : list (nat * nat))
    (mainLightIndex : unsigned) (sceneLights : list SceneLight)
    (drawableLighting : list DrawableLightData) (camera : Camera)
    (callback : ScenePipelineStateCacheCallback) (sp : ScenePass) : result ScenePass :=
  sp ← CollectUnlitBatches scheduleUnlit camera callback sp;
  CollectLitBatches scheduleLit camera callback mainLightIndex sceneLights
    drawableLighting sp.

End WithCache.

Arguments renderer_ {Cache} _.
Arguments unlitBasePassIndex_ {Cache} _.
Arguments litBasePassIndex_ {Cache} _.
Arguments lightPassIndex_ {Cache} _.
Arguments numThreads_ {Cache} _.
Arguments unlitBatches_ {Cache} _.
Arguments litBatches_ {Cache} _.
Arguments unlitBaseBatchesDirty_ {Cache} _.
Arguments litBaseBatchesDirty_ {Cache} _.
Arguments lightBatchesDirty_ {Cache} _.
Arguments unlitBaseBatches_ {Cache} _.
Arguments litBaseBatches_ {Cache} _.
Arguments lightBatches_ {Cache} _.
Arguments unlitPipelineStateCache_ {Cache} _.
Arguments litPipelineStateCache_ {Cache} _.
Arguments additionalLightPipelineStateCache_ {Cache} _.
Arguments calls_ {Cache} _.
Arguments rs_batches {Cache} _.
Arguments rs_cache {Cache} _.
Arguments rs_calls {Cache} _.
Arguments rl_light {Cache} _.
Arguments rl_cache {Cache} _.
Arguments rl_calls {Cache} _.
Arguments BeginFrame {Cache} _ _.
Arguments set_batches {Cache} _ _ _.
Arguments AddSourceBatch {Cache} _ _ _ _ _ _.
Arguments CollectUnlitBatches_element {Cache} _ _ _ _ _ _ _.
Arguments CollectUnlitBatches_resolve {Cache} _ _ _ _ _.
Arguments CollectUnlitBatches {Cache} _ _ _ _ _ _.
Arguments CollectLitBatches_light {Cache} _ _ _ _ _ _ _ _.
Arguments CollectLitBatches_element {Cache} _ _ _ _ _ _ _ _ _ _ _.
Arguments CollectLitBatches_resolveBase {Cache} _ _ _ _ _ _ _.
Arguments CollectLitBatches_resolveLight {Cache} _ _ _ _ _ _ _.
Arguments CollectLitBatches {Cache} _ _ _ _ _ _ _ _ _.
Arguments CollectSceneBatches {Cache} _ _ _ _ _ _ _ _ _ _.

End ScenePass.

(** ** Concrete scenes, used to run the embedding *)

Module Scenes.

Import SceneBatchCollector.

Definition basePass : Pass := MkPass 10.
Definition litBasePass : Pass := MkPass 11.
Definition lightPass : Pass := MkPass 12.

(** A technique with a base pass only, one with a base and a light pass (no
    lit base), one with all three, and one with a light pass only. *)
Definition techBase : Technique :=
  {| passes := [Some basePass]; IsSupported := true |}.
Definition techBaseLight : Technique :=
  {| passes := [Some basePass; None; Some lightPass]; IsSupported := true |}.
Definition techFull : Technique :=
  {| passes := [Some basePass; Some litBasePass; Some lightPass]; IsSupported := true |}.

Definition materialOf (t : Technique) : Material :=
  {| GetTechniques := [{| technique_ := Some t; qualityLevel_ := 0; lodDistance_ := 0%float |}] |}.

Definition box : BoundingBox :=
  {| min_ := {| x_ := 0%float; y_ := 0%float; z_ := 0%float |};
     max_ := {| x_ := 1%float; y_ := 1%float; z_ := 1%float |} |}.

(** A geometry with one source batch of the given material. *)
Definition geometry (index : nat) (drawDistance distance : float) (m : Material) : Drawable :=
  {| GetDrawableIndex := index; GetDrawableFlags := DRAWABLE_GEOMETRY;
     GetDrawDistance := drawDistance; GetDistance := distance;
     GetLodDistance := distance; GetLightMask := 255;
     GetWorldBoundingBox := box;
     GetBatches := [{| sb_geometry_ := Some (MkGeometry 1); sb_material_ := Some m |}];
     EffectiveColorIsBlack := true; GetLightMaskEffective := 0;
     GetLightType := LIGHT_DIRECTIONAL |}.

(** A light. *)
Definition light (index : nat) (black : bool) (mask : N) (type : LightType) : Drawable :=
  {| GetDrawableIndex := index; GetDrawableFlags := DRAWABLE_LIGHT;
     GetDrawDistance := 0%float; GetDistance := 5%float;
     GetLodDistance := 5%float; GetLightMask := mask;
     GetWorldBoundingBox := box;
     GetBatches := [];
     EffectiveColorIsBlack := black; GetLightMaskEffective := mask;
     GetLightType := type |}.

Definition renderer : Renderer :=
  {| GetDefaultMaterial := materialOf techBase; GetMaterialQuality := 2 |}.

(** Pass names resolve to the positions used by the techniques above; any
    other name, the empty one included, resolves to no pass. *)
Definition passIndex (name : string) : unsigned :=
  if String.eqb name "base" then 0%N
  else if String.eqb name "litbase" then 1%N
  else if String.eqb name "light" then 2%N
  else M_MAX_UNSIGNED.

Definition unlitDesc : ScenePassDescription :=
  {| type_ := Unlit; basePassName_ := "base"; firstLightPassName_ := "";
     additionalLightPassName_ := "" |}.
Definition forwardLitDesc : ScenePassDescription :=
  {| type_ := ForwardLitBase; basePassName_ := "base"; firstLightPassName_ := "litbase";
     additionalLightPassName_ := "light" |}.
(** [ForwardLitBase] without its first-light pass: not valid. *)
Definition brokenDesc : ScenePassDescription :=
  {| type_ := ForwardLitBase; basePassName_ := "base"; firstLightPassName_ := "";
     additionalLightPassName_ := "light" |}.

(** A collector before its first frame. *)
Definition newCollector : Collector :=
  {| renderer_ := renderer; numThreads_ := 0; materialQuality_ := 0; numDrawables_ := 0;
     passes_ := []; visibleGeometries_ := []; visibleLightsTemp_ := [];
     visibleLights_ := []; traits_ := []; drawableLighting_ := [] |}.

(** One frame up to the collection of source batches, on a work queue
    without worker threads (one lane). *)
Definition frame (ndebug : bool) (descs : list ScenePassDescription)
    (schedule : list (nat * nat)) (drawables : list Drawable) (c : Collector)
  : result Collector :=
  let c := InitializeFrame
             {| workQueue_GetNumThreads := 0; octree_numDrawables := length drawables;
                camera_GetViewOverrideFlags := 0 |} c in
  c ← InitializePasses ndebug passIndex descs c;
  UpdateAndCollectSourceBatches schedule drawables c.

(** A collector whose transient index marks drawable 0 as an updated,
    visible geometry, and a point light whose query reaches it. *)
Definition litCollector : Collector :=
  {| renderer_ := renderer; numThreads_ := 1; materialQuality_ := 2; numDrawables_ := 1;
     passes_ := []; visibleGeometries_ := [[]]; visibleLightsTemp_ := [[]];
     visibleLights_ := [];
     traits_ := [N.lor DrawableUpdated DrawableVisibleGeometry];
     drawableLighting_ := [[]] |}.
Definition litGeometry : Drawable := geometry 0 0%float 5%float (materialOf techFull).
Definition pointLight : Drawable := light 1 false 255 LIGHT_POINT.
Definition wholeSphere : BoundingBox -> Intersection := fun _ => INSIDE.

(** A pipeline-state cache: an association list from keys to handles, where
    keys are compared by geometry, pass, source-batch index and light hash. *)
Definition SimpleCache := list (ScenePass.ScenePipelineStateKey * PipelineState).

Definition sameKey (a b : ScenePass.ScenePipelineStateKey) : bool :=
  bool_decide (ScenePass.key_geometry_ a = ScenePass.key_geometry_ b)
  && bool_decide (ScenePass.key_pass_ a = ScenePass.key_pass_ b)
  && (ScenePass.key_sourceBatchIndex_ a =? ScenePass.key_sourceBatchIndex_ b)
  && (ScenePass.key_lightHash_ a =? ScenePass.key_lightHash_ b)%N.

Fixpoint simpleGet (cache : SimpleCache) (key : ScenePass.ScenePipelineStateKey)
  : option PipelineState :=
  match cache with
  | [] => None
  | (k, ps) :: rest => if sameKey k key then Some ps else simpleGet rest key
  end.

Definition simpleGetOrCreate (cache : SimpleCache) (key : ScenePass.ScenePipelineStateKey)
    (ctx : ScenePass.ScenePipelineStateContext)
    (callback : ScenePass.ScenePipelineStateCacheCallback)
  : SimpleCache * option PipelineState :=
  match simpleGet cache key with
  | Some ps => (cache, Some ps)
  | None =>
      match callback key ctx with
      | Some ps => ((key, ps) :: cache, Some ps)
      | None => (cache, None)
      end
  end.

(** A callback that creates a state for every key, and one that fails. *)
Definition createState : ScenePass.ScenePipelineStateCacheCallback :=
  fun key _ => Some (MkPipelineState (ScenePass.key_lightHash_ key)).
Definition failToCreate : ScenePass.ScenePipelineStateCacheCallback :=
  fun _ _ => None.

Definition camera : ScenePass.Camera := ScenePass.MkCamera 0.

(** A scene pass with the pass indices of the techniques above, at the start
    of a frame on a work queue without worker threads. *)
Definition newScenePass : ScenePass.ScenePass SimpleCache :=
  {| ScenePass.renderer_ := renderer;
     ScenePass.unlitBasePassIndex_ := 0%N;
     ScenePass.litBasePassIndex_ := 1%N;
     ScenePass.lightPassIndex_ := 2%N;
     ScenePass.numThreads_ := 0;
     ScenePass.unlitBatches_ := [];
     ScenePass.litBatches_ := [];
     ScenePass.unlitBaseBatchesDirty_ := [];
     ScenePass.litBaseBatchesDirty_ := [];
     ScenePass.lightBatchesDirty_ := [];
     ScenePass.unlitBaseBatches_ := [];
     ScenePass.litBaseBatches_ := [];
     ScenePass.lightBatches_ := [];
     ScenePass.unlitPipelineStateCache_ := [];
     ScenePass.litPipelineStateCache_ := [];
     ScenePass.additionalLightPipelineStateCache_ := [];
     ScenePass.calls_ := [] |}.

Definition startedScenePass : ScenePass.ScenePass SimpleCache :=
  ScenePass.BeginFrame 0 newScenePass.

(** A geometry beyond its draw distance, and two without a draw distance. *)
Definition farGeometry : Drawable := geometry 0 10%float 20%float (materialOf techBase).
Definition nearGeometry : Drawable := geometry 1 0%float 20%float (materialOf techBase).
Definition firstGeometry : Drawable := geometry 0 0%float 20%float (materialOf techBase).

(** The unlit intermediate batch of a geometry of the scenes above. *)
Definition unlitBatchOf (drawable : Drawable) : IntermediateSceneBatch :=
  {| geometry_ := Some drawable; sourceBatchIndex_ := 0; basePass_ := Some basePass;
     additionalPass_ := None |}.

(** One scene light, the main light, and a lit geometry with drawable index 1
    (drawable index 0 belongs to another drawable). *)
Definition mainLight : ScenePass.SceneLight := {| ScenePass.GetPipelineStateHash := 7%N |}.
Definition secondGeometry : Drawable := geometry 1 0%float 5%float (materialOf techFull).

(** [CollectLitBatches] for the one source batch of [secondGeometry], with
    light 0 as the main light, for given light accumulators.  The outcome is
    shown as: light index and pipeline state of the lit base batches, the
    number of light batches, and for every cache call whether it is a
    get-or-create and the light hash of its key. *)
Definition litRun (drawableLighting : list DrawableLightData)
  : result (list (unsigned * option PipelineState) * nat * list (bool * unsigned)) :=
  '(sp, _) ← ScenePass.AddSourceBatch true 0 secondGeometry 0 techFull startedScenePass;
  sp ← ScenePass.CollectLitBatches simpleGet simpleGetOrCreate [(0, 1)] camera createState
         0%N [mainLight] drawableLighting sp;
  Ok (map (fun b => (ScenePass.lightIndex_ b, ScenePass.pipelineState_ b))
          (ScenePass.litBaseBatches_ sp),
      length (concat (ScenePass.lightBatches_ sp)),
      map (fun call =>
             match call with
             | ScenePass.CallGet _ key _ => (false, ScenePass.key_lightHash_ key)
             | ScenePass.CallGetOrCreate _ key _ _ => (true, ScenePass.key_lightHash_ key)
             end) (ScenePass.calls_ sp)).

(** What a frame leaves: the traits, the drawable indices of the visible
    geometries, and per pass its validity and its unlit and lit intermediate
    batches. *)
Definition collected (r : result Collector)
  : result (list N * list nat
            * list (bool * list IntermediateSceneBatch * list IntermediateSceneBatch)) :=
  c ← r;
  Ok (traits_ c, map GetDrawableIndex (tv_CopyTo (visibleGeometries_ c)),
      map (fun p => (IsValid p, tv_CopyTo (unlitBatches_ p), tv_CopyTo (litBatches_ p)))
          (passes_ c)).

(** A geometry whose technique has a base and a light pass but no lit base
    pass, and a collector at the start of a frame with an unlit and a
    forward-lit pass. *)
Definition baseLightGeometry : Drawable := geometry 0 0%float 5%float (materialOf techBaseLight).

Definition twoPassCollector : result Collector :=
  InitializePasses true passIndex [unlitDesc; forwardLitDesc]
    (InitializeFrame
       {| workQueue_GetNumThreads := 0; octree_numDrawables := 1;
          camera_GetViewOverrideFlags := 0 |} newCollector).

(** A frame with a lit light, a black light and a geometry, at the start of
    the frame. *)
Definition brightLight : Drawable := light 0 false 255 LIGHT_POINT.
Definition blackLight : Drawable := light 1 true 255 LIGHT_POINT.
Definition thirdGeometry : Drawable := geometry 2 0%float 5%float (materialOf techFull).

Definition lightsFrame : Collector :=
  InitializeFrame
    {| workQueue_GetNumThreads := 1; octree_numDrawables := 3;
       camera_GetViewOverrideFlags := 0 |} newCollector.

(** A scene pass after two geometries with a base pass only were added: two
    unlit batches with the same cache key. *)
Definition twoUnlitBatches : result (ScenePass.ScenePass SimpleCache) :=
  '(sp, _) ← ScenePass.AddSourceBatch true 0 firstGeometry 0 techBase startedScenePass;
  '(sp, _) ← ScenePass.AddSourceBatch true 0 nearGeometry 0 techBase sp;
  Ok sp.

(** The scene pass a run leaves, or the given one when the run fails. *)
Definition outcome {Cache} (fallback : ScenePass.ScenePass Cache)
    (r : result (ScenePass.ScenePass Cache)) : ScenePass.ScenePass Cache :=
  match r with
  | Ok sp => sp
  | _ => fallback
  end.

Definition unlitPass : ScenePass.ScenePass SimpleCache :=
  outcome startedScenePass twoUnlitBatches.

(** A scene pass with one unlit and one lit batch, two scene lights, and a
    lit drawable (drawable index 0) with both as pixel lights. *)
Definition litAndUnlitBatches : result (ScenePass.ScenePass SimpleCache) :=
  '(sp, _) ← ScenePass.AddSourceBatch true 0 firstGeometry 0 techBase startedScenePass;
  '(sp, _) ← ScenePass.AddSourceBatch true 0 litGeometry 0 techFull sp;
  Ok sp.

Definition twoLights : list ScenePass.SceneLight :=
  [mainLight; {| ScenePass.GetPipelineStateHash := 9%N |}].
Definition twoPixelLights : list DrawableLightData :=
  [[(1%float, 0%N); (2%float, 1%N)]].

Definition mixedPass : ScenePass.ScenePass SimpleCache :=
  outcome startedScenePass litAndUnlitBatches.

End Scenes.

(** ** Definitions that follow the words of the specification *)

Module Spec.

(** An entry is unsupported when it has no technique or its technique says
    it is not supported. *)
Definition unsupported (entry : TechniqueEntry) : bool :=
  match technique_ entry with
  | Some tech => negb (IsSupported tech)
  | None => true
  end.

(** The entry is not skipped (it is supported and its quality level does not
    exceed the material quality) and its LOD-distance threshold is less than
    or equal to the LOD distance. *)
Definition matches (materialQuality : N) (lodDistance : float) (entry : TechniqueEntry)
  : bool :=
  negb (unsupported entry || (materialQuality <? qualityLevel_ entry)%N)
  && PrimFloat.leb (lodDistance_ entry) lodDistance.

(** Technique selection as the specification words it. *)
Definition FindTechnique (materialQuality : N) (lodDistance : float)
    (techniques : list TechniqueEntry) : option Technique :=
  match techniques with
  | [only] => technique_ only
  | _ =>
      match List.find (matches materialQuality lodDistance) techniques with
      | Some entry => technique_ entry
      | None =>
          match list.last techniques with
          | Some back => technique_ back
          | None => None
          end
      end
  end.

(** The test [TestDrawables] makes on one candidate, as a proposition. *)
Definition litCandidate (traits : list N) (lightMask : N)
    (volume : BoundingBox -> SceneBatchCollector.Intersection) (inside : bool)
    (drawable : Drawable) : Prop :=
  (exists t, traits !! GetDrawableIndex drawable = Some t
             /\ N.land t DrawableVisibleGeometry <> 0%N)
  /\ N.land (GetLightMask drawable) lightMask <> 0%N
  /\ (inside = true
      \/ volume (GetWorldBoundingBox drawable) <> SceneBatchCollector.OUTSIDE).

Definition litCandidateb (traits : list N) (lightMask : N)
    (volume : BoundingBox -> SceneBatchCollector.Intersection) (inside : bool)
    (drawable : Drawable) : bool :=
  match traits !! GetDrawableIndex drawable with
  | Some t =>
      nonzero (N.land t DrawableVisibleGeometry)
      && nonzero (N.land (GetLightMask drawable) lightMask)
      && (inside || SceneBatchCollector.hit (volume (GetWorldBoundingBox drawable)))
  | None => false
  end.

(** What a sequence of octree visits adds to the result. *)
Definition litAdded (traits : list N) (lightMask : N)
    (volume : BoundingBox -> SceneBatchCollector.Intersection)
    (visits : list (list Drawable * bool)) : list Drawable :=
  concat (map (fun visit => List.filter (litCandidateb traits lightMask volume (snd visit))
                              (fst visit)) visits).

(** Every candidate the octree hands over has a slot in the transient index. *)
Definition visitsInRange (traits : list N) (visits : list (list Drawable * bool)) : Prop :=
  forall range inside d, (range, inside) ∈ visits -> d ∈ range ->
    GetDrawableIndex d < length traits.

Inductive Bucket := LitBucket | UnlitBucket.

(** The bucket of a source batch for a pass, with the base and additional
    pass of its intermediate batch; [None] when the batch is dropped.  A
    batch is lit when the pass is not of type Unlit and the technique has the
    additional-light pass together with the primary pass of the pass type
    (the base pass for ForwardUnlitBase, the first-light pass for
    ForwardLitBase).  It is unlit when the pass is of type Unlit or the
    technique has no additional-light pass, and the technique has the base
    pass. *)
Definition classify (pass : SceneBatchCollector.PassData) (technique : Technique)
  : option (Bucket * option Pass * option Pass) :=
  let basePass := GetPass technique (SceneBatchCollector.basePassIndex_ pass) in
  let firstLightPass := GetPass technique (SceneBatchCollector.firstLightPassIndex_ pass) in
  let additionalLightPass :=
    GetPass technique (SceneBatchCollector.additionalLightPassIndex_ pass) in
  let unlit := if notnull basePass then Some (UnlitBucket, basePass, None) else None in
  match SceneBatchCollector.type_ (SceneBatchCollector.desc_ pass) with
  | SceneBatchCollector.Unlit => unlit
  | SceneBatchCollector.ForwardUnlitBase =>
      if notnull additionalLightPass then
        if notnull basePass then Some (LitBucket, basePass, additionalLightPass) else None
      else unlit
  | SceneBatchCollector.ForwardLitBase =>
      if notnull additionalLightPass then
        if notnull firstLightPass then Some (LitBucket, firstLightPass, additionalLightPass)
        else None
      else unlit
  end.

Definition sameBucket (a b : Bucket) : bool :=
  match a, b with
  | LitBucket, LitBucket | UnlitBucket, UnlitBucket => true
  | _, _ => false
  end.

(** The intermediate batch that source batch [i] adds to a bucket of a pass,
    as a list of at most one batch. *)
Definition classified (bucket : Bucket) (pass : SceneBatchCollector.PassData)
    (drawable : Drawable) (i : nat) (technique : Technique)
  : list IntermediateSceneBatch :=
  match classify pass technique with
  | Some (b, basePass, additionalPass) =>
      if sameBucket bucket b then
        [{| geometry_ := Some drawable; sourceBatchIndex_ := i; basePass_ := basePass;
            additionalPass_ := additionalPass |}]
      else []
  | None => []
  end.

(** The technique found for a source batch: that of its material, or of the
    default material when it has none. *)
Definition techniqueOf (c : SceneBatchCollector.Collector) (drawable : Drawable)
    (sourceBatch : SourceBatch) : option Technique :=
  SceneBatchCollector.FindTechnique c drawable
    match sb_material_ sourceBatch with
    | Some m => m
    | None => GetDefaultMaterial (SceneBatchCollector.renderer_ c)
    end.

(** What the source batches of a drawable, numbered from [i], add to a
    bucket of a pass, in the order of the source batches. *)
Fixpoint batchesFrom (bucket : Bucket) (c : SceneBatchCollector.Collector)
    (pass : SceneBatchCollector.PassData) (drawable : Drawable) (i : nat)
    (sourceBatches : list SourceBatch) : list IntermediateSceneBatch :=
  match sourceBatches with
  | [] => []
  | sourceBatch :: rest =>
      match techniqueOf c drawable sourceBatch with
      | Some technique => classified bucket pass drawable i technique
      | None => []
      end ++ batchesFrom bucket c pass drawable (S i) rest
  end.

(** The flag a lit batch sets in the traits of its drawable. *)
Definition flagIf (lit : bool) : N := if lit then ForwardLit else 0%N.

Definition nonempty {A} (l : list A) : bool := negb (length l =? 0).

(** Some source batch of the drawable, of those numbered from [i], is lit
    for some pass. *)
Definition anyLitFrom (c : SceneBatchCollector.Collector) (drawable : Drawable) (i : nat)
    (sourceBatches : list SourceBatch) (passes : list SceneBatchCollector.PassData) : bool :=
  existsb (fun pass => nonempty (batchesFrom LitBucket c pass drawable i sourceBatches))
          passes.

(** The same description and pass indices. *)
Definition sameConfig (pass pass' : SceneBatchCollector.PassData) : Prop :=
  SceneBatchCollector.desc_ pass' = SceneBatchCollector.desc_ pass
  /\ SceneBatchCollector.basePassIndex_ pass' = SceneBatchCollector.basePassIndex_ pass
  /\ SceneBatchCollector.firstLightPassIndex_ pass'
     = SceneBatchCollector.firstLightPassIndex_ pass
  /\ SceneBatchCollector.additionalLightPassIndex_ pass'
     = SceneBatchCollector.additionalLightPassIndex_ pass.

(** [pass'] is [pass] with [lit] and [unlit] appended to the lane's part of
    its two buckets. *)
Definition appended (threadIndex : nat) (lit unlit : list IntermediateSceneBatch)
    (pass pass' : SceneBatchCollector.PassData) : Prop :=
  sameConfig pass pass'
  /\ SceneBatchCollector.litBatches_ pass'
     = alter (fun lane => lane ++ lit) threadIndex (SceneBatchCollector.litBatches_ pass)
  /\ SceneBatchCollector.unlitBatches_ pass'
     = alter (fun lane => lane ++ unlit) threadIndex (SceneBatchCollector.unlitBatches_ pass).

(** A pass after a drawable was collected on a lane: the batches of the
    drawable are appended to the lane's part of the two buckets. *)
Definition collectedInto (c : SceneBatchCollector.Collector) (threadIndex : nat)
    (drawable : Drawable) (pass pass' : SceneBatchCollector.PassData) : Prop :=
  appended threadIndex
    (batchesFrom LitBucket c pass drawable 0 (GetBatches drawable))
    (batchesFrom UnlitBucket c pass drawable 0 (GetBatches drawable))
    pass pass'.

(** The collector members other than the passes and the traits are the
    same. *)
Definition sameElse (c c' : SceneBatchCollector.Collector) : Prop :=
  SceneBatchCollector.renderer_ c' = SceneBatchCollector.renderer_ c
  /\ SceneBatchCollector.numThreads_ c' = SceneBatchCollector.numThreads_ c
  /\ SceneBatchCollector.materialQuality_ c' = SceneBatchCollector.materialQuality_ c
  /\ SceneBatchCollector.numDrawables_ c' = SceneBatchCollector.numDrawables_ c
  /\ SceneBatchCollector.visibleGeometries_ c' = SceneBatchCollector.visibleGeometries_ c
  /\ SceneBatchCollector.visibleLightsTemp_ c' = SceneBatchCollector.visibleLightsTemp_ c
  /\ SceneBatchCollector.visibleLights_ c' = SceneBatchCollector.visibleLights_ c
  /\ SceneBatchCollector.drawableLighting_ c' = SceneBatchCollector.drawableLighting_ c.

(** The chunks a schedule cuts a collection into, each with its lane. *)
Fixpoint chunks {T} (schedule : list (nat * nat)) (collection : list T)
  : list (nat * list T) :=
  match schedule with
  | [] => []
  | (threadIndex, count) :: rest =>
      (threadIndex, take count collection) :: chunks rest (drop count collection)
  end.

(** The drawables of a chunk that the loop over the chunk gets to classify:
    those before the first drawable beyond its draw distance. *)
Fixpoint reached (range : list Drawable) : list Drawable :=
  match range with
  | [] => []
  | drawable :: rest =>
      if SceneBatchCollector.tooFar drawable then [] else drawable :: reached rest
  end.

(** The drawables processed during the visibility collection of a frame. *)
Definition processed (schedule : list (nat * nat)) (drawables : list Drawable)
  : list Drawable :=
  concat (map (fun chunk => reached (snd chunk)) (chunks schedule drawables)).

(** A light drawable: not a geometry, and flagged as a light. *)
Definition isLight (drawable : Drawable) : bool :=
  negb (nonzero (N.land (GetDrawableFlags drawable) DRAWABLE_GEOMETRY))
  && nonzero (N.land (GetDrawableFlags drawable) DRAWABLE_LIGHT).

(** Its effective color is not black and its effective light mask is not
    zero. *)
Definition qualifies (light : Drawable) : bool :=
  negb (EffectiveColorIsBlack light) && negb (GetLightMaskEffective light =? 0)%N.

Definition qualifyingLight (drawable : Drawable) : Prop :=
  isLight drawable = true /\ qualifies drawable = true.

(** The chunks of a schedule cover a collection of [n] elements. *)
Definition covers (schedule : list (nat * nat)) (n : nat) : Prop :=
  sum_list_with snd schedule = n.

(** The final batch of an unlit intermediate batch, before its pipeline state
    is looked up. *)
Definition unlitBatchOf {Cache} (sp : ScenePass.ScenePass Cache)
    (intermediateBatch : IntermediateSceneBatch) : result ScenePass.BaseSceneBatch :=
  ScenePass.BaseSceneBatch_make M_MAX_UNSIGNED intermediateBatch
    (GetDefaultMaterial (ScenePass.renderer_ sp)).

Definition unlitKey (b : ScenePass.BaseSceneBatch) : ScenePass.ScenePipelineStateKey :=
  ScenePass.MakeKey b 0%N.

Definition unlitContext (camera : ScenePass.Camera) (b : ScenePass.BaseSceneBatch)
  : ScenePass.ScenePipelineStateContext :=
  {| ScenePass.ctx_camera_ := camera; ScenePass.ctx_light_ := None;
     ScenePass.ctx_drawable_ := ScenePass.drawable_ b |}.

Section WithCache.

Variable Cache : Type.
Variable GetPipelineState : Cache -> ScenePass.ScenePipelineStateKey -> option PipelineState.
Variable GetOrCreatePipelineState :
  Cache -> ScenePass.ScenePipelineStateKey -> ScenePass.ScenePipelineStateContext ->
  ScenePass.ScenePipelineStateCacheCallback -> Cache * option PipelineState.

(** The lookups of the concurrent phase of the unlit path, one per batch. *)
Definition unlitLookups (cache : Cache) (made : list ScenePass.BaseSceneBatch)
  : list ScenePass.CacheCall :=
  map (fun b => ScenePass.CallGet ScenePass.UnlitCache (unlitKey b)
                  (GetPipelineState cache (unlitKey b))) made.

(** The positions, counted from [g], of the batches whose lookup misses. *)
Fixpoint unlitMisses (cache : Cache) (g : nat) (made : list ScenePass.BaseSceneBatch)
  : list nat :=
  match made with
  | [] => []
  | b :: rest =>
      match GetPipelineState cache (unlitKey b) with
      | None => g :: unlitMisses cache (S g) rest
      | Some _ => unlitMisses cache (S g) rest
      end
  end.

(** The get-or-create calls of the single-threaded pass over the given
    batches, one after the other on the cache they leave, and the cache after
    the last one. *)
Fixpoint unlitResolve (camera : ScenePass.Camera)
    (callback : ScenePass.ScenePipelineStateCacheCallback) (cache : Cache)
    (batches : list ScenePass.BaseSceneBatch) : list ScenePass.CacheCall * Cache :=
  match batches with
  | [] => ([], cache)
  | b :: rest =>
      let '(cache', created) :=
        GetOrCreatePipelineState cache (unlitKey b) (unlitContext camera b) callback in
      let '(calls, cache'') := unlitResolve camera callback cache' rest in
      (ScenePass.CallGetOrCreate ScenePass.UnlitCache (unlitKey b) (unlitContext camera b)
         created :: calls, cache'')
  end.

End WithCache.

Arguments unlitLookups {Cache} _ _ _.
Arguments unlitMisses {Cache} _ _ _ _.
Arguments unlitResolve {Cache} _ _ _ _ _.

(** Two batches that agree except on the pipeline state. *)
Definition sameShape (b b' : ScenePass.BaseSceneBatch) : Prop :=
  ScenePass.set_pipelineState None b' = ScenePass.set_pipelineState None b.

(** The batch has a pipeline state. *)
Definition resolved (b : ScenePass.BaseSceneBatch) : Prop :=
  ScenePass.pipelineState_ b <> None.

(** Every base batch before position [g] is resolved or dirty. *)
Definition baseTracked (g : nat) (base : list ScenePass.BaseSceneBatch)
    (dirty : list (list nat)) : Prop :=
  forall j b, j < g -> base !! j = Some b -> resolved b \/ j ∈ concat dirty.

(** Every light batch is resolved or its position is in the dirty list of its
    lane. *)
Definition lightTracked (light : list (list ScenePass.BaseSceneBatch))
    (dirty : list (list nat)) : Prop :=
  forall t lane e b, light !! t = Some lane -> lane !! e = Some b ->
    resolved b \/ exists dl, dirty !! t = Some dl /\ e ∈ dl.

(** The invariant of the concurrent phase of the lit path. *)
Definition litTracked (n g : nat) (st : ScenePass.LitPhase) : Prop :=
  length (ScenePass.lp_base st) = n
  /\ baseTracked g (ScenePass.lp_base st) (ScenePass.lp_baseDirty st)
  /\ lightTracked (ScenePass.lp_light st) (ScenePass.lp_lightDirty st).

(** The sizes of the vectors of a collector that are indexed by a lane or by
    a drawable index. *)
Definition sizes (c : SceneBatchCollector.Collector)
  : nat * nat * nat * nat * list (nat * nat) :=
  (length (SceneBatchCollector.visibleGeometries_ c),
   length (SceneBatchCollector.visibleLightsTemp_ c),
   length (SceneBatchCollector.traits_ c),
   length (SceneBatchCollector.drawableLighting_ c),
   map (fun pass => (length (SceneBatchCollector.litBatches_ pass),
                     length (SceneBatchCollector.unlitBatches_ pass)))
       (SceneBatchCollector.passes_ c)).

(** The lane has its part in every thread-local collection. *)
Definition laneReady (threadIndex : nat) (c : SceneBatchCollector.Collector) : Prop :=
  threadIndex < length (SceneBatchCollector.visibleGeometries_ c)
  /\ threadIndex < length (SceneBatchCollector.visibleLightsTemp_ c)
  /\ Forall (fun pass => threadIndex < length (SceneBatchCollector.litBatches_ pass)
                         /\ threadIndex < length (SceneBatchCollector.unlitBatches_ pass))
            (SceneBatchCollector.passes_ c).

(** The drawable has its slot in the transient index and in the light
    accumulators. *)
Definition indexed (drawable : Drawable) (c : SceneBatchCollector.Collector) : Prop :=
  GetDrawableIndex drawable < length (SceneBatchCollector.traits_ c)
  /\ GetDrawableIndex drawable < length (SceneBatchCollector.drawableLighting_ c).

(** The unlit path can run: every lane of the schedule has its dirty list and
    every unlit intermediate batch names a source batch of its drawable. *)
Definition unlitReady {Cache} (schedule : list (nat * nat))
    (sp : ScenePass.ScenePass Cache) : Prop :=
  Forall (fun chunk => chunk.1 < length (ScenePass.unlitBaseBatchesDirty_ sp)) schedule
  /\ Forall (fun intermediateBatch => exists b, unlitBatchOf sp intermediateBatch = Ok b)
       (tv_CopyTo (ScenePass.unlitBatches_ sp)).

End Spec.

(** ** The pipeline state a final batch carries *)

Module Handles.

(** Two final batches with the same members, the pipeline state apart. *)
Definition sameMembers (b b' : ScenePass.BaseSceneBatch) : Prop :=
  ScenePass.lightIndex_ b' = ScenePass.lightIndex_ b
  /\ ScenePass.drawableIndex_ b' = ScenePass.drawableIndex_ b
  /\ ScenePass.batch_sourceBatchIndex_ b' = ScenePass.batch_sourceBatchIndex_ b
  /\ ScenePass.drawable_ b' = ScenePass.drawable_ b
  /\ ScenePass.batch_geometry_ b' = ScenePass.batch_geometry_ b
  /\ ScenePass.material_ b' = ScenePass.material_ b
  /\ ScenePass.pass_ b' = ScenePass.pass_ b.

(** The main light of [CollectLitBatches]: none for the light index
    [M_MAX_UNSIGNED]. *)
Definition mainLightOf (sceneLights : list ScenePass.SceneLight)
    (mainLightIndex : unsigned) : option ScenePass.SceneLight :=
  if negb (mainLightIndex =? M_MAX_UNSIGNED)%N then at_index sceneLights mainLightIndex
  else None.

(** The pipeline-state hash of a light, 0 without a light. *)
Definition lightHashOf (light : option ScenePass.SceneLight) : unsigned :=
  match light with
  | Some sceneLight => ScenePass.GetPipelineStateHash sceneLight
  | None => 0%N
  end.

(** Position [e] of lane [t] is beyond what the lane held in [before]: the
    element there was appended since. *)
Definition produced {T} (before : list (list T)) (t e : nat) : Prop :=
  forall lane, before !! t = Some lane -> length lane <= e.

Section WithCache.

Variable Cache : Type.
Variable GetPipelineState : Cache -> ScenePass.ScenePipelineStateKey -> option PipelineState.
Variable GetOrCreatePipelineState :
  Cache -> ScenePass.ScenePipelineStateKey -> ScenePass.ScenePipelineStateContext ->
  ScenePass.ScenePipelineStateCacheCallback -> Cache * option PipelineState.

(** The dirty list of lane [t] after the concurrent phase of the unlit path:
    the positions, counted from [offset], of the lookup misses among the
    batches of the chunks that run on lane [t], chunk after chunk. *)
Fixpoint laneMisses (cache : Cache) (t offset : nat) (schedule : list (nat * nat))
    (made : list ScenePass.BaseSceneBatch) : list nat :=
  match schedule with
  | [] => []
  | (threadIndex, count) :: rest =>
      (if decide (threadIndex = t)
       then Spec.unlitMisses GetPipelineState cache offset (take count made)
       else [])
      ++ laneMisses cache t (offset + count) rest (drop count made)
  end.

(** The cache before the get-or-create call for the dirty batch at position
    [k] of the merged dirty lists: the cache the calls for the dirty batches
    before it leave. *)
Definition cacheBefore (camera : ScenePass.Camera)
    (callback : ScenePass.ScenePipelineStateCacheCallback) (cache : Cache)
    (dirtyBatches : list ScenePass.BaseSceneBatch) (k : nat) : Cache :=
  (Spec.unlitResolve GetOrCreatePipelineState camera callback cache
     (take k dirtyBatches)).2.

(** The handle [ps] is the one the lookup of [lookupKey] in [cache] found,
    or the one a get-or-create call for [createKey] returned. *)
Definition carries (cache : Cache) (callback : ScenePass.ScenePipelineStateCacheCallback)
    (lookupKey createKey : ScenePass.ScenePipelineStateKey)
    (ctx : ScenePass.ScenePipelineStateContext) (ps : option PipelineState) : Prop :=
  (GetPipelineState cache lookupKey <> None /\ ps = GetPipelineState cache lookupKey)
  \/ exists cache', ps = (GetOrCreatePipelineState cache' createKey ctx callback).2.

(** An unlit base batch: looked up and created with light hash 0 and without
    a light. *)
Definition unlitCarried (camera : ScenePass.Camera)
    (callback : ScenePass.ScenePipelineStateCacheCallback) (cache : Cache)
    (b : ScenePass.BaseSceneBatch) : Prop :=
  carries cache callback (Spec.unlitKey b) (Spec.unlitKey b) (Spec.unlitContext camera b)
    (ScenePass.pipelineState_ b).

(** A lit base batch.  The lookup uses the hash of the main light when the
    batch has the main light as its light ([hasLitBase]) and 0 otherwise; the
    single-threaded pass creates with the hash of the main light whenever
    there is a main light. *)
Definition litCarried (camera : ScenePass.Camera)
    (callback : ScenePass.ScenePipelineStateCacheCallback) (mainLightIndex : unsigned)
    (sceneLights : list ScenePass.SceneLight) (cache : Cache)
    (b : ScenePass.BaseSceneBatch) : Prop :=
  let mainLight := mainLightOf sceneLights mainLightIndex in
  let mainLightHash := lightHashOf mainLight in
  carries cache callback
    (ScenePass.MakeKey b
       (if (ScenePass.lightIndex_ b =? mainLightIndex)%N then mainLightHash else 0%N))
    (ScenePass.MakeKey b
       (if negb (mainLightIndex =? M_MAX_UNSIGNED)%N then mainLightHash else 0%N))
    {| ScenePass.ctx_camera_ := camera; ScenePass.ctx_light_ := mainLight;
       ScenePass.ctx_drawable_ := ScenePass.drawable_ b |}
    (ScenePass.pipelineState_ b).

(** An additional-light batch: looked up and created with the hash of its
    scene light. *)
Definition lightCarried (camera : ScenePass.Camera)
    (callback : ScenePass.ScenePipelineStateCacheCallback)
    (sceneLights : list ScenePass.SceneLight) (cache : Cache)
    (b : ScenePass.BaseSceneBatch) : Prop :=
  exists sceneLight,
    at_index sceneLights (ScenePass.lightIndex_ b) = Some sceneLight
    /\ carries cache callback
         (ScenePass.MakeKey b (ScenePass.GetPipelineStateHash sceneLight))
         (ScenePass.MakeKey b (ScenePass.GetPipelineStateHash sceneLight))
         {| ScenePass.ctx_camera_ := camera; ScenePass.ctx_light_ := Some sceneLight;
            ScenePass.ctx_drawable_ := ScenePass.drawable_ b |}
         (ScenePass.pipelineState_ b).

End WithCache.

Arguments laneMisses {Cache} _ _ _ _ _ _.
Arguments cacheBefore {Cache} _ _ _ _ _ _.
Arguments carries {Cache} _ _ _ _ _ _ _ _.
Arguments unlitCarried {Cache} _ _ _ _ _ _.
Arguments litCarried {Cache} _ _ _ _ _ _ _ _.
Arguments lightCarried {Cache} _ _ _ _ _ _ _.

End Handles.

(** ** SceneBatchCollector.cpp: the lights of a frame *)

Module SceneLighting.

(** [LightData]. *)
Record LightData := {
  litGeometries_ : list Drawable;
}.

(** [LightData::Clear]. *)
Definition LightData_Clear (lightData : LightData) : LightData :=
  {| litGeometries_ := [] |}.

(** [DrawableLightDataAccumulationContext], as [AccumulateForwardLighting]
    fills it. *)
Record DrawableLightDataAccumulationContext := {
  maxPixelLights_ : nat;
  lightImportance_ : N;
  lightIndex_ : nat;
  lights_ : list Drawable;
}.

Section WithAccumulator.

(** Collaborators outside the sources: the light accumulator of a drawable
    ([DrawableLightData], whose state is more than its pixel lights) with
    its [AccumulateLight]; the importance, intensity divisor and distance of
    a light; the division and product of binary32; and, per light, the
    visits the octree makes for its query and its query volume. *)
Variable Accumulator : Type.
Variable AccumulateLight :
  DrawableLightDataAccumulationContext -> float -> Accumulator -> Accumulator.
Variable GetLightImportance : Drawable -> N.
Variable GetIntensityDivisor : Drawable -> float.
Variable GetDistanceTo : Drawable -> Drawable -> float.
Variable fdiv fmul : float -> float -> float.
Variable visits : Drawable -> list (list Drawable * bool).
Variable volume : Drawable -> BoundingBox -> SceneBatchCollector.Intersection.

(** The members of the collector that the light stage writes.  A light is
    identified by its drawable index: [cachedLightData_] maps a light to its
    light data, and a pointer of [visibleLightsData_] to the light data of a
    light is the key of the light.  [drawableLighting_] is the vector of the
    accumulators. *)
Record LightState := {
  cachedLightData_ : gmap nat LightData;
  visibleLightsData_ : list nat;
  drawableLighting_ : list Accumulator;
}.

(** The body of the first loop of [ProcessVisibleLights]: the light data of
    the light is created unless it is cached, cleared, and pushed to
    [visibleLightsData_]. *)
Definition allocateLightData (light : Drawable) (s : LightState) : LightState :=
  let key := GetDrawableIndex light in
  let lightData :=
    match cachedLightData_ s !! key with
    | Some lightData => lightData
    | None => {| litGeometries_ := [] |}
    end in
  {| cachedLightData_ := <[key := LightData_Clear lightData]> (cachedLightData_ s);
     visibleLightsData_ := visibleLightsData_ s ++ [key];
     drawableLighting_ := drawableLighting_ s |}.

(** The work item of the second loop, [ProcessLightThreaded] on
    [visibleLights_[i]] and [*visibleLightsData_[i]]. *)
Definition ProcessLightThreaded (c : SceneBatchCollector.Collector) (i : nat)
    (s : LightState) : result LightState :=
  light ← defined (SceneBatchCollector.visibleLights_ c !! i);
  key ← defined (visibleLightsData_ s !! i);
  lightData ← defined (cachedLightData_ s !! key);
  litGeometries ←
    SceneBatchCollector.CollectLitGeometries (visits light) (volume light) light
      (litGeometries_ lightData) c;
  Ok {| cachedLightData_ :=
          <[key := {| litGeometries_ := litGeometries |}]> (cachedLightData_ s);
        visibleLightsData_ := visibleLightsData_ s;
        drawableLighting_ := drawableLighting_ s |}.

(** The body of the loop over the geometries of a chunk. *)
Definition accumulateOne (accumContext : DrawableLightDataAccumulationContext)
    (light : Drawable) (lightIntensityPenalty : float) (geometry : Drawable)
    (lighting : list Accumulator) : result (list Accumulator) :=
  let drawableIndex := GetDrawableIndex geometry in
  let distance := GetDistanceTo light geometry in
  accumulator ← defined (lighting !! drawableIndex);
  Ok (<[drawableIndex :=
         AccumulateLight accumContext (fmul distance lightIntensityPenalty) accumulator]>
        lighting).

Definition accumContextOf (c : SceneBatchCollector.Collector) (light : Drawable)
    (lightIndex : nat) : DrawableLightDataAccumulationContext :=
  {| maxPixelLights_ := 1;
     lightImportance_ := GetLightImportance light;
     lightIndex_ := lightIndex;
     lights_ := SceneBatchCollector.visibleLights_ c |}.

Definition AccumulateForwardLighting (schedule : list (nat * nat))
    (c : SceneBatchCollector.Collector) (lightIndex : nat) (s : LightState)
  : result LightState :=
  light ← defined (SceneBatchCollector.visibleLights_ c !! lightIndex);
  key ← defined (visibleLightsData_ s !! lightIndex);
  lightData ← defined (cachedLightData_ s !! key);
  lighting ← ForEachParallel schedule
    (fun _ _ geometries =>
       let accumContext := accumContextOf c light lightIndex in
       let lightIntensityPenalty := fdiv 1%float (GetIntensityDivisor light) in
       forEach (accumulateOne accumContext light lightIntensityPenalty) geometries)
    0 (litGeometries_ lightData) (drawableLighting_ s);
  Ok {| cachedLightData_ := cachedLightData_ s;
        visibleLightsData_ := visibleLightsData_ s;
        drawableLighting_ := lighting |}.

(** [ProcessVisibleLights].  The work items of the second loop run on the
    work queue; each writes the lit geometries of its own light only, so
    with pairwise different lights their order does not matter, and they
    are run in the order of their indices.  [schedule i] is the schedule of
    the parallel for of [AccumulateForwardLighting(i)]. *)
Definition ProcessVisibleLights (schedule : nat -> list (nat * nat))
    (c : SceneBatchCollector.Collector) (s : LightState) : result LightState :=
  let visibleLights := SceneBatchCollector.visibleLights_ c in
  let s := foldl (fun s light => allocateLightData light s)
             {| cachedLightData_ := cachedLightData_ s; visibleLightsData_ := [];
                drawableLighting_ := drawableLighting_ s |}
             visibleLights in
  s ← forEachIndexed (fun i _ s => ProcessLightThreaded c i s) 0 visibleLights s;
  forEachIndexed (fun i _ s => AccumulateForwardLighting (schedule i) c i s)
    0 visibleLights s.

End WithAccumulator.

End SceneLighting.

(** ** Properties of a frame *)

Module FrameSetup.

(** A geometry drawable: the first branch of the loop of the collection. *)
Definition isGeometry (drawable : Drawable) : bool :=
  nonzero (N.land (GetDrawableFlags drawable) DRAWABLE_GEOMETRY).

(** The pass data [InitializePasses] checks for a description: the
    description with its three pass indices resolved. *)
Definition described (GetPassIndex : string -> unsigned)
    (desc : SceneBatchCollector.ScenePassDescription) : SceneBatchCollector.PassData :=
  {| SceneBatchCollector.desc_ := desc;
     SceneBatchCollector.basePassIndex_ :=
       GetPassIndex (SceneBatchCollector.basePassName_ desc);
     SceneBatchCollector.firstLightPassIndex_ :=
       GetPassIndex (SceneBatchCollector.firstLightPassName_ desc);
     SceneBatchCollector.additionalLightPassIndex_ :=
       GetPassIndex (SceneBatchCollector.additionalLightPassName_ desc);
     SceneBatchCollector.unlitBatches_ := [];
     SceneBatchCollector.litBatches_ := [];
     SceneBatchCollector.unlitBaseSceneBatches_ := [];
     SceneBatchCollector.litBaseSceneBatches_ := [] |}.

Definition validDescription (GetPassIndex : string -> unsigned)
    (desc : SceneBatchCollector.ScenePassDescription) : bool :=
  SceneBatchCollector.IsValid (described GetPassIndex desc).

(** A pass at the start of a frame, for a description: the description, its
    resolved pass indices, and empty buckets with one part per lane. *)
Definition freshPass (GetPassIndex : string -> unsigned) (numThreads : nat)
    (desc : SceneBatchCollector.ScenePassDescription)
    (pass : SceneBatchCollector.PassData) : Prop :=
  Spec.sameConfig (described GetPassIndex desc) pass
  /\ SceneBatchCollector.unlitBatches_ pass = replicate numThreads []
  /\ SceneBatchCollector.litBatches_ pass = replicate numThreads [].

End FrameSetup.

Module FrameMarks.

(** The drawable index is marked visible geometry in the transient index:
    the test the lit-geometry queries make. *)
Definition visibleMark (traits : list N) (i : nat) : bool :=
  match traits !! i with
  | Some t => nonzero (N.land t DrawableVisibleGeometry)
  | None => false
  end.

(** The branch of the loop of the collection for a drawable that is not
    skipped. *)
Definition collectOne (threadIndex : nat) (drawable : Drawable)
    (c : SceneBatchCollector.Collector) : result SceneBatchCollector.Collector :=
  if nonzero (N.land (GetDrawableFlags drawable) DRAWABLE_GEOMETRY) then
    SceneBatchCollector.CollectGeometry threadIndex drawable c
  else if nonzero (N.land (GetDrawableFlags drawable) DRAWABLE_LIGHT) then
    SceneBatchCollector.CollectLight threadIndex drawable c
  else Ok c.

(** The light accumulators after the given geometries were collected. *)
Definition resetAll (lighting : list DrawableLightData) (geometries : list Drawable)
  : list DrawableLightData :=
  foldl (fun l d => <[GetDrawableIndex d := []]> l) lighting geometries.

End FrameMarks.

Module FrameBuckets.

(** What the given drawables add to a bucket of a pass when they are
    collected: the batches of those that are geometries, drawable by
    drawable. *)
Definition frameBatches (bucket : Spec.Bucket) (c : SceneBatchCollector.Collector)
    (pass : SceneBatchCollector.PassData) (ds : list Drawable)
  : list IntermediateSceneBatch :=
  concat (map (fun d => Spec.batchesFrom bucket c pass d 0 (GetBatches d))
              (filter (fun d => FrameSetup.isGeometry d = true) ds)).

(** A pass after the given drawables were collected into it. *)
Definition collectedFrame (c : SceneBatchCollector.Collector) (ds : list Drawable)
    (pass pass' : SceneBatchCollector.PassData) : Prop :=
  Spec.sameConfig pass pass'
  /\ tv_CopyTo (SceneBatchCollector.litBatches_ pass')
     ≡ₚ tv_CopyTo (SceneBatchCollector.litBatches_ pass)
        ++ frameBatches Spec.LitBucket c pass ds
  /\ tv_CopyTo (SceneBatchCollector.unlitBatches_ pass')
     ≡ₚ tv_CopyTo (SceneBatchCollector.unlitBatches_ pass)
        ++ frameBatches Spec.UnlitBucket c pass ds.

(** The intermediate batch names a source batch of its geometry. *)
Definition wellFormed (b : IntermediateSceneBatch) : Prop :=
  exists d sourceBatch,
    geometry_ b = Some d /\ GetBatches d !! sourceBatchIndex_ b = Some sourceBatch.

Definition litBatch (b : IntermediateSceneBatch) : Prop :=
  wellFormed b /\ basePass_ b <> None /\ additionalPass_ b <> None.

Definition unlitBatch (b : IntermediateSceneBatch) : Prop :=
  wellFormed b /\ basePass_ b <> None /\ additionalPass_ b = None.

(** The buckets of a pass hold lit batches with both passes and unlit
    batches with a base pass only, and a pass of type Unlit has no lit
    batch. *)
Definition bucketsSound (pass : SceneBatchCollector.PassData) : Prop :=
  Forall litBatch (tv_CopyTo (SceneBatchCollector.litBatches_ pass))
  /\ Forall unlitBatch (tv_CopyTo (SceneBatchCollector.unlitBatches_ pass))
  /\ (SceneBatchCollector.type_ (SceneBatchCollector.desc_ pass) = SceneBatchCollector.Unlit ->
      tv_CopyTo (SceneBatchCollector.litBatches_ pass) = []).

End FrameBuckets.

(** The invariant of the collection of a frame for the passes: the
    configuration and the number of lanes stay, and the buckets grow by the
    batches of the geometries processed so far. *)
Definition passesCollected (c : SceneBatchCollector.Collector) (ds : list Drawable)
    (c1 : SceneBatchCollector.Collector) : Prop :=
  SceneBatchCollector.renderer_ c1 = SceneBatchCollector.renderer_ c
  /\ SceneBatchCollector.materialQuality_ c1 = SceneBatchCollector.materialQuality_ c
  /\ Forall2 (fun pass pass' =>
                FrameBuckets.collectedFrame c ds pass pass'
                /\ length (SceneBatchCollector.litBatches_ pass')
                   = length (SceneBatchCollector.litBatches_ pass)
                /\ length (SceneBatchCollector.unlitBatches_ pass')
                   = length (SceneBatchCollector.unlitBatches_ pass))
       (SceneBatchCollector.passes_ c) (SceneBatchCollector.passes_ c1).

Module FinalBatches.

(** The final batch [CollectSceneBatches] writes over the batch [old] for an
    intermediate batch. *)
Definition sceneBatchOf (defaultMaterial : Material) (old : SceneBatchCollector.SceneBatch)
    (intermediateBatch : IntermediateSceneBatch) : result SceneBatchCollector.SceneBatch :=
  drawable ← defined (geometry_ intermediateBatch);
  sourceBatch ← defined (GetBatches drawable !! sourceBatchIndex_ intermediateBatch);
  Ok {| SceneBatchCollector.drawable_ := Some drawable;
        SceneBatchCollector.drawableIndex_ := GetDrawableIndex drawable;
        SceneBatchCollector.batch_sourceBatchIndex_ := sourceBatchIndex_ intermediateBatch;
        SceneBatchCollector.batch_geometry_ := sb_geometry_ sourceBatch;
        SceneBatchCollector.material_ :=
          Some match sb_material_ sourceBatch with
               | Some m => m
               | None => defaultMaterial
               end;
        SceneBatchCollector.lightIndex_ := SceneBatchCollector.lightIndex_ old;
        SceneBatchCollector.pipelineState_ := SceneBatchCollector.pipelineState_ old |}.

(** A pass after [CollectSceneBatches]: the buckets are as before, the lit
    final batches are resized only, and the unlit final batches are resized
    and then written, position by position, from the merged unlit
    intermediate batches. *)
Definition finalised (defaultMaterial : Material)
    (pass pass' : SceneBatchCollector.PassData) : Prop :=
  exists unlit,
    pass' = SceneBatchCollector.set_baseSceneBatches unlit
              (resize (tv_Size (SceneBatchCollector.litBatches_ pass))
                 SceneBatchCollector.SceneBatch_default
                 (SceneBatchCollector.litBaseSceneBatches_ pass)) pass
    /\ length unlit = tv_Size (SceneBatchCollector.unlitBatches_ pass)
    /\ forall g intermediateBatch,
         tv_CopyTo (SceneBatchCollector.unlitBatches_ pass) !! g = Some intermediateBatch ->
         exists old new,
           resize (tv_Size (SceneBatchCollector.unlitBatches_ pass))
             SceneBatchCollector.SceneBatch_default
             (SceneBatchCollector.unlitBaseSceneBatches_ pass) !! g = Some old
           /\ sceneBatchOf defaultMaterial old intermediateBatch = Ok new
           /\ unlit !! g = Some new.

End FinalBatches.

(** The loop body of [CollectSceneBatches], by way of [sceneBatchOf]. *)
Definition finalBody (defaultMaterial : Material) (_ offset i : nat)
    (intermediateBatch : IntermediateSceneBatch)
    (out : list SceneBatchCollector.SceneBatch)
  : result (list SceneBatchCollector.SceneBatch) :=
  sceneBatch ← defined (out !! (i + offset));
  new ← FinalBatches.sceneBatchOf defaultMaterial sceneBatch intermediateBatch;
  Ok (<[i + offset := new]> out).

Module PassBatches.

(** The intermediate batches of a scene pass are in the collection their
    additional pass calls for: the lit batches have one, the unlit batches
    have none; and every batch has its drawable. *)
Definition passSound {Cache} (sp : ScenePass.ScenePass Cache) : Prop :=
  Forall (fun b => additionalPass_ b <> None /\ geometry_ b <> None)
         (tv_CopyTo (ScenePass.litBatches_ sp))
  /\ Forall (fun b => additionalPass_ b = None /\ geometry_ b <> None)
       (tv_CopyTo (ScenePass.unlitBatches_ sp)).

End PassBatches.

Module LitLights.

(** A light batch that can be drawn and resolved: it has a pass and its
    light index names a scene light. *)
Definition lightBatch (sceneLights : list ScenePass.SceneLight)
    (b : ScenePass.BaseSceneBatch) : Prop :=
  ScenePass.pass_ b <> None /\ at_index sceneLights (ScenePass.lightIndex_ b) <> None.

End LitLights.

Module LightAccumulation.

Section WithAccumulator.

Variable Accumulator : Type.
Variable AccumulateLight :
  SceneLighting.DrawableLightDataAccumulationContext -> float -> Accumulator -> Accumulator.
Variable GetLightImportance : Drawable -> N.
Variable GetIntensityDivisor : Drawable -> float.
Variable GetDistanceTo : Drawable -> Drawable -> float.
Variable fdiv fmul : float -> float -> float.
Variable visits : Drawable -> list (list Drawable * bool).
Variable volume : Drawable -> BoundingBox -> SceneBatchCollector.Intersection.

(** The accumulators after the light at [lightIndex] was accumulated into
    those of the given geometries, one geometry after the other. *)
Definition accumulated (c : SceneBatchCollector.Collector) (light : Drawable)
    (lightIndex : nat) (lighting : list Accumulator) (geometries : list Drawable)
  : list Accumulator :=
  foldl (fun lighting geometry =>
           alter (AccumulateLight
                    (SceneLighting.accumContextOf GetLightImportance c light lightIndex)
                    (fmul (GetDistanceTo light geometry)
                       (fdiv 1%float (GetIntensityDivisor light))))
                 (GetDrawableIndex geometry) lighting)
        lighting geometries.

(** What the query of a light yields on cleared light data; nothing when
    the query is undefined. *)
Definition litOf (c : SceneBatchCollector.Collector) (light : Drawable) : list Drawable :=
  match SceneBatchCollector.CollectLitGeometries (visits light) (volume light) light [] c with
  | Ok litGeometries => litGeometries
  | _ => []
  end.

(** The accumulators after the given lights, numbered from [lightIndex],
    were accumulated one after the other into their lit geometries. *)
Fixpoint accumulatedFrom (c : SceneBatchCollector.Collector) (lightIndex : nat)
    (lights : list Drawable) (lighting : list Accumulator) : list Accumulator :=
  match lights with
  | [] => lighting
  | light :: rest =>
      accumulatedFrom c (S lightIndex) rest
        (accumulated c light lightIndex lighting (litOf c light))
  end.

(** The state between the work items of the second loop: the first [done]
    lights have their lit geometries, the others cleared light data. *)
Definition queried (c : SceneBatchCollector.Collector) (s0 : SceneLighting.LightState Accumulator) (done : nat)
    (s : SceneLighting.LightState Accumulator) : Prop :=
  let lights := SceneBatchCollector.visibleLights_ c in
  SceneLighting.visibleLightsData_ Accumulator s = GetDrawableIndex <$> lights
  /\ SceneLighting.drawableLighting_ Accumulator s = SceneLighting.drawableLighting_ Accumulator s0
  /\ (forall i light, lights !! i = Some light ->
        SceneLighting.cachedLightData_ Accumulator s !! GetDrawableIndex light
        = Some {| SceneLighting.litGeometries_ :=
                    if bool_decide (i < done) then litOf c light else [] |})
  /\ (forall key, key ∉ GetDrawableIndex <$> lights -> SceneLighting.cachedLightData_ Accumulator s !! key = SceneLighting.cachedLightData_ Accumulator s0 !! key).

End WithAccumulator.

End LightAccumulation.

Module PassFrame.

(** A call of [AddSourceBatch]: the lane of the calling thread, the
    drawable, the index of its source batch and the technique. *)
Definition AddCall : Type := nat * Drawable * nat * Technique.

(** The calls one after the other, as the callers of a frame make them. *)
Definition addAll {Cache} (ndebug : bool) (calls : list AddCall)
    (sp : ScenePass.ScenePass Cache) : result (ScenePass.ScenePass Cache) :=
  forEach (fun '(threadIndex, drawable, sourceBatchIndex, technique) sp =>
             '(sp', _) ← ScenePass.AddSourceBatch ndebug threadIndex drawable
                           sourceBatchIndex technique sp;
             Ok sp')
          calls sp.

(** The call is made on a lane of the pass, for a source batch the drawable
    has. *)
Definition callInRange (numWorkers : nat) (call : AddCall) : Prop :=
  let '(threadIndex, drawable, sourceBatchIndex, _) := call in
  threadIndex <= numWorkers /\ sourceBatchIndex < length (GetBatches drawable).

(** A scene pass during a frame on [numWorkers] worker threads: every
    thread-local collection has its lanes, the dirty lists are empty, and
    every intermediate batch names a source batch of its drawable. *)
Definition inFrame {Cache} (numWorkers : nat) (sp : ScenePass.ScenePass Cache) : Prop :=
  length (ScenePass.unlitBatches_ sp) = S numWorkers
  /\ length (ScenePass.litBatches_ sp) = S numWorkers
  /\ length (ScenePass.unlitBaseBatchesDirty_ sp) = S numWorkers
  /\ concat (ScenePass.unlitBaseBatchesDirty_ sp) = []
  /\ Forall FrameBuckets.wellFormed (tv_CopyTo (ScenePass.unlitBatches_ sp))
  /\ Forall FrameBuckets.wellFormed (tv_CopyTo (ScenePass.litBatches_ sp)).

End PassFrame.

(** ** Concrete frames *)

Module Scenes2.

(** A collector at the start of a frame with two lanes, three drawable
    slots, and an unlit and a forward-lit pass. *)
Definition startedCollector : SceneBatchCollector.Collector :=
  SceneBatchCollector.set_passes
    (map (fun desc =>
            SceneBatchCollector.PassData_Clear 2 (FrameSetup.described Scenes.passIndex desc))
         [Scenes.unlitDesc; Scenes.forwardLitDesc])
    Scenes.lightsFrame.

(** A lit geometry, an unlit geometry and a light, with distinct drawable
    indices, and a schedule that runs the first two on lane 1 and the light
    on lane 0. *)
Definition threeDrawables : list Drawable :=
  [Scenes.thirdGeometry; Scenes.nearGeometry; Scenes.brightLight].
Definition twoChunks : list (nat * nat) := [(1, 2); (0, 1)].

End Scenes2.

Module Scenes3.

(** The collector after a frame that collected two unlit geometries on one
    lane into an unlit pass. *)
Definition unlitFrame : SceneBatchCollector.Collector :=
  match Scenes.frame true [Scenes.unlitDesc] [(0, 2)]
          [Scenes.firstGeometry; Scenes.nearGeometry] Scenes.newCollector with
  | Ok c => c
  | _ => Scenes.newCollector
  end.

End Scenes3.

Module Scenes4.

(** A collector whose one visible light is a point light, with drawable 0
    marked as an updated, visible geometry; the octree hands the geometry
    of drawable 0 to every query, and every volume holds everything. *)
Definition lightsCollector : SceneBatchCollector.Collector :=
  SceneBatchCollector.set_visibleLights [Scenes.pointLight] Scenes.litCollector.
Definition visits (_ : Drawable) : list (list Drawable * bool) :=
  [([Scenes.litGeometry], false)].
Definition volume (_ : Drawable) : BoundingBox -> SceneBatchCollector.Intersection :=
  Scenes.wholeSphere.

(** Accumulators that count the lights accumulated into them. *)
Definition countLight (_ : SceneLighting.DrawableLightDataAccumulationContext)
    (_ : float) (n : nat) : nat := S n.
Definition importance (_ : Drawable) : N := 0%N.
Definition divisor (_ : Drawable) : float := 1%float.
Definition distanceTo (_ _ : Drawable) : float := 1%float.

(** The light state before the light stage of a first frame, with one
    accumulator, and a light state whose light data of the point light
    holds a lit geometry. *)
Definition newLights : SceneLighting.LightState nat :=
  {| SceneLighting.cachedLightData_ := ∅; SceneLighting.visibleLightsData_ := [];
     SceneLighting.drawableLighting_ := [0] |}.
Definition queriedLights : SceneLighting.LightState nat :=
  {| SceneLighting.cachedLightData_ :=
       <[1 := {| SceneLighting.litGeometries_ := [Scenes.litGeometry] |}]> ∅;
     SceneLighting.visibleLightsData_ := [1];
     SceneLighting.drawableLighting_ := [0] |}.

End Scenes4.

Module Scenes5.

(** A material with three entries: the first above the material quality of
    [Scenes.litCollector], the second and the third within it. *)
Definition tieredMaterial : Material :=
  {| GetTechniques :=
       [{| technique_ := Some Scenes.techFull; qualityLevel_ := 3; lodDistance_ := 0%float |};
        {| technique_ := Some Scenes.techBaseLight; qualityLevel_ := 1;
           lodDistance_ := 0%float |};
        {| technique_ := Some Scenes.techBase; qualityLevel_ := 0; lodDistance_ := 0%float |}] |}.

(** A geometry whose source batch has another geometry than those of
    [Scenes], so another cache key. *)
Definition otherGeometry : Drawable :=
  {| GetDrawableIndex := 1; GetDrawableFlags := DRAWABLE_GEOMETRY;
     GetDrawDistance := 0%float; GetDistance := 20%float;
     GetLodDistance := 20%float; GetLightMask := 255;
     GetWorldBoundingBox := Scenes.box;
     GetBatches := [{| sb_geometry_ := Some (MkGeometry 2);
                       sb_material_ := Some (Scenes.materialOf Scenes.techBase) |}];
     EffectiveColorIsBlack := true; GetLightMaskEffective := 0;
     GetLightType := LIGHT_DIRECTIONAL |}.

(** A cache that holds the state of the unlit batch of [Scenes.firstGeometry]. *)
Definition warmCache : Scenes.SimpleCache :=
  [({| ScenePass.key_geometry_ := Some (MkGeometry 1);
       ScenePass.key_material_ := Some (Scenes.materialOf Scenes.techBase);
       ScenePass.key_pass_ := Some Scenes.basePass;
       ScenePass.key_sourceBatchIndex_ := 0;
       ScenePass.key_lightHash_ := 0%N |}, MkPipelineState 3)].

(** A scene pass with that unlit cache, at the start of a frame on a work
    queue with one worker thread (two lanes). *)
Definition warmScenePass : ScenePass.ScenePass Scenes.SimpleCache :=
  ScenePass.BeginFrame 1
    {| ScenePass.renderer_ := Scenes.renderer;
       ScenePass.unlitBasePassIndex_ := 0%N;
       ScenePass.litBasePassIndex_ := 1%N;
       ScenePass.lightPassIndex_ := 2%N;
       ScenePass.numThreads_ := 0;
       ScenePass.unlitBatches_ := [];
       ScenePass.litBatches_ := [];
       ScenePass.unlitBaseBatchesDirty_ := [];
       ScenePass.litBaseBatchesDirty_ := [];
       ScenePass.lightBatchesDirty_ := [];
       ScenePass.unlitBaseBatches_ := [];
       ScenePass.litBaseBatches_ := [];
       ScenePass.lightBatches_ := [];
       ScenePass.unlitPipelineStateCache_ := warmCache;
       ScenePass.litPipelineStateCache_ := [];
       ScenePass.additionalLightPipelineStateCache_ := [];
       ScenePass.calls_ := [] |}.

(** Three unlit batches on the two lanes: the first has its state in the
    cache, the other two share a key the cache does not hold. *)
Definition threeUnlitBatches : result (ScenePass.ScenePass Scenes.SimpleCache) :=
  '(sp, _) ← ScenePass.AddSourceBatch true 0 Scenes.firstGeometry 0 Scenes.techBase
               warmScenePass;
  '(sp, _) ← ScenePass.AddSourceBatch true 1 otherGeometry 0 Scenes.techBase sp;
  '(sp, _) ← ScenePass.AddSourceBatch true 1 otherGeometry 0 Scenes.techBase sp;
  Ok sp.

Definition twoLanePass : ScenePass.ScenePass Scenes.SimpleCache :=
  Scenes.outcome warmScenePass threeUnlitBatches.

(** An unlit batch whose state the cache holds and a lit batch, on the two
    lanes. *)
Definition warmLitAndUnlitBatches : result (ScenePass.ScenePass Scenes.SimpleCache) :=
  '(sp, _) ← ScenePass.AddSourceBatch true 0 Scenes.firstGeometry 0 Scenes.techBase
               warmScenePass;
  '(sp, _) ← ScenePass.AddSourceBatch true 1 Scenes.litGeometry 0 Scenes.techFull sp;
  Ok sp.

Definition warmMixedPass : ScenePass.ScenePass Scenes.SimpleCache :=
  Scenes.outcome warmScenePass warmLitAndUnlitBatches.

Definition warmMixedPassCollected : ScenePass.ScenePass Scenes.SimpleCache :=
  Scenes.outcome warmScenePass
    (ScenePass.CollectSceneBatches Scenes.simpleGet Scenes.simpleGetOrCreate [(0, 1)]
       [(1, 1)] 0%N Scenes.twoLights Scenes.twoPixelLights Scenes.camera Scenes.createState
       warmMixedPass).

End Scenes5.

(** * Theorems *)

(** ** The result monad *)

Lemma bind_Ok {A B} (m : result A) (k : A -> result B) (b : B) :
  m ≫= k = Ok b <-> exists a, m = Ok a /\ k a = Ok b.
Proof.
  split.
  - destruct m as [a| |]; simpl; intros H; try discriminate. by exists a.
  - intros (a & -> & H). exact H.
Qed.

Lemma defined_Ok {A} (o : option A) (a : A) : defined o = Ok a <-> o = Some a.
Proof. destruct o; simpl; split; congruence. Qed.

(** Splits hypotheses [m ≫= k = Ok b] into their steps. *)
Ltac ok_step :=
  match goal with
  | H : AssertFailed = Ok _ |- _ => discriminate H
  | H : Undefined = Ok _ |- _ => discriminate H
  | H : mbind _ _ = Ok _ |- _ =>
      let a := fresh "r" in
      let Ha := fresh "Hstep" in
      apply bind_Ok in H; destruct H as (a & Ha & H)
  | H : defined _ = Ok _ |- _ => apply defined_Ok in H
  | H : (let '(_, _) := ?p in _) = Ok _ |- _ => destruct p eqn:?
  | H : Ok _ = Ok _ |- _ => injection H as H
  | H : (_, _) = (_, _) |- _ => injection H as ? H
  | p : (_ * _)%type |- _ => destruct p
  end.
Ltac ok_inv := repeat (ok_step; simpl in *); subst.

(** ** Technique selection *)

Lemma FindTechnique_scan_find materialQuality lodDistance techniques :
  SceneBatchCollector.FindTechnique_scan materialQuality lodDistance techniques
  = match List.find (Spec.matches materialQuality lodDistance) techniques with
    | Some entry => technique_ entry
    | None => None
    end.
Proof.
  induction techniques as [|entry rest IH]; simpl; [done|].
  unfold Spec.matches at 1, Spec.unsupported, fge.
  destruct (technique_ entry) as [tech|] eqn:Htech; simpl; [|exact IH].
  destruct (negb (IsSupported tech) || (materialQuality <? qualityLevel_ entry)%N);
    simpl; [exact IH|].
  destruct (PrimFloat.leb (lodDistance_ entry) lodDistance); [done|exact IH].
Qed.

Lemma matches_has_technique materialQuality lodDistance entry :
  Spec.matches materialQuality lodDistance entry = true ->
  exists tech, technique_ entry = Some tech.
Proof.
  unfold Spec.matches, Spec.unsupported.
  destruct (technique_ entry) as [tech|]; [by exists tech|done].
Qed.

(** C7.  Technique selection is the selection the specification words: the
    technique of the only entry when there is exactly one; otherwise the
    technique of the first entry, in list order, that is supported, whose
    quality level does not exceed the material quality and whose LOD-distance
    threshold is at most the drawable's LOD distance; and the technique of
    the last entry when no entry matches.  An entry without a technique
    counts as unsupported. *)
Theorem FindTechnique_refines_spec (c : SceneBatchCollector.Collector)
    (drawable : Drawable) (material : Material) :
  SceneBatchCollector.FindTechnique c drawable material
  = Spec.FindTechnique (SceneBatchCollector.materialQuality_ c)
      (GetLodDistance drawable) (GetTechniques material).
Proof.
  unfold SceneBatchCollector.FindTechnique, Spec.FindTechnique.
  rewrite FindTechnique_scan_find.
  assert (Hfound : forall l,
    match
      match List.find (Spec.matches (SceneBatchCollector.materialQuality_ c)
                         (GetLodDistance drawable)) l with
      | Some entry => technique_ entry
      | None => None
      end
    with
    | Some tech => Some tech
    | None => match list.last l with Some back => technique_ back | None => None end
    end
    = match List.find (Spec.matches (SceneBatchCollector.materialQuality_ c)
                         (GetLodDistance drawable)) l with
      | Some entry => technique_ entry
      | None => match list.last l with Some back => technique_ back | None => None end
      end).
  { intros l. destruct (List.find _ l) as [entry|] eqn:Hfind; [|done].
    apply find_some in Hfind as [_ Hm].
    apply matches_has_technique in Hm as [tech ->]. done. }
  destruct (GetTechniques material) as [|e1 [|e2 rest]]; [apply Hfound|done|apply Hfound].
Qed.

(** ** Lit geometries of point and spot lights *)

Lemma nonzero_true x : nonzero x = true <-> x <> 0%N.
Proof. unfold nonzero. rewrite negb_true_iff, N.eqb_neq. done. Qed.

Lemma hit_true i : SceneBatchCollector.hit i = true <-> i <> SceneBatchCollector.OUTSIDE.
Proof. destruct i; simpl; split; congruence. Qed.

Lemma litCandidateb_true traits lightMask volume inside d :
  Spec.litCandidateb traits lightMask volume inside d = true
  <-> Spec.litCandidate traits lightMask volume inside d.
Proof.
  unfold Spec.litCandidateb, Spec.litCandidate.
  destruct (traits !! GetDrawableIndex d) as [t|].
  - rewrite !andb_true_iff, orb_true_iff, !nonzero_true, hit_true.
    split.
    + intros [[Hv Hm] Hi]. split; [by exists t|done].
    + intros [(t' & [= <-] & Hv) [Hm Hi]]. done.
  - split; [done|]. intros [(t & [=] & _) _].
Qed.

Lemma PointLight_TestDrawables_filter q range inside :
  Forall (fun d => GetDrawableIndex d < length (SceneBatchCollector.pq_transientData_ q)) range ->
  SceneBatchCollector.PointLight_TestDrawables q range inside
  = Ok {| SceneBatchCollector.pq_result_ :=
            SceneBatchCollector.pq_result_ q
            ++ List.filter (Spec.litCandidateb (SceneBatchCollector.pq_transientData_ q)
                              (SceneBatchCollector.pq_lightMask_ q)
                              (SceneBatchCollector.sphere_IsInsideFast q) inside) range;
          SceneBatchCollector.sphere_IsInsideFast := SceneBatchCollector.sphere_IsInsideFast q;
          SceneBatchCollector.pq_transientData_ := SceneBatchCollector.pq_transientData_ q;
          SceneBatchCollector.pq_lightMask_ := SceneBatchCollector.pq_lightMask_ q |}.
Proof.
  revert q. induction range as [|x rest IH]; intros q Hrange; simpl.
  - rewrite app_nil_r. by destruct q.
  - inversion Hrange as [|? ? Hx Hrest]; subst.
    destruct (lookup_lt_is_Some_2 _ _ Hx) as [t Ht].
    unfold Spec.litCandidateb at 1. rewrite Ht. simpl.
    destruct (nonzero (N.land t DrawableVisibleGeometry));
      [destruct (nonzero (N.land (GetLightMask x) (SceneBatchCollector.pq_lightMask_ q)));
       [destruct (inside || SceneBatchCollector.hit _)|]|];
      simpl; rewrite IH by done; simpl; try done.
    by rewrite <- app_assoc.
Qed.

Lemma SpotLight_TestDrawables_filter q range inside :
  Forall (fun d => GetDrawableIndex d < length (SceneBatchCollector.sq_transientData_ q)) range ->
  SceneBatchCollector.SpotLight_TestDrawables q range inside
  = Ok {| SceneBatchCollector.sq_result_ :=
            SceneBatchCollector.sq_result_ q
            ++ List.filter (Spec.litCandidateb (SceneBatchCollector.sq_transientData_ q)
                              (SceneBatchCollector.sq_lightMask_ q)
                              (SceneBatchCollector.frustum_IsInsideFast q) inside) range;
          SceneBatchCollector.frustum_IsInsideFast := SceneBatchCollector.frustum_IsInsideFast q;
          SceneBatchCollector.sq_transientData_ := SceneBatchCollector.sq_transientData_ q;
          SceneBatchCollector.sq_lightMask_ := SceneBatchCollector.sq_lightMask_ q |}.
Proof.
  revert q. induction range as [|x rest IH]; intros q Hrange; simpl.
  - rewrite app_nil_r. by destruct q.
  - inversion Hrange as [|? ? Hx Hrest]; subst.
    destruct (lookup_lt_is_Some_2 _ _ Hx) as [t Ht].
    unfold Spec.litCandidateb at 1. rewrite Ht. simpl.
    destruct (nonzero (N.land t DrawableVisibleGeometry));
      [destruct (nonzero (N.land (GetLightMask x) (SceneBatchCollector.sq_lightMask_ q)));
       [destruct (inside || SceneBatchCollector.hit _)|]|];
      simpl; rewrite IH by done; simpl; try done.
    by rewrite <- app_assoc.
Qed.

Lemma elem_of_litAdded traits lightMask volume visits d :
  d ∈ Spec.litAdded traits lightMask volume visits
  <-> exists range inside, (range, inside) ∈ visits /\ d ∈ range
        /\ Spec.litCandidate traits lightMask volume inside d.
Proof.
  unfold Spec.litAdded. rewrite list_elem_of_In, in_concat. split.
  - intros (l & Hl & Hd). apply in_map_iff in Hl as ([range inside] & <- & Hv).
    apply filter_In in Hd as [Hd Hc]. simpl in *.
    exists range, inside. rewrite <- litCandidateb_true, !list_elem_of_In. done.
  - intros (range & inside & Hv & Hd & Hc).
    exists (List.filter (Spec.litCandidateb traits lightMask volume inside) range). split.
    + apply in_map_iff. exists (range, inside). by rewrite <- list_elem_of_In.
    + apply filter_In. by rewrite <- list_elem_of_In, litCandidateb_true.
Qed.

Lemma Octree_GetDrawables_point visits q :
  Spec.visitsInRange (SceneBatchCollector.pq_transientData_ q) visits ->
  exists q',
    SceneBatchCollector.Octree_GetDrawables SceneBatchCollector.PointLight_TestDrawables
      visits q = Ok q'
    /\ SceneBatchCollector.pq_result_ q'
       = SceneBatchCollector.pq_result_ q
         ++ Spec.litAdded (SceneBatchCollector.pq_transientData_ q)
              (SceneBatchCollector.pq_lightMask_ q)
              (SceneBatchCollector.sphere_IsInsideFast q) visits.
Proof.
  revert q. induction visits as [|[range inside] rest IH]; intros q Hin; simpl.
  - exists q. by rewrite app_nil_r.
  - rewrite PointLight_TestDrawables_filter; simpl.
    + edestruct IH as (q' & Hrun & Hres); [|rewrite Hrun; exists q'; split; [reflexivity|]].
      * intros r i d Hv Hd. apply (Hin r i d); [apply elem_of_cons; by right|done].
      * rewrite Hres. simpl. unfold Spec.litAdded. simpl. by rewrite app_assoc.
    + apply list.Forall_forall. intros d Hd. apply (Hin range inside d); [apply elem_of_cons; by left|done].
Qed.

Lemma Octree_GetDrawables_spot visits q :
  Spec.visitsInRange (SceneBatchCollector.sq_transientData_ q) visits ->
  exists q',
    SceneBatchCollector.Octree_GetDrawables SceneBatchCollector.SpotLight_TestDrawables
      visits q = Ok q'
    /\ SceneBatchCollector.sq_result_ q'
       = SceneBatchCollector.sq_result_ q
         ++ Spec.litAdded (SceneBatchCollector.sq_transientData_ q)
              (SceneBatchCollector.sq_lightMask_ q)
              (SceneBatchCollector.frustum_IsInsideFast q) visits.
Proof.
  revert q. induction visits as [|[range inside] rest IH]; intros q Hin; simpl.
  - exists q. by rewrite app_nil_r.
  - rewrite SpotLight_TestDrawables_filter; simpl.
    + edestruct IH as (q' & Hrun & Hres); [|rewrite Hrun; exists q'; split; [reflexivity|]].
      * intros r i d Hv Hd. apply (Hin r i d); [apply elem_of_cons; by right|done].
      * rewrite Hres. simpl. unfold Spec.litAdded. simpl. by rewrite app_assoc.
    + apply list.Forall_forall. intros d Hd. apply (Hin range inside d); [apply elem_of_cons; by left|done].
Qed.

(** C8.  For a spot or point light, the query adds to the light's
    lit-geometry list exactly the candidates its spatial query hands over
    that are marked visible-geometry in the transient index, whose light mask
    meets the light's effective light mask, and that are inside the query
    volume or whose world bounding box is not outside of it; so what is added
    is a part of the candidates of the spatial query. *)
Theorem CollectLitGeometries_point_spot (visits : list (list Drawable * bool))
    (volume : BoundingBox -> SceneBatchCollector.Intersection) (light : Drawable)
    (litGeometries : list Drawable) (c : SceneBatchCollector.Collector) :
  GetLightType light = LIGHT_SPOT \/ GetLightType light = LIGHT_POINT ->
  Spec.visitsInRange (SceneBatchCollector.traits_ c) visits ->
  exists added,
    SceneBatchCollector.CollectLitGeometries visits volume light litGeometries c
    = Ok (litGeometries ++ added)
    /\ (forall d, d ∈ added <->
          exists range inside, (range, inside) ∈ visits /\ d ∈ range
            /\ Spec.litCandidate (SceneBatchCollector.traits_ c) (GetLightMaskEffective light)
                 volume inside d)
    /\ (forall d, d ∈ added -> d ∈ concat (map fst visits)).
Proof.
  intros Htype Hin.
  exists (Spec.litAdded (SceneBatchCollector.traits_ c) (GetLightMaskEffective light) volume visits).
  split; [|split].
  - unfold SceneBatchCollector.CollectLitGeometries.
    destruct Htype as [-> | ->].
    + edestruct (Octree_GetDrawables_spot visits) as (q' & -> & Hres); [exact Hin|].
      simpl. by rewrite Hres.
    + edestruct (Octree_GetDrawables_point visits) as (q' & -> & Hres); [exact Hin|].
      simpl. by rewrite Hres.
  - apply elem_of_litAdded.
  - intros d Hd. apply elem_of_litAdded in Hd as (range & inside & Hv & Hd & _).
    apply list_elem_of_In, in_concat. exists range. split.
    + apply in_map_iff. exists (range, inside). by rewrite <- list_elem_of_In.
    + by apply list_elem_of_In.
Qed.

Lemma CollectLitGeometries_point_spot_witness :
  (GetLightType Scenes.pointLight = LIGHT_SPOT \/ GetLightType Scenes.pointLight = LIGHT_POINT)
  /\ Spec.visitsInRange (SceneBatchCollector.traits_ Scenes.litCollector)
       [([Scenes.litGeometry], false)]
  /\ exists added,
       SceneBatchCollector.CollectLitGeometries [([Scenes.litGeometry], false)]
         Scenes.wholeSphere Scenes.pointLight [] Scenes.litCollector
       = Ok ([] ++ added)
       /\ (forall d, d ∈ added <->
             exists range inside,
               (range, inside) ∈ [([Scenes.litGeometry], false)] /\ d ∈ range
               /\ Spec.litCandidate (SceneBatchCollector.traits_ Scenes.litCollector)
                    (GetLightMaskEffective Scenes.pointLight) Scenes.wholeSphere inside d)
       /\ (forall d, d ∈ added -> d ∈ concat (map fst [([Scenes.litGeometry], false)])).
Proof.
  assert (Hin : Spec.visitsInRange (SceneBatchCollector.traits_ Scenes.litCollector)
                  [([Scenes.litGeometry], false)]).
  { intros range inside d Hv Hd.
    apply list_elem_of_singleton in Hv. injection Hv as -> ->.
    apply list_elem_of_singleton in Hd as ->. simpl. lia. }
  split; [right; reflexivity|]. split; [exact Hin|].
  apply CollectLitGeometries_point_spot; [right; reflexivity|exact Hin].
Defined.

(** ** ScenePass::AddSourceBatch *)

Lemma tv_Insert_Ok {T} (tv : ThreadedVector T) threadIndex lane value :
  tv !! threadIndex = Some lane ->
  tv_Insert tv threadIndex value = Ok (<[threadIndex := lane ++ [value]]> tv, length lane).
Proof. intros H. unfold tv_Insert. by rewrite H. Qed.

(** C10.  On a lane of the pass, [AddSourceBatch] returns true exactly when
    the technique has a pass at the light-pass index and a lit or an unlit
    base pass.  With a light pass and an unlit base pass but no lit base
    pass, the source batch is inserted twice: into the unlit collection with
    the unlit base pass and no light pass, and into the lit collection with a
    null base pass and the light pass.  Without a light pass, a batch with
    the unlit base pass that was found, null or not, is inserted into the
    unlit collection and false is returned. *)
Theorem AddSourceBatch_cases {Cache} (ndebug : bool) (threadIndex : nat)
    (drawable : Drawable) (sourceBatchIndex : nat) (technique : Technique)
    (sp : ScenePass.ScenePass Cache) (unlitLane litLane : list IntermediateSceneBatch) :
  ScenePass.unlitBatches_ sp !! threadIndex = Some unlitLane ->
  ScenePass.litBatches_ sp !! threadIndex = Some litLane ->
  let unlitBasePass := GetPass technique (ScenePass.unlitBasePassIndex_ sp) in
  let litBasePass := GetPass technique (ScenePass.litBasePassIndex_ sp) in
  let lightPass := GetPass technique (ScenePass.lightPassIndex_ sp) in
  let run := ScenePass.AddSourceBatch ndebug threadIndex drawable sourceBatchIndex technique sp in
  let unlitBatch :=
    {| geometry_ := Some drawable; sourceBatchIndex_ := sourceBatchIndex;
       basePass_ := unlitBasePass; additionalPass_ := None |} in
  let lightOnlyBatch :=
    {| geometry_ := Some drawable; sourceBatchIndex_ := sourceBatchIndex;
       basePass_ := None; additionalPass_ := lightPass |} in
  ((exists sp', run = Ok (sp', true))
   <-> lightPass <> None /\ (litBasePass <> None \/ unlitBasePass <> None))
  /\ (lightPass <> None -> litBasePass = None -> unlitBasePass <> None ->
      exists sp', run = Ok (sp', true)
        /\ ScenePass.unlitBatches_ sp'
           = <[threadIndex := unlitLane ++ [unlitBatch]]> (ScenePass.unlitBatches_ sp)
        /\ ScenePass.litBatches_ sp'
           = <[threadIndex := litLane ++ [lightOnlyBatch]]> (ScenePass.litBatches_ sp))
  /\ (lightPass = None ->
      exists sp', run = Ok (sp', false)
        /\ ScenePass.unlitBatches_ sp'
           = <[threadIndex := unlitLane ++ [unlitBatch]]> (ScenePass.unlitBatches_ sp)
        /\ ScenePass.litBatches_ sp' = ScenePass.litBatches_ sp).
Proof.
  intros Hunlit Hlit unlitBasePass litBasePass lightPass run unlitBatch lightOnlyBatch.
  subst run unlitBatch lightOnlyBatch. unfold ScenePass.AddSourceBatch.
  fold unlitBasePass litBasePass lightPass.
  clearbody unlitBasePass litBasePass lightPass.
  destruct lightPass as [lp|], litBasePass as [lb|], unlitBasePass as [ub|]; simpl;
    rewrite ?(tv_Insert_Ok _ _ _ _ Hunlit); simpl;
    rewrite ?(tv_Insert_Ok _ _ _ _ Hlit); simpl;
    (split; [|split]);
    try solve [intros; congruence];
    try solve [intros; eexists; split; [reflexivity|]; done];
    try solve [split; [intros _; split; [done|auto]|intros _; eauto]];
    try solve [split; [intros [sp' H]; discriminate|intros [H _]; done]].
  split.
  - intros [sp' H]. destruct ndebug; simpl in H; discriminate.
  - intros [_ [H|H]]; done.
Qed.

Lemma AddSourceBatch_cases_witness :
  ((exists sp',
      ScenePass.AddSourceBatch true 0 Scenes.litGeometry 0 Scenes.techBaseLight
        Scenes.startedScenePass = Ok (sp', true))
   <-> GetPass Scenes.techBaseLight 2%N <> None
       /\ (GetPass Scenes.techBaseLight 1%N <> None
           \/ GetPass Scenes.techBaseLight 0%N <> None))
  /\ (exists sp',
        ScenePass.AddSourceBatch true 0 Scenes.litGeometry 0 Scenes.techBaseLight
          Scenes.startedScenePass = Ok (sp', true)
        /\ ScenePass.unlitBatches_ sp'
           = [[{| geometry_ := Some Scenes.litGeometry; sourceBatchIndex_ := 0;
                  basePass_ := Some Scenes.basePass; additionalPass_ := None |}]]
        /\ ScenePass.litBatches_ sp'
           = [[{| geometry_ := Some Scenes.litGeometry; sourceBatchIndex_ := 0;
                  basePass_ := None; additionalPass_ := Some Scenes.lightPass |}]]).
Proof.
  destruct (AddSourceBatch_cases true 0 Scenes.litGeometry 0 Scenes.techBaseLight
              Scenes.startedScenePass [] [] eq_refl eq_refl) as (Hiff & Hboth & _).
  split; [exact Hiff|].
  apply Hboth; vm_compute; congruence.
Defined.

(** ** Runs that show defects *)

(** The lit classifier reads the light accumulators only at the drawable
    index held by the slot it is about to assign: two accumulator tables that
    agree at that index give the same outcome, whatever they hold at the
    index of the drawable of the intermediate batch. *)
Lemma CollectLitBatches_element_slot {Cache}
    (GetPipelineState : Cache -> ScenePass.ScenePipelineStateKey -> option PipelineState)
    (sp : ScenePass.ScenePass Cache) mainLightIndex mainLightHash sceneLights
    (drawableLighting drawableLighting' : list DrawableLightData)
    threadIndex offset i intermediateBatch (st : ScenePass.LitPhase) slot :
  ScenePass.lp_base st !! (i + offset) = Some slot ->
  drawableLighting !! ScenePass.drawableIndex_ slot
  = drawableLighting' !! ScenePass.drawableIndex_ slot ->
  ScenePass.CollectLitBatches_element GetPipelineState sp mainLightIndex mainLightHash
    sceneLights drawableLighting threadIndex offset i intermediateBatch st
  = ScenePass.CollectLitBatches_element GetPipelineState sp mainLightIndex mainLightHash
      sceneLights drawableLighting' threadIndex offset i intermediateBatch st.
Proof.
  intros Hslot Hsame. unfold ScenePass.CollectLitBatches_element.
  rewrite Hslot. simpl. by rewrite Hsame.
Qed.

(** C1.  The lit classifier reads the pixel lights at the drawable index
    stored in the slot of [litBaseBatches_] before the slot is assigned: at
    the start of a frame that is index 0, not the index of the batch's
    drawable.  The drawable of the batch has index 1.  When its top-ranked
    light is the main light and drawable 0 has no lights, the base batch
    carries no light and is looked up under light hash 0; when it has no
    lights and drawable 0 has the main light, the base batch carries the main
    light.  A base batch without light that misses the cache is then created
    under the main light's hash. *)
Theorem CollectLitBatches_reads_slot_index :
  Scenes.litRun [[]; [(1%float, 0%N)]]
  = Ok ([(M_MAX_UNSIGNED, Some (MkPipelineState 7))], 0, [(false, 0%N); (true, 7%N)])
  /\ Scenes.litRun [[(1%float, 0%N)]; []]
     = Ok ([(0%N, Some (MkPipelineState 7))], 0, [(false, 7%N); (true, 7%N)]).
Proof. split; vm_compute; reflexivity. Qed.

(** C3.  A [ForwardLitBase] pass without its first-light pass is found
    invalid by [InitializePasses]: a build with assertions aborts; a build
    without them keeps the pass in [passes_] with its buckets uncleared, and
    the collection of the frame inserts a batch into its unlit bucket, next
    to the batch the bucket holds from the frame before.  In a first frame
    the bucket has no lanes and the insertion is undefined. *)
Theorem invalid_pass_is_collected :
  Scenes.collected
    (c ← Scenes.frame true [Scenes.unlitDesc] [(0, 1)] [Scenes.firstGeometry]
           Scenes.newCollector;
     Scenes.frame true [Scenes.brokenDesc] [(0, 1)] [Scenes.firstGeometry] c)
  = Ok ([3%N], [0],
        [(false, [Scenes.unlitBatchOf Scenes.firstGeometry;
                  Scenes.unlitBatchOf Scenes.firstGeometry], [])])
  /\ Scenes.frame false [Scenes.brokenDesc] [(0, 1)] [Scenes.firstGeometry]
       Scenes.newCollector = AssertFailed
  /\ Scenes.frame true [Scenes.brokenDesc] [(0, 1)] [Scenes.firstGeometry]
       Scenes.newCollector = Undefined.
Proof. repeat split; vm_compute; reflexivity. Qed.

(** C4.  A drawable beyond its draw distance ends the work on its chunk: the
    geometry after it in the chunk is not updated, not marked visible and
    yields no batch.  The same geometry is collected when it stands before
    the far drawable, or in a chunk of its own. *)
Theorem draw_distance_ends_chunk :
  SceneBatchCollector.tooFar Scenes.farGeometry = true
  /\ SceneBatchCollector.tooFar Scenes.nearGeometry = false
  /\ Scenes.collected
       (Scenes.frame true [Scenes.unlitDesc] [(0, 2)]
          [Scenes.farGeometry; Scenes.nearGeometry] Scenes.newCollector)
     = Ok ([1%N; 0%N], [], [(true, [], [])])
  /\ Scenes.collected
       (Scenes.frame true [Scenes.unlitDesc] [(0, 2)]
          [Scenes.nearGeometry; Scenes.farGeometry] Scenes.newCollector)
     = Ok ([1%N; 3%N], [1], [(true, [Scenes.unlitBatchOf Scenes.nearGeometry], [])])
  /\ Scenes.collected
       (Scenes.frame true [Scenes.unlitDesc] [(0, 1); (0, 1)]
          [Scenes.farGeometry; Scenes.nearGeometry] Scenes.newCollector)
     = Ok ([1%N; 3%N], [1], [(true, [Scenes.unlitBatchOf Scenes.nearGeometry], [])]).
Proof. repeat split; vm_compute; reflexivity. Qed.

(** ** Classification of source batches *)

Lemma insert_alter_lookup {A} (f : A -> A) (l : list A) i x :
  l !! i = Some x -> <[i := f x]> l = alter f i l.
Proof.
  revert i. induction l as [|y l IH]; intros [|i] H; simpl in *; try done.
  - by injection H as ->.
  - f_equal. by apply IH.
Qed.

Lemma tv_Insert_inv {T} (tv tv' : ThreadedVector T) threadIndex value n :
  tv_Insert tv threadIndex value = Ok (tv', n) ->
  exists lane, tv !! threadIndex = Some lane
    /\ tv' = alter (fun lane => lane ++ [value]) threadIndex tv
    /\ n = length lane.
Proof.
  unfold tv_Insert. destruct (tv !! threadIndex) as [lane|] eqn:Hlane; [|done].
  intros [= <- <-]. exists lane. split; [done|]. split; [|done].
  by apply (insert_alter_lookup (fun lane => lane ++ [value])).
Qed.

Lemma or_trait_inv (traits : list N) i flag traits' :
  or_trait traits i flag = Ok traits' ->
  exists t, traits !! i = Some t /\ traits' = alter (fun t => N.lor t flag) i traits.
Proof.
  unfold or_trait. destruct (traits !! i) as [t|] eqn:Ht; simpl; [|done].
  intros [= <-]. exists t. split; [done|].
  by apply (insert_alter_lookup (fun t => N.lor t flag)).
Qed.

Lemma alter_app_nil {A} (tv : list (list A)) i :
  alter (fun lane => lane ++ []) i tv = tv.
Proof. apply list_alter_id. intros lane. apply app_nil_r. Qed.

Lemma alter_flag_false (traits : list N) i :
  alter (fun t => N.lor t (Spec.flagIf false)) i traits = traits.
Proof. apply list_alter_id. intros t. apply N.lor_0_r. Qed.

(** One pass of "Fill passes". *)
Lemma FillPass_classified threadIndex drawable i technique pass traits pass' traits' :
  SceneBatchCollector.FillPass threadIndex drawable i technique pass traits
  = Ok (pass', traits') ->
  Spec.appended threadIndex
    (Spec.classified Spec.LitBucket pass drawable i technique)
    (Spec.classified Spec.UnlitBucket pass drawable i technique) pass pass'
  /\ traits'
     = alter (fun t => N.lor t (Spec.flagIf (Spec.nonempty
                (Spec.classified Spec.LitBucket pass drawable i technique))))
         (GetDrawableIndex drawable) traits.
Proof.
  unfold SceneBatchCollector.FillPass, SceneBatchCollector.CreateIntermediateSceneBatch,
    Spec.classified, Spec.classify, Spec.appended, Spec.sameConfig.
  destruct (SceneBatchCollector.type_ (SceneBatchCollector.desc_ pass));
    destruct (GetPass technique (SceneBatchCollector.basePassIndex_ pass));
    destruct (GetPass technique (SceneBatchCollector.firstLightPassIndex_ pass));
    destruct (GetPass technique (SceneBatchCollector.additionalLightPassIndex_ pass));
    simpl; intros H; ok_inv;
    repeat match goal with
    | H : tv_Insert _ _ _ = Ok _ |- _ => apply tv_Insert_inv in H as (? & ? & -> & ->)
    | H : or_trait _ _ _ = Ok _ |- _ => apply or_trait_inv in H as (? & ? & ->)
    end;
    simpl; rewrite ?alter_app_nil, ?alter_flag_false; done.
Qed.

Lemma classify_sameConfig pass pass' technique :
  Spec.sameConfig pass pass' -> Spec.classify pass' technique = Spec.classify pass technique.
Proof. intros (Hd & Hb & Hf & Ha). unfold Spec.classify. by rewrite Hd, Hb, Hf, Ha. Qed.

Lemma batchesFrom_ext bucket c c' pass pass' drawable i sourceBatches :
  SceneBatchCollector.renderer_ c' = SceneBatchCollector.renderer_ c ->
  SceneBatchCollector.materialQuality_ c' = SceneBatchCollector.materialQuality_ c ->
  Spec.sameConfig pass pass' ->
  Spec.batchesFrom bucket c' pass' drawable i sourceBatches
  = Spec.batchesFrom bucket c pass drawable i sourceBatches.
Proof.
  intros Hr Hq Hcfg. revert i.
  induction sourceBatches as [|sb rest IH]; intros i; simpl; [done|].
  rewrite IH. f_equal.
  unfold Spec.techniqueOf, SceneBatchCollector.FindTechnique, Spec.classified.
  rewrite Hr, Hq.
  destruct (match GetTechniques _ with [] => _ | _ => _ end) as [technique|]; [|done].
  by rewrite (classify_sameConfig _ _ _ Hcfg).
Qed.

Lemma sameConfig_refl pass : Spec.sameConfig pass pass.
Proof. by repeat split. Qed.

Lemma sameConfig_trans p1 p2 p3 :
  Spec.sameConfig p1 p2 -> Spec.sameConfig p2 p3 -> Spec.sameConfig p1 p3.
Proof.
  intros (H1 & H2 & H3 & H4) (H1' & H2' & H3' & H4').
  repeat split; congruence.
Qed.

Lemma appended_refl threadIndex pass : Spec.appended threadIndex [] [] pass pass.
Proof.
  split; [apply sameConfig_refl|]. by rewrite !alter_app_nil.
Qed.

Lemma appended_trans threadIndex lit1 unlit1 lit2 unlit2 p1 p2 p3 :
  Spec.appended threadIndex lit1 unlit1 p1 p2 ->
  Spec.appended threadIndex lit2 unlit2 p2 p3 ->
  Spec.appended threadIndex (lit1 ++ lit2) (unlit1 ++ unlit2) p1 p3.
Proof.
  intros (Hc & Hl & Hu) (Hc' & Hl' & Hu').
  split; [by eapply sameConfig_trans|].
  rewrite Hl', Hu', Hl, Hu, !list_alter_alter_eq.
  split; (apply list_alter_ext; [|done]); intros lane _; simpl; by rewrite <- app_assoc.
Qed.

Lemma flagIf_orb a b t :
  N.lor (N.lor t (Spec.flagIf a)) (Spec.flagIf b) = N.lor t (Spec.flagIf (a || b)).
Proof.
  rewrite <- N.lor_assoc. f_equal.
  by destruct a, b.
Qed.

Lemma alter_flag_alter_flag (traits : list N) i a b :
  alter (fun t => N.lor t (Spec.flagIf b)) i (alter (fun t => N.lor t (Spec.flagIf a)) i traits)
  = alter (fun t => N.lor t (Spec.flagIf (a || b))) i traits.
Proof.
  rewrite list_alter_alter_eq. apply list_alter_ext; [|done].
  intros t _. simpl. apply flagIf_orb.
Qed.

Lemma nonempty_app {A} (l k : list A) :
  Spec.nonempty (l ++ k) = Spec.nonempty l || Spec.nonempty k.
Proof. by destruct l, k. Qed.

(** The loop "Fill passes". *)
Lemma FillPasses_classified threadIndex drawable i technique passes traits passes' traits' :
  SceneBatchCollector.FillPasses threadIndex drawable i technique passes traits
  = Ok (passes', traits') ->
  Forall2 (fun pass pass' =>
             Spec.appended threadIndex
               (Spec.classified Spec.LitBucket pass drawable i technique)
               (Spec.classified Spec.UnlitBucket pass drawable i technique) pass pass')
          passes passes'
  /\ traits'
     = alter (fun t => N.lor t (Spec.flagIf
                (existsb (fun pass => Spec.nonempty
                            (Spec.classified Spec.LitBucket pass drawable i technique))
                         passes)))
         (GetDrawableIndex drawable) traits.
Proof.
  revert traits passes' traits'.
  induction passes as [|pass rest IH]; intros traits passes' traits' H; simpl in H.
  - ok_inv. split; [constructor|]. simpl. by rewrite alter_flag_false.
  - ok_inv.
    match goal with
    | H : SceneBatchCollector.FillPass _ _ _ _ _ _ = Ok _ |- _ =>
        apply FillPass_classified in H as [Happ ->]
    end.
    match goal with
    | H : SceneBatchCollector.FillPasses _ _ _ _ _ _ = Ok _ |- _ =>
        apply IH in H as [Hrest ->]
    end.
    split; [by constructor|]. simpl. apply alter_flag_alter_flag.
Qed.

Lemma existsb_ext {A} (f g : A -> bool) (l : list A) :
  (forall x, f x = g x) -> existsb f l = existsb g l.
Proof. intros H. induction l as [|x l IH]; simpl; [done|]. by rewrite H, IH. Qed.

Lemma existsb_false {A} (l : list A) : existsb (fun _ => false) l = false.
Proof. by induction l. Qed.

Lemma existsb_orb {A} (f g : A -> bool) (l : list A) :
  existsb (fun x => f x || g x) l = existsb f l || existsb g l.
Proof.
  induction l as [|x l IH]; simpl; [done|]. rewrite IH.
  destruct (f x), (g x), (existsb f l), (existsb g l); done.
Qed.

Lemma anyLitFrom_ext c c' drawable i sourceBatches passes passes' :
  SceneBatchCollector.renderer_ c' = SceneBatchCollector.renderer_ c ->
  SceneBatchCollector.materialQuality_ c' = SceneBatchCollector.materialQuality_ c ->
  Forall2 Spec.sameConfig passes passes' ->
  Spec.anyLitFrom c' drawable i sourceBatches passes'
  = Spec.anyLitFrom c drawable i sourceBatches passes.
Proof.
  intros Hr Hq Hcfg. unfold Spec.anyLitFrom.
  induction Hcfg as [|pass pass' passes passes' Hp _ IH]; simpl; [done|].
  by rewrite IH, (batchesFrom_ext _ c c' pass pass').
Qed.

Lemma sameElse_refl c : Spec.sameElse c c.
Proof. by repeat split. Qed.

Lemma sameElse_trans c1 c2 c3 :
  Spec.sameElse c1 c2 -> Spec.sameElse c2 c3 -> Spec.sameElse c1 c3.
Proof.
  intros (?&?&?&?&?&?&?&?) (?&?&?&?&?&?&?&?). repeat split; congruence.
Qed.

Lemma Forall2_appended_refl threadIndex (passes : list SceneBatchCollector.PassData) :
  Forall2 (Spec.appended threadIndex [] []) passes passes.
Proof. induction passes; constructor; auto using appended_refl. Qed.

(** The body of the loop "Collect batches". *)
Lemma CollectSourceBatch_classified threadIndex drawable i sourceBatch c c' :
  SceneBatchCollector.CollectSourceBatch threadIndex drawable i sourceBatch c = Ok c' ->
  Spec.sameElse c c'
  /\ Forall2 (fun pass pass' =>
                Spec.appended threadIndex
                  (Spec.batchesFrom Spec.LitBucket c pass drawable i [sourceBatch])
                  (Spec.batchesFrom Spec.UnlitBucket c pass drawable i [sourceBatch])
                  pass pass')
             (SceneBatchCollector.passes_ c) (SceneBatchCollector.passes_ c')
  /\ SceneBatchCollector.traits_ c'
     = alter (fun t => N.lor t (Spec.flagIf
                (Spec.anyLitFrom c drawable i [sourceBatch] (SceneBatchCollector.passes_ c))))
         (GetDrawableIndex drawable) (SceneBatchCollector.traits_ c).
Proof.
  unfold SceneBatchCollector.CollectSourceBatch, Spec.anyLitFrom. simpl.
  unfold Spec.techniqueOf.
  destruct (SceneBatchCollector.FindTechnique _ _ _) as [technique|] eqn:Htech; intros H.
  - ok_inv.
    match goal with
    | H : SceneBatchCollector.FillPasses _ _ _ _ _ _ = Ok _ |- _ =>
        apply FillPasses_classified in H as [Hfill ->]
    end.
    simpl. split; [by repeat split|]. split.
    + eapply List.Forall2_impl; [|exact Hfill]. intros p p'. by rewrite !app_nil_r.
    + apply list_alter_ext; [|done]. intros t _. do 2 f_equal.
      apply existsb_ext. intros p. by rewrite app_nil_r.
  - ok_inv. split; [apply sameElse_refl|]. split; [apply Forall2_appended_refl|].
    simpl. by rewrite existsb_false, alter_flag_false.
Qed.

(** The loop "Collect batches" over the source batches numbered from [i]. *)
Lemma CollectSourceBatches_classified threadIndex drawable sourceBatches i c c' :
  forEachIndexed (SceneBatchCollector.CollectSourceBatch threadIndex drawable) i
    sourceBatches c = Ok c' ->
  Spec.sameElse c c'
  /\ Forall2 (fun pass pass' =>
                Spec.appended threadIndex
                  (Spec.batchesFrom Spec.LitBucket c pass drawable i sourceBatches)
                  (Spec.batchesFrom Spec.UnlitBucket c pass drawable i sourceBatches)
                  pass pass')
             (SceneBatchCollector.passes_ c) (SceneBatchCollector.passes_ c')
  /\ SceneBatchCollector.traits_ c'
     = alter (fun t => N.lor t (Spec.flagIf
                (Spec.anyLitFrom c drawable i sourceBatches (SceneBatchCollector.passes_ c))))
         (GetDrawableIndex drawable) (SceneBatchCollector.traits_ c).
Proof.
  revert i c c'.
  induction sourceBatches as [|sourceBatch rest IH]; intros i c c' H; simpl in H.
  - ok_inv. split; [apply sameElse_refl|]. split; [apply Forall2_appended_refl|].
    unfold Spec.anyLitFrom. simpl. by rewrite existsb_false, alter_flag_false.
  - apply bind_Ok in H as (c1 & Hone & Hrest).
    apply CollectSourceBatch_classified in Hone as (Hsame & Hpasses & Htraits).
    apply IH in Hrest as (Hsame1 & Hpasses1 & Htraits1).
    assert (Hr : SceneBatchCollector.renderer_ c1 = SceneBatchCollector.renderer_ c)
      by apply Hsame.
    assert (Hq : SceneBatchCollector.materialQuality_ c1
                 = SceneBatchCollector.materialQuality_ c) by apply Hsame.
    assert (Hcfg : Forall2 Spec.sameConfig (SceneBatchCollector.passes_ c)
                     (SceneBatchCollector.passes_ c1)).
    { eapply List.Forall2_impl; [|exact Hpasses]. by intros p p' [? _]. }
    split; [by eapply sameElse_trans|]. split.
    + eapply Forall2_trans; [|exact Hpasses|exact Hpasses1].
      intros p p1 p' Hp Hp1. simpl in *.
      rewrite !(batchesFrom_ext _ c c1 p p1) in Hp1 by (done || apply Hp).
      rewrite !app_nil_r in Hp. by eapply appended_trans.
    + rewrite Htraits1, Htraits.
      rewrite (anyLitFrom_ext c c1 _ _ _ (SceneBatchCollector.passes_ c)) by done.
      rewrite alter_flag_alter_flag. apply list_alter_ext; [|done].
      intros t _. do 2 f_equal. unfold Spec.anyLitFrom.
      rewrite <- existsb_orb. apply existsb_ext. intros p. simpl.
      by rewrite app_nil_r, nonempty_app.
Qed.

(** What a completed collection of a geometry leaves. *)
Lemma CollectGeometry_classified (threadIndex : nat) (drawable : Drawable)
    (c c' : SceneBatchCollector.Collector) :
  SceneBatchCollector.CollectGeometry threadIndex drawable c = Ok c' ->
  Forall2 (Spec.collectedInto c threadIndex drawable)
    (SceneBatchCollector.passes_ c) (SceneBatchCollector.passes_ c')
  /\ SceneBatchCollector.traits_ c'
     = alter (fun t =>
                N.lor (N.lor t DrawableVisibleGeometry)
                  (Spec.flagIf (Spec.anyLitFrom c drawable 0 (GetBatches drawable)
                                  (SceneBatchCollector.passes_ c))))
         (GetDrawableIndex drawable) (SceneBatchCollector.traits_ c).
Proof.
  unfold SceneBatchCollector.CollectGeometry. intros H.
  apply bind_Ok in H as ([geometries n] & Hgeo & H).
  apply bind_Ok in H as (traits & Htraits & H).
  apply bind_Ok in H as (c1 & Hloop & H).
  apply bind_Ok in H as (lighting & _ & H). injection H as <-. simpl.
  apply or_trait_inv in Htraits as (t & Ht & ->). simpl in Ht.
  apply CollectSourceBatches_classified in Hloop as (Hsame & Hpasses & Htr).
  simpl in *. split.
  - eapply List.Forall2_impl; [|exact Hpasses]. intros p p' Hp. unfold Spec.collectedInto. simpl in Hp.
    by rewrite !(batchesFrom_ext _ c (SceneBatchCollector.set_traits _ _) p p) in Hp
      by (done || apply sameConfig_refl).
  - rewrite Htr, list_alter_alter_eq.
    rewrite (anyLitFrom_ext c (SceneBatchCollector.set_traits _ _) _ _ _
               (SceneBatchCollector.passes_ c) (SceneBatchCollector.passes_ c)); try done.
    clear. induction (SceneBatchCollector.passes_ c); constructor; auto using sameConfig_refl.
Qed.

(** ** The collection of a frame is defined *)

Lemma or_trait_defined (traits : list N) i flag :
  i < length traits -> exists traits', or_trait traits i flag = Ok traits'.
Proof.
  intros Hi. apply lookup_lt_is_Some_2 in Hi as [t Ht].
  unfold or_trait. rewrite Ht. simpl. eauto.
Qed.

Lemma tv_Insert_defined {T} (tv : list (list T)) threadIndex x :
  threadIndex < length tv -> exists r, tv_Insert tv threadIndex x = Ok r.
Proof.
  intros Hi. apply lookup_lt_is_Some_2 in Hi as [lane Hlane].
  unfold tv_Insert. rewrite Hlane. eauto.
Qed.

Lemma FillPass_defined threadIndex drawable i technique pass traits :
  threadIndex < length (SceneBatchCollector.litBatches_ pass) ->
  threadIndex < length (SceneBatchCollector.unlitBatches_ pass) ->
  GetDrawableIndex drawable < length traits ->
  exists r, SceneBatchCollector.FillPass threadIndex drawable i technique pass traits = Ok r.
Proof.
  intros Hlit Hunlit Htraits. unfold SceneBatchCollector.FillPass.
  destruct (notnull (additionalPass_ _)).
  - destruct (or_trait_defined traits _ ForwardLit Htraits) as [traits' ->]. simpl.
    edestruct (tv_Insert_defined (SceneBatchCollector.litBatches_ pass)) as [[lit n] ->];
      [exact Hlit|]. simpl. eauto.
  - destruct (notnull (basePass_ _)); [|eauto].
    edestruct (tv_Insert_defined (SceneBatchCollector.unlitBatches_ pass)) as [[unlit n] ->];
      [exact Hunlit|]. simpl. eauto.
Qed.

Lemma FillPasses_defined threadIndex drawable i technique passes traits :
  Forall (fun pass => threadIndex < length (SceneBatchCollector.litBatches_ pass)
                      /\ threadIndex < length (SceneBatchCollector.unlitBatches_ pass))
         passes ->
  GetDrawableIndex drawable < length traits ->
  exists r, SceneBatchCollector.FillPasses threadIndex drawable i technique passes traits
            = Ok r.
Proof.
  intros Hlanes. revert traits.
  induction Hlanes as [|pass rest [Hlit Hunlit] _ IH]; intros traits Htraits; simpl.
  - eauto.
  - destruct (FillPass_defined threadIndex drawable i technique pass traits)
      as [[pass' traits'] Hone]; [done..|].
    rewrite Hone. simpl. apply FillPass_classified in Hone as [_ ->].
    edestruct IH as [[rest' traits''] ->]; [by rewrite length_alter|]. simpl. eauto.
Qed.

Lemma appended_lengths threadIndex lit unlit pass pass' :
  Spec.appended threadIndex lit unlit pass pass' ->
  length (SceneBatchCollector.litBatches_ pass')
  = length (SceneBatchCollector.litBatches_ pass)
  /\ length (SceneBatchCollector.unlitBatches_ pass')
     = length (SceneBatchCollector.unlitBatches_ pass).
Proof. intros (_ & -> & ->). by rewrite !length_alter. Qed.

Lemma CollectSourceBatches_sizes threadIndex drawable sourceBatches i c c' :
  forEachIndexed (SceneBatchCollector.CollectSourceBatch threadIndex drawable) i
    sourceBatches c = Ok c' ->
  Spec.sizes c' = Spec.sizes c.
Proof.
  intros H. apply CollectSourceBatches_classified in H as (Hsame & Hpasses & Htraits).
  destruct Hsame as (_ & _ & _ & _ & Hg & Hl & _ & Hd).
  unfold Spec.sizes. rewrite Hg, Hl, Hd, Htraits, length_alter. f_equal.
  assert (Hlen : Forall2 (fun pass pass' =>
      length (SceneBatchCollector.litBatches_ pass')
      = length (SceneBatchCollector.litBatches_ pass)
      /\ length (SceneBatchCollector.unlitBatches_ pass')
         = length (SceneBatchCollector.unlitBatches_ pass))
    (SceneBatchCollector.passes_ c) (SceneBatchCollector.passes_ c')).
  { eapply List.Forall2_impl; [|exact Hpasses]. intros p p' Hp.
    exact (appended_lengths _ _ _ _ _ Hp). }
  clear Hpasses. revert Hlen.
  generalize (SceneBatchCollector.passes_ c) (SceneBatchCollector.passes_ c').
  intros ps ps' Hlen. induction Hlen as [|p p' ps ps' [Hlit Hunlit] _ IH]; simpl; [done|].
  by rewrite Hlit, Hunlit, IH.
Qed.

Lemma laneReady_sizes threadIndex c c' :
  Spec.sizes c' = Spec.sizes c -> Spec.laneReady threadIndex c ->
  Spec.laneReady threadIndex c'.
Proof.
  unfold Spec.sizes, Spec.laneReady. intros [= Hg Hl _ _ Hp] (? & ? & Hlanes).
  rewrite Hg, Hl. split; [done|]. split; [done|].
  revert Hp Hlanes. generalize (SceneBatchCollector.passes_ c).
  induction (SceneBatchCollector.passes_ c') as [|p' ps' IH]; intros [|p ps] Hp Hlanes;
    simpl in Hp; try done.
  injection Hp as Hlit Hunlit Hp. apply list.Forall_cons in Hlanes as [[? ?] Hlanes].
  constructor; [lia|]. by eapply IH.
Qed.

Lemma indexed_sizes drawable c c' :
  Spec.sizes c' = Spec.sizes c -> Spec.indexed drawable c -> Spec.indexed drawable c'.
Proof.
  unfold Spec.sizes, Spec.indexed. intros [= _ _ Ht Hd _] [? ?]. lia.
Qed.

Lemma CollectSourceBatches_defined threadIndex drawable sourceBatches i c :
  Spec.laneReady threadIndex c -> Spec.indexed drawable c ->
  exists c', forEachIndexed (SceneBatchCollector.CollectSourceBatch threadIndex drawable) i
               sourceBatches c = Ok c'.
Proof.
  revert i c. induction sourceBatches as [|sourceBatch rest IH]; intros i c Hlane Hidx;
    simpl; [eauto|].
  assert (Hone : exists c1,
    SceneBatchCollector.CollectSourceBatch threadIndex drawable i sourceBatch c = Ok c1).
  { unfold SceneBatchCollector.CollectSourceBatch.
    destruct (SceneBatchCollector.FindTechnique _ _ _) as [technique|]; [|eauto].
    destruct (FillPasses_defined threadIndex drawable i technique
                (SceneBatchCollector.passes_ c) (SceneBatchCollector.traits_ c))
      as [[passes traits] ->]; [apply Hlane|apply Hidx|]. simpl. eauto. }
  destruct Hone as [c1 Hone]. rewrite Hone. simpl.
  assert (Hsizes : Spec.sizes c1 = Spec.sizes c).
  { apply (CollectSourceBatches_sizes threadIndex drawable [sourceBatch] i).
    simpl. by rewrite Hone. }
  apply IH; [by eapply laneReady_sizes|by eapply indexed_sizes].
Qed.

Lemma CollectGeometry_defined threadIndex drawable c :
  Spec.laneReady threadIndex c -> Spec.indexed drawable c ->
  exists c', SceneBatchCollector.CollectGeometry threadIndex drawable c = Ok c'.
Proof.
  intros Hlane Hidx. unfold SceneBatchCollector.CollectGeometry.
  destruct (tv_Insert_defined (SceneBatchCollector.visibleGeometries_ c) threadIndex drawable)
    as [[geometries n] Hins]; [apply Hlane|]. rewrite Hins. simpl.
  destruct (or_trait_defined (SceneBatchCollector.traits_ c) (GetDrawableIndex drawable)
              DrawableVisibleGeometry) as [traits Htraits]; [apply Hidx|].
  rewrite Htraits. simpl.
  apply tv_Insert_inv in Hins as (_ & _ & -> & _).
  apply or_trait_inv in Htraits as (_ & _ & ->).
  set (c1 := SceneBatchCollector.set_traits _ _).
  assert (Hsizes : Spec.sizes c1 = Spec.sizes c).
  { unfold Spec.sizes, c1. simpl. by rewrite !length_alter. }
  destruct (CollectSourceBatches_defined threadIndex drawable (GetBatches drawable) 0 c1)
    as [c2 Hloop]; [by eapply laneReady_sizes|by eapply indexed_sizes|].
  rewrite Hloop. simpl.
  apply CollectSourceBatches_sizes in Hloop.
  assert (Hidx2 : Spec.indexed drawable c2).
  { eapply indexed_sizes; [exact Hloop|]. by eapply indexed_sizes. }
  destruct Hidx2 as [_ Hd]. apply lookup_lt_is_Some_2 in Hd as [lighting ->]. simpl. eauto.
Qed.

Lemma CollectGeometry_sizes threadIndex drawable c c' :
  SceneBatchCollector.CollectGeometry threadIndex drawable c = Ok c' ->
  Spec.sizes c' = Spec.sizes c.
Proof.
  unfold SceneBatchCollector.CollectGeometry. intros H.
  apply bind_Ok in H as ([geometries n] & Hgeo & H).
  apply bind_Ok in H as (traits & Htraits & H).
  apply bind_Ok in H as (c1 & Hloop & H).
  apply bind_Ok in H as (lighting & _ & H). injection H as <-.
  apply tv_Insert_inv in Hgeo as (_ & _ & -> & _).
  apply or_trait_inv in Htraits as (_ & _ & ->).
  apply CollectSourceBatches_sizes in Hloop.
  unfold Spec.sizes in *. simpl in *. rewrite !length_alter in Hloop.
  rewrite length_insert. done.
Qed.

(** C5, as amended.  A visible geometry drawable is collected on a lane that
    has its part in the thread-local collections, the drawable having its
    slot in the per-frame indices.  The collection completes, and every pass
    receives, in the order of the source batches for which a technique is
    found: in its lit bucket the batches for which the pass is not of type
    Unlit and the technique has the additional-light pass together with the
    primary pass of the pass type (the base pass for ForwardUnlitBase, the
    first-light pass for ForwardLitBase); in its unlit bucket the batches for
    which the pass is of type Unlit or the technique has no additional-light
    pass, and the technique has the base pass.  Every other batch is dropped
    for the pass.  The drawable is marked visible geometry, and forward-lit
    exactly when it was already or some batch went to a lit bucket. *)
Theorem CollectGeometry_classifies (threadIndex : nat) (drawable : Drawable)
    (c : SceneBatchCollector.Collector) :
  Spec.laneReady threadIndex c ->
  Spec.indexed drawable c ->
  exists c',
    SceneBatchCollector.CollectGeometry threadIndex drawable c = Ok c'
    /\ Forall2 (Spec.collectedInto c threadIndex drawable)
         (SceneBatchCollector.passes_ c) (SceneBatchCollector.passes_ c')
    /\ SceneBatchCollector.traits_ c'
       = alter (fun t =>
                  N.lor (N.lor t DrawableVisibleGeometry)
                    (Spec.flagIf (Spec.anyLitFrom c drawable 0 (GetBatches drawable)
                                    (SceneBatchCollector.passes_ c))))
           (GetDrawableIndex drawable) (SceneBatchCollector.traits_ c).
Proof.
  intros Hlane Hidx.
  destruct (CollectGeometry_defined threadIndex drawable c Hlane Hidx) as [c' Hrun].
  exists c'. split; [exact Hrun|]. by apply CollectGeometry_classified.
Qed.

Lemma CollectGeometry_classifies_witness :
  exists c,
    Scenes.twoPassCollector = Ok c
    /\ exists c',
         SceneBatchCollector.CollectGeometry 0 Scenes.litGeometry c = Ok c'
         /\ Forall2 (Spec.collectedInto c 0 Scenes.litGeometry)
              (SceneBatchCollector.passes_ c) (SceneBatchCollector.passes_ c')
         /\ SceneBatchCollector.traits_ c'
            = alter (fun t =>
                       N.lor (N.lor t DrawableVisibleGeometry)
                         (Spec.flagIf (Spec.anyLitFrom c Scenes.litGeometry 0
                                         (GetBatches Scenes.litGeometry)
                                         (SceneBatchCollector.passes_ c))))
                (GetDrawableIndex Scenes.litGeometry) (SceneBatchCollector.traits_ c).
Proof.
  eexists. split; [vm_compute; reflexivity|].
  apply CollectGeometry_classifies.
  - unfold Spec.laneReady. simpl. repeat split; try lia. repeat constructor; simpl; lia.
  - unfold Spec.indexed. simpl. lia.
Defined.

(** C5 as stated fails.  The pass is a valid ForwardLitBase pass and the
    technique of the batch has the additional-light pass at the index of the
    pass, but no first-light pass: the batch goes to no bucket of the pass,
    and the drawable is not marked forward-lit. *)
Lemma additional_light_pass_alone_is_dropped :
  GetPass Scenes.techBaseLight (Scenes.passIndex "light") = Some Scenes.lightPass
  /\ Scenes.collected
       (Scenes.frame true [Scenes.forwardLitDesc] [(0, 1)] [Scenes.baseLightGeometry]
          Scenes.newCollector)
     = Ok ([N.lor DrawableUpdated DrawableVisibleGeometry], [0], [(true, [], [])]).
Proof. split; vm_compute; reflexivity. Qed.

(** ** Visible lights *)

Lemma concat_alter_snoc {T} (tv : list (list T)) threadIndex lane x :
  tv !! threadIndex = Some lane ->
  concat (alter (fun lane => lane ++ [x]) threadIndex tv) ≡ₚ concat tv ++ [x].
Proof.
  revert threadIndex. induction tv as [|first tv IH]; intros [|t] H; simpl in *; try done.
  - rewrite <- !app_assoc. apply Permutation_app_head, Permutation_app_comm.
  - rewrite (IH _ H). by rewrite app_assoc.
Qed.

Lemma tv_Insert_concat {T} (tv tv' : list (list T)) threadIndex x n :
  tv_Insert tv threadIndex x = Ok (tv', n) -> concat tv' ≡ₚ concat tv ++ [x].
Proof.
  intros H. apply tv_Insert_inv in H as (lane & Hlane & -> & _).
  by eapply concat_alter_snoc.
Qed.

Lemma CollectLight_lights threadIndex light c c' :
  SceneBatchCollector.CollectLight threadIndex light c = Ok c' ->
  concat (SceneBatchCollector.visibleLightsTemp_ c')
  ≡ₚ concat (SceneBatchCollector.visibleLightsTemp_ c)
     ++ (if Spec.qualifies light then [light] else []).
Proof.
  unfold SceneBatchCollector.CollectLight, Spec.qualifies.
  destruct (negb (EffectiveColorIsBlack light) && _); intros H.
  - ok_inv. simpl. by eapply tv_Insert_concat.
  - ok_inv. by rewrite app_nil_r.
Qed.

Lemma CollectGeometry_lights threadIndex drawable c c' :
  SceneBatchCollector.CollectGeometry threadIndex drawable c = Ok c' ->
  SceneBatchCollector.visibleLightsTemp_ c' = SceneBatchCollector.visibleLightsTemp_ c.
Proof.
  unfold SceneBatchCollector.CollectGeometry. intros H.
  apply bind_Ok in H as ([geometries n] & _ & H).
  apply bind_Ok in H as (traits & _ & H).
  apply bind_Ok in H as (c1 & Hloop & H).
  apply bind_Ok in H as (lighting & _ & H). injection H as <-. simpl.
  apply CollectSourceBatches_classified in Hloop as (Hsame & _).
  destruct Hsame as (_ & _ & _ & _ & _ & -> & _). done.
Qed.

Lemma filter_qualifyingLight_cons drawable l :
  filter Spec.qualifyingLight (drawable :: l)
  = (if Spec.isLight drawable && Spec.qualifies drawable then [drawable] else [])
    ++ filter Spec.qualifyingLight l.
Proof.
  rewrite filter_cons. unfold Spec.qualifyingLight at 1.
  destruct (decide _) as [[-> ->]|Hn]; [done|].
  destruct (Spec.isLight drawable), (Spec.qualifies drawable); try done.
  exfalso. by apply Hn.
Qed.

(** One chunk on one lane. *)
Lemma ForThread_lights threadIndex range c c' :
  SceneBatchCollector.UpdateAndCollectSourceBatchesForThread threadIndex range c = Ok c' ->
  concat (SceneBatchCollector.visibleLightsTemp_ c')
  ≡ₚ concat (SceneBatchCollector.visibleLightsTemp_ c)
     ++ filter Spec.qualifyingLight (Spec.reached range).
Proof.
  revert c. induction range as [|drawable rest IH]; intros c H; simpl in H.
  - ok_inv. simpl. by rewrite app_nil_r.
  - apply bind_Ok in H as (traits & _ & H). simpl.
    destruct (SceneBatchCollector.tooFar drawable).
    + ok_inv. simpl. by rewrite app_nil_r.
    + apply bind_Ok in H as (c1 & Hone & H). apply IH in H. rewrite H. clear H IH.
      rewrite filter_qualifyingLight_cons, app_assoc. apply Permutation_app_tail.
      unfold Spec.isLight.
      destruct (nonzero (N.land (GetDrawableFlags drawable) DRAWABLE_GEOMETRY)); simpl.
      * apply CollectGeometry_lights in Hone. rewrite Hone. simpl. by rewrite app_nil_r.
      * destruct (nonzero (N.land (GetDrawableFlags drawable) DRAWABLE_LIGHT)); simpl.
        -- apply CollectLight_lights in Hone. by rewrite Hone.
        -- ok_inv. simpl. by rewrite app_nil_r.
Qed.

(** The parallel for over the drawables. *)
Lemma ForEachParallel_lights schedule offset drawables c c' :
  ForEachParallel schedule
    (fun threadIndex _ drawablesRange =>
       SceneBatchCollector.UpdateAndCollectSourceBatchesForThread threadIndex drawablesRange)
    offset drawables c = Ok c' ->
  concat (SceneBatchCollector.visibleLightsTemp_ c')
  ≡ₚ concat (SceneBatchCollector.visibleLightsTemp_ c)
     ++ filter Spec.qualifyingLight (Spec.processed schedule drawables).
Proof.
  revert offset drawables c.
  induction schedule as [|[threadIndex count] rest IH]; intros offset drawables c H;
    simpl in H.
  - ok_inv. unfold Spec.processed. simpl. by rewrite app_nil_r.
  - apply bind_Ok in H as (c1 & Hchunk & H).
    apply IH in H. apply ForThread_lights in Hchunk.
    rewrite H, Hchunk. unfold Spec.processed. simpl.
    by rewrite list.filter_app, <- app_assoc.
Qed.

Lemma reached_sublist range : Spec.reached range `sublist_of` range.
Proof.
  induction range as [|d rest IH]; simpl; [done|].
  destruct (SceneBatchCollector.tooFar d); [apply sublist_nil_l|by apply sublist_skip].
Qed.

Lemma processed_sublist schedule drawables :
  Spec.processed schedule drawables `sublist_of` drawables.
Proof.
  unfold Spec.processed. revert drawables.
  induction schedule as [|[threadIndex count] rest IH]; intros drawables; simpl.
  - apply sublist_nil_l.
  - rewrite <- (take_drop count drawables) at 3.
    apply sublist_app; [|apply IH].
    etrans; [apply reached_sublist|done].
Qed.

Lemma filter_none {A} (P : A -> Prop) `{forall x, Decision (P x)} (l : list A) :
  (forall z, z ∈ l -> ~ P z) -> filter P l = [].
Proof.
  induction l as [|y l IH]; intros Hl; [done|].
  rewrite filter_cons, decide_False.
  - apply IH. intros z Hz. apply Hl. by apply elem_of_cons; right.
  - apply Hl. by apply elem_of_cons; left.
Qed.

Lemma filter_index_singleton (l : list Drawable) (x : Drawable) :
  NoDup (GetDrawableIndex <$> l) -> x ∈ l ->
  filter (fun d => GetDrawableIndex d = GetDrawableIndex x) l = [x].
Proof.
  induction l as [|y l IH]; intros Hdup Hx; [by apply elem_of_nil in Hx|].
  rewrite fmap_cons in Hdup. apply list.NoDup_cons in Hdup as [Hy Hdup].
  rewrite filter_cons. apply elem_of_cons in Hx as [->|Hx].
  - rewrite decide_True by done. f_equal.
    apply filter_none. intros z Hz Heq.
    apply Hy. rewrite <- Heq. by apply list_elem_of_fmap_2.
  - rewrite decide_False; [by apply IH|].
    intros Heq. apply Hy. rewrite Heq. by apply list_elem_of_fmap_2.
Qed.

(** What a completed collection of a frame leaves in the visible lights. *)
Lemma visible_lights_collected (schedule : list (nat * nat)) (drawables : list Drawable)
    (c c' : SceneBatchCollector.Collector) (light : Drawable) :
  concat (SceneBatchCollector.visibleLightsTemp_ c) = [] ->
  SceneBatchCollector.UpdateAndCollectSourceBatches schedule drawables c = Ok c' ->
  NoDup (GetDrawableIndex <$> drawables) ->
  Spec.isLight light = true ->
  light ∈ Spec.processed schedule drawables ->
  SceneBatchCollector.visibleLights_ c'
  ≡ₚ filter Spec.qualifyingLight (Spec.processed schedule drawables)
  /\ (light ∈ SceneBatchCollector.visibleLights_ c' <-> Spec.qualifies light = true)
  /\ (Spec.qualifies light = true ->
      filter (fun d => GetDrawableIndex d = GetDrawableIndex light)
        (SceneBatchCollector.visibleLights_ c') = [light]).
Proof.
  intros Hclear Hrun Hdup Hlight Hprocessed.
  unfold SceneBatchCollector.UpdateAndCollectSourceBatches in Hrun.
  apply bind_Ok in Hrun as (c1 & Hpar & Hrun). injection Hrun as <-.
  apply ForEachParallel_lights in Hpar. rewrite Hclear in Hpar. simpl in *.
  unfold tv_CopyTo.
  split; [exact Hpar|]. split.
  - rewrite Hpar, list_elem_of_filter. unfold Spec.qualifyingLight. tauto.
  - intros Hq. apply Permutation_singleton_r. rewrite Hpar.
    rewrite filter_index_singleton; [done| |].
    + eapply sublist_NoDup; [exact Hdup|]. apply fmap_sublist.
      etrans; [apply sublist_filter|apply processed_sublist].
    + apply list_elem_of_filter. by split.
Qed.

Lemma CollectLight_defined threadIndex light c :
  Spec.laneReady threadIndex c ->
  exists c', SceneBatchCollector.CollectLight threadIndex light c = Ok c'
             /\ Spec.sizes c' = Spec.sizes c.
Proof.
  intros (_ & Hlane & _). unfold SceneBatchCollector.CollectLight.
  destruct (negb (EffectiveColorIsBlack light) && _); [|eauto].
  destruct (tv_Insert_defined (SceneBatchCollector.visibleLightsTemp_ c) threadIndex light
              Hlane) as [[lights n] Hins].
  rewrite Hins. simpl. eexists. split; [done|].
  apply tv_Insert_inv in Hins as (_ & _ & -> & _).
  unfold Spec.sizes. simpl. by rewrite length_alter.
Qed.

Lemma ForThread_defined threadIndex range c :
  Spec.laneReady threadIndex c ->
  Forall (fun drawable => Spec.indexed drawable c) range ->
  exists c',
    SceneBatchCollector.UpdateAndCollectSourceBatchesForThread threadIndex range c = Ok c'
    /\ Spec.sizes c' = Spec.sizes c.
Proof.
  revert c. induction range as [|drawable rest IH]; intros c Hlane Hrange; simpl; [eauto|].
  apply list.Forall_cons in Hrange as [Hidx Hrange].
  destruct (or_trait_defined (SceneBatchCollector.traits_ c) (GetDrawableIndex drawable)
              DrawableUpdated) as [traits Htraits]; [apply Hidx|].
  rewrite Htraits. simpl. apply or_trait_inv in Htraits as (_ & _ & ->).
  set (c1 := SceneBatchCollector.set_traits _ _).
  assert (Hsizes : Spec.sizes c1 = Spec.sizes c).
  { unfold Spec.sizes, c1. simpl. by rewrite length_alter. }
  destruct (SceneBatchCollector.tooFar drawable); [eauto|].
  assert (Hone : exists c2,
    (if nonzero (N.land (GetDrawableFlags drawable) DRAWABLE_GEOMETRY)
     then SceneBatchCollector.CollectGeometry threadIndex drawable c1
     else if nonzero (N.land (GetDrawableFlags drawable) DRAWABLE_LIGHT)
          then SceneBatchCollector.CollectLight threadIndex drawable c1
          else Ok c1) = Ok c2
    /\ Spec.sizes c2 = Spec.sizes c).
  { destruct (nonzero (N.land (GetDrawableFlags drawable) DRAWABLE_GEOMETRY)).
    - destruct (CollectGeometry_defined threadIndex drawable c1) as [c2 Hgeo];
        [by eapply laneReady_sizes|by eapply indexed_sizes|].
      exists c2. split; [done|]. apply CollectGeometry_sizes in Hgeo. congruence.
    - destruct (nonzero (N.land (GetDrawableFlags drawable) DRAWABLE_LIGHT)); [|eauto].
      destruct (CollectLight_defined threadIndex drawable c1) as (c2 & Hlight & Hc2);
        [by eapply laneReady_sizes|].
      exists c2. split; [done|]. congruence. }
  destruct Hone as (c2 & -> & Hc2). simpl.
  destruct (IH c2) as (c' & Hrest & Hc').
  - by eapply laneReady_sizes.
  - eapply list.Forall_impl; [exact Hrange|]. intros d Hd. by eapply indexed_sizes.
  - exists c'. split; [done|]. congruence.
Qed.

Lemma ForEachParallel_defined schedule offset drawables c :
  Forall (fun chunk => Spec.laneReady chunk.1 c) schedule ->
  Forall (fun drawable => Spec.indexed drawable c) drawables ->
  exists c',
    ForEachParallel schedule
      (fun threadIndex _ drawablesRange =>
         SceneBatchCollector.UpdateAndCollectSourceBatchesForThread threadIndex
           drawablesRange)
      offset drawables c = Ok c'.
Proof.
  revert offset drawables c.
  induction schedule as [|[threadIndex count] rest IH]; intros offset drawables c Hlanes Hidx;
    simpl; [eauto|].
  apply list.Forall_cons in Hlanes as [Hlane Hlanes]. simpl in Hlane.
  destruct (ForThread_defined threadIndex (take count drawables) c) as (c1 & -> & Hc1);
    [done|by apply Forall_take|]. simpl.
  apply IH.
  - eapply list.Forall_impl; [exact Hlanes|]. intros chunk. by apply laneReady_sizes.
  - apply Forall_drop. eapply list.Forall_impl; [exact Hidx|]. intros d. by apply indexed_sizes.
Qed.

Lemma UpdateAndCollectSourceBatches_defined schedule drawables c :
  Forall (fun chunk => Spec.laneReady chunk.1 c) schedule ->
  Forall (fun drawable => Spec.indexed drawable c) drawables ->
  exists c', SceneBatchCollector.UpdateAndCollectSourceBatches schedule drawables c = Ok c'.
Proof.
  intros Hlanes Hidx. unfold SceneBatchCollector.UpdateAndCollectSourceBatches.
  destruct (ForEachParallel_defined schedule 0 drawables c Hlanes Hidx) as [c1 ->].
  simpl. eauto.
Qed.

(** C9.  A frame is collected whose lanes have their part in the
    thread-local collections, whose drawables have their slot in the
    per-frame indices and distinct drawable indices, and whose thread-local
    light lists start empty.  The collection completes, and the merged
    visible-light list holds, up to order, the processed drawables that are
    lights with a non-black effective color and a non-zero effective light
    mask.  So a processed light is in the list if and only if it qualifies,
    and a qualifying one is there exactly once. *)
Theorem visible_lights_once (schedule : list (nat * nat)) (drawables : list Drawable)
    (c : SceneBatchCollector.Collector) (light : Drawable) :
  Forall (fun chunk => Spec.laneReady chunk.1 c) schedule ->
  Forall (fun drawable => Spec.indexed drawable c) drawables ->
  concat (SceneBatchCollector.visibleLightsTemp_ c) = [] ->
  NoDup (GetDrawableIndex <$> drawables) ->
  Spec.isLight light = true ->
  light ∈ Spec.processed schedule drawables ->
  exists c',
    SceneBatchCollector.UpdateAndCollectSourceBatches schedule drawables c = Ok c'
    /\ SceneBatchCollector.visibleLights_ c'
       ≡ₚ filter Spec.qualifyingLight (Spec.processed schedule drawables)
    /\ (light ∈ SceneBatchCollector.visibleLights_ c' <-> Spec.qualifies light = true)
    /\ (Spec.qualifies light = true ->
        filter (fun d => GetDrawableIndex d = GetDrawableIndex light)
          (SceneBatchCollector.visibleLights_ c') = [light]).
Proof.
  intros Hlanes Hidx Hclear Hdup Hlight Hprocessed.
  destruct (UpdateAndCollectSourceBatches_defined schedule drawables c Hlanes Hidx)
    as [c' Hrun].
  exists c'. split; [exact Hrun|]. by eapply visible_lights_collected.
Qed.

Lemma visible_lights_once_witness :
  exists c',
    SceneBatchCollector.UpdateAndCollectSourceBatches [(1, 2); (0, 1)]
      [Scenes.brightLight; Scenes.blackLight; Scenes.thirdGeometry] Scenes.lightsFrame
    = Ok c'
    /\ SceneBatchCollector.visibleLights_ c'
       ≡ₚ filter Spec.qualifyingLight
            (Spec.processed [(1, 2); (0, 1)]
               [Scenes.brightLight; Scenes.blackLight; Scenes.thirdGeometry])
    /\ (Scenes.brightLight ∈ SceneBatchCollector.visibleLights_ c'
        <-> Spec.qualifies Scenes.brightLight = true)
    /\ (Spec.qualifies Scenes.brightLight = true ->
        filter (fun d => GetDrawableIndex d = GetDrawableIndex Scenes.brightLight)
          (SceneBatchCollector.visibleLights_ c') = [Scenes.brightLight]).
Proof.
  apply (visible_lights_once [(1, 2); (0, 1)]
           [Scenes.brightLight; Scenes.blackLight; Scenes.thirdGeometry]
           Scenes.lightsFrame).
  - repeat constructor; simpl; lia.
  - repeat constructor; simpl; lia.
  - reflexivity.
  - apply (bool_decide_unpack _). vm_compute. exact I.
  - reflexivity.
  - simpl. apply elem_of_cons. by left.
Defined.

(** ** Loops of the parallel for *)

Lemma forEachIndexed_invariant {A St} (P : nat -> St -> Prop)
    (body : nat -> A -> St -> result St) (l : list A) i st st' :
  (forall k x s s', l !! k = Some x -> P (i + k) s -> body (i + k) x s = Ok s' ->
                    P (S (i + k)) s') ->
  P i st -> forEachIndexed body i l st = Ok st' -> P (i + length l) st'.
Proof.
  revert i st. induction l as [|x rest IH]; intros i st Hstep HP H; simpl in H.
  - injection H as <-. simpl. by rewrite Nat.add_0_r.
  - apply bind_Ok in H as (s1 & Hx & H).
    simpl. rewrite <- Nat.add_succ_comm. apply (IH (S i) s1); [| |exact H].
    + intros k y s s' Hy. rewrite Nat.add_succ_comm. by apply (Hstep (S k)).
    + specialize (Hstep 0 x st s1). rewrite Nat.add_0_r in Hstep. by apply Hstep.
Qed.

(** An invariant indexed by the number of elements done holds after a
    parallel for whose chunks cover the collection, when the loop body keeps
    it for every element, whichever lane runs it. *)
Lemma ForEachParallel_invariant {T St} (P : nat -> St -> Prop)
    (body : nat -> nat -> nat -> T -> St -> result St) (collection : list T) :
  (forall threadIndex offset i x s s',
     collection !! (i + offset) = Some x -> P (i + offset) s ->
     body threadIndex offset i x s = Ok s' -> P (S (i + offset)) s') ->
  forall schedule offset st st',
    P offset st ->
    ForEachParallel schedule
      (fun threadIndex offset batches => forEachIndexed (body threadIndex offset) 0 batches)
      offset (drop offset collection) st = Ok st' ->
    offset + sum_list_with snd schedule = length collection ->
    P (length collection) st'.
Proof.
  intros Hstep schedule.
  induction schedule as [|[threadIndex count] rest IH]; intros offset st st' HP H Hcover;
    simpl in *.
  - injection H as <-. by rewrite <- Hcover, Nat.add_0_r.
  - apply bind_Ok in H as (s1 & Hchunk & H).
    rewrite drop_drop in H. apply (IH (offset + count) s1); [|exact H|lia].
    apply (forEachIndexed_invariant (fun g => P (g + offset))) in Hchunk.
    + rewrite length_take_le in Hchunk by (rewrite length_drop; lia).
      simpl in Hchunk. by rewrite Nat.add_comm.
    + intros k x s s' Hx. simpl. apply Hstep.
      apply lookup_take_Some in Hx as [Hx _]. rewrite lookup_drop in Hx.
      by rewrite Nat.add_comm.
    + exact HP.
Qed.

Lemma forEach_fmap {A B St} (f : A -> B) (body : B -> St -> result St) (l : list A) st :
  forEach body (f <$> l) st = forEach (fun x => body (f x)) l st.
Proof.
  revert st. induction l as [|x l IH]; intros st; simpl; [done|].
  destruct (body (f x) st); simpl; auto.
Qed.

Lemma forEach_ext {A St} (f g : A -> St -> result St) (l : list A) st :
  (forall x s, f x s = g x s) -> forEach f l st = forEach g l st.
Proof.
  intros H. revert st. induction l as [|x l IH]; intros st; simpl; [done|].
  rewrite H. destruct (g x st); simpl; auto.
Qed.

(** What [ForEach] visits, lane by lane. *)
Lemma tv_elements_lookup {T} (tv : list (list T)) threadIndex elementIndex x :
  (threadIndex, elementIndex, x) ∈ tv_elements tv
  <-> exists lane, tv !! threadIndex = Some lane /\ lane !! elementIndex = Some x.
Proof.
  unfold tv_elements. rewrite list_elem_of_In, in_concat. split.
  - intros (l & Hl & Hx). apply list_elem_of_In in Hl, Hx.
    apply elem_of_lookup_imap in Hl as (t & lane & -> & Hlane).
    apply elem_of_lookup_imap in Hx as (e & y & [= -> -> ->] & Hy). eauto.
  - intros (lane & Hlane & Hx).
    exists (imap (fun e y => (threadIndex, e, y)) lane).
    rewrite <- !list_elem_of_In. split.
    + apply elem_of_lookup_imap. eauto.
    + apply elem_of_lookup_imap. eauto.
Qed.

Lemma tv_elements_values_from {T} (F : nat -> nat) (tv : list (list T)) :
  snd <$> concat (imap (fun threadIndex lane =>
                          imap (fun elementIndex x => (F threadIndex, elementIndex, x)) lane)
                       tv)
  = concat tv.
Proof.
  revert F. induction tv as [|lane tv IH]; intros F; [done|].
  rewrite imap_cons. simpl. rewrite fmap_app. f_equal.
  - rewrite fmap_imap. apply list_eq. intros i. rewrite list_lookup_imap.
    by destruct (lane !! i).
  - apply (IH (F ∘ S)).
Qed.

Lemma tv_elements_values {T} (tv : list (list T)) : snd <$> tv_elements tv = concat tv.
Proof. apply (tv_elements_values_from id). Qed.

(** A [ForEach] whose callback reads the elements only visits the merged
    sequence. *)
Lemma tv_ForEach_values {T St} (body : T -> St -> result St) (tv : list (list T)) st :
  tv_ForEach (fun _ _ x => body x) tv st = forEach body (concat tv) st.
Proof.
  unfold tv_ForEach. rewrite <- tv_elements_values, forEach_fmap.
  apply forEach_ext. by intros [[t e] x] s.
Qed.

Lemma length_resize {T} n (fresh : T) v : length (resize n fresh v) = n.
Proof.
  unfold resize. rewrite length_app, length_take, length_replicate. lia.
Qed.

(** ** The unlit path of the classifier *)

(** A loop whose body is defined on every state of an invariant it keeps is
    defined. *)
Lemma forEachIndexed_defined {A St} (P : St -> Prop)
    (body : nat -> A -> St -> result St) (l : list A) i st :
  (forall k x s, l !! k = Some x -> P s -> exists s', body (i + k) x s = Ok s' /\ P s') ->
  P st -> exists st', forEachIndexed body i l st = Ok st' /\ P st'.
Proof.
  revert i st. induction l as [|x rest IH]; intros i st Hstep HP; simpl; [eauto|].
  destruct (Hstep 0 x st) as (s1 & Hx & HP1); [done..|].
  rewrite Nat.add_0_r in Hx. rewrite Hx. simpl.
  apply IH; [|done]. intros k y s Hy Hs.
  rewrite Nat.add_succ_comm. by apply (Hstep (S k)).
Qed.

Lemma forEach_defined {A St} (P : St -> Prop) (body : A -> St -> result St)
    (l : list A) st :
  (forall x s, x ∈ l -> P s -> exists s', body x s = Ok s' /\ P s') ->
  P st -> exists st', forEach body l st = Ok st' /\ P st'.
Proof.
  revert st. induction l as [|x rest IH]; intros st Hstep HP; simpl; [eauto|].
  destruct (Hstep x st) as (s1 & -> & HP1); [apply elem_of_cons; by left|done|].
  simpl. apply IH; [|done]. intros y s Hy. apply Hstep. apply elem_of_cons. by right.
Qed.

(** A parallel for is defined when its loop body is, on every element and on
    every lane of the schedule. *)
Lemma ForEachParallel_body_defined {T St} (P : St -> Prop) (lane : nat -> Prop)
    (body : nat -> nat -> nat -> T -> St -> result St) (collection : list T) :
  (forall threadIndex offset i x s,
     lane threadIndex -> collection !! (i + offset) = Some x -> P s ->
     exists s', body threadIndex offset i x s = Ok s' /\ P s') ->
  forall schedule offset st,
    Forall (fun chunk => lane chunk.1) schedule ->
    P st ->
    exists st',
      ForEachParallel schedule
        (fun threadIndex offset batches =>
           forEachIndexed (body threadIndex offset) 0 batches)
        offset (drop offset collection) st = Ok st'
      /\ P st'.
Proof.
  intros Hstep schedule.
  induction schedule as [|[threadIndex count] rest IH]; intros offset st Hlanes HP;
    simpl; [eauto|].
  apply list.Forall_cons in Hlanes as [Hlane Hlanes]. simpl in Hlane.
  destruct (forEachIndexed_defined P (body threadIndex offset)
              (take count (drop offset collection)) 0 st) as (s1 & -> & HP1); [|done|].
  { intros k x s Hx Hs. simpl. apply Hstep; [done| |done].
    apply lookup_take_Some in Hx as [Hx _]. rewrite lookup_drop in Hx.
    by rewrite Nat.add_comm. }
  simpl. rewrite drop_drop. by apply IH.
Qed.

Section UnlitPath.

Context {Cache : Type}.
Variable GetPipelineState : Cache -> ScenePass.ScenePipelineStateKey -> option PipelineState.
Variable GetOrCreatePipelineState :
  Cache -> ScenePass.ScenePipelineStateKey -> ScenePass.ScenePipelineStateContext ->
  ScenePass.ScenePipelineStateCacheCallback -> Cache * option PipelineState.

(** The batch after the lookup of the concurrent phase. *)
Local Abbreviation lookedUp sp b :=
  (ScenePass.set_pipelineState
     (GetPipelineState (ScenePass.unlitPipelineStateCache_ sp) (Spec.unlitKey b)) b).

Lemma CollectUnlitBatches_element_inv (sp : ScenePass.ScenePass Cache)
    threadIndex offset i intermediateBatch st st' :
  ScenePass.CollectUnlitBatches_element GetPipelineState sp threadIndex offset i
    intermediateBatch st = Ok st' ->
  exists b,
    Spec.unlitBatchOf sp intermediateBatch = Ok b
    /\ i + offset < length (ScenePass.up_batches st)
    /\ ScenePass.up_batches st'
       = <[i + offset := lookedUp sp b]> (ScenePass.up_batches st)
    /\ ScenePass.up_calls st'
       = ScenePass.up_calls st ++ Spec.unlitLookups GetPipelineState
                                    (ScenePass.unlitPipelineStateCache_ sp) [b]
    /\ concat (ScenePass.up_dirty st')
       ≡ₚ concat (ScenePass.up_dirty st)
          ++ Spec.unlitMisses GetPipelineState (ScenePass.unlitPipelineStateCache_ sp)
               (i + offset) [b].
Proof.
  unfold ScenePass.CollectUnlitBatches_element, Spec.unlitBatchOf. intros H.
  apply bind_Ok in H as (slot & Hslot & H). apply defined_Ok in Hslot.
  apply bind_Ok in H as (b & Hb & H).
  exists b. split; [done|]. split; [by eapply lookup_lt_Some|].
  simpl. fold (Spec.unlitKey b) in *.
  destruct (GetPipelineState _ (Spec.unlitKey b)) as [ps|]; simpl in H.
  - injection H as <-. simpl. by rewrite app_nil_r.
  - apply bind_Ok in H as ([dirty n] & Hdirty & H). injection H as <-. simpl.
    split; [done|]. split; [done|]. by eapply tv_Insert_concat.
Qed.

Lemma unlitMisses_app cache g (l k : list ScenePass.BaseSceneBatch) :
  Spec.unlitMisses GetPipelineState cache g (l ++ k)
  = Spec.unlitMisses GetPipelineState cache g l
    ++ Spec.unlitMisses GetPipelineState cache (g + length l) k.
Proof.
  revert g. induction l as [|b l IH]; intros g; simpl.
  - by rewrite Nat.add_0_r.
  - rewrite IH, <- Nat.add_succ_comm. by destruct (GetPipelineState cache _).
Qed.

Lemma elem_of_unlitMisses cache g (made : list ScenePass.BaseSceneBatch) p :
  p ∈ Spec.unlitMisses GetPipelineState cache g made
  <-> exists b, g <= p /\ made !! (p - g) = Some b
                /\ GetPipelineState cache (Spec.unlitKey b) = None.
Proof.
  revert g. induction made as [|b made IH]; intros g; simpl.
  - split; [by intros ?%elem_of_nil|by intros (? & _ & ? & _)].
  - assert (Hrest : p ∈ Spec.unlitMisses GetPipelineState cache (S g) made
                    <-> exists b', S g <= p /\ (b :: made) !! (p - g) = Some b'
                          /\ GetPipelineState cache (Spec.unlitKey b') = None).
    { rewrite IH. split; intros (b' & Hle & Hb' & Hmiss); exists b'.
      - replace (p - g) with (S (p - S g)) by lia. done.
      - replace (p - g) with (S (p - S g)) in Hb' by lia. done. }
    destruct (GetPipelineState cache (Spec.unlitKey b)) as [ps|] eqn:Hb.
    + rewrite Hrest. split; intros (b' & Hle & Hb' & Hmiss); exists b'.
      * split; [lia|done].
      * destruct (decide (p = g)) as [->|]; [|split; [lia|done]].
        rewrite Nat.sub_diag in Hb'. simpl in Hb'. congruence.
    + rewrite elem_of_cons, Hrest. split.
      * intros [->|(b' & Hle & Hb' & Hmiss)].
        -- exists b. rewrite Nat.sub_diag. done.
        -- exists b'. split; [lia|done].
      * intros (b' & Hle & Hb' & Hmiss).
        destruct (decide (p = g)) as [->|]; [by left|right].
        exists b'. split; [lia|done].
Qed.

Lemma NoDup_unlitMisses cache g (made : list ScenePass.BaseSceneBatch) :
  NoDup (Spec.unlitMisses GetPipelineState cache g made).
Proof.
  revert g. induction made as [|b made IH]; intros g; simpl; [constructor|].
  destruct (GetPipelineState cache (Spec.unlitKey b)); [apply IH|].
  apply list.NoDup_cons. split; [|apply IH].
  rewrite elem_of_unlitMisses. intros (? & Hle & _). lia.
Qed.

(** The concurrent phase: every intermediate batch becomes a final batch
    with the handle its lookup found, every lookup is logged, and the dirty
    lists hold the positions of the misses. *)
Lemma CollectUnlitBatches_phase (sp : ScenePass.ScenePass Cache) schedule st st' :
  Spec.covers schedule (tv_Size (ScenePass.unlitBatches_ sp)) ->
  length (ScenePass.up_batches st) = tv_Size (ScenePass.unlitBatches_ sp) ->
  ForEachParallel schedule
    (fun threadIndex offset batches =>
       forEachIndexed (ScenePass.CollectUnlitBatches_element GetPipelineState sp
                         threadIndex offset) 0 batches)
    0 (tv_CopyTo (ScenePass.unlitBatches_ sp)) st = Ok st' ->
  exists made,
    Forall2 (fun intermediateBatch b => Spec.unlitBatchOf sp intermediateBatch = Ok b)
      (tv_CopyTo (ScenePass.unlitBatches_ sp)) made
    /\ ScenePass.up_batches st' = (fun b => lookedUp sp b) <$> made
    /\ ScenePass.up_calls st'
       = ScenePass.up_calls st
         ++ Spec.unlitLookups GetPipelineState (ScenePass.unlitPipelineStateCache_ sp) made
    /\ concat (ScenePass.up_dirty st')
       ≡ₚ concat (ScenePass.up_dirty st)
          ++ Spec.unlitMisses GetPipelineState (ScenePass.unlitPipelineStateCache_ sp) 0 made.
Proof.
  intros Hcover Hlen Hrun. unfold tv_CopyTo, tv_Size in *.
  set (ibs := concat (ScenePass.unlitBatches_ sp)) in *.
  set (cache := ScenePass.unlitPipelineStateCache_ sp) in *.
  pose (P := fun g s =>
    exists made,
      Forall2 (fun ib b => Spec.unlitBatchOf sp ib = Ok b) (take g ibs) made
      /\ ScenePass.up_batches s
         = ((fun b => lookedUp sp b) <$> made) ++ drop g (ScenePass.up_batches st)
      /\ ScenePass.up_calls s
         = ScenePass.up_calls st ++ Spec.unlitLookups GetPipelineState cache made
      /\ concat (ScenePass.up_dirty s)
         ≡ₚ concat (ScenePass.up_dirty st)
            ++ Spec.unlitMisses GetPipelineState cache 0 made).
  assert (Hend : P (length ibs) st').
  { eapply (ForEachParallel_invariant P _ ibs); [| |exact Hrun|exact Hcover].
    - intros threadIndex offset i ib s s' Hib (made & Hmade & Hb & Hc & Hd) Hstep.
      apply CollectUnlitBatches_element_inv in Hstep
        as (b & Hmk & Hlt & Hb' & Hc' & Hd').
      assert (Hlen' : length made = i + offset).
      { apply Forall2_length in Hmade. rewrite <- Hmade, length_take_le; [done|].
        apply lookup_lt_Some in Hib. lia. }
      exists (made ++ [b]). split; [|split; [|split]].
      + rewrite (take_S_r _ _ _ Hib). apply Forall2_app; [done|]. by constructor.
      + rewrite Hb', Hb, fmap_app. simpl.
        rewrite Hb, length_app, length_fmap, Hlen' in Hlt.
        assert (Hdrop : i + offset < length (ScenePass.up_batches st)).
        { rewrite length_drop in Hlt. lia. }
        apply lookup_lt_is_Some_2 in Hdrop as [y Hy].
        rewrite (drop_S _ _ _ Hy).
        rewrite insert_app_r_alt by (rewrite length_fmap; lia).
        rewrite length_fmap, Hlen', Nat.sub_diag. simpl. by rewrite <- app_assoc.
      + rewrite Hc', Hc. unfold Spec.unlitLookups. by rewrite map_app, <- app_assoc.
      + rewrite Hd', Hd, unlitMisses_app, Hlen'. simpl. by rewrite <- app_assoc.
    - exists []. simpl. by rewrite !app_nil_r. }
  destruct Hend as (made & Hmade & Hb & Hc & Hd).
  exists made. rewrite firstn_all in Hmade. split; [done|].
  rewrite drop_ge in Hb by lia. rewrite app_nil_r in Hb. done.
Qed.

Lemma sameShape_set ps b : Spec.sameShape b (ScenePass.set_pipelineState ps b).
Proof. done. Qed.

Lemma sameShape_inv b b' :
  Spec.sameShape b b' ->
  Spec.unlitKey b' = Spec.unlitKey b
  /\ ScenePass.drawable_ b' = ScenePass.drawable_ b
  /\ forall ps, ScenePass.set_pipelineState ps b' = ScenePass.set_pipelineState ps b.
Proof.
  unfold Spec.sameShape, ScenePass.set_pipelineState, Spec.unlitKey, ScenePass.MakeKey.
  intros [= H1 H2 H3 H4 H5 H6 H7]. rewrite H1, H2, H3, H4, H5, H6, H7. done.
Qed.

(** The single-threaded pass over the dirty batches.  [made] are the batches
    up to their pipeline state. *)
Lemma CollectUnlitBatches_resolve_loop camera callback
    (made : list ScenePass.BaseSceneBatch) ptrs (st st' : ScenePass.Resolve Cache) :
  Forall2 Spec.sameShape made (ScenePass.rs_batches st) ->
  forEach (ScenePass.CollectUnlitBatches_resolve GetOrCreatePipelineState camera callback)
    ptrs st = Ok st' ->
  exists bs,
    Forall2 (fun p b => made !! p = Some b) ptrs bs
    /\ ScenePass.rs_calls st'
       = ScenePass.rs_calls st
         ++ (Spec.unlitResolve GetOrCreatePipelineState camera callback
               (ScenePass.rs_cache st) bs).1
    /\ ScenePass.rs_cache st'
       = (Spec.unlitResolve GetOrCreatePipelineState camera callback
            (ScenePass.rs_cache st) bs).2
    /\ Forall2 Spec.sameShape made (ScenePass.rs_batches st')
    /\ (forall g, g ∉ ptrs -> ScenePass.rs_batches st' !! g = ScenePass.rs_batches st !! g)
    /\ (NoDup ptrs -> forall k p, ptrs !! k = Some p ->
        exists b r,
          made !! p = Some b
          /\ (Spec.unlitResolve GetOrCreatePipelineState camera callback
                (ScenePass.rs_cache st) bs).1 !! k
             = Some (ScenePass.CallGetOrCreate ScenePass.UnlitCache (Spec.unlitKey b)
                       (Spec.unlitContext camera b) r)
          /\ ScenePass.rs_batches st' !! p = Some (ScenePass.set_pipelineState r b)).
Proof.
  revert st. induction ptrs as [|p rest IH]; intros st Hshape H; simpl in H.
  - injection H as <-. exists []. simpl. rewrite app_nil_r.
    repeat split; try done; intros _ k p Hk; by rewrite lookup_nil in Hk.
  - apply bind_Ok in H as (s1 & Hone & H).
    unfold ScenePass.CollectUnlitBatches_resolve in Hone.
    apply bind_Ok in Hone as (b' & Hb' & Hone). apply defined_Ok in Hb'.
    destruct (Forall2_lookup_r _ _ _ _ _ Hshape Hb') as (b & Hb & Hbb').
    apply sameShape_inv in Hbb' as (Hkey & Hdrawable & Hset).
    fold (Spec.unlitKey b') in Hone. rewrite Hkey, Hdrawable in Hone.
    fold (Spec.unlitContext camera b) in Hone.
    destruct (GetOrCreatePipelineState _ _ _ _) as [cache1 r] eqn:Hcall.
    injection Hone as <-. rewrite Hset in H.
    apply IH in H as (bs & Hbs & Hcalls & Hcache & Hshape' & Hrest & Hdirty); simpl in *.
    + exists (b :: bs). simpl. rewrite Hcall.
      destruct (Spec.unlitResolve _ _ _ cache1 bs) as [calls cache2] eqn:Hres.
      simpl in *. split; [by constructor|]. split; [by rewrite Hcalls, <- app_assoc|].
      split; [done|]. split; [done|]. split.
      * intros g Hg. apply not_elem_of_cons in Hg as [Hne Hg].
        rewrite (Hrest g Hg). by apply list_lookup_insert_ne.
      * intros Hdup k q Hk. apply list.NoDup_cons in Hdup as [Hp Hdup].
        destruct k as [|k]; simpl in Hk.
        -- injection Hk as <-. exists b, r. split; [done|]. split; [done|].
           rewrite (Hrest p Hp). apply list_lookup_insert_eq. by eapply lookup_lt_Some.
        -- by apply (Hdirty Hdup).
    + rewrite <- (list_insert_id made p b) by done.
      apply Forall2_insert; [done|]. apply sameShape_set.
Qed.

(** What a completed run of the unlit path leaves. *)
Lemma CollectUnlitBatches_tracked (schedule : list (nat * nat))
    (camera : ScenePass.Camera) (callback : ScenePass.ScenePipelineStateCacheCallback)
    (sp sp' : ScenePass.ScenePass Cache) :
  Spec.covers schedule (tv_Size (ScenePass.unlitBatches_ sp)) ->
  concat (ScenePass.unlitBaseBatchesDirty_ sp) = [] ->
  ScenePass.CollectUnlitBatches GetPipelineState GetOrCreatePipelineState schedule camera
    callback sp = Ok sp' ->
  exists made dirtyBatches,
    Forall2 (fun intermediateBatch b => Spec.unlitBatchOf sp intermediateBatch = Ok b)
      (tv_CopyTo (ScenePass.unlitBatches_ sp)) made
    /\ Forall2 (fun p b => made !! p = Some b)
         (tv_CopyTo (ScenePass.unlitBaseBatchesDirty_ sp')) dirtyBatches
    /\ (forall g b, made !! g = Some b ->
          (g ∈ tv_CopyTo (ScenePass.unlitBaseBatchesDirty_ sp')
           <-> GetPipelineState (ScenePass.unlitPipelineStateCache_ sp) (Spec.unlitKey b)
               = None))
    /\ NoDup (tv_CopyTo (ScenePass.unlitBaseBatchesDirty_ sp'))
    /\ ScenePass.calls_ sp'
       = ScenePass.calls_ sp
         ++ Spec.unlitLookups GetPipelineState (ScenePass.unlitPipelineStateCache_ sp) made
         ++ (Spec.unlitResolve GetOrCreatePipelineState camera callback
               (ScenePass.unlitPipelineStateCache_ sp) dirtyBatches).1
    /\ ScenePass.unlitPipelineStateCache_ sp'
       = (Spec.unlitResolve GetOrCreatePipelineState camera callback
            (ScenePass.unlitPipelineStateCache_ sp) dirtyBatches).2
    /\ (forall k p, tv_CopyTo (ScenePass.unlitBaseBatchesDirty_ sp') !! k = Some p ->
        exists b r,
          made !! p = Some b
          /\ (Spec.unlitResolve GetOrCreatePipelineState camera callback
                (ScenePass.unlitPipelineStateCache_ sp) dirtyBatches).1 !! k
             = Some (ScenePass.CallGetOrCreate ScenePass.UnlitCache (Spec.unlitKey b)
                       (Spec.unlitContext camera b) r)
          /\ ScenePass.unlitBaseBatches_ sp' !! p = Some (ScenePass.set_pipelineState r b))
    /\ (forall g b, made !! g = Some b ->
        g ∉ tv_CopyTo (ScenePass.unlitBaseBatchesDirty_ sp') ->
        ScenePass.unlitBaseBatches_ sp' !! g = Some (lookedUp sp b)).
Proof.
  intros Hcover Hclean Hrun. unfold ScenePass.CollectUnlitBatches in Hrun.
  apply bind_Ok in Hrun as (phase & Hphase & Hrun).
  apply bind_Ok in Hrun as (resolved & Hresolve & Hrun). injection Hrun as <-. simpl.
  apply CollectUnlitBatches_phase in Hphase
    as (made & Hmade & Hbatches & Hcalls & Hdirty);
    [|done|simpl; by rewrite length_resize].
  simpl in *. rewrite Hclean in Hdirty. simpl in Hdirty.
  rewrite tv_ForEach_values in Hresolve.
  assert (Hnodup : NoDup (concat (ScenePass.up_dirty phase))).
  { rewrite Hdirty. apply NoDup_unlitMisses. }
  apply (CollectUnlitBatches_resolve_loop camera callback made) in Hresolve
    as (bs & Hbs & Hcalls' & Hcache & _ & Hrest & Hptr); simpl in *.
  - exists made, bs. unfold tv_CopyTo.
    split; [done|]. split; [done|]. split; [|split; [done|]].
    { intros g b Hb. rewrite Hdirty, elem_of_unlitMisses. rewrite Nat.sub_0_r. split.
      - intros (b' & _ & Hb' & Hmiss). congruence.
      - intros Hmiss. exists b. split; [lia|done]. }
    split; [by rewrite Hcalls', Hcalls, <- app_assoc|]. split; [done|].
    split; [by apply Hptr|].
    intros g b Hb Hg. rewrite (Hrest g Hg), Hbatches, list_lookup_fmap, Hb. done.
  - rewrite Hbatches. apply Forall2_fmap_r, Forall_Forall2_diag, Forall_true.
    intros b. apply sameShape_set.
Qed.

(** The unlit path completes. *)
Lemma CollectUnlitBatches_defined (schedule : list (nat * nat))
    (camera : ScenePass.Camera) (callback : ScenePass.ScenePipelineStateCacheCallback)
    (sp : ScenePass.ScenePass Cache) :
  Spec.unlitReady schedule sp ->
  concat (ScenePass.unlitBaseBatchesDirty_ sp) = [] ->
  exists sp',
    ScenePass.CollectUnlitBatches GetPipelineState GetOrCreatePipelineState schedule camera
      callback sp = Ok sp'.
Proof.
  intros (Hlanes & Hmake) Hclean. unfold ScenePass.CollectUnlitBatches.
  set (n := tv_Size (ScenePass.unlitBatches_ sp)).
  pose (P := fun s : ScenePass.UnlitPhase =>
    length (ScenePass.up_batches s) = n
    /\ length (ScenePass.up_dirty s) = length (ScenePass.unlitBaseBatchesDirty_ sp)
    /\ Forall (fun p => p < n) (concat (ScenePass.up_dirty s))).
  set (st := {| ScenePass.up_batches :=
                  resize n ScenePass.BaseSceneBatch_default (ScenePass.unlitBaseBatches_ sp);
                ScenePass.up_dirty := ScenePass.unlitBaseBatchesDirty_ sp;
                ScenePass.up_calls := ScenePass.calls_ sp |}).
  assert (Hstart : P st).
  { unfold P, st. simpl. by rewrite length_resize, Hclean. }
  destruct (ForEachParallel_body_defined P
              (fun t => t < length (ScenePass.unlitBaseBatchesDirty_ sp))
              (ScenePass.CollectUnlitBatches_element GetPipelineState sp)
              (tv_CopyTo (ScenePass.unlitBatches_ sp))) with (schedule := schedule)
      (offset := 0) (st := st) as (phase & Hphase & HP); [|exact Hlanes|exact Hstart|].
  - intros threadIndex offset i ib s Hlane Hib (Hlen & Hdirty & Hp).
    unfold ScenePass.CollectUnlitBatches_element.
    assert (Hlt : i + offset < n).
    { apply lookup_lt_Some in Hib. exact Hib. }
    destruct (lookup_lt_is_Some_2 (ScenePass.up_batches s) (i + offset)) as [slot ->];
      [lia|]. simpl.
    assert (Hb : exists b, Spec.unlitBatchOf sp ib = Ok b).
    { rewrite list.Forall_forall in Hmake. apply Hmake. by eapply list_elem_of_lookup_2. }
    destruct Hb as [b Hb]. unfold Spec.unlitBatchOf in Hb. rewrite Hb. simpl.
    destruct (GetPipelineState _ _); simpl.
    + eexists. split; [done|]. unfold P. simpl. by rewrite length_insert.
    + destruct (tv_Insert_defined (ScenePass.up_dirty s) threadIndex (i + offset))
        as [[dirty k] Hins]; [lia|].
      rewrite Hins. simpl. eexists. split; [done|]. unfold P. simpl.
      rewrite length_insert. split; [done|].
      pose proof (tv_Insert_concat _ _ _ _ _ Hins) as Hperm.
      apply tv_Insert_inv in Hins as (_ & _ & -> & _).
      rewrite length_alter. split; [done|].
      rewrite Hperm. apply Forall_app. split; [done|]. by constructor.
  - rewrite drop_0 in Hphase. fold n. rewrite Hphase. simpl. rewrite tv_ForEach_values.
    destruct HP as (Hlen & _ & Hp).
    edestruct (forEach_defined
                 (fun s : ScenePass.Resolve Cache => length (ScenePass.rs_batches s) = n)
                 (ScenePass.CollectUnlitBatches_resolve GetOrCreatePipelineState camera
                    callback)
                 (concat (ScenePass.up_dirty phase))) as (resolved & -> & _);
      [|exact Hlen|simpl; eauto].
    intros p s Hin Hs. unfold ScenePass.CollectUnlitBatches_resolve.
    rewrite list.Forall_forall in Hp.
    destruct (lookup_lt_is_Some_2 (ScenePass.rs_batches s) p) as [b ->];
      [rewrite Hs; by apply Hp|]. simpl.
    destruct (GetOrCreatePipelineState _ _ _ _) as [cache created].
    eexists. split; [done|]. simpl. by rewrite length_insert.
Qed.

End UnlitPath.

(** ** The dirty lists and the handles of the unlit path *)

Lemma lookup_fmap_length {A} (f : nat -> A -> A) (l l' : list A) :
  (forall t, l' !! t = f t <$> l !! t) -> length l' = length l.
Proof.
  intros H.
  assert (H1 : length l' <= length l).
  { apply lookup_ge_None. rewrite H. by rewrite (proj2 (lookup_ge_None l (length l))). }
  assert (H2 : length l <= length l').
  { apply lookup_ge_None.
    pose proof (H (length l')) as Hl. rewrite (proj2 (lookup_ge_None l' (length l'))) in Hl by lia.
    by destruct (l !! length l'). }
  lia.
Qed.

Lemma concat_nil_lookup {A} (tv : list (list A)) t lane :
  concat tv = [] -> tv !! t = Some lane -> lane = [].
Proof.
  revert t. induction tv as [|l tv IH]; intros t H Ht; [done|].
  simpl in H. apply app_eq_nil in H as [-> H].
  destruct t as [|t]; simpl in Ht; [congruence|]. by eapply IH.
Qed.

Section UnlitDirty.

Context {Cache : Type}.
Variable GetPipelineState : Cache -> ScenePass.ScenePipelineStateKey -> option PipelineState.
Variable GetOrCreatePipelineState :
  Cache -> ScenePass.ScenePipelineStateKey -> ScenePass.ScenePipelineStateContext ->
  ScenePass.ScenePipelineStateCacheCallback -> Cache * option PipelineState.

(** One batch of the concurrent phase appends its position to the dirty list
    of the lane that runs it when its lookup misses, and touches no other
    dirty list. *)
Lemma CollectUnlitBatches_element_lane (sp : ScenePass.ScenePass Cache)
    threadIndex offset i intermediateBatch b st st' :
  Spec.unlitBatchOf sp intermediateBatch = Ok b ->
  ScenePass.CollectUnlitBatches_element GetPipelineState sp threadIndex offset i
    intermediateBatch st = Ok st' ->
  forall t,
    ScenePass.up_dirty st' !! t
    = (fun lane =>
         lane ++ if decide (threadIndex = t)
                 then Spec.unlitMisses GetPipelineState
                        (ScenePass.unlitPipelineStateCache_ sp) (i + offset) [b]
                 else [])
      <$> ScenePass.up_dirty st !! t.
Proof.
  unfold ScenePass.CollectUnlitBatches_element, Spec.unlitBatchOf. intros Hb H t.
  apply bind_Ok in H as (slot & _ & H). rewrite Hb in H. simpl in H.
  fold (Spec.unlitKey b) in H. cbn [Spec.unlitMisses].
  destruct (GetPipelineState _ (Spec.unlitKey b)) as [ps|]; simpl in H.
  - injection H as <-. simpl. destruct (decide _); destruct (_ !! t); simpl;
      by rewrite ?app_nil_r.
  - apply bind_Ok in H as ([dirty n] & Hdirty & H). injection H as <-. simpl.
    apply tv_Insert_inv in Hdirty as (lane & Hlane & -> & _).
    destruct (decide (threadIndex = t)) as [->|Hne].
    + by rewrite list_lookup_alter_eq.
    + rewrite list_lookup_alter_ne by done. destruct (_ !! t); simpl; by rewrite ?app_nil_r.
Qed.

Lemma CollectUnlitBatches_chunk_lane (sp : ScenePass.ScenePass Cache)
    threadIndex offset batches made : forall i st st',
  Forall2 (fun intermediateBatch b => Spec.unlitBatchOf sp intermediateBatch = Ok b)
    batches made ->
  forEachIndexed (ScenePass.CollectUnlitBatches_element GetPipelineState sp threadIndex
                    offset) i batches st = Ok st' ->
  forall t,
    ScenePass.up_dirty st' !! t
    = (fun lane =>
         lane ++ if decide (threadIndex = t)
                 then Spec.unlitMisses GetPipelineState
                        (ScenePass.unlitPipelineStateCache_ sp) (i + offset) made
                 else [])
      <$> ScenePass.up_dirty st !! t.
Proof.
  intros i st st' Hmade. revert i st.
  induction Hmade as [|ib b batches made Hb _ IH]; intros i st H t; simpl in H.
  - injection H as <-. destruct (decide _); destruct (_ !! t); simpl; by rewrite ?app_nil_r.
  - apply bind_Ok in H as (s1 & Hone & H).
    rewrite (IH _ _ H t), (CollectUnlitBatches_element_lane _ _ _ _ _ _ _ _ Hb Hone t).
    rewrite <- option_fmap_compose. apply option_fmap_ext. intros lane. simpl.
    rewrite <- app_assoc. f_equal. destruct (decide _); [|done].
    by destruct (GetPipelineState _ _).
Qed.

(** The dirty lists after the concurrent phase, lane by lane. *)
Lemma CollectUnlitBatches_phase_lanes (sp : ScenePass.ScenePass Cache) schedule :
  forall offset collection made st st',
  Forall2 (fun intermediateBatch b => Spec.unlitBatchOf sp intermediateBatch = Ok b)
    collection made ->
  ForEachParallel schedule
    (fun threadIndex offset batches =>
       forEachIndexed (ScenePass.CollectUnlitBatches_element GetPipelineState sp
                         threadIndex offset) 0 batches)
    offset collection st = Ok st' ->
  forall t,
    ScenePass.up_dirty st' !! t
    = (fun lane =>
         lane ++ Handles.laneMisses GetPipelineState
                   (ScenePass.unlitPipelineStateCache_ sp) t offset schedule made)
      <$> ScenePass.up_dirty st !! t.
Proof.
  induction schedule as [|[threadIndex count] rest IH];
    intros offset collection made st st' Hmade H t; simpl in H.
  - injection H as <-. simpl. destruct (_ !! t); simpl; by rewrite ?app_nil_r.
  - apply bind_Ok in H as (s1 & Hchunk & H).
    rewrite (IH _ _ (drop count made) _ _ (Forall2_drop _ _ _ _ Hmade) H t).
    rewrite (CollectUnlitBatches_chunk_lane sp threadIndex offset _ (take count made)
               0 st s1 (Forall2_take _ _ _ _ Hmade) Hchunk t).
    rewrite <- option_fmap_compose. apply option_fmap_ext. intros lane. simpl.
    by rewrite <- app_assoc.
Qed.

Lemma CollectUnlitBatches_lanes (schedule : list (nat * nat))
    (camera : ScenePass.Camera) (callback : ScenePass.ScenePipelineStateCacheCallback)
    (sp sp' : ScenePass.ScenePass Cache) made :
  Forall2 (fun intermediateBatch b => Spec.unlitBatchOf sp intermediateBatch = Ok b)
    (tv_CopyTo (ScenePass.unlitBatches_ sp)) made ->
  ScenePass.CollectUnlitBatches GetPipelineState GetOrCreatePipelineState schedule camera
    callback sp = Ok sp' ->
  forall t,
    ScenePass.unlitBaseBatchesDirty_ sp' !! t
    = (fun lane =>
         lane ++ Handles.laneMisses GetPipelineState
                   (ScenePass.unlitPipelineStateCache_ sp) t 0 schedule made)
      <$> ScenePass.unlitBaseBatchesDirty_ sp !! t.
Proof.
  intros Hmade Hrun t. unfold ScenePass.CollectUnlitBatches in Hrun.
  apply bind_Ok in Hrun as (phase & Hphase & Hrun).
  apply bind_Ok in Hrun as (resolved & _ & Hrun). injection Hrun as <-. simpl.
  by rewrite (CollectUnlitBatches_phase_lanes sp schedule _ _ _ _ _ Hmade Hphase t).
Qed.

(** The call at a position of the log of the single-threaded pass is the
    get-or-create call for the batch at that position, on the cache the
    calls before it leave. *)
Lemma unlitResolve_lookup camera callback (bs : list ScenePass.BaseSceneBatch) :
  forall cache k b, bs !! k = Some b ->
  (Spec.unlitResolve GetOrCreatePipelineState camera callback cache bs).1 !! k
  = Some (ScenePass.CallGetOrCreate ScenePass.UnlitCache (Spec.unlitKey b)
            (Spec.unlitContext camera b)
            (GetOrCreatePipelineState
               (Handles.cacheBefore GetOrCreatePipelineState camera callback cache bs k)
               (Spec.unlitKey b) (Spec.unlitContext camera b) callback).2).
Proof.
  unfold Handles.cacheBefore.
  induction bs as [|b0 bs IH]; intros cache k b Hb; [done|].
  simpl. destruct (GetOrCreatePipelineState cache _ _ _) as [cache1 r] eqn:Hcall.
  destruct (Spec.unlitResolve _ _ _ cache1 bs) as [calls cache2] eqn:Hres.
  destruct k as [|k]; simpl in *.
  - injection Hb as <-. by rewrite Hcall.
  - specialize (IH cache1 k b Hb). rewrite Hres in IH. simpl in IH. rewrite IH, Hcall.
    by destruct (Spec.unlitResolve _ _ _ cache1 (take k bs)).
Qed.

(** C6.  In the unlit path, with the dirty lists empty at the start, the
    chunks covering the unlit batches, a dirty list for every lane and every
    intermediate batch naming a source batch of its drawable, the path
    completes and:
    - the dirty list of a lane holds exactly the positions of the batches
      whose concurrent lookup found no handle among the batches of the
      chunks that ran on the lane, and a position is in some dirty list
      exactly when the lookup for its batch found no handle;
    - the cache calls are the lookups, one per batch, followed by the
      get-or-create calls of the single-threaded pass, one per dirty batch in
      the order of the merged dirty lists;
    - afterwards the pipeline state of a dirty batch is what get-or-create
      returned for its key on the cache as the calls for the dirty batches
      before it left it, and the pipeline state of any other batch is what
      its lookup found; the other members of a batch are those of the batch
      made from its intermediate batch. *)
Theorem CollectUnlitBatches_dirty (schedule : list (nat * nat))
    (camera : ScenePass.Camera) (callback : ScenePass.ScenePipelineStateCacheCallback)
    (sp : ScenePass.ScenePass Cache) :
  Spec.covers schedule (tv_Size (ScenePass.unlitBatches_ sp)) ->
  concat (ScenePass.unlitBaseBatchesDirty_ sp) = [] ->
  Spec.unlitReady schedule sp ->
  exists sp' made dirtyBatches,
    ScenePass.CollectUnlitBatches GetPipelineState GetOrCreatePipelineState schedule camera
      callback sp = Ok sp'
    /\ Forall2 (fun intermediateBatch b => Spec.unlitBatchOf sp intermediateBatch = Ok b)
        (tv_CopyTo (ScenePass.unlitBatches_ sp)) made
    /\ Forall2 (fun p b => made !! p = Some b)
         (tv_CopyTo (ScenePass.unlitBaseBatchesDirty_ sp')) dirtyBatches
    /\ length (ScenePass.unlitBaseBatchesDirty_ sp')
       = length (ScenePass.unlitBaseBatchesDirty_ sp)
    /\ (forall t lane, ScenePass.unlitBaseBatchesDirty_ sp' !! t = Some lane ->
          lane = Handles.laneMisses GetPipelineState
                   (ScenePass.unlitPipelineStateCache_ sp) t 0 schedule made)
    /\ (forall g b, made !! g = Some b ->
          (g ∈ tv_CopyTo (ScenePass.unlitBaseBatchesDirty_ sp')
           <-> GetPipelineState (ScenePass.unlitPipelineStateCache_ sp) (Spec.unlitKey b)
               = None))
    /\ NoDup (tv_CopyTo (ScenePass.unlitBaseBatchesDirty_ sp'))
    /\ ScenePass.calls_ sp'
       = ScenePass.calls_ sp
         ++ Spec.unlitLookups GetPipelineState (ScenePass.unlitPipelineStateCache_ sp) made
         ++ (Spec.unlitResolve GetOrCreatePipelineState camera callback
               (ScenePass.unlitPipelineStateCache_ sp) dirtyBatches).1
    /\ ScenePass.unlitPipelineStateCache_ sp'
       = (Spec.unlitResolve GetOrCreatePipelineState camera callback
            (ScenePass.unlitPipelineStateCache_ sp) dirtyBatches).2
    /\ (forall k p, tv_CopyTo (ScenePass.unlitBaseBatchesDirty_ sp') !! k = Some p ->
        exists b final,
          made !! p = Some b
          /\ ScenePass.unlitBaseBatches_ sp' !! p = Some final
          /\ Handles.sameMembers b final
          /\ ScenePass.pipelineState_ final
             = (GetOrCreatePipelineState
                  (Handles.cacheBefore GetOrCreatePipelineState camera callback
                     (ScenePass.unlitPipelineStateCache_ sp) dirtyBatches k)
                  (Spec.unlitKey final) (Spec.unlitContext camera final) callback).2
          /\ (Spec.unlitResolve GetOrCreatePipelineState camera callback
                (ScenePass.unlitPipelineStateCache_ sp) dirtyBatches).1 !! k
             = Some (ScenePass.CallGetOrCreate ScenePass.UnlitCache (Spec.unlitKey final)
                       (Spec.unlitContext camera final) (ScenePass.pipelineState_ final)))
    /\ (forall g b, made !! g = Some b ->
        g ∉ tv_CopyTo (ScenePass.unlitBaseBatchesDirty_ sp') ->
        exists final,
          ScenePass.unlitBaseBatches_ sp' !! g = Some final
          /\ Handles.sameMembers b final
          /\ ScenePass.pipelineState_ final
             = GetPipelineState (ScenePass.unlitPipelineStateCache_ sp) (Spec.unlitKey final)
          /\ ScenePass.pipelineState_ final <> None).
Proof.
  intros Hcover Hclean Hready.
  destruct (CollectUnlitBatches_defined GetPipelineState GetOrCreatePipelineState
              schedule camera callback sp Hready Hclean) as [sp' Hrun].
  destruct (CollectUnlitBatches_tracked GetPipelineState GetOrCreatePipelineState
              schedule camera callback sp sp' Hcover Hclean Hrun)
    as (made & dirtyBatches & Hmade & Hdirty & Hiff & Hnodup & Hcalls & Hcache & Hres
        & Hhit).
  pose proof (CollectUnlitBatches_lanes schedule camera callback sp sp' made Hmade Hrun)
    as Hlanes.
  exists sp', made, dirtyBatches.
  split; [exact Hrun|]. split; [exact Hmade|]. split; [exact Hdirty|].
  split; [exact (lookup_fmap_length _ _ _ Hlanes)|]. split.
  { intros t lane Hlane. rewrite Hlanes in Hlane.
    destruct (ScenePass.unlitBaseBatchesDirty_ sp !! t) as [lane0|] eqn:Hlane0; [|done].
    rewrite (concat_nil_lookup _ _ _ Hclean Hlane0) in Hlane. simpl in Hlane. congruence. }
  split; [exact Hiff|]. split; [exact Hnodup|]. split; [exact Hcalls|].
  split; [exact Hcache|]. split.
  - intros k p Hk. destruct (Hres k p Hk) as (b & r & Hb & Hcall & Hfinal).
    destruct (Forall2_lookup_l _ _ _ _ _ Hdirty Hk) as (b' & Hb' & Hbb').
    assert (b' = b) as -> by congruence.
    rewrite (unlitResolve_lookup camera callback dirtyBatches _ k b Hb') in Hcall.
    injection Hcall as Hr.
    exists b, (ScenePass.set_pipelineState r b).
    split; [done|]. split; [done|]. split; [by repeat split|].
    split; [by rewrite <- Hr|].
    rewrite (unlitResolve_lookup camera callback dirtyBatches _ k b Hb'). simpl.
    by rewrite <- Hr.
  - intros g b Hb Hg. eexists. split; [by apply Hhit|]. split; [by repeat split|].
    split; [done|]. simpl. intros Hmiss. apply Hg. by apply (Hiff g b Hb).
Qed.

End UnlitDirty.

Lemma CollectUnlitBatches_dirty_witness :
  exists sp' made dirtyBatches,
    ScenePass.CollectUnlitBatches Scenes.simpleGet Scenes.simpleGetOrCreate [(1, 2); (0, 1)]
      Scenes.camera Scenes.createState Scenes5.twoLanePass = Ok sp'
    /\ Forall2 (fun intermediateBatch b =>
                  Spec.unlitBatchOf Scenes5.twoLanePass intermediateBatch = Ok b)
         (tv_CopyTo (ScenePass.unlitBatches_ Scenes5.twoLanePass)) made
    /\ length made = 3
    /\ ScenePass.unlitBaseBatchesDirty_ sp' = [[2]; [1]]
    /\ (forall t lane, ScenePass.unlitBaseBatchesDirty_ sp' !! t = Some lane ->
          lane = Handles.laneMisses Scenes.simpleGet
                   (ScenePass.unlitPipelineStateCache_ Scenes5.twoLanePass) t 0
                   [(1, 2); (0, 1)] made)
    /\ (forall g b, made !! g = Some b ->
          (g ∈ tv_CopyTo (ScenePass.unlitBaseBatchesDirty_ sp')
           <-> Scenes.simpleGet (ScenePass.unlitPipelineStateCache_ Scenes5.twoLanePass)
                 (Spec.unlitKey b) = None))
    /\ ScenePass.calls_ sp'
       = ScenePass.calls_ Scenes5.twoLanePass
         ++ Spec.unlitLookups Scenes.simpleGet
              (ScenePass.unlitPipelineStateCache_ Scenes5.twoLanePass) made
         ++ (Spec.unlitResolve Scenes.simpleGetOrCreate Scenes.camera Scenes.createState
               (ScenePass.unlitPipelineStateCache_ Scenes5.twoLanePass) dirtyBatches).1
    /\ (forall k p, tv_CopyTo (ScenePass.unlitBaseBatchesDirty_ sp') !! k = Some p ->
        exists final,
          ScenePass.unlitBaseBatches_ sp' !! p = Some final
          /\ ScenePass.pipelineState_ final
             = (Scenes.simpleGetOrCreate
                  (Handles.cacheBefore Scenes.simpleGetOrCreate Scenes.camera
                     Scenes.createState
                     (ScenePass.unlitPipelineStateCache_ Scenes5.twoLanePass) dirtyBatches k)
                  (Spec.unlitKey final) (Spec.unlitContext Scenes.camera final)
                  Scenes.createState).2)
    /\ map ScenePass.pipelineState_ (ScenePass.unlitBaseBatches_ sp')
       = [Some (MkPipelineState 3); Some (MkPipelineState 0); Some (MkPipelineState 0)].
Proof.
  destruct (CollectUnlitBatches_dirty Scenes.simpleGet Scenes.simpleGetOrCreate
              [(1, 2); (0, 1)] Scenes.camera Scenes.createState Scenes5.twoLanePass)
    as (sp' & made & dirtyBatches & Hrun & Hmade & _ & _ & Hlanes & Hdirty & _ & Hcalls
        & _ & Hres & _).
  - vm_compute. reflexivity.
  - vm_compute. reflexivity.
  - split.
    + repeat constructor; simpl; lia.
    + repeat constructor; eexists; vm_compute; reflexivity.
  - assert (Hsp : Ok sp'
                  = ScenePass.CollectUnlitBatches Scenes.simpleGet Scenes.simpleGetOrCreate
                      [(1, 2); (0, 1)] Scenes.camera Scenes.createState Scenes5.twoLanePass)
      by (symmetry; exact Hrun).
    exists sp', made, dirtyBatches. split; [exact Hrun|]. split; [exact Hmade|].
    split; [by rewrite <- (Forall2_length _ _ _ Hmade)|].
    split; [vm_compute in Hsp; by injection Hsp as ->|].
    split; [exact Hlanes|]. split; [exact Hdirty|]. split; [exact Hcalls|]. split.
    + intros k p Hk. destruct (Hres k p Hk) as (b & final & _ & Hfinal & _ & Hps & _).
      by exists final.
    + vm_compute in Hsp. by injection Hsp as ->.
Defined.

(** ** Pipeline states after the classifier *)

Lemma forEach_invariant {A St} (P : St -> Prop) (body : A -> St -> result St) l st st' :
  (forall x s s', x ∈ l -> P s -> body x s = Ok s' -> P s') ->
  P st -> forEach body l st = Ok st' -> P st'.
Proof.
  revert st. induction l as [|x l IH]; intros st Hstep HP H; simpl in H.
  - by injection H as <-.
  - apply bind_Ok in H as (s1 & Hx & H). apply (IH s1); [| |exact H].
    + intros y s s' Hy. apply Hstep. by apply elem_of_cons; right.
    + apply (Hstep x st s1); [by apply elem_of_cons; left|done|done].
Qed.

Lemma elem_of_concat_alter_snoc {T} (tv : list (list T)) threadIndex x y :
  y ∈ concat tv -> y ∈ concat (alter (fun lane => lane ++ [x]) threadIndex tv).
Proof.
  revert threadIndex. induction tv as [|lane tv IH]; intros [|t]; simpl; try done.
  - rewrite !elem_of_app. intros [?|?]; auto.
  - rewrite !elem_of_app. intros [?|?]; [by left|right]. by apply IH.
Qed.

Section LitPath.

Context {Cache : Type}.
Variable GetPipelineState : Cache -> ScenePass.ScenePipelineStateKey -> option PipelineState.
Variable GetOrCreatePipelineState :
  Cache -> ScenePass.ScenePipelineStateKey -> ScenePass.ScenePipelineStateContext ->
  ScenePass.ScenePipelineStateCacheCallback -> Cache * option PipelineState.

Lemma CollectLitBatches_light_tracked (sp : ScenePass.ScenePass Cache) sceneLights
    threadIndex intermediateBatch sceneBatch pixelLight st st' :
  ScenePass.CollectLitBatches_light GetPipelineState sp sceneLights threadIndex
    intermediateBatch sceneBatch pixelLight st = Ok st' ->
  ScenePass.lp_base st' = ScenePass.lp_base st
  /\ ScenePass.lp_baseDirty st' = ScenePass.lp_baseDirty st
  /\ (Spec.lightTracked (ScenePass.lp_light st) (ScenePass.lp_lightDirty st) ->
      Spec.lightTracked (ScenePass.lp_light st') (ScenePass.lp_lightDirty st')).
Proof.
  unfold ScenePass.CollectLitBatches_light. intros H.
  apply bind_Ok in H as (sceneLight & _ & H).
  apply bind_Ok in H as ([light batchIndex] & Hins & H).
  apply tv_Insert_inv in Hins as (lane0 & Hlane0 & -> & ->).
  set (found := GetPipelineState _ _) in *.
  assert (Hnew : forall dirty',
    (forall t dl e, ScenePass.lp_lightDirty st !! t = Some dl -> e ∈ dl ->
                    exists dl', dirty' !! t = Some dl' /\ e ∈ dl') ->
    (found = None -> exists dl', dirty' !! threadIndex = Some dl' /\ length lane0 ∈ dl') ->
    Spec.lightTracked (ScenePass.lp_light st) (ScenePass.lp_lightDirty st) ->
    Spec.lightTracked (alter (fun lane => lane ++ [ScenePass.set_pipelineState found
                    (ScenePass.set_light pixelLight.2
                       (additionalPass_ intermediateBatch) sceneBatch)]) threadIndex
                    (ScenePass.lp_light st)) dirty').
  { intros dirty' Hmono Hmiss Htracked t lane e b Hlane He.
    destruct (decide (t = threadIndex)) as [->|Hne].
    - rewrite list_lookup_alter_eq, Hlane0 in Hlane. injection Hlane as <-.
      apply lookup_app_Some in He as [He|[Hlen He]].
      + destruct (Htracked _ _ _ _ Hlane0 He) as [?|(dl & Hdl & Hin)]; [by left|right].
        by eapply Hmono.
      + destruct (e - length lane0) as [|k] eqn:Hk;
          [|simpl in He; by rewrite lookup_nil in He].
        simpl in He. injection He as <-. replace e with (length lane0) by lia.
        destruct found as [ps|] eqn:Hfound; [by left|right]. by apply Hmiss.
    - rewrite list_lookup_alter_ne in Hlane by done.
      destruct (Htracked _ _ _ _ Hlane He) as [?|(dl & Hdl & Hin)]; [by left|right].
      by eapply Hmono. }
  destruct found as [ps|] eqn:Hfound; simpl in H.
  - injection H as <-. simpl. split; [done|]. split; [done|].
    apply Hnew; [eauto|done].
  - apply bind_Ok in H as ([dirty n] & Hdirty & H). injection H as <-. simpl.
    apply tv_Insert_inv in Hdirty as (dl0 & Hdl0 & -> & _).
    split; [done|]. split; [done|]. apply Hnew.
    + intros t dl e Hdl He. destruct (decide (t = threadIndex)) as [->|Hne].
      * rewrite list_lookup_alter_eq, Hdl. simpl. eexists. split; [done|].
        apply elem_of_app. by left.
      * rewrite list_lookup_alter_ne by done. eauto.
    + intros _. rewrite list_lookup_alter_eq, Hdl0. simpl. eexists. split; [done|].
      apply elem_of_app. right. by apply list_elem_of_singleton.
Qed.

Lemma CollectLitBatches_element_tracked (sp : ScenePass.ScenePass Cache)
    mainLightIndex mainLightHash sceneLights drawableLighting threadIndex offset i
    intermediateBatch n st st' :
  ScenePass.CollectLitBatches_element GetPipelineState sp mainLightIndex mainLightHash
    sceneLights drawableLighting threadIndex offset i intermediateBatch st = Ok st' ->
  Spec.litTracked n (i + offset) st -> Spec.litTracked n (S (i + offset)) st'.
Proof.
  unfold ScenePass.CollectLitBatches_element. intros H (Hlen & Hbase & Hlight).
  apply bind_Ok in H as (slot & Hslot & H).
  apply bind_Ok in H as (pixelLights & _ & H).
  apply bind_Ok in H as (sceneBatch & _ & H).
  apply bind_Ok in H as (baseDirty & Hdirty & H).
  set (found := GetPipelineState _ _) in *.
  eapply (forEach_invariant (Spec.litTracked n (S (i + offset)))); [| |exact H].
  - intros pixelLight s s' _ (Hlen' & Hbase' & Hlight') Hstep.
    apply CollectLitBatches_light_tracked in Hstep as (Hb & Hd & Hl).
    unfold Spec.litTracked. rewrite Hb, Hd. auto.
  - split; [|split]; simpl; [by rewrite length_insert|  |done].
    intros j b Hj Hb.
    assert (Hmono : forall y, y ∈ concat (ScenePass.lp_baseDirty st) ->
                              y ∈ concat baseDirty).
    { intros y Hy. destruct found; simpl in Hdirty.
      - by injection Hdirty as <-.
      - apply bind_Ok in Hdirty as ([dirty m] & Hins & Hdirty). injection Hdirty as <-.
        apply tv_Insert_inv in Hins as (lane & _ & -> & _).
        by apply elem_of_concat_alter_snoc. }
    destruct (decide (j = i + offset)) as [->|Hne].
    + rewrite list_lookup_insert_eq in Hb by (rewrite Hlen; apply defined_Ok in Hslot;
        apply lookup_lt_Some in Hslot; lia).
      injection Hb as <-. destruct found as [ps|] eqn:Hfound; simpl in Hdirty.
      * by left.
      * right. apply bind_Ok in Hdirty as ([dirty m] & Hins & Hdirty).
        injection Hdirty as <-. apply tv_Insert_concat in Hins. rewrite Hins.
        apply elem_of_app. right. by apply list_elem_of_singleton.
    + rewrite list_lookup_insert_ne in Hb by done.
      destruct (Hbase j b) as [?|?]; [lia|done|by left|right; by apply Hmono].
Qed.

(** The pass over the dirty lit base batches. *)
Lemma CollectLitBatches_resolveBase_resolved camera callback mainLight baseLightHash
    ptrs (st st' : ScenePass.Resolve Cache) :
  (forall cache key ctx, (GetOrCreatePipelineState cache key ctx callback).2 <> None) ->
  (forall j b, ScenePass.rs_batches st !! j = Some b -> Spec.resolved b \/ j ∈ ptrs) ->
  forEach (ScenePass.CollectLitBatches_resolveBase GetOrCreatePipelineState camera callback
             mainLight baseLightHash) ptrs st = Ok st' ->
  length (ScenePass.rs_batches st') = length (ScenePass.rs_batches st)
  /\ Forall Spec.resolved (ScenePass.rs_batches st').
Proof.
  intros Hcreate. revert st. induction ptrs as [|p rest IH]; intros st Htracked H;
    simpl in H.
  - injection H as <-. split; [done|]. apply Forall_lookup. intros j b Hb.
    destruct (Htracked j b Hb) as [?|Hin]; [done|by apply elem_of_nil in Hin].
  - apply bind_Ok in H as (s1 & Hone & H).
    unfold ScenePass.CollectLitBatches_resolveBase in Hone.
    apply bind_Ok in Hone as (b' & Hb' & Hone). apply defined_Ok in Hb'.
    pose proof (Hcreate (ScenePass.rs_cache st)
                  (ScenePass.MakeKey b' baseLightHash)
                  {| ScenePass.ctx_camera_ := camera; ScenePass.ctx_light_ := mainLight;
                     ScenePass.ctx_drawable_ := ScenePass.drawable_ b' |}) as Hr.
    destruct (GetOrCreatePipelineState _ _ _ _) as [cache1 r]. injection Hone as <-.
    apply IH in H; simpl in *.
    + by rewrite length_insert in H.
    + intros j b Hb. destruct (decide (j = p)) as [->|Hne].
      * rewrite list_lookup_insert_eq in Hb by (by eapply lookup_lt_Some).
        injection Hb as <-. by left.
      * rewrite list_lookup_insert_ne in Hb by done.
        destruct (Htracked j b Hb) as [?|Hin]; [by left|right].
        apply elem_of_cons in Hin as [?|?]; done.
Qed.

(** The pass over the dirty unlit base batches. *)
Lemma CollectUnlitBatches_resolve_resolved camera callback ptrs
    (st st' : ScenePass.Resolve Cache) :
  (forall cache key ctx, (GetOrCreatePipelineState cache key ctx callback).2 <> None) ->
  (forall j b, ScenePass.rs_batches st !! j = Some b -> Spec.resolved b \/ j ∈ ptrs) ->
  forEach (ScenePass.CollectUnlitBatches_resolve GetOrCreatePipelineState camera callback)
    ptrs st = Ok st' ->
  length (ScenePass.rs_batches st') = length (ScenePass.rs_batches st)
  /\ Forall Spec.resolved (ScenePass.rs_batches st').
Proof.
  intros Hcreate. revert st. induction ptrs as [|p rest IH]; intros st Htracked H;
    simpl in H.
  - injection H as <-. split; [done|]. apply Forall_lookup. intros j b Hb.
    destruct (Htracked j b Hb) as [?|Hin]; [done|by apply elem_of_nil in Hin].
  - apply bind_Ok in H as (s1 & Hone & H).
    unfold ScenePass.CollectUnlitBatches_resolve in Hone.
    apply bind_Ok in Hone as (b' & Hb' & Hone). apply defined_Ok in Hb'.
    pose proof (Hcreate (ScenePass.rs_cache st)
                  (ScenePass.MakeKey b' 0%N)
                  {| ScenePass.ctx_camera_ := camera; ScenePass.ctx_light_ := None;
                     ScenePass.ctx_drawable_ := ScenePass.drawable_ b' |}) as Hr.
    destruct (GetOrCreatePipelineState _ _ _ _) as [cache1 r]. injection Hone as <-.
    apply IH in H; simpl in *.
    + by rewrite length_insert in H.
    + intros j b Hb. destruct (decide (j = p)) as [->|Hne].
      * rewrite list_lookup_insert_eq in Hb by (by eapply lookup_lt_Some).
        injection Hb as <-. by left.
      * rewrite list_lookup_insert_ne in Hb by done.
        destruct (Htracked j b Hb) as [?|Hin]; [by left|right].
        apply elem_of_cons in Hin as [?|?]; done.
Qed.

(** The pass over the dirty light batches. *)
Lemma CollectLitBatches_resolveLight_resolved camera callback sceneLights
    (remaining : list (nat * nat * nat)) (st st' : ScenePass.ResolveLight Cache) :
  (forall cache key ctx, (GetOrCreatePipelineState cache key ctx callback).2 <> None) ->
  (forall t lane e b, ScenePass.rl_light st !! t = Some lane -> lane !! e = Some b ->
     Spec.resolved b \/ exists k, (t, k, e) ∈ remaining) ->
  forEach (fun '(threadIndex, _, batchIndex) =>
             ScenePass.CollectLitBatches_resolveLight GetOrCreatePipelineState camera
               callback sceneLights threadIndex batchIndex) remaining st = Ok st' ->
  forall t lane e b, ScenePass.rl_light st' !! t = Some lane -> lane !! e = Some b ->
    Spec.resolved b.
Proof.
  intros Hcreate. revert st.
  induction remaining as [|[[t0 k0] e0] rest IH]; intros st Htracked H; simpl in H.
  - injection H as <-. intros t lane e b Hlane He.
    destruct (Htracked t lane e b Hlane He) as [?|[k Hin]]; [done|].
    by apply elem_of_nil in Hin.
  - apply bind_Ok in H as (s1 & Hone & H).
    unfold ScenePass.CollectLitBatches_resolveLight in Hone.
    apply bind_Ok in Hone as (lightBatch & Hget & Hone).
    unfold tv_Get in Hget. apply bind_Ok in Hget as (lane0 & Hlane0 & Hget).
    apply defined_Ok in Hlane0, Hget.
    apply bind_Ok in Hone as (sceneLight & _ & Hone).
    pose proof (Hcreate (ScenePass.rl_cache st)
                  (ScenePass.MakeKey lightBatch (ScenePass.GetPipelineStateHash sceneLight))
                  {| ScenePass.ctx_camera_ := camera;
                     ScenePass.ctx_light_ := Some sceneLight;
                     ScenePass.ctx_drawable_ := ScenePass.drawable_ lightBatch |}) as Hr.
    destruct (GetOrCreatePipelineState _ _ _ _) as [cache1 r]. injection Hone as <-.
    refine (IH _ _ H). simpl. unfold tv_Set.
    intros t lane e b Hlane He.
    destruct (decide (t = t0)) as [->|Hne].
    + rewrite list_lookup_alter_eq, Hlane0 in Hlane. injection Hlane as <-.
      destruct (decide (e = e0)) as [->|Hne].
      * rewrite list_lookup_insert_eq in He by (by eapply lookup_lt_Some).
        injection He as <-. by left.
      * rewrite list_lookup_insert_ne in He by done.
        destruct (Htracked _ _ _ _ Hlane0 He) as [?|[k Hin]]; [by left|right].
        exists k. apply elem_of_cons in Hin as [Heq|?]; [congruence|done].
    + rewrite list_lookup_alter_ne in Hlane by done.
      destruct (Htracked _ _ _ _ Hlane He) as [?|[k Hin]]; [by left|right].
      exists k. apply elem_of_cons in Hin as [Heq|?]; [congruence|done].
Qed.

(** Every batch of the unlit path has a pipeline state. *)
Lemma CollectUnlitBatches_resolved schedule camera callback (sp sp' : ScenePass.ScenePass Cache) :
  (forall cache key ctx, (GetOrCreatePipelineState cache key ctx callback).2 <> None) ->
  Spec.covers schedule (tv_Size (ScenePass.unlitBatches_ sp)) ->
  ScenePass.CollectUnlitBatches GetPipelineState GetOrCreatePipelineState schedule camera
    callback sp = Ok sp' ->
  Forall Spec.resolved (ScenePass.unlitBaseBatches_ sp')
  /\ length (ScenePass.unlitBaseBatches_ sp') = tv_Size (ScenePass.unlitBatches_ sp)
  /\ ScenePass.renderer_ sp' = ScenePass.renderer_ sp
  /\ ScenePass.litBatches_ sp' = ScenePass.litBatches_ sp
  /\ ScenePass.litBaseBatches_ sp' = ScenePass.litBaseBatches_ sp
  /\ ScenePass.lightBatches_ sp' = ScenePass.lightBatches_ sp.
Proof.
  intros Hcreate Hcover Hrun. unfold ScenePass.CollectUnlitBatches in Hrun.
  apply bind_Ok in Hrun as (phase & Hphase & Hrun).
  apply bind_Ok in Hrun as (resolved & Hresolve & Hrun). injection Hrun as <-. simpl.
  apply CollectUnlitBatches_phase in Hphase
    as (made & Hmade & Hbatches & _ & Hdirty); [|done|simpl; by rewrite length_resize].
  rewrite tv_ForEach_values in Hresolve.
  apply (CollectUnlitBatches_resolve_resolved camera callback) in Hresolve
    as [Hlen Hall]; [|done|]; simpl in *.
  - split; [done|]. split; [|done].
    rewrite Hlen, Hbatches, length_fmap. apply Forall2_length in Hmade. by rewrite <- Hmade.
  - intros j b Hb. rewrite Hbatches, list_lookup_fmap in Hb.
    destruct (made !! j) as [b0|] eqn:Hb0; [|done]. injection Hb as <-.
    destruct (GetPipelineState (ScenePass.unlitPipelineStateCache_ sp) (Spec.unlitKey b0))
      as [ps|] eqn:Hfound.
    + by left.
    + right. rewrite Hdirty. apply elem_of_app. right.
      apply elem_of_unlitMisses. exists b0. rewrite Nat.sub_0_r. split; [lia|done].
Qed.

(** Every batch of the lit path has a pipeline state. *)
Lemma CollectLitBatches_resolved schedule camera callback mainLightIndex sceneLights
    drawableLighting (sp sp' : ScenePass.ScenePass Cache) :
  (forall cache key ctx, (GetOrCreatePipelineState cache key ctx callback).2 <> None) ->
  Spec.covers schedule (tv_Size (ScenePass.litBatches_ sp)) ->
  Forall Spec.resolved (concat (ScenePass.lightBatches_ sp)) ->
  ScenePass.CollectLitBatches GetPipelineState GetOrCreatePipelineState schedule camera
    callback mainLightIndex sceneLights drawableLighting sp = Ok sp' ->
  Forall Spec.resolved (ScenePass.litBaseBatches_ sp')
  /\ Forall Spec.resolved (concat (ScenePass.lightBatches_ sp'))
  /\ length (ScenePass.litBaseBatches_ sp') = tv_Size (ScenePass.litBatches_ sp)
  /\ ScenePass.unlitBaseBatches_ sp' = ScenePass.unlitBaseBatches_ sp.
Proof.
  intros Hcreate Hcover Hlights Hrun. unfold ScenePass.CollectLitBatches in Hrun.
  apply bind_Ok in Hrun as (mainLight & _ & Hrun).
  apply bind_Ok in Hrun as (phase & Hphase & Hrun).
  apply bind_Ok in Hrun as (resolvedBase & Hbase & Hrun).
  apply bind_Ok in Hrun as (resolvedLight & Hlight & Hrun). injection Hrun as <-. simpl.
  set (n := tv_Size (ScenePass.litBatches_ sp)) in *.
  assert (Htracked : Spec.litTracked n n phase).
  { unfold tv_CopyTo in Hphase.
    replace n with (length (concat (ScenePass.litBatches_ sp))) at 2 by done.
    eapply (ForEachParallel_invariant (Spec.litTracked n) _ (concat (ScenePass.litBatches_ sp)));
      [| |exact Hphase|exact Hcover].
    - intros threadIndex offset i x s s' _ Hs Hstep.
      by eapply CollectLitBatches_element_tracked.
    - split; [|split]; simpl.
      + by rewrite length_resize.
      + intros j b Hj. lia.
      + intros t lane e b Hlane He. left.
        eapply (proj1 (list.Forall_forall _ _)); [exact Hlights|].
        apply list_elem_of_In, in_concat. exists lane.
        rewrite <- !list_elem_of_In. split; by eapply list_elem_of_lookup_2. }
  destruct Htracked as (Hlen & Hbasetracked & Hlighttracked).
  rewrite tv_ForEach_values in Hbase.
  apply (CollectLitBatches_resolveBase_resolved camera callback) in Hbase
    as [Hlen' Hall]; [|done|]; simpl in *.
  - split; [done|]. split; [|by rewrite Hlen', Hlen].
    apply list.Forall_forall. intros b Hb.
    apply list_elem_of_In, in_concat in Hb as (lane & Hlane & Hb).
    apply list_elem_of_In, list_elem_of_lookup in Hlane as [t Hlane].
    apply list_elem_of_In, list_elem_of_lookup in Hb as [e Hb].
    eapply (CollectLitBatches_resolveLight_resolved camera callback sceneLights);
      [exact Hcreate| |exact Hlight|exact Hlane|exact Hb].
    simpl. intros t' lane' e' b' Hlane' Hb'.
    destruct (Hlighttracked _ _ _ _ Hlane' Hb') as [?|(dl & Hdl & Hin)]; [by left|right].
    apply list_elem_of_lookup in Hin as [k Hk]. exists k.
    apply tv_elements_lookup. eauto.
  - intros j b Hb. apply (Hbasetracked j b); [|done].
    apply lookup_lt_Some in Hb. lia.
Qed.

End LitPath.

(** ** The handles the final batches carry *)

Section Carried.

Context {Cache : Type}.
Variable GetPipelineState : Cache -> ScenePass.ScenePipelineStateKey -> option PipelineState.
Variable GetOrCreatePipelineState :
  Cache -> ScenePass.ScenePipelineStateKey -> ScenePass.ScenePipelineStateContext ->
  ScenePass.ScenePipelineStateCacheCallback -> Cache * option PipelineState.

Local Abbreviation unlitCarried :=
  (Handles.unlitCarried GetPipelineState GetOrCreatePipelineState).
Local Abbreviation litCarried :=
  (Handles.litCarried GetPipelineState GetOrCreatePipelineState).
Local Abbreviation lightCarried :=
  (Handles.lightCarried GetPipelineState GetOrCreatePipelineState).

(** A single-threaded pass over pointers into a list of batches: when every
    step overwrites the batch it points at with a batch that has a property,
    and every batch without the property is pointed at, all batches have the
    property afterwards. *)
Lemma resolve_pointers_all (P : ScenePass.BaseSceneBatch -> Prop)
    (body : nat -> ScenePass.Resolve Cache -> result (ScenePass.Resolve Cache)) ptrs :
  (forall p s s', body p s = Ok s' ->
     exists b', p < length (ScenePass.rs_batches s)
                /\ ScenePass.rs_batches s' = <[p := b']> (ScenePass.rs_batches s) /\ P b') ->
  forall st st',
    (forall j b, ScenePass.rs_batches st !! j = Some b -> P b \/ j ∈ ptrs) ->
    forEach body ptrs st = Ok st' ->
    length (ScenePass.rs_batches st') = length (ScenePass.rs_batches st)
    /\ Forall P (ScenePass.rs_batches st').
Proof.
  intros Hstep. induction ptrs as [|p rest IH]; intros st st' Htracked H; simpl in H.
  - injection H as <-. split; [done|]. apply Forall_lookup. intros j b Hb.
    destruct (Htracked j b Hb) as [?|Hin]; [done|by apply elem_of_nil in Hin].
  - apply bind_Ok in H as (s1 & Hone & H).
    destruct (Hstep _ _ _ Hone) as (b' & Hlt & Hb' & HP).
    apply IH in H.
    + by rewrite Hb', length_insert in H.
    + intros j b Hb. rewrite Hb' in Hb. destruct (decide (j = p)) as [->|Hne].
      * rewrite list_lookup_insert_eq in Hb by done. injection Hb as <-. by left.
      * rewrite list_lookup_insert_ne in Hb by done.
        destruct (Htracked j b Hb) as [?|Hin]; [by left|right].
        apply elem_of_cons in Hin as [?|?]; done.
Qed.

Lemma CollectUnlitBatches_resolve_step camera callback cache0 p
    (s s' : ScenePass.Resolve Cache) :
  ScenePass.CollectUnlitBatches_resolve GetOrCreatePipelineState camera callback p s = Ok s' ->
  exists b', p < length (ScenePass.rs_batches s)
             /\ ScenePass.rs_batches s' = <[p := b']> (ScenePass.rs_batches s)
             /\ unlitCarried camera callback cache0 b'.
Proof.
  unfold ScenePass.CollectUnlitBatches_resolve. intros H.
  apply bind_Ok in H as (b & Hb & H). apply defined_Ok in Hb.
  destruct (GetOrCreatePipelineState _ _ _ _) as [cache1 r] eqn:Hcall. injection H as <-.
  eexists. split; [by eapply lookup_lt_Some|]. split; [done|].
  right. exists (ScenePass.rs_cache s). simpl.
  unfold Spec.unlitKey, Spec.unlitContext, ScenePass.MakeKey. simpl.
  unfold ScenePass.MakeKey in Hcall. by rewrite Hcall.
Qed.

Lemma CollectLitBatches_resolveBase_step camera callback mainLightIndex sceneLights cache0 p
    (s s' : ScenePass.Resolve Cache) :
  ScenePass.CollectLitBatches_resolveBase GetOrCreatePipelineState camera callback
    (Handles.mainLightOf sceneLights mainLightIndex)
    (if negb (mainLightIndex =? M_MAX_UNSIGNED)%N
     then Handles.lightHashOf (Handles.mainLightOf sceneLights mainLightIndex) else 0%N)
    p s = Ok s' ->
  exists b', p < length (ScenePass.rs_batches s)
             /\ ScenePass.rs_batches s' = <[p := b']> (ScenePass.rs_batches s)
             /\ litCarried camera callback mainLightIndex sceneLights cache0 b'.
Proof.
  unfold ScenePass.CollectLitBatches_resolveBase. intros H.
  apply bind_Ok in H as (b & Hb & H). apply defined_Ok in Hb.
  destruct (GetOrCreatePipelineState _ _ _ _) as [cache1 r] eqn:Hcall. injection H as <-.
  eexists. split; [by eapply lookup_lt_Some|]. split; [done|].
  right. exists (ScenePass.rs_cache s). simpl.
  unfold ScenePass.MakeKey in *. simpl. by rewrite Hcall.
Qed.

(** The unlit path: every final batch carries the handle its lookup found or
    one that get-or-create returned. *)
Lemma CollectUnlitBatches_carried schedule camera callback
    (sp sp' : ScenePass.ScenePass Cache) :
  Spec.covers schedule (tv_Size (ScenePass.unlitBatches_ sp)) ->
  ScenePass.CollectUnlitBatches GetPipelineState GetOrCreatePipelineState schedule camera
    callback sp = Ok sp' ->
  length (ScenePass.unlitBaseBatches_ sp') = tv_Size (ScenePass.unlitBatches_ sp)
  /\ Forall (unlitCarried camera callback (ScenePass.unlitPipelineStateCache_ sp))
       (ScenePass.unlitBaseBatches_ sp')
  /\ ScenePass.renderer_ sp' = ScenePass.renderer_ sp
  /\ ScenePass.litBatches_ sp' = ScenePass.litBatches_ sp
  /\ ScenePass.litBaseBatches_ sp' = ScenePass.litBaseBatches_ sp
  /\ ScenePass.lightBatches_ sp' = ScenePass.lightBatches_ sp
  /\ ScenePass.litPipelineStateCache_ sp' = ScenePass.litPipelineStateCache_ sp
  /\ ScenePass.additionalLightPipelineStateCache_ sp'
     = ScenePass.additionalLightPipelineStateCache_ sp.
Proof.
  intros Hcover Hrun. unfold ScenePass.CollectUnlitBatches in Hrun.
  apply bind_Ok in Hrun as (phase & Hphase & Hrun).
  apply bind_Ok in Hrun as (resolved & Hresolve & Hrun). injection Hrun as <-. simpl.
  apply (CollectUnlitBatches_phase GetPipelineState) in Hphase
    as (made & Hmade & Hbatches & _ & Hdirty); [|done|simpl; by rewrite length_resize].
  rewrite tv_ForEach_values in Hresolve.
  apply (resolve_pointers_all
           (unlitCarried camera callback (ScenePass.unlitPipelineStateCache_ sp))) in Hresolve
    as [Hlen Hall]; simpl in *.
  - split; [|done].
    rewrite Hlen, Hbatches, length_fmap. apply Forall2_length in Hmade. by rewrite <- Hmade.
  - intros p s s'. apply CollectUnlitBatches_resolve_step.
  - intros j b Hb. rewrite Hbatches, list_lookup_fmap in Hb.
    destruct (made !! j) as [b0|] eqn:Hb0; [|done]. injection Hb as <-.
    destruct (GetPipelineState (ScenePass.unlitPipelineStateCache_ sp) (Spec.unlitKey b0))
      as [ps|] eqn:Hfound.
    + left. left. unfold Spec.unlitKey, ScenePass.MakeKey in *. simpl.
      rewrite Hfound. done.
    + right. rewrite Hdirty. apply elem_of_app. right.
      apply elem_of_unlitMisses. exists b0. rewrite Nat.sub_0_r. split; [lia|done].
Qed.

(** The light batches appended since [before] carry their handle or are in
    the dirty list of their lane. *)
Local Abbreviation lightsTracked camera callback sceneLights cache before light dirty :=
  (forall t lane e b, light !! t = Some lane -> lane !! e = Some b ->
     Handles.produced before t e ->
     lightCarried camera callback sceneLights cache b
     \/ exists dl : list nat, dirty !! t = Some dl /\ e ∈ dl).

(** The lit base batches before position [g] carry their handle or are
    dirty. *)
Local Abbreviation baseTracked camera callback mainLightIndex sceneLights cache g base dirty :=
  (forall j b, j < g -> base !! j = Some b ->
     litCarried camera callback mainLightIndex sceneLights cache b
     \/ j ∈ concat (dirty : list (list nat))).

Lemma CollectLitBatches_light_carried (sp : ScenePass.ScenePass Cache) camera callback
    sceneLights (before : list (list ScenePass.BaseSceneBatch)) threadIndex
    intermediateBatch sceneBatch pixelLight st st' :
  ScenePass.CollectLitBatches_light GetPipelineState sp sceneLights threadIndex
    intermediateBatch sceneBatch pixelLight st = Ok st' ->
  ScenePass.lp_base st' = ScenePass.lp_base st
  /\ ScenePass.lp_baseDirty st' = ScenePass.lp_baseDirty st
  /\ (lightsTracked camera callback sceneLights
        (ScenePass.additionalLightPipelineStateCache_ sp) before
        (ScenePass.lp_light st) (ScenePass.lp_lightDirty st) ->
      lightsTracked camera callback sceneLights
        (ScenePass.additionalLightPipelineStateCache_ sp) before
        (ScenePass.lp_light st') (ScenePass.lp_lightDirty st')).
Proof.
  unfold ScenePass.CollectLitBatches_light. intros H.
  apply bind_Ok in H as (sceneLight & HsceneLight & H). apply defined_Ok in HsceneLight.
  apply bind_Ok in H as ([light batchIndex] & Hins & H).
  apply tv_Insert_inv in Hins as (lane0 & Hlane0 & -> & ->).
  set (found := GetPipelineState _ _) in *.
  assert (Hnew : forall dirty' : list (list nat),
    (forall t dl e, ScenePass.lp_lightDirty st !! t = Some dl -> e ∈ dl ->
                    exists dl', dirty' !! t = Some dl' /\ e ∈ dl') ->
    (found = None -> exists dl', dirty' !! threadIndex = Some dl' /\ length lane0 ∈ dl') ->
    lightsTracked camera callback sceneLights
      (ScenePass.additionalLightPipelineStateCache_ sp) before
      (ScenePass.lp_light st) (ScenePass.lp_lightDirty st) ->
    lightsTracked camera callback sceneLights
      (ScenePass.additionalLightPipelineStateCache_ sp) before
      (alter (fun lane => lane ++ [ScenePass.set_pipelineState found
                (ScenePass.set_light pixelLight.2
                   (additionalPass_ intermediateBatch) sceneBatch)]) threadIndex
         (ScenePass.lp_light st)) dirty').
  { intros dirty' Hmono Hmiss Htracked t lane e b Hlane He Hprod.
    destruct (decide (t = threadIndex)) as [->|Hne].
    - rewrite list_lookup_alter_eq, Hlane0 in Hlane. injection Hlane as <-.
      apply lookup_app_Some in He as [He|[Hlen He]].
      + destruct (Htracked _ _ _ _ Hlane0 He Hprod) as [?|(dl & Hdl & Hin)]; [by left|right].
        by eapply Hmono.
      + destruct (e - length lane0) as [|k] eqn:Hk;
          [|simpl in He; by rewrite lookup_nil in He].
        simpl in He. injection He as <-. replace e with (length lane0) by lia.
        destruct found as [ps|] eqn:Hfound; [left|right; by apply Hmiss].
        exists sceneLight. split; [exact HsceneLight|]. left.
        unfold found in Hfound. unfold ScenePass.MakeKey in *. simpl in *.
        rewrite Hfound. done.
    - rewrite list_lookup_alter_ne in Hlane by done.
      destruct (Htracked _ _ _ _ Hlane He Hprod) as [?|(dl & Hdl & Hin)]; [by left|right].
      by eapply Hmono. }
  destruct found as [ps|] eqn:Hfound; simpl in H.
  - injection H as <-. simpl. split; [done|]. split; [done|].
    apply Hnew; [eauto|done].
  - apply bind_Ok in H as ([dirty n] & Hdirty & H). injection H as <-. simpl.
    apply tv_Insert_inv in Hdirty as (dl0 & Hdl0 & -> & _).
    split; [done|]. split; [done|]. apply Hnew.
    + intros t dl e Hdl He. destruct (decide (t = threadIndex)) as [->|Hne].
      * rewrite list_lookup_alter_eq, Hdl. simpl. eexists. split; [done|].
        apply elem_of_app. by left.
      * rewrite list_lookup_alter_ne by done. eauto.
    + intros _. rewrite list_lookup_alter_eq, Hdl0. simpl. eexists. split; [done|].
      apply elem_of_app. right. by apply list_elem_of_singleton.
Qed.

Lemma CollectLitBatches_element_carried (sp : ScenePass.ScenePass Cache) camera callback
    mainLightIndex sceneLights drawableLighting
    (before : list (list ScenePass.BaseSceneBatch)) threadIndex offset i
    intermediateBatch n st st' :
  ScenePass.CollectLitBatches_element GetPipelineState sp mainLightIndex
    (Handles.lightHashOf (Handles.mainLightOf sceneLights mainLightIndex))
    sceneLights drawableLighting threadIndex offset i intermediateBatch st = Ok st' ->
  length (ScenePass.lp_base st) = n
  /\ baseTracked camera callback mainLightIndex sceneLights
       (ScenePass.litPipelineStateCache_ sp) (i + offset)
       (ScenePass.lp_base st) (ScenePass.lp_baseDirty st)
  /\ lightsTracked camera callback sceneLights
       (ScenePass.additionalLightPipelineStateCache_ sp) before
       (ScenePass.lp_light st) (ScenePass.lp_lightDirty st) ->
  length (ScenePass.lp_base st') = n
  /\ baseTracked camera callback mainLightIndex sceneLights
       (ScenePass.litPipelineStateCache_ sp) (S (i + offset))
       (ScenePass.lp_base st') (ScenePass.lp_baseDirty st')
  /\ lightsTracked camera callback sceneLights
       (ScenePass.additionalLightPipelineStateCache_ sp) before
       (ScenePass.lp_light st') (ScenePass.lp_lightDirty st').
Proof.
  unfold ScenePass.CollectLitBatches_element. intros H (Hlen & Hbase & Hlight).
  apply bind_Ok in H as (slot & Hslot & H).
  apply bind_Ok in H as (pixelLights & _ & H).
  apply bind_Ok in H as (sceneBatch & Hmake & H).
  apply bind_Ok in H as (baseDirty & Hdirty & H).
  set (found := GetPipelineState _ _) in *.
  eapply (forEach_invariant
            (fun s => length (ScenePass.lp_base s) = n
                      /\ baseTracked camera callback mainLightIndex sceneLights
                           (ScenePass.litPipelineStateCache_ sp) (S (i + offset))
                           (ScenePass.lp_base s) (ScenePass.lp_baseDirty s)
                      /\ lightsTracked camera callback sceneLights
                           (ScenePass.additionalLightPipelineStateCache_ sp) before
                           (ScenePass.lp_light s) (ScenePass.lp_lightDirty s)));
    [| |exact H].
  - intros pixelLight s s' _ (Hlen' & Hbase' & Hlight') Hstep.
    apply (CollectLitBatches_light_carried sp camera callback sceneLights before)
      in Hstep as (Hb & Hd & Hl).
    rewrite Hb, Hd. split; [done|]. split; [done|]. by apply Hl.
  - split; [|split]; simpl; [by rewrite length_insert|  |done].
    intros j b Hj Hb.
    assert (Hmono : forall y, y ∈ concat (ScenePass.lp_baseDirty st) ->
                              y ∈ concat baseDirty).
    { intros y Hy. destruct found; simpl in Hdirty.
      - by injection Hdirty as <-.
      - apply bind_Ok in Hdirty as ([dirty m] & Hins & Hdirty). injection Hdirty as <-.
        apply tv_Insert_inv in Hins as (lane & _ & -> & _).
        by apply elem_of_concat_alter_snoc. }
    destruct (decide (j = i + offset)) as [->|Hne].
    + rewrite list_lookup_insert_eq in Hb by (rewrite Hlen; apply defined_Ok in Hslot;
        apply lookup_lt_Some in Hslot; lia).
      injection Hb as <-. destruct found as [ps|] eqn:Hfound; simpl in Hdirty.
      * left. left.
        unfold ScenePass.BaseSceneBatch_make in Hmake.
        apply bind_Ok in Hmake as (drawable & _ & Hmake).
        apply bind_Ok in Hmake as (sourceBatch & _ & Hmake). injection Hmake as <-.
        unfold found in Hfound. unfold ScenePass.MakeKey in *. simpl in *.
        assert (Hhash : forall mainLightHash : unsigned,
          (mainLightIndex = M_MAX_UNSIGNED -> mainLightHash = 0%N) ->
          (if ((if ScenePass.hasLitBase pixelLights mainLightIndex
                then mainLightIndex else M_MAX_UNSIGNED) =? mainLightIndex)%N
           then mainLightHash else 0%N)
          = (if ScenePass.hasLitBase pixelLights mainLightIndex
             then mainLightHash else 0%N)).
        { intros mainLightHash Hzero.
          destruct (ScenePass.hasLitBase pixelLights mainLightIndex).
          - by rewrite N.eqb_refl.
          - destruct (M_MAX_UNSIGNED =? mainLightIndex)%N eqn:Hmax; [|done].
            apply N.eqb_eq in Hmax. by apply Hzero. }
        rewrite Hhash; [by rewrite Hfound|]. by intros ->.
      * right. apply bind_Ok in Hdirty as ([dirty m] & Hins & Hdirty).
        injection Hdirty as <-. apply tv_Insert_concat in Hins. rewrite Hins.
        apply elem_of_app. right. by apply list_elem_of_singleton.
    + rewrite list_lookup_insert_ne in Hb by done.
      destruct (Hbase j b) as [?|?]; [lia|done|by left|right; by apply Hmono].
Qed.

(** The pass over the dirty light batches. *)
Lemma CollectLitBatches_resolveLight_carried camera callback sceneLights cache0
    (before : list (list ScenePass.BaseSceneBatch))
    (remaining : list (nat * nat * nat)) : forall (st st' : ScenePass.ResolveLight Cache),
  (forall t lane e b, ScenePass.rl_light st !! t = Some lane -> lane !! e = Some b ->
     Handles.produced before t e ->
     lightCarried camera callback sceneLights cache0 b \/ exists k, (t, k, e) ∈ remaining) ->
  forEach (fun '(threadIndex, _, batchIndex) =>
             ScenePass.CollectLitBatches_resolveLight GetOrCreatePipelineState camera
               callback sceneLights threadIndex batchIndex) remaining st = Ok st' ->
  forall t lane e b, ScenePass.rl_light st' !! t = Some lane -> lane !! e = Some b ->
    Handles.produced before (t : nat) e ->
    lightCarried camera callback sceneLights cache0 b.
Proof.
  induction remaining as [|[[t0 k0] e0] rest IH]; intros st st' Htracked H; simpl in H.
  - injection H as <-. intros t lane e b Hlane He Hprod.
    destruct (Htracked t lane e b Hlane He Hprod) as [?|[k Hin]]; [done|].
    by apply elem_of_nil in Hin.
  - apply bind_Ok in H as (s1 & Hone & H).
    unfold ScenePass.CollectLitBatches_resolveLight in Hone.
    apply bind_Ok in Hone as (lightBatch & Hget & Hone).
    unfold tv_Get in Hget. apply bind_Ok in Hget as (lane0 & Hlane0 & Hget).
    apply defined_Ok in Hlane0, Hget.
    apply bind_Ok in Hone as (sceneLight & HsceneLight & Hone).
    apply defined_Ok in HsceneLight.
    destruct (GetOrCreatePipelineState _ _ _ _) as [cache1 r] eqn:Hcall.
    injection Hone as <-.
    refine (IH _ _ _ H). simpl. unfold tv_Set.
    intros t lane e b Hlane He Hprod.
    destruct (decide (t = t0)) as [->|Hne].
    + rewrite list_lookup_alter_eq, Hlane0 in Hlane. injection Hlane as <-.
      destruct (decide (e = e0)) as [->|Hne].
      * rewrite list_lookup_insert_eq in He by (by eapply lookup_lt_Some).
        injection He as <-. left. exists sceneLight. split; [exact HsceneLight|].
        right. exists (ScenePass.rl_cache st). simpl.
        unfold ScenePass.MakeKey in *. simpl. by rewrite Hcall.
      * rewrite list_lookup_insert_ne in He by done.
        destruct (Htracked _ _ _ _ Hlane0 He Hprod) as [?|[k Hin]]; [by left|right].
        exists k. apply elem_of_cons in Hin as [Heq|?]; [congruence|done].
    + rewrite list_lookup_alter_ne in Hlane by done.
      destruct (Htracked _ _ _ _ Hlane He Hprod) as [?|[k Hin]]; [by left|right].
      exists k. apply elem_of_cons in Hin as [Heq|?]; [congruence|done].
Qed.

(** The lit path: every lit base batch, and every light batch appended by
    the path, carries the handle its lookup found or one that get-or-create
    returned. *)
Lemma CollectLitBatches_carried schedule camera callback mainLightIndex sceneLights
    drawableLighting (sp sp' : ScenePass.ScenePass Cache) :
  Spec.covers schedule (tv_Size (ScenePass.litBatches_ sp)) ->
  ScenePass.CollectLitBatches GetPipelineState GetOrCreatePipelineState schedule camera
    callback mainLightIndex sceneLights drawableLighting sp = Ok sp' ->
  length (ScenePass.litBaseBatches_ sp') = tv_Size (ScenePass.litBatches_ sp)
  /\ Forall (litCarried camera callback mainLightIndex sceneLights
               (ScenePass.litPipelineStateCache_ sp))
       (ScenePass.litBaseBatches_ sp')
  /\ (forall t lane e b, ScenePass.lightBatches_ sp' !! t = Some lane ->
        lane !! e = Some b -> Handles.produced (ScenePass.lightBatches_ sp) t e ->
        lightCarried camera callback sceneLights
          (ScenePass.additionalLightPipelineStateCache_ sp) b)
  /\ ScenePass.unlitBaseBatches_ sp' = ScenePass.unlitBaseBatches_ sp.
Proof.
  intros Hcover Hrun. unfold ScenePass.CollectLitBatches in Hrun.
  apply bind_Ok in Hrun as (mainLight & HmainLight & Hrun).
  assert (mainLight = Handles.mainLightOf sceneLights mainLightIndex) as ->.
  { unfold Handles.mainLightOf.
    destruct (negb (mainLightIndex =? M_MAX_UNSIGNED)%N); simpl in HmainLight.
    - apply bind_Ok in HmainLight as (sceneLight & Hl & HmainLight).
      apply defined_Ok in Hl. injection HmainLight as <-. done.
    - by injection HmainLight as <-. }
  fold (Handles.lightHashOf (Handles.mainLightOf sceneLights mainLightIndex)) in Hrun.
  apply bind_Ok in Hrun as (phase & Hphase & Hrun).
  apply bind_Ok in Hrun as (resolvedBase & Hbase & Hrun).
  apply bind_Ok in Hrun as (resolvedLight & Hlight & Hrun). injection Hrun as <-. simpl.
  set (n := tv_Size (ScenePass.litBatches_ sp)) in *.
  assert (Htracked :
    length (ScenePass.lp_base phase) = n
    /\ baseTracked camera callback mainLightIndex sceneLights
         (ScenePass.litPipelineStateCache_ sp) n
         (ScenePass.lp_base phase) (ScenePass.lp_baseDirty phase)
    /\ lightsTracked camera callback sceneLights
         (ScenePass.additionalLightPipelineStateCache_ sp) (ScenePass.lightBatches_ sp)
         (ScenePass.lp_light phase) (ScenePass.lp_lightDirty phase)).
  { unfold tv_CopyTo in Hphase.
    replace n with (length (concat (ScenePass.litBatches_ sp))) at 2 by done.
    eapply (ForEachParallel_invariant
              (fun g s =>
                 length (ScenePass.lp_base s) = n
                 /\ baseTracked camera callback mainLightIndex sceneLights
                      (ScenePass.litPipelineStateCache_ sp) g
                      (ScenePass.lp_base s) (ScenePass.lp_baseDirty s)
                 /\ lightsTracked camera callback sceneLights
                      (ScenePass.additionalLightPipelineStateCache_ sp)
                      (ScenePass.lightBatches_ sp)
                      (ScenePass.lp_light s) (ScenePass.lp_lightDirty s))
              _ (concat (ScenePass.litBatches_ sp)));
      [| |exact Hphase|exact Hcover].
    - intros threadIndex offset i x s s' _ Hs Hstep.
      by eapply CollectLitBatches_element_carried.
    - split; [|split]; simpl.
      + by rewrite length_resize.
      + intros j b Hj. lia.
      + intros t lane e b Hlane He Hprod. apply lookup_lt_Some in He.
        specialize (Hprod lane Hlane). lia. }
  destruct Htracked as (Hlen & Hbasetracked & Hlighttracked).
  rewrite tv_ForEach_values in Hbase.
  apply (resolve_pointers_all
           (litCarried camera callback mainLightIndex sceneLights
              (ScenePass.litPipelineStateCache_ sp))) in Hbase
    as [Hlen' Hall]; simpl in *.
  - split; [by rewrite Hlen', Hlen|]. split; [done|]. split; [|done].
    intros t lane e b Hlane He Hprod.
    eapply (CollectLitBatches_resolveLight_carried camera callback sceneLights);
      [|exact Hlight|exact Hlane|exact He|exact Hprod].
    simpl. intros t' lane' e' b' Hlane' Hb' Hprod'.
    destruct (Hlighttracked _ _ _ _ Hlane' Hb' Hprod') as [?|(dl & Hdl & Hin)];
      [by left|right].
    apply list_elem_of_lookup in Hin as [k Hk]. exists k.
    apply tv_elements_lookup. eauto.
  - intros p s s'. apply CollectLitBatches_resolveBase_step.
  - intros j b Hb. apply (Hbasetracked j b); [|done].
    apply lookup_lt_Some in Hb. lia.
Qed.

End Carried.


Lemma simpleGetOrCreate_creates cache key ctx :
  (Scenes.simpleGetOrCreate cache key ctx Scenes.createState).2 <> None.
Proof. unfold Scenes.simpleGetOrCreate. by destruct (Scenes.simpleGet cache key). Defined.



(** ** Pass initialisation *)

Lemma IsValid_config pass pass' :
  Spec.sameConfig pass pass' ->
  SceneBatchCollector.IsValid pass' = SceneBatchCollector.IsValid pass.
Proof.
  intros (Hd & Hb & Hf & Ha).
  unfold SceneBatchCollector.IsValid, SceneBatchCollector.CheckSubPasses.
  by rewrite Hd, Hb, Hf, Ha.
Qed.

Lemma InitializePass_valid ndebug GetPassIndex numThreads desc slot :
  FrameSetup.validDescription GetPassIndex desc = true ->
  exists pass,
    SceneBatchCollector.InitializePass ndebug GetPassIndex numThreads desc slot = Ok pass
    /\ FrameSetup.freshPass GetPassIndex numThreads desc pass
    /\ SceneBatchCollector.unlitBaseSceneBatches_ pass
       = SceneBatchCollector.unlitBaseSceneBatches_ slot
    /\ SceneBatchCollector.litBaseSceneBatches_ pass
       = SceneBatchCollector.litBaseSceneBatches_ slot.
Proof.
  intros Hvalid. unfold SceneBatchCollector.InitializePass.
  set (passData := {| SceneBatchCollector.desc_ := desc |}).
  assert (Hcfg : Spec.sameConfig (FrameSetup.described GetPassIndex desc) passData)
    by (by repeat split).
  rewrite (IsValid_config _ _ Hcfg). unfold FrameSetup.validDescription in Hvalid.
  rewrite Hvalid. simpl. eexists. split; [done|]. by repeat split.
Qed.

Lemma InitializePass_invalid ndebug GetPassIndex numThreads desc slot :
  FrameSetup.validDescription GetPassIndex desc = false ->
  SceneBatchCollector.InitializePass ndebug GetPassIndex numThreads desc slot
  = if ndebug then
      Ok {| SceneBatchCollector.desc_ := desc;
            SceneBatchCollector.basePassIndex_ :=
              GetPassIndex (SceneBatchCollector.basePassName_ desc);
            SceneBatchCollector.firstLightPassIndex_ :=
              GetPassIndex (SceneBatchCollector.firstLightPassName_ desc);
            SceneBatchCollector.additionalLightPassIndex_ :=
              GetPassIndex (SceneBatchCollector.additionalLightPassName_ desc);
            SceneBatchCollector.unlitBatches_ := SceneBatchCollector.unlitBatches_ slot;
            SceneBatchCollector.litBatches_ := SceneBatchCollector.litBatches_ slot;
            SceneBatchCollector.unlitBaseSceneBatches_ :=
              SceneBatchCollector.unlitBaseSceneBatches_ slot;
            SceneBatchCollector.litBaseSceneBatches_ :=
              SceneBatchCollector.litBaseSceneBatches_ slot |}
    else AssertFailed.
Proof.
  intros Hvalid. unfold SceneBatchCollector.InitializePass.
  set (passData := {| SceneBatchCollector.desc_ := desc |}).
  assert (Hcfg : Spec.sameConfig (FrameSetup.described GetPassIndex desc) passData)
    by (by repeat split).
  rewrite (IsValid_config _ _ Hcfg). unfold FrameSetup.validDescription in Hvalid.
  rewrite Hvalid. simpl. by destruct ndebug.
Qed.

Lemma InitializePasses_loop_valid ndebug GetPassIndex numThreads descs slots :
  length slots = length descs ->
  Forall (fun desc => FrameSetup.validDescription GetPassIndex desc = true) descs ->
  exists passes,
    SceneBatchCollector.InitializePasses_loop ndebug GetPassIndex numThreads descs slots
    = Ok passes
    /\ Forall2 (FrameSetup.freshPass GetPassIndex numThreads) descs passes.
Proof.
  intros Hlen Hvalid. revert slots Hlen.
  induction Hvalid as [|desc descs Hdesc _ IH]; intros [|slot slots] Hlen;
    simpl in *; try done.
  - eexists. split; [done|]. constructor.
  - destruct (InitializePass_valid ndebug GetPassIndex numThreads desc slot Hdesc)
      as (pass & -> & Hfresh & _).
    destruct (IH slots) as (passes & -> & Hrest); [lia|]. simpl.
    eexists. split; [done|]. by constructor.
Qed.

(** The loop never yields [Undefined]; it aborts exactly when it meets an
    invalid description in a build with assertions. *)
Lemma InitializePasses_loop_outcome ndebug GetPassIndex numThreads descs slots :
  length slots = length descs ->
  match SceneBatchCollector.InitializePasses_loop ndebug GetPassIndex numThreads descs slots with
  | Ok passes => length passes = length descs
                 /\ (ndebug = true
                     \/ Forall (fun desc => FrameSetup.validDescription GetPassIndex desc = true)
                          descs)
  | AssertFailed => ndebug = false
                    /\ Exists (fun desc => FrameSetup.validDescription GetPassIndex desc = false)
                         descs
  | Undefined => False
  end.
Proof.
  revert slots. induction descs as [|desc descs IH]; intros [|slot slots] Hlen;
    simpl in *; try done.
  - split; [done|]. right. constructor.
  - specialize (IH slots ltac:(lia)).
    destruct (FrameSetup.validDescription GetPassIndex desc) eqn:Hdesc.
    + destruct (InitializePass_valid ndebug GetPassIndex numThreads desc slot Hdesc)
        as (pass & -> & _). simpl.
      destruct (SceneBatchCollector.InitializePasses_loop _ _ _ descs slots); simpl.
      * destruct IH as [IHlen IH]. split; [by rewrite IHlen|].
        destruct IH as [?|?]; [by left|right]. by constructor.
      * destruct IH as [? ?]. split; [done|]. by apply Exists_cons_tl.
      * done.
    + rewrite (InitializePass_invalid _ _ _ _ _ Hdesc). destruct ndebug; simpl.
      * destruct (SceneBatchCollector.InitializePasses_loop _ _ _ descs slots); simpl.
        -- destruct IH as [IHlen _]. split; [by rewrite IHlen|]. by left.
        -- by destruct IH.
        -- done.
      * split; [done|]. by apply Exists_cons_hd.
Qed.

(** X1.  With every description valid, [InitializePasses] completes in every
    build, and leaves one pass per description, in the order of the
    descriptions, each with its description, its resolved pass indices and
    empty buckets of one part per lane; nothing else of the collector
    changes. *)
Theorem InitializePasses_valid (ndebug : bool) (GetPassIndex : string -> unsigned)
    (descs : list SceneBatchCollector.ScenePassDescription)
    (c : SceneBatchCollector.Collector) :
  Forall (fun desc => FrameSetup.validDescription GetPassIndex desc = true) descs ->
  exists passes,
    SceneBatchCollector.InitializePasses ndebug GetPassIndex descs c
    = Ok (SceneBatchCollector.set_passes passes c)
    /\ Forall2 (FrameSetup.freshPass GetPassIndex (SceneBatchCollector.numThreads_ c))
         descs passes.
Proof.
  intros Hvalid. unfold SceneBatchCollector.InitializePasses.
  destruct (InitializePasses_loop_valid ndebug GetPassIndex
              (SceneBatchCollector.numThreads_ c) descs
              (resize (length descs) SceneBatchCollector.PassData_default
                 (SceneBatchCollector.passes_ c)))
    as (passes & -> & Hfresh); [apply length_resize|done|].
  simpl. eauto.
Qed.

(** X2.  In a build with assertions [InitializePasses] aborts exactly when
    some description is invalid; whatever the build, it never runs into
    undefined behaviour. *)
Theorem InitializePasses_asserts (ndebug : bool) (GetPassIndex : string -> unsigned)
    (descs : list SceneBatchCollector.ScenePassDescription)
    (c : SceneBatchCollector.Collector) :
  (SceneBatchCollector.InitializePasses ndebug GetPassIndex descs c = AssertFailed
   <-> ndebug = false
       /\ Exists (fun desc => FrameSetup.validDescription GetPassIndex desc = false) descs)
  /\ SceneBatchCollector.InitializePasses ndebug GetPassIndex descs c <> Undefined.
Proof.
  unfold SceneBatchCollector.InitializePasses.
  pose proof (InitializePasses_loop_outcome ndebug GetPassIndex
                (SceneBatchCollector.numThreads_ c) descs
                (resize (length descs) SceneBatchCollector.PassData_default
                   (SceneBatchCollector.passes_ c)) (length_resize _ _ _)) as H.
  destruct (SceneBatchCollector.InitializePasses_loop _ _ _ _ _); simpl.
  - split; [|done]. split; [done|]. intros [-> Hex]. destruct H as [_ [?|Hall]]; [done|].
    apply List.Exists_exists in Hex as (desc & Hin & Hdesc).
    rewrite list.Forall_forall in Hall. apply list_elem_of_In in Hin.
    specialize (Hall _ Hin). congruence.
  - split; [|done]. by split.
  - done.
Qed.

(** ** Induction over the collection of a frame *)

Lemma reached_app_processed threadIndex count rest (drawables : list Drawable) :
  Spec.processed ((threadIndex, count) :: rest) drawables
  = Spec.reached (take count drawables) ++ Spec.processed rest (drop count drawables).
Proof. done. Qed.

(** A property of the drawables processed so far and of the collector holds
    after the loop over a chunk when marking a drawable updated keeps it and
    collecting a drawable extends it. *)
Lemma ForThread_induction (P : list Drawable -> SceneBatchCollector.Collector -> Prop)
    threadIndex :
  (forall ds c d traits,
     P ds c ->
     or_trait (SceneBatchCollector.traits_ c) (GetDrawableIndex d) DrawableUpdated
     = Ok traits ->
     P ds (SceneBatchCollector.set_traits traits c)) ->
  (forall ds c d c',
     P ds c -> SceneBatchCollector.tooFar d = false ->
     FrameMarks.collectOne threadIndex d c = Ok c' -> P (ds ++ [d]) c') ->
  forall range ds c c',
    P ds c ->
    SceneBatchCollector.UpdateAndCollectSourceBatchesForThread threadIndex range c = Ok c' ->
    P (ds ++ Spec.reached range) c'.
Proof.
  intros Hupd Hstep range.
  induction range as [|d rest IH]; intros ds c c' HP H; simpl in H.
  - injection H as <-. simpl. by rewrite app_nil_r.
  - apply bind_Ok in H as (traits & Htraits & H). simpl.
    destruct (SceneBatchCollector.tooFar d) eqn:Hfar.
    + injection H as <-. rewrite app_nil_r. by eapply Hupd.
    + apply bind_Ok in H as (c1 & Hone & H).
      rewrite (cons_middle d), app_assoc. eapply IH; [|exact H].
      eapply Hstep; [|exact Hfar|exact Hone]. by eapply Hupd.
Qed.

Lemma frame_induction (lane : nat -> Prop)
    (P : list Drawable -> SceneBatchCollector.Collector -> Prop) :
  (forall ds c d traits,
     P ds c ->
     or_trait (SceneBatchCollector.traits_ c) (GetDrawableIndex d) DrawableUpdated
     = Ok traits ->
     P ds (SceneBatchCollector.set_traits traits c)) ->
  (forall threadIndex ds c d c',
     lane threadIndex ->
     P ds c -> SceneBatchCollector.tooFar d = false ->
     FrameMarks.collectOne threadIndex d c = Ok c' -> P (ds ++ [d]) c') ->
  forall schedule offset drawables ds c c',
    Forall (fun chunk => lane chunk.1) schedule ->
    P ds c ->
    ForEachParallel schedule
      (fun threadIndex _ drawablesRange =>
         SceneBatchCollector.UpdateAndCollectSourceBatchesForThread threadIndex
           drawablesRange)
      offset drawables c = Ok c' ->
    P (ds ++ Spec.processed schedule drawables) c'.
Proof.
  intros Hupd Hstep schedule.
  induction schedule as [|[threadIndex count] rest IH];
    intros offset drawables ds c c' Hlanes HP H; simpl in H.
  - injection H as <-. unfold Spec.processed. simpl. by rewrite app_nil_r.
  - apply list.Forall_cons in Hlanes as [Hlane Hlanes]. simpl in Hlane.
    apply bind_Ok in H as (c1 & Hchunk & H).
    rewrite reached_app_processed, app_assoc.
    eapply IH; [exact Hlanes| |exact H].
    eapply (ForThread_induction P threadIndex); [exact Hupd| |exact HP|exact Hchunk].
    intros ds' c2 d c3. by apply Hstep.
Qed.

(** ** What collecting one geometry changes *)

Lemma CollectGeometry_effect threadIndex drawable c c' :
  SceneBatchCollector.CollectGeometry threadIndex drawable c = Ok c' ->
  (exists lane, SceneBatchCollector.visibleGeometries_ c !! threadIndex = Some lane)
  /\ SceneBatchCollector.visibleGeometries_ c'
     = alter (fun lane => lane ++ [drawable]) threadIndex
         (SceneBatchCollector.visibleGeometries_ c)
  /\ SceneBatchCollector.drawableLighting_ c'
     = <[GetDrawableIndex drawable := []]> (SceneBatchCollector.drawableLighting_ c)
  /\ SceneBatchCollector.renderer_ c' = SceneBatchCollector.renderer_ c
  /\ SceneBatchCollector.materialQuality_ c' = SceneBatchCollector.materialQuality_ c
  /\ SceneBatchCollector.visibleLights_ c' = SceneBatchCollector.visibleLights_ c
  /\ GetDrawableIndex drawable < length (SceneBatchCollector.traits_ c).
Proof.
  unfold SceneBatchCollector.CollectGeometry. intros H.
  apply bind_Ok in H as ([geometries n] & Hgeo & H).
  apply bind_Ok in H as (traits & Htraits & H).
  apply bind_Ok in H as (c1 & Hloop & H).
  apply bind_Ok in H as (lighting & _ & H). injection H as <-. simpl.
  apply tv_Insert_inv in Hgeo as (lane & Hlane & -> & _).
  apply or_trait_inv in Htraits as (t & Ht & _). simpl in Ht.
  apply lookup_lt_Some in Ht.
  apply CollectSourceBatches_classified in Hloop as (Hsame & _).
  destruct Hsame as (Hr & _ & Hq & _ & Hg & _ & Hl & Hd). simpl in *.
  rewrite Hg, Hd, Hr, Hq, Hl. eauto 10.
Qed.

Lemma CollectLight_effect threadIndex light c c' :
  SceneBatchCollector.CollectLight threadIndex light c = Ok c' ->
  SceneBatchCollector.visibleGeometries_ c' = SceneBatchCollector.visibleGeometries_ c
  /\ SceneBatchCollector.drawableLighting_ c' = SceneBatchCollector.drawableLighting_ c
  /\ SceneBatchCollector.traits_ c' = SceneBatchCollector.traits_ c
  /\ SceneBatchCollector.passes_ c' = SceneBatchCollector.passes_ c
  /\ SceneBatchCollector.renderer_ c' = SceneBatchCollector.renderer_ c
  /\ SceneBatchCollector.materialQuality_ c' = SceneBatchCollector.materialQuality_ c.
Proof.
  unfold SceneBatchCollector.CollectLight.
  destruct (negb (EffectiveColorIsBlack light) && _); intros H.
  - apply bind_Ok in H as ([lights n] & _ & H). by injection H as <-.
  - by injection H as <-.
Qed.

(** ** Visible geometries of a frame *)

Lemma frame_geometries schedule offset drawables c c' :
  ForEachParallel schedule
    (fun threadIndex _ drawablesRange =>
       SceneBatchCollector.UpdateAndCollectSourceBatchesForThread threadIndex drawablesRange)
    offset drawables c = Ok c' ->
  concat (SceneBatchCollector.visibleGeometries_ c')
  ≡ₚ concat (SceneBatchCollector.visibleGeometries_ c)
     ++ filter (fun d => FrameSetup.isGeometry d = true) (Spec.processed schedule drawables).
Proof.
  intros H.
  pose (P := fun ds c1 =>
    concat (SceneBatchCollector.visibleGeometries_ c1)
    ≡ₚ concat (SceneBatchCollector.visibleGeometries_ c)
       ++ filter (fun d => FrameSetup.isGeometry d = true) ds).
  refine (frame_induction (fun _ => True) P _ _ schedule offset drawables [] c c' _ _ H).
  - intros ds c1 d traits HP _. exact HP.
  - intros threadIndex ds c1 d c2 _ HP _ Hone. unfold P in *.
    rewrite list.filter_app, filter_cons, filter_nil.
    unfold FrameMarks.collectOne in Hone. fold (FrameSetup.isGeometry d) in Hone.
    destruct (FrameSetup.isGeometry d) eqn:Hgeo.
    + rewrite decide_True by done.
      apply CollectGeometry_effect in Hone as ([lane Hlane] & -> & _).
      rewrite (concat_alter_snoc _ _ _ _ Hlane), HP. by rewrite <- app_assoc.
    + rewrite decide_False by done. rewrite app_nil_r.
      destruct (nonzero (N.land (GetDrawableFlags d) DRAWABLE_LIGHT)).
      * apply CollectLight_effect in Hone as (-> & _). exact HP.
      * by injection Hone as <-.
  - by apply Forall_true.
  - unfold P. simpl. by rewrite app_nil_r.
Qed.

(** ** Visibility marks of a frame *)

Lemma mark_lor t flag :
  nonzero (N.land (N.lor t flag) DrawableVisibleGeometry)
  = nonzero (N.land t DrawableVisibleGeometry)
    || nonzero (N.land flag DrawableVisibleGeometry).
Proof.
  unfold nonzero. rewrite N.land_lor_distr_l.
  destruct (N.eqb_spec (N.land t DrawableVisibleGeometry) 0) as [Ht|Ht];
    destruct (N.eqb_spec (N.land flag DrawableVisibleGeometry) 0) as [Hf|Hf];
    destruct (N.eqb_spec (N.lor (N.land t DrawableVisibleGeometry)
                                (N.land flag DrawableVisibleGeometry)) 0) as [H|H];
    simpl; try done.
  - rewrite Ht, Hf in H. done.
  - apply N.lor_eq_0_iff in H as [_ ?]. done.
  - apply N.lor_eq_0_iff in H as [? _]. done.
  - apply N.lor_eq_0_iff in H as [? _]. done.
Qed.

Lemma visibleMark_alter (g : N -> N) (m : bool) j (traits : list N) i :
  (forall t, nonzero (N.land (g t) DrawableVisibleGeometry)
             = nonzero (N.land t DrawableVisibleGeometry) || m) ->
  j < length traits ->
  FrameMarks.visibleMark (alter g j traits) i
  = FrameMarks.visibleMark traits i || (m && bool_decide (j = i)).
Proof.
  intros Hg Hj. unfold FrameMarks.visibleMark.
  destruct (decide (j = i)) as [->|Hne].
  - rewrite list_lookup_alter_eq. apply lookup_lt_is_Some_2 in Hj as [t ->]. simpl.
    rewrite Hg, bool_decide_true by done. by rewrite andb_true_r.
  - rewrite list_lookup_alter_ne by done. rewrite bool_decide_false by done.
    by rewrite andb_false_r, orb_false_r.
Qed.

Lemma frame_marks schedule offset drawables c c' i :
  ForEachParallel schedule
    (fun threadIndex _ drawablesRange =>
       SceneBatchCollector.UpdateAndCollectSourceBatchesForThread threadIndex drawablesRange)
    offset drawables c = Ok c' ->
  FrameMarks.visibleMark (SceneBatchCollector.traits_ c') i
  = FrameMarks.visibleMark (SceneBatchCollector.traits_ c) i
    || existsb (fun d => FrameSetup.isGeometry d && bool_decide (GetDrawableIndex d = i))
         (Spec.processed schedule drawables).
Proof.
  intros H.
  pose (P := fun ds c1 =>
    FrameMarks.visibleMark (SceneBatchCollector.traits_ c1) i
    = FrameMarks.visibleMark (SceneBatchCollector.traits_ c) i
      || existsb (fun d => FrameSetup.isGeometry d && bool_decide (GetDrawableIndex d = i)) ds).
  refine (frame_induction (fun _ => True) P _ _ schedule offset drawables [] c c' _ _ H).
  - intros ds c1 d traits HP Htraits. unfold P in *. simpl.
    apply or_trait_inv in Htraits as (t & Ht & ->).
    rewrite (visibleMark_alter _ false); [|intros t'; apply mark_lor|by eapply lookup_lt_Some].
    simpl. by rewrite orb_false_r.
  - intros threadIndex ds c1 d c2 _ HP _ Hone. unfold P in *.
    rewrite existsb_app. simpl. rewrite orb_false_r.
    unfold FrameMarks.collectOne in Hone. fold (FrameSetup.isGeometry d) in Hone.
    destruct (FrameSetup.isGeometry d) eqn:Hgeo; simpl.
    + pose proof Hone as Hrun. apply CollectGeometry_classified in Hone as [_ ->].
      apply CollectGeometry_effect in Hrun as (_ & _ & _ & _ & _ & _ & Hlt).
      rewrite (visibleMark_alter _ true); [|intros t'|exact Hlt].
      * rewrite HP. by rewrite andb_true_l, orb_assoc.
      * rewrite !mark_lor. unfold Spec.flagIf. simpl.
        by destruct (Spec.anyLitFrom _ _ _ _ _); simpl; rewrite ?orb_false_r.
    + rewrite orb_false_r.
      destruct (nonzero (N.land (GetDrawableFlags d) DRAWABLE_LIGHT)).
      * apply CollectLight_effect in Hone as (_ & _ & -> & _). exact HP.
      * by injection Hone as <-.
  - by apply Forall_true.
  - unfold P. simpl. by rewrite orb_false_r.
Qed.

(** ** Light accumulators of a frame *)

Lemma frame_accumulators schedule offset drawables c c' :
  ForEachParallel schedule
    (fun threadIndex _ drawablesRange =>
       SceneBatchCollector.UpdateAndCollectSourceBatchesForThread threadIndex drawablesRange)
    offset drawables c = Ok c' ->
  SceneBatchCollector.drawableLighting_ c'
  = FrameMarks.resetAll (SceneBatchCollector.drawableLighting_ c)
      (filter (fun d => FrameSetup.isGeometry d = true) (Spec.processed schedule drawables)).
Proof.
  intros H.
  pose (P := fun ds c1 =>
    SceneBatchCollector.drawableLighting_ c1
    = FrameMarks.resetAll (SceneBatchCollector.drawableLighting_ c)
        (filter (fun d => FrameSetup.isGeometry d = true) ds)).
  refine (frame_induction (fun _ => True) P _ _ schedule offset drawables [] c c' _ _ H).
  - intros ds c1 d traits HP _. exact HP.
  - intros threadIndex ds c1 d c2 _ HP _ Hone. unfold P in *.
    rewrite list.filter_app, filter_cons, filter_nil.
    unfold FrameMarks.collectOne in Hone. fold (FrameSetup.isGeometry d) in Hone.
    destruct (FrameSetup.isGeometry d) eqn:Hgeo.
    + rewrite decide_True by done.
      apply CollectGeometry_effect in Hone as (_ & _ & -> & _).
      unfold FrameMarks.resetAll. rewrite foldl_app. simpl. by rewrite HP.
    + rewrite decide_False by done. rewrite app_nil_r.
      destruct (nonzero (N.land (GetDrawableFlags d) DRAWABLE_LIGHT)).
      * apply CollectLight_effect in Hone as (_ & -> & _). exact HP.
      * by injection Hone as <-.
  - by apply Forall_true.
  - done.
Qed.

Lemma foldl_insert_lookup {A B} (e : A) (f : B -> nat) (l : list A) (xs : list B) i :
  foldl (fun l x => <[f x := e]> l) l xs !! i
  = if bool_decide (i ∈ f <$> xs) then (fun _ => e) <$> l !! i else l !! i.
Proof.
  revert l. induction xs as [|x rest IH]; intros l.
  - done.
  - rewrite fmap_cons. cbn [foldl]. rewrite IH.
    assert (Hins : <[f x := e]> l !! f x = (fun _ => e) <$> l !! f x).
    { destruct (decide (f x < length l)) as [Hlt|Hge].
      - rewrite list_lookup_insert_eq by done.
        by apply lookup_lt_is_Some_2 in Hlt as [y ->].
      - apply Nat.nlt_ge in Hge. rewrite list_insert_ge by exact Hge.
        apply lookup_ge_None_2 in Hge. by rewrite Hge. }
    destruct (decide (f x = i)) as [Heq|Hne].
    + rewrite (bool_decide_true (_ ∈ _ :: _)) by (apply elem_of_cons; by left).
      rewrite <- Heq, Hins. by destruct (bool_decide (f x ∈ f <$> rest)), (l !! f x).
    + rewrite list_lookup_insert_ne by done.
      destruct (decide (i ∈ f <$> rest)) as [Hin|Hnotin].
      * rewrite !bool_decide_true; [done| |done]. apply elem_of_cons. by right.
      * rewrite !bool_decide_false; [done| |done].
        intros [?|?]%elem_of_cons; congruence.
Qed.

Lemma resetAll_lookup (lighting : list DrawableLightData) geometries i :
  FrameMarks.resetAll lighting geometries !! i
  = if bool_decide (i ∈ GetDrawableIndex <$> geometries)
    then (fun _ => []) <$> lighting !! i
    else lighting !! i.
Proof. apply (foldl_insert_lookup [] GetDrawableIndex). Qed.

(** ** Buckets of a frame *)

Lemma concat_alter_app {T} (tv : list (list T)) threadIndex lane l :
  tv !! threadIndex = Some lane ->
  concat (alter (fun lane => lane ++ l) threadIndex tv) ≡ₚ concat tv ++ l.
Proof.
  revert threadIndex. induction tv as [|first tv IH]; intros [|t] H; simpl in *; try done.
  - rewrite <- !app_assoc. apply Permutation_app_head, Permutation_app_comm.
  - rewrite (IH _ H). by rewrite app_assoc.
Qed.

Lemma frameBatches_snoc bucket c pass ds d :
  FrameBuckets.frameBatches bucket c pass (ds ++ [d])
  = FrameBuckets.frameBatches bucket c pass ds
    ++ (if FrameSetup.isGeometry d then Spec.batchesFrom bucket c pass d 0 (GetBatches d)
        else []).
Proof.
  unfold FrameBuckets.frameBatches. rewrite list.filter_app, map_app, concat_app.
  rewrite filter_cons, filter_nil.
  destruct (FrameSetup.isGeometry d); simpl; by rewrite ?app_nil_r.
Qed.

Lemma passesCollected_start c : passesCollected c [] c.
Proof.
  split; [done|]. split; [done|].
  apply Forall_Forall2_diag, Forall_true. intros pass.
  split; [|done]. split; [apply sameConfig_refl|].
  unfold FrameBuckets.frameBatches. simpl. by rewrite !app_nil_r.
Qed.

Lemma frame_passes schedule offset drawables c c' :
  Forall (fun chunk => Spec.laneReady chunk.1 c) schedule ->
  ForEachParallel schedule
    (fun threadIndex _ drawablesRange =>
       SceneBatchCollector.UpdateAndCollectSourceBatchesForThread threadIndex drawablesRange)
    offset drawables c = Ok c' ->
  passesCollected c (Spec.processed schedule drawables) c'.
Proof.
  intros Hlanes H.
  refine (frame_induction (fun t => Spec.laneReady t c) (passesCollected c) _ _
            schedule offset drawables [] c c' Hlanes (passesCollected_start c) H).
  - intros ds c1 d traits HP _. exact HP.
  - intros threadIndex ds c1 d c2 (_ & _ & Hlane) (Hr & Hq & Hpasses) _ Hone.
    unfold FrameMarks.collectOne in Hone. fold (FrameSetup.isGeometry d) in Hone.
    destruct (FrameSetup.isGeometry d) eqn:Hgeo.
    + pose proof Hone as Hrun.
      apply CollectGeometry_effect in Hrun as (_ & _ & _ & Hr' & Hq' & _).
      apply CollectGeometry_classified in Hone as [Hone _].
      split; [congruence|]. split; [congruence|].
      assert (Hboth : Forall2 (fun pass pass' =>
                  (FrameBuckets.collectedFrame c ds pass pass'
                   /\ length (SceneBatchCollector.litBatches_ pass')
                      = length (SceneBatchCollector.litBatches_ pass)
                   /\ length (SceneBatchCollector.unlitBatches_ pass')
                      = length (SceneBatchCollector.unlitBatches_ pass))
                  /\ (threadIndex < length (SceneBatchCollector.litBatches_ pass)
                      /\ threadIndex < length (SceneBatchCollector.unlitBatches_ pass)))
                (SceneBatchCollector.passes_ c) (SceneBatchCollector.passes_ c1)).
      { clear -Hlane Hpasses. induction Hpasses as [|p p1 ps ps1 Hp _ IH].
        - constructor.
        - apply list.Forall_cons in Hlane as [? ?]. constructor; [done|by apply IH]. }
      clear Hpasses.
      eapply Forall2_trans; [|exact Hboth|exact Hone].
      intros p p1 p2 [((Hcfg & Hlit & Hunlit) & Hll & Hlu) [Htl Htu]]
        (Hcfg' & Hlit' & Hunlit').
      rewrite !(batchesFrom_ext _ c c1 p p1) in * by done.
      destruct (lookup_lt_is_Some_2 (SceneBatchCollector.litBatches_ p1) threadIndex)
        as [laneL HlaneL]; [lia|].
      destruct (lookup_lt_is_Some_2 (SceneBatchCollector.unlitBatches_ p1) threadIndex)
        as [laneU HlaneU]; [lia|].
      split; [|by rewrite Hlit', Hunlit', !length_alter].
      split; [by eapply sameConfig_trans|].
      rewrite !frameBatches_snoc, Hgeo. unfold tv_CopyTo in *.
      rewrite Hlit', Hunlit'.
      rewrite (concat_alter_app _ _ _ _ HlaneL), (concat_alter_app _ _ _ _ HlaneU).
      rewrite Hlit, Hunlit. by rewrite <- !app_assoc.
    + assert (Hsame : SceneBatchCollector.passes_ c2 = SceneBatchCollector.passes_ c1
                      /\ SceneBatchCollector.renderer_ c2 = SceneBatchCollector.renderer_ c1
                      /\ SceneBatchCollector.materialQuality_ c2
                         = SceneBatchCollector.materialQuality_ c1).
      { destruct (nonzero (N.land (GetDrawableFlags d) DRAWABLE_LIGHT)).
        - by apply CollectLight_effect in Hone as (_ & _ & _ & -> & -> & ->).
        - by injection Hone as <-. }
      destruct Hsame as (Hp2 & Hr2 & Hq2). split; [congruence|]. split; [congruence|].
      rewrite Hp2. eapply List.Forall2_impl; [|exact Hpasses].
      intros p p1 ((Hcfg & Hlit & Hunlit) & Hlen). split; [|done].
      split; [done|]. rewrite !frameBatches_snoc, Hgeo. by rewrite !app_nil_r.
Qed.

(** ** Soundness of the buckets *)

Lemma notnull_Some {A} (p : option A) : notnull p = true -> p <> None.
Proof. by destruct p. Qed.

Lemma classified_sound bucket pass d i technique b :
  b ∈ Spec.classified bucket pass d i technique ->
  geometry_ b = Some d /\ sourceBatchIndex_ b = i /\ basePass_ b <> None
  /\ match bucket with
     | Spec.LitBucket =>
         additionalPass_ b <> None
         /\ SceneBatchCollector.type_ (SceneBatchCollector.desc_ pass)
            <> SceneBatchCollector.Unlit
     | Spec.UnlitBucket => additionalPass_ b = None
     end.
Proof.
  unfold Spec.classified, Spec.classify.
  destruct (SceneBatchCollector.type_ (SceneBatchCollector.desc_ pass));
    destruct (notnull (GetPass technique (SceneBatchCollector.basePassIndex_ pass))) eqn:Hb;
    destruct (notnull (GetPass technique (SceneBatchCollector.firstLightPassIndex_ pass)))
      eqn:Hf;
    destruct (notnull (GetPass technique
                         (SceneBatchCollector.additionalLightPassIndex_ pass))) eqn:Ha;
    destruct bucket; simpl; intros Hin;
    try (by apply elem_of_nil in Hin);
    apply list_elem_of_singleton in Hin as ->; simpl;
    repeat split; try done; by apply notnull_Some.
Qed.

Lemma batchesFrom_sound bucket c pass d i sourceBatches b :
  b ∈ Spec.batchesFrom bucket c pass d i sourceBatches ->
  geometry_ b = Some d
  /\ (exists k sourceBatch,
        sourceBatches !! k = Some sourceBatch /\ sourceBatchIndex_ b = i + k)
  /\ basePass_ b <> None
  /\ match bucket with
     | Spec.LitBucket =>
         additionalPass_ b <> None
         /\ SceneBatchCollector.type_ (SceneBatchCollector.desc_ pass)
            <> SceneBatchCollector.Unlit
     | Spec.UnlitBucket => additionalPass_ b = None
     end.
Proof.
  revert i. induction sourceBatches as [|sourceBatch rest IH]; intros i; simpl.
  - by intros ?%elem_of_nil.
  - rewrite elem_of_app. intros [Hin|Hin].
    + destruct (Spec.techniqueOf c d sourceBatch) as [technique|];
        [|by apply elem_of_nil in Hin].
      apply classified_sound in Hin as (Hg & Hi & Hb & Hrest).
      split; [done|]. split; [|done]. exists 0, sourceBatch. split; [done|]. lia.
    + apply IH in Hin as (Hg & (k & sb & Hk & Hi) & Hrest).
      split; [done|]. split; [|done]. exists (S k), sb. split; [done|]. lia.
Qed.

Lemma frameBatches_sound bucket c pass ds b :
  b ∈ FrameBuckets.frameBatches bucket c pass ds ->
  (exists d, d ∈ ds /\ FrameSetup.isGeometry d = true /\ geometry_ b = Some d)
  /\ FrameBuckets.wellFormed b
  /\ basePass_ b <> None
  /\ match bucket with
     | Spec.LitBucket =>
         additionalPass_ b <> None
         /\ SceneBatchCollector.type_ (SceneBatchCollector.desc_ pass)
            <> SceneBatchCollector.Unlit
     | Spec.UnlitBucket => additionalPass_ b = None
     end.
Proof.
  unfold FrameBuckets.frameBatches. intros Hin.
  apply list_elem_of_In, in_concat in Hin as (l & Hl & Hin).
  apply in_map_iff in Hl as (d & <- & Hd).
  apply list_elem_of_In, list_elem_of_filter in Hd as [Hgeo Hd].
  apply list_elem_of_In, batchesFrom_sound in Hin as (Hg & (k & sb & Hk & Hi) & Hrest).
  split; [by exists d|]. split; [|done].
  exists d, sb. split; [done|]. by rewrite Hi.
Qed.

Lemma collectedFrame_sound c ds pass pass' :
  FrameBuckets.collectedFrame c ds pass pass' ->
  FrameBuckets.bucketsSound pass -> FrameBuckets.bucketsSound pass'.
Proof.
  intros ((Hdesc & _) & Hlit & Hunlit) (Hl & Hu & Hnone).
  split; [|split].
  - rewrite Hlit. apply Forall_app. split; [done|].
    apply list.Forall_forall. intros b Hb.
    apply frameBatches_sound in Hb as (_ & Hwf & Hbase & Hadd & _). by repeat split.
  - rewrite Hunlit. apply Forall_app. split; [done|].
    apply list.Forall_forall. intros b Hb.
    apply frameBatches_sound in Hb as (_ & Hwf & Hbase & Hadd). by repeat split.
  - rewrite Hdesc. intros Htype. apply Permutation_nil_r. rewrite Hlit, (Hnone Htype).
    simpl. destruct (FrameBuckets.frameBatches Spec.LitBucket c pass ds) as [|b l] eqn:Hbs; [done|].
    assert (Hb : b ∈ FrameBuckets.frameBatches Spec.LitBucket c pass ds)
      by (rewrite Hbs; apply elem_of_cons; by left).
    apply frameBatches_sound in Hb as (_ & _ & _ & _ & Hne). done.
Qed.

(** ** The final batches of the collector *)

Lemma wellFormed_sceneBatchOf defaultMaterial old b :
  FrameBuckets.wellFormed b -> exists new, FinalBatches.sceneBatchOf defaultMaterial old b = Ok new.
Proof.
  intros (d & sb & Hd & Hsb). unfold FinalBatches.sceneBatchOf. rewrite Hd. simpl.
  rewrite Hsb. simpl. eauto.
Qed.

Lemma CollectSceneBatches_chunk_body defaultMaterial t offset batches out :
  SceneBatchCollector.CollectSceneBatches_chunk defaultMaterial offset batches out
  = forEachIndexed (finalBody defaultMaterial t offset) 0 batches out.
Proof.
  unfold SceneBatchCollector.CollectSceneBatches_chunk.
  generalize 0. revert out.
  induction batches as [|b batches IH]; intros out k; [done|].
  cbn [forEachIndexed].
  match goal with
  | |- ?l ≫= _ = _ => assert (Hone : l = finalBody defaultMaterial t offset k b out)
  end.
  { unfold finalBody, FinalBatches.sceneBatchOf.
    destruct (out !! (k + offset)) as [old|]; simpl; [|done].
    destruct (geometry_ b) as [d|]; simpl; [|done].
    by destruct (GetBatches d !! sourceBatchIndex_ b). }
  rewrite Hone.
  destruct (finalBody defaultMaterial t offset k b out); simpl; [apply IH|done..].
Qed.

Lemma CollectSceneBatches_parallel_body defaultMaterial schedule offset ibs st :
  ForEachParallel schedule
    (fun _ offset batches =>
       SceneBatchCollector.CollectSceneBatches_chunk defaultMaterial offset batches)
    offset ibs st
  = ForEachParallel schedule
      (fun threadIndex offset batches =>
         forEachIndexed (finalBody defaultMaterial threadIndex offset) 0 batches)
      offset ibs st.
Proof.
  revert offset ibs st.
  induction schedule as [|[t count] rest IH]; intros offset ibs st; simpl; [done|].
  rewrite (CollectSceneBatches_chunk_body defaultMaterial t).
  destruct (forEachIndexed _ _ _ _); simpl; [apply IH|done..].
Qed.

Lemma CollectSceneBatches_pass_finalised schedule defaultMaterial pass :
  Spec.covers schedule (tv_Size (SceneBatchCollector.unlitBatches_ pass)) ->
  Forall FrameBuckets.wellFormed (tv_CopyTo (SceneBatchCollector.unlitBatches_ pass)) ->
  exists pass',
    SceneBatchCollector.CollectSceneBatches_pass schedule defaultMaterial pass = Ok pass'
    /\ FinalBatches.finalised defaultMaterial pass pass'.
Proof.
  intros Hcover Hwf. unfold SceneBatchCollector.CollectSceneBatches_pass.
  set (ibs := tv_CopyTo (SceneBatchCollector.unlitBatches_ pass)) in *.
  set (n := tv_Size (SceneBatchCollector.unlitBatches_ pass)) in *.
  assert (Hn : length ibs = n) by done.
  set (out0 := resize n SceneBatchCollector.SceneBatch_default
                 (SceneBatchCollector.unlitBaseSceneBatches_ pass)).
  assert (Hout0 : length out0 = n) by apply length_resize.
  pose (body := finalBody defaultMaterial).
  rewrite CollectSceneBatches_parallel_body. fold body.
  destruct (ForEachParallel_body_defined
              (fun out : list SceneBatchCollector.SceneBatch => length out = n)
              (fun _ => True) body ibs) with (schedule := schedule) (offset := 0)
      (st := out0) as (out & Hrun & Hlen); [|by apply Forall_true|done|].
  { intros t offset i b s _ Hb Hs. unfold body, finalBody.
    destruct (lookup_lt_is_Some_2 s (i + offset)) as [old ->].
    { rewrite Hs, <- Hn. by eapply lookup_lt_Some. }
    simpl. rewrite list.Forall_forall in Hwf.
    destruct (wellFormed_sceneBatchOf defaultMaterial old b) as [new ->].
    { apply Hwf. by eapply list_elem_of_lookup_2. }
    simpl. eexists. split; [done|]. by rewrite length_insert. }
  rewrite drop_0 in Hrun. rewrite Hrun. simpl. eexists. split; [done|].
  exists out. split; [done|]. split; [done|].
  pose (P := fun g (s : list SceneBatchCollector.SceneBatch) =>
    (forall j b, j < g -> ibs !! j = Some b ->
       exists old new, out0 !! j = Some old
         /\ FinalBatches.sceneBatchOf defaultMaterial old b = Ok new /\ s !! j = Some new)
    /\ (forall j, g <= j -> s !! j = out0 !! j)).
  assert (Hend : P (length ibs) out).
  { eapply (ForEachParallel_invariant P body ibs); [| |exact Hrun|exact Hcover].
    - intros t offset i b s s' Hb [Hdone Hrest] Hstep. unfold body, finalBody in Hstep.
      apply bind_Ok in Hstep as (old & Hold & Hstep). apply defined_Ok in Hold.
      apply bind_Ok in Hstep as (new & Hnew & Hstep). injection Hstep as <-.
      split.
      + intros j b' Hj Hb'. destruct (decide (j = i + offset)) as [->|Hne].
        * exists old, new. rewrite <- (Hrest (i + offset)) by lia.
          split; [done|]. split; [congruence|].
          apply list_lookup_insert_eq. by eapply lookup_lt_Some.
        * destruct (Hdone j b') as (old' & new' & ? & ? & ?); [lia|done|].
          exists old', new'. split; [done|]. split; [done|].
          by rewrite list_lookup_insert_ne.
      + intros j Hj. rewrite list_lookup_insert_ne by lia. apply Hrest. lia.
    - split; [intros j b Hj; lia|done]. }
  destruct Hend as [Hdone _]. intros g b Hb. apply (Hdone g b); [|done].
  by eapply lookup_lt_Some.
Qed.

(** ** The collection of a frame, as a whole *)

Lemma frame_run schedule drawables c :
  Forall (fun chunk => Spec.laneReady chunk.1 c) schedule ->
  Forall (fun drawable => Spec.indexed drawable c) drawables ->
  exists c1,
    ForEachParallel schedule
      (fun threadIndex _ drawablesRange =>
         SceneBatchCollector.UpdateAndCollectSourceBatchesForThread threadIndex
           drawablesRange)
      0 drawables c = Ok c1
    /\ SceneBatchCollector.UpdateAndCollectSourceBatches schedule drawables c
       = Ok (SceneBatchCollector.set_visibleLights
               (tv_CopyTo (SceneBatchCollector.visibleLightsTemp_ c1)) c1).
Proof.
  intros Hlanes Hidx.
  destruct (ForEachParallel_defined schedule 0 drawables c Hlanes Hidx) as [c1 Hrun].
  exists c1. split; [done|].
  unfold SceneBatchCollector.UpdateAndCollectSourceBatches. by rewrite Hrun.
Qed.

(** X3.  The collection of a frame, on lanes that have their part in the
    thread-local collections and for drawables that have their slot in the
    per-frame indices, completes; afterwards the visible geometries are, up
    to the order in which the lanes are merged, those present before
    together with the processed drawables that are geometries. *)
Theorem visible_geometries_collected (schedule : list (nat * nat))
    (drawables : list Drawable) (c : SceneBatchCollector.Collector) :
  Forall (fun chunk => Spec.laneReady chunk.1 c) schedule ->
  Forall (fun drawable => Spec.indexed drawable c) drawables ->
  exists c',
    SceneBatchCollector.UpdateAndCollectSourceBatches schedule drawables c = Ok c'
    /\ tv_CopyTo (SceneBatchCollector.visibleGeometries_ c')
       ≡ₚ tv_CopyTo (SceneBatchCollector.visibleGeometries_ c)
          ++ filter (fun d => FrameSetup.isGeometry d = true)
               (Spec.processed schedule drawables).
Proof.
  intros Hlanes Hidx.
  destruct (frame_run schedule drawables c Hlanes Hidx) as (c1 & Hpar & Hrun).
  eexists. split; [exact Hrun|]. simpl. by apply frame_geometries in Hpar.
Qed.

Lemma visible_geometries_collected_witness :
  exists c',
    SceneBatchCollector.UpdateAndCollectSourceBatches Scenes2.twoChunks
      Scenes2.threeDrawables Scenes2.startedCollector = Ok c'
    /\ tv_CopyTo (SceneBatchCollector.visibleGeometries_ c')
       ≡ₚ tv_CopyTo (SceneBatchCollector.visibleGeometries_ Scenes2.startedCollector)
          ++ filter (fun d => FrameSetup.isGeometry d = true)
               (Spec.processed Scenes2.twoChunks Scenes2.threeDrawables).
Proof.
  apply visible_geometries_collected.
  - repeat constructor; simpl; lia.
  - repeat constructor; simpl; lia.
Defined.

(** X4.  After the collection of a frame a drawable index is marked visible
    geometry in the transient index exactly when it was marked before or a
    processed geometry has that index. *)
Theorem visible_marks_collected (schedule : list (nat * nat))
    (drawables : list Drawable) (c : SceneBatchCollector.Collector) :
  Forall (fun chunk => Spec.laneReady chunk.1 c) schedule ->
  Forall (fun drawable => Spec.indexed drawable c) drawables ->
  exists c',
    SceneBatchCollector.UpdateAndCollectSourceBatches schedule drawables c = Ok c'
    /\ forall i,
         FrameMarks.visibleMark (SceneBatchCollector.traits_ c') i = true
         <-> FrameMarks.visibleMark (SceneBatchCollector.traits_ c) i = true
             \/ exists d, d ∈ Spec.processed schedule drawables
                          /\ FrameSetup.isGeometry d = true /\ GetDrawableIndex d = i.
Proof.
  intros Hlanes Hidx.
  destruct (frame_run schedule drawables c Hlanes Hidx) as (c1 & Hpar & Hrun).
  eexists. split; [exact Hrun|]. simpl. intros i.
  rewrite (frame_marks _ _ _ _ _ i Hpar), orb_true_iff, existsb_exists.
  split; (intros [?|(d & Hd & Hp)]; [by left|right]); exists d.
  - apply andb_true_iff in Hp as [? ?%bool_decide_eq_true].
    by rewrite list_elem_of_In.
  - destruct Hp as [? <-]. rewrite <- list_elem_of_In. split; [done|].
    apply andb_true_iff. split; [done|]. by apply bool_decide_eq_true.
Qed.

Lemma visible_marks_collected_witness :
  exists c',
    SceneBatchCollector.UpdateAndCollectSourceBatches Scenes2.twoChunks
      Scenes2.threeDrawables Scenes2.startedCollector = Ok c'
    /\ forall i,
         FrameMarks.visibleMark (SceneBatchCollector.traits_ c') i = true
         <-> FrameMarks.visibleMark (SceneBatchCollector.traits_ Scenes2.startedCollector) i
             = true
             \/ exists d, d ∈ Spec.processed Scenes2.twoChunks Scenes2.threeDrawables
                          /\ FrameSetup.isGeometry d = true /\ GetDrawableIndex d = i.
Proof.
  apply visible_marks_collected.
  - repeat constructor; simpl; lia.
  - repeat constructor; simpl; lia.
Defined.

(** X5.  After the collection of a frame the light accumulator of every
    processed geometry is empty, and the accumulator at any other drawable
    index is what it was before the frame. *)
Theorem accumulators_reset (schedule : list (nat * nat))
    (drawables : list Drawable) (c : SceneBatchCollector.Collector) :
  Forall (fun chunk => Spec.laneReady chunk.1 c) schedule ->
  Forall (fun drawable => Spec.indexed drawable c) drawables ->
  exists c',
    SceneBatchCollector.UpdateAndCollectSourceBatches schedule drawables c = Ok c'
    /\ (forall d, d ∈ Spec.processed schedule drawables -> FrameSetup.isGeometry d = true ->
          SceneBatchCollector.drawableLighting_ c' !! GetDrawableIndex d = Some [])
    /\ (forall i,
          (forall d, d ∈ Spec.processed schedule drawables -> FrameSetup.isGeometry d = true ->
                     GetDrawableIndex d <> i) ->
          SceneBatchCollector.drawableLighting_ c' !! i
          = SceneBatchCollector.drawableLighting_ c !! i).
Proof.
  intros Hlanes Hidx.
  destruct (frame_run schedule drawables c Hlanes Hidx) as (c1 & Hpar & Hrun).
  eexists. split; [exact Hrun|]. simpl.
  rewrite (frame_accumulators _ _ _ _ _ Hpar). split.
  - intros d Hd Hgeo. rewrite resetAll_lookup, bool_decide_true.
    + assert (Hin : d ∈ drawables).
      { eapply elem_of_sublist; [exact Hd|apply processed_sublist]. }
      rewrite list.Forall_forall in Hidx. destruct (Hidx d Hin) as [_ Hlt].
      by apply lookup_lt_is_Some_2 in Hlt as [x ->].
    + apply list_elem_of_fmap_2. by apply list_elem_of_filter.
  - intros i Hnone. rewrite resetAll_lookup, bool_decide_false; [done|].
    intros (d & -> & Hd)%list_elem_of_fmap.
    apply list_elem_of_filter in Hd as [Hgeo Hd]. by apply (Hnone d).
Qed.

Lemma accumulators_reset_witness :
  exists c',
    SceneBatchCollector.UpdateAndCollectSourceBatches Scenes2.twoChunks
      Scenes2.threeDrawables Scenes2.startedCollector = Ok c'
    /\ (forall d, d ∈ Spec.processed Scenes2.twoChunks Scenes2.threeDrawables ->
          FrameSetup.isGeometry d = true ->
          SceneBatchCollector.drawableLighting_ c' !! GetDrawableIndex d = Some [])
    /\ (forall i,
          (forall d, d ∈ Spec.processed Scenes2.twoChunks Scenes2.threeDrawables ->
                     FrameSetup.isGeometry d = true -> GetDrawableIndex d <> i) ->
          SceneBatchCollector.drawableLighting_ c' !! i
          = SceneBatchCollector.drawableLighting_ Scenes2.startedCollector !! i).
Proof.
  apply accumulators_reset.
  - repeat constructor; simpl; lia.
  - repeat constructor; simpl; lia.
Defined.

(** X6.  After the collection of a frame every pass has its configuration,
    and each of its two buckets holds, up to the order in which the lanes
    are merged, what it held before together with the batches that the
    classification gives for the source batches of the processed
    geometries. *)
Theorem buckets_collected (schedule : list (nat * nat))
    (drawables : list Drawable) (c : SceneBatchCollector.Collector) :
  Forall (fun chunk => Spec.laneReady chunk.1 c) schedule ->
  Forall (fun drawable => Spec.indexed drawable c) drawables ->
  exists c',
    SceneBatchCollector.UpdateAndCollectSourceBatches schedule drawables c = Ok c'
    /\ Forall2 (FrameBuckets.collectedFrame c (Spec.processed schedule drawables))
         (SceneBatchCollector.passes_ c) (SceneBatchCollector.passes_ c').
Proof.
  intros Hlanes Hidx.
  destruct (frame_run schedule drawables c Hlanes Hidx) as (c1 & Hpar & Hrun).
  eexists. split; [exact Hrun|]. simpl.
  apply (frame_passes _ _ _ _ _ Hlanes) in Hpar as (_ & _ & Hpasses).
  eapply List.Forall2_impl; [|exact Hpasses]. by intros p p' [? _].
Qed.

Lemma buckets_collected_witness :
  exists c',
    SceneBatchCollector.UpdateAndCollectSourceBatches Scenes2.twoChunks
      Scenes2.threeDrawables Scenes2.startedCollector = Ok c'
    /\ Forall2 (FrameBuckets.collectedFrame Scenes2.startedCollector
                  (Spec.processed Scenes2.twoChunks Scenes2.threeDrawables))
         (SceneBatchCollector.passes_ Scenes2.startedCollector)
         (SceneBatchCollector.passes_ c').
Proof.
  apply buckets_collected.
  - repeat constructor; simpl; lia.
  - repeat constructor; simpl; lia.
Defined.

Lemma frame_sound schedule drawables c c1 :
  Forall (fun chunk => Spec.laneReady chunk.1 c) schedule ->
  ForEachParallel schedule
    (fun threadIndex _ drawablesRange =>
       SceneBatchCollector.UpdateAndCollectSourceBatchesForThread threadIndex drawablesRange)
    0 drawables c = Ok c1 ->
  Forall FrameBuckets.bucketsSound (SceneBatchCollector.passes_ c) ->
  Forall FrameBuckets.bucketsSound (SceneBatchCollector.passes_ c1).
Proof.
  intros Hlanes Hpar Hsound.
  apply (frame_passes _ _ _ _ _ Hlanes) in Hpar as (_ & _ & Hpasses).
  revert Hsound. induction Hpasses as [|p p' ps ps' [Hp _] _ IH]; [done|].
  intros [Hs Hrest]%list.Forall_cons. constructor; [|by apply IH].
  by eapply collectedFrame_sound.
Qed.

(** X7.  The collection of a frame keeps the buckets sound: a lit bucket
    holds only batches with a base pass and an additional-light pass, an
    unlit bucket only batches with a base pass and no additional-light
    pass, every batch names a source batch of its geometry, and a pass of
    type Unlit has no lit batch. *)
Theorem buckets_sound (schedule : list (nat * nat))
    (drawables : list Drawable) (c : SceneBatchCollector.Collector) :
  Forall (fun chunk => Spec.laneReady chunk.1 c) schedule ->
  Forall (fun drawable => Spec.indexed drawable c) drawables ->
  Forall FrameBuckets.bucketsSound (SceneBatchCollector.passes_ c) ->
  exists c',
    SceneBatchCollector.UpdateAndCollectSourceBatches schedule drawables c = Ok c'
    /\ Forall FrameBuckets.bucketsSound (SceneBatchCollector.passes_ c').
Proof.
  intros Hlanes Hidx Hsound.
  destruct (frame_run schedule drawables c Hlanes Hidx) as (c1 & Hpar & Hrun).
  eexists. split; [exact Hrun|]. simpl. by eapply frame_sound.
Qed.

Lemma buckets_sound_witness :
  exists c',
    SceneBatchCollector.UpdateAndCollectSourceBatches Scenes2.twoChunks
      Scenes2.threeDrawables Scenes2.startedCollector = Ok c'
    /\ Forall FrameBuckets.bucketsSound (SceneBatchCollector.passes_ c').
Proof.
  apply buckets_sound.
  - repeat constructor; simpl; lia.
  - repeat constructor; simpl; lia.
  - repeat constructor; simpl; done.
Defined.

(** ** Final batches of all passes *)

Lemma CollectSceneBatches_loop_finalised schedule defaultMaterial passes k :
  (forall j pass, passes !! j = Some pass ->
     Spec.covers (schedule (k + j)) (tv_Size (SceneBatchCollector.unlitBatches_ pass))) ->
  Forall (fun pass =>
            Forall FrameBuckets.wellFormed (tv_CopyTo (SceneBatchCollector.unlitBatches_ pass)))
         passes ->
  exists passes',
    SceneBatchCollector.CollectSceneBatches_loop schedule defaultMaterial k passes
    = Ok passes'
    /\ Forall2 (FinalBatches.finalised defaultMaterial) passes passes'.
Proof.
  revert k. induction passes as [|pass rest IH]; intros k Hcover Hwf; simpl.
  - eexists. split; [done|]. constructor.
  - apply list.Forall_cons in Hwf as [Hpass Hrest].
    destruct (CollectSceneBatches_pass_finalised (schedule k) defaultMaterial pass)
      as (pass' & -> & Hfin); [|done|].
    { specialize (Hcover 0 pass eq_refl). by rewrite Nat.add_0_r in Hcover. }
    destruct (IH (S k)) as (rest' & -> & Hfins); [|done|].
    { intros j p Hp. specialize (Hcover (S j) p Hp).
      by rewrite <- Nat.add_succ_comm in Hcover. }
    simpl. eexists. split; [done|]. by constructor.
Qed.

(** [CollectSceneBatches] of the collector completes and finalises every pass. *)
Lemma CollectSceneBatches_run (schedule : nat -> list (nat * nat))
    (c : SceneBatchCollector.Collector) :
  (forall k pass, SceneBatchCollector.passes_ c !! k = Some pass ->
     Spec.covers (schedule k) (tv_Size (SceneBatchCollector.unlitBatches_ pass))) ->
  Forall (fun pass =>
            Forall FrameBuckets.wellFormed (tv_CopyTo (SceneBatchCollector.unlitBatches_ pass)))
         (SceneBatchCollector.passes_ c) ->
  exists passes',
    SceneBatchCollector.CollectSceneBatches schedule c
    = Ok (SceneBatchCollector.set_passes passes' c)
    /\ Forall2 (FinalBatches.finalised (GetDefaultMaterial (SceneBatchCollector.renderer_ c)))
         (SceneBatchCollector.passes_ c) passes'.
Proof.
  intros Hcover Hwf. unfold SceneBatchCollector.CollectSceneBatches.
  destruct (CollectSceneBatches_loop_finalised schedule
              (GetDefaultMaterial (SceneBatchCollector.renderer_ c))
              (SceneBatchCollector.passes_ c) 0 Hcover Hwf) as (passes' & -> & Hfin).
  simpl. eauto.
Qed.

(** X8.  [CollectSceneBatches] of the collector, with schedules that cover
    the unlit batches of every pass and unlit batches that name a source
    batch of their geometry, completes.  For every pass it leaves the
    buckets as they are, gives the unlit final batches the size of the unlit
    bucket and writes the final batch at a position from the intermediate
    batch at that position of the merged bucket (drawable, drawable index,
    source-batch index, geometry, and the material or the default material),
    keeping the light index and the pipeline state the slot had; the lit
    final batches are only resized. *)
Theorem CollectSceneBatches_finalised (schedule : nat -> list (nat * nat))
    (c : SceneBatchCollector.Collector) :
  (forall k pass, SceneBatchCollector.passes_ c !! k = Some pass ->
     Spec.covers (schedule k) (tv_Size (SceneBatchCollector.unlitBatches_ pass))) ->
  Forall (fun pass =>
            Forall FrameBuckets.wellFormed (tv_CopyTo (SceneBatchCollector.unlitBatches_ pass)))
         (SceneBatchCollector.passes_ c) ->
  exists passes',
    SceneBatchCollector.CollectSceneBatches schedule c
    = Ok (SceneBatchCollector.set_passes passes' c)
    /\ Forall2 (FinalBatches.finalised (GetDefaultMaterial (SceneBatchCollector.renderer_ c)))
         (SceneBatchCollector.passes_ c) passes'.
Proof. apply CollectSceneBatches_run. Qed.

(** ** A whole frame *)

Lemma concat_replicate_nil {A} n : concat (replicate n (@nil A)) = [].
Proof. induction n; simpl; [done|]. exact IHn. Qed.

Lemma freshPass_sound GetPassIndex numThreads desc pass :
  FrameSetup.freshPass GetPassIndex numThreads desc pass -> FrameBuckets.bucketsSound pass.
Proof.
  intros (_ & Hu & Hl). unfold FrameBuckets.bucketsSound, tv_CopyTo.
  rewrite Hu, Hl, concat_replicate_nil. by repeat split.
Qed.

Lemma started_ready frameInfo c0 GetPassIndex descs passes :
  Forall2 (FrameSetup.freshPass GetPassIndex
             (SceneBatchCollector.workQueue_GetNumThreads frameInfo + 1))
    descs passes ->
  let c1 := SceneBatchCollector.set_passes passes
              (SceneBatchCollector.InitializeFrame frameInfo c0) in
  (forall threadIndex,
     threadIndex <= SceneBatchCollector.workQueue_GetNumThreads frameInfo ->
     Spec.laneReady threadIndex c1)
  /\ (forall d, GetDrawableIndex d < SceneBatchCollector.octree_numDrawables frameInfo ->
        Spec.indexed d c1)
  /\ Forall FrameBuckets.bucketsSound passes.
Proof.
  intros Hfresh c1. split; [|split].
  - intros threadIndex Ht. unfold Spec.laneReady, c1. simpl.
    unfold tv_Clear. rewrite !length_replicate.
    split; [lia|]. split; [lia|].
    clear c1. induction Hfresh as [|desc pass descs passes (_ & Hu & Hl) _ IH];
      constructor; [|done].
    rewrite Hu, Hl, !length_replicate. lia.
  - intros d Hd. unfold Spec.indexed, c1. simpl.
    by rewrite length_replicate, length_resize.
  - clear c1. induction Hfresh as [|desc pass descs passes Hp _ IH]; constructor; [|done].
    by eapply freshPass_sound.
Qed.

(** X9.  A frame runs to the end: after [InitializeFrame] and
    [InitializePasses] with valid descriptions, the collection of drawables
    whose drawable indices are below the number of drawables of the octree,
    on lanes up to the number of worker threads, completes and leaves sound
    buckets, and [CollectSceneBatches] completes for any schedules that
    cover the unlit batches collected. *)
Theorem frame_completes (ndebug : bool) (GetPassIndex : string -> unsigned)
    (frameInfo : SceneBatchCollector.FrameInfo)
    (descs : list SceneBatchCollector.ScenePassDescription)
    (schedule : list (nat * nat)) (drawables : list Drawable)
    (c0 : SceneBatchCollector.Collector) :
  Forall (fun desc => FrameSetup.validDescription GetPassIndex desc = true) descs ->
  Forall (fun chunk => chunk.1 <= SceneBatchCollector.workQueue_GetNumThreads frameInfo)
    schedule ->
  Forall (fun d => GetDrawableIndex d < SceneBatchCollector.octree_numDrawables frameInfo)
    drawables ->
  exists c1 c2,
    SceneBatchCollector.InitializePasses ndebug GetPassIndex descs
      (SceneBatchCollector.InitializeFrame frameInfo c0) = Ok c1
    /\ SceneBatchCollector.UpdateAndCollectSourceBatches schedule drawables c1 = Ok c2
    /\ Forall FrameBuckets.bucketsSound (SceneBatchCollector.passes_ c2)
    /\ forall batchSchedule : nat -> list (nat * nat),
         (forall k pass, SceneBatchCollector.passes_ c2 !! k = Some pass ->
            Spec.covers (batchSchedule k)
              (tv_Size (SceneBatchCollector.unlitBatches_ pass))) ->
         exists c3, SceneBatchCollector.CollectSceneBatches batchSchedule c2 = Ok c3.
Proof.
  intros Hvalid Hlanes Hidx.
  destruct (InitializePasses_loop_valid ndebug GetPassIndex
              (SceneBatchCollector.workQueue_GetNumThreads frameInfo + 1) descs
              (resize (length descs) SceneBatchCollector.PassData_default
                 (SceneBatchCollector.passes_ c0)))
    as (passes & Hinit & Hfresh); [apply length_resize|done|].
  destruct (started_ready frameInfo c0 GetPassIndex descs passes Hfresh)
    as (Hready & Hindexed & Hsound).
  set (c1 := SceneBatchCollector.set_passes passes
               (SceneBatchCollector.InitializeFrame frameInfo c0)) in *.
  assert (Hlanes1 : Forall (fun chunk => Spec.laneReady chunk.1 c1) schedule).
  { eapply list.Forall_impl; [exact Hlanes|]. intros chunk. apply Hready. }
  assert (Hidx1 : Forall (fun d => Spec.indexed d c1) drawables).
  { eapply list.Forall_impl; [exact Hidx|]. intros d. apply Hindexed. }
  destruct (frame_run schedule drawables c1 Hlanes1 Hidx1) as (c2 & Hpar & Hrun).
  pose proof (frame_sound schedule drawables c1 c2 Hlanes1 Hpar Hsound) as Hsound2.
  exists c1. eexists. split; [|split; [exact Hrun|split; [exact Hsound2|]]].
  - unfold SceneBatchCollector.InitializePasses. simpl.
    unfold SceneBatchCollector.InitializeFrame at 1. simpl.
    by rewrite Hinit.
  - intros batchSchedule Hcover. simpl in *.
    destruct (CollectSceneBatches_run batchSchedule
                (SceneBatchCollector.set_visibleLights
                   (tv_CopyTo (SceneBatchCollector.visibleLightsTemp_ c2)) c2))
      as (passes' & Hfinal & _); [exact Hcover| |eauto].
    simpl. eapply list.Forall_impl; [exact Hsound2|].
    intros pass (_ & Hunlit & _). eapply list.Forall_impl; [exact Hunlit|].
    by intros b [? _].
Qed.

Lemma frame_completes_witness :
  exists c1 c2,
    SceneBatchCollector.InitializePasses false Scenes.passIndex
      [Scenes.unlitDesc; Scenes.forwardLitDesc]
      (SceneBatchCollector.InitializeFrame
         {| SceneBatchCollector.workQueue_GetNumThreads := 1;
            SceneBatchCollector.octree_numDrawables := 3;
            SceneBatchCollector.camera_GetViewOverrideFlags := 0 |}
         Scenes.newCollector) = Ok c1
    /\ SceneBatchCollector.UpdateAndCollectSourceBatches Scenes2.twoChunks
         Scenes2.threeDrawables c1 = Ok c2
    /\ Forall FrameBuckets.bucketsSound (SceneBatchCollector.passes_ c2)
    /\ forall batchSchedule : nat -> list (nat * nat),
         (forall k pass, SceneBatchCollector.passes_ c2 !! k = Some pass ->
            Spec.covers (batchSchedule k)
              (tv_Size (SceneBatchCollector.unlitBatches_ pass))) ->
         exists c3, SceneBatchCollector.CollectSceneBatches batchSchedule c2 = Ok c3.
Proof.
  apply frame_completes.
  - repeat constructor.
  - repeat constructor; simpl; lia.
  - repeat constructor; simpl; lia.
Defined.

Lemma InitializePasses_valid_witness :
  exists passes,
    SceneBatchCollector.InitializePasses false Scenes.passIndex
      [Scenes.unlitDesc; Scenes.forwardLitDesc] Scenes.lightsFrame
    = Ok (SceneBatchCollector.set_passes passes Scenes.lightsFrame)
    /\ Forall2 (FrameSetup.freshPass Scenes.passIndex
                  (SceneBatchCollector.numThreads_ Scenes.lightsFrame))
         [Scenes.unlitDesc; Scenes.forwardLitDesc] passes.
Proof. apply InitializePasses_valid. repeat constructor. Defined.

Lemma CollectSceneBatches_finalised_witness :
  exists passes',
    SceneBatchCollector.CollectSceneBatches (fun _ => [(0, 1); (0, 1)]) Scenes3.unlitFrame
    = Ok (SceneBatchCollector.set_passes passes' Scenes3.unlitFrame)
    /\ Forall2 (FinalBatches.finalised
                  (GetDefaultMaterial (SceneBatchCollector.renderer_ Scenes3.unlitFrame)))
         (SceneBatchCollector.passes_ Scenes3.unlitFrame) passes'.
Proof.
  apply CollectSceneBatches_finalised.
  - intros [|k] pass H; vm_compute in H; [|destruct k; discriminate].
    injection H as <-. vm_compute. reflexivity.
  - repeat constructor; eexists; eexists; split; vm_compute; reflexivity.
Defined.

(** ** Lit geometries of the lights of a frame *)

Lemma frame_traits_length schedule offset drawables c c' :
  ForEachParallel schedule
    (fun threadIndex _ drawablesRange =>
       SceneBatchCollector.UpdateAndCollectSourceBatchesForThread threadIndex drawablesRange)
    offset drawables c = Ok c' ->
  length (SceneBatchCollector.traits_ c') = length (SceneBatchCollector.traits_ c).
Proof.
  intros H.
  pose (P := fun (_ : list Drawable) c1 =>
    length (SceneBatchCollector.traits_ c1) = length (SceneBatchCollector.traits_ c)).
  refine (frame_induction (fun _ => True) P _ _ schedule offset drawables [] c c' _ _ H).
  - intros ds c1 d traits HP Htraits. unfold P in *. simpl.
    apply or_trait_inv in Htraits as (t & _ & ->). by rewrite length_alter.
  - intros threadIndex ds c1 d c2 _ HP _ Hone. unfold P in *.
    unfold FrameMarks.collectOne in Hone.
    destruct (nonzero (N.land (GetDrawableFlags d) DRAWABLE_GEOMETRY)).
    + apply CollectGeometry_sizes in Hone. unfold Spec.sizes in Hone.
      injection Hone as _ _ Ht _ _. by rewrite Ht.
    + destruct (nonzero (N.land (GetDrawableFlags d) DRAWABLE_LIGHT)).
      * apply CollectLight_effect in Hone as (_ & _ & -> & _). exact HP.
      * by injection Hone as <-.
  - by apply Forall_true.
  - done.
Qed.

Lemma visibleMark_true traits i :
  FrameMarks.visibleMark traits i = true
  <-> exists t, traits !! i = Some t /\ N.land t DrawableVisibleGeometry <> 0%N.
Proof.
  unfold FrameMarks.visibleMark. destruct (traits !! i) as [t|].
  - rewrite nonzero_true. split; [by exists t|by intros (? & [= <-] & ?)].
  - split; [done|by intros (? & [=] & _)].
Qed.

(** X10.  After the collection of a frame that starts without visible
    geometries, a directional light lights exactly the processed geometries
    whose light mask meets the light mask of the light, whatever the octree
    holds: they are appended to its lit geometries. *)
Theorem directional_lit_geometries (schedule : list (nat * nat))
    (drawables : list Drawable) (c : SceneBatchCollector.Collector)
    (visits : list (list Drawable * bool))
    (volume : BoundingBox -> SceneBatchCollector.Intersection)
    (light : Drawable) (litGeometries : list Drawable) :
  Forall (fun chunk => Spec.laneReady chunk.1 c) schedule ->
  Forall (fun drawable => Spec.indexed drawable c) drawables ->
  tv_CopyTo (SceneBatchCollector.visibleGeometries_ c) = [] ->
  GetLightType light = LIGHT_DIRECTIONAL ->
  exists c' added,
    SceneBatchCollector.UpdateAndCollectSourceBatches schedule drawables c = Ok c'
    /\ SceneBatchCollector.CollectLitGeometries visits volume light litGeometries c'
       = Ok (litGeometries ++ added)
    /\ added
       ≡ₚ filter (fun d => nonzero (N.land (GetLightMask d) (GetLightMask light)) = true)
            (filter (fun d => FrameSetup.isGeometry d = true)
               (Spec.processed schedule drawables)).
Proof.
  intros Hlanes Hidx Hempty Htype.
  destruct (frame_run schedule drawables c Hlanes Hidx) as (c1 & Hpar & Hrun).
  eexists. eexists. split; [exact Hrun|].
  unfold SceneBatchCollector.CollectLitGeometries. rewrite Htype. simpl.
  split; [done|].
  apply frame_geometries in Hpar. unfold tv_CopyTo in *.
  rewrite Hempty in Hpar. simpl in Hpar. by rewrite Hpar.
Qed.

Lemma directional_lit_geometries_witness :
  exists c' added,
    SceneBatchCollector.UpdateAndCollectSourceBatches Scenes2.twoChunks
      Scenes2.threeDrawables Scenes2.startedCollector = Ok c'
    /\ SceneBatchCollector.CollectLitGeometries [] Scenes.wholeSphere
         (Scenes.light 3 false 255 LIGHT_DIRECTIONAL) [] c'
       = Ok ([] ++ added)
    /\ added
       ≡ₚ filter (fun d => nonzero (N.land (GetLightMask d)
                                      (GetLightMask (Scenes.light 3 false 255
                                                       LIGHT_DIRECTIONAL))) = true)
            (filter (fun d => FrameSetup.isGeometry d = true)
               (Spec.processed Scenes2.twoChunks Scenes2.threeDrawables)).
Proof.
  apply directional_lit_geometries.
  - repeat constructor; simpl; lia.
  - repeat constructor; simpl; lia.
  - reflexivity.
  - reflexivity.
Defined.

(** X11.  After the collection of a frame that starts with no drawable
    marked visible, the query of a spot or point light adds to the lit
    geometries of the light exactly the candidates of its octree visits that
    have the drawable index of a processed geometry, whose light mask meets
    the effective light mask of the light, and that are inside the volume or
    not outside of it. *)
Theorem point_spot_lit_geometries (schedule : list (nat * nat))
    (drawables : list Drawable) (c : SceneBatchCollector.Collector)
    (visits : list (list Drawable * bool))
    (volume : BoundingBox -> SceneBatchCollector.Intersection)
    (light : Drawable) (litGeometries : list Drawable) :
  Forall (fun chunk => Spec.laneReady chunk.1 c) schedule ->
  Forall (fun drawable => Spec.indexed drawable c) drawables ->
  (forall i, FrameMarks.visibleMark (SceneBatchCollector.traits_ c) i = false) ->
  GetLightType light = LIGHT_SPOT \/ GetLightType light = LIGHT_POINT ->
  Spec.visitsInRange (SceneBatchCollector.traits_ c) visits ->
  exists c' added,
    SceneBatchCollector.UpdateAndCollectSourceBatches schedule drawables c = Ok c'
    /\ SceneBatchCollector.CollectLitGeometries visits volume light litGeometries c'
       = Ok (litGeometries ++ added)
    /\ forall d, d ∈ added <->
         exists range inside,
           (range, inside) ∈ visits /\ d ∈ range
           /\ (exists g, g ∈ Spec.processed schedule drawables
                         /\ FrameSetup.isGeometry g = true
                         /\ GetDrawableIndex g = GetDrawableIndex d)
           /\ N.land (GetLightMask d) (GetLightMaskEffective light) <> 0%N
           /\ (inside = true
               \/ volume (GetWorldBoundingBox d) <> SceneBatchCollector.OUTSIDE).
Proof.
  intros Hlanes Hidx Hclear Htype Hrange.
  destruct (frame_run schedule drawables c Hlanes Hidx) as (c1 & Hpar & Hrun).
  pose proof (frame_traits_length _ _ _ _ _ Hpar) as Hlen.
  set (c' := SceneBatchCollector.set_visibleLights _ c1) in *.
  assert (Hrange' : Spec.visitsInRange (SceneBatchCollector.traits_ c') visits).
  { intros range inside d Hv Hd. simpl. rewrite Hlen. by eapply Hrange. }
  exists c'.
  exists (Spec.litAdded (SceneBatchCollector.traits_ c') (GetLightMaskEffective light)
            volume visits).
  split; [exact Hrun|]. split.
  - unfold SceneBatchCollector.CollectLitGeometries.
    destruct Htype as [-> | ->].
    + edestruct (Octree_GetDrawables_spot visits) as (q' & -> & Hres); [exact Hrange'|].
      simpl. by rewrite Hres.
    + edestruct (Octree_GetDrawables_point visits) as (q' & -> & Hres); [exact Hrange'|].
      simpl. by rewrite Hres.
  - intros d. rewrite elem_of_litAdded.
    assert (Hmark : (exists t, SceneBatchCollector.traits_ c' !! GetDrawableIndex d = Some t
                               /\ N.land t DrawableVisibleGeometry <> 0%N)
                    <-> exists g, g ∈ Spec.processed schedule drawables
                                  /\ FrameSetup.isGeometry g = true
                                  /\ GetDrawableIndex g = GetDrawableIndex d).
    { rewrite <- visibleMark_true. simpl.
      rewrite (frame_marks _ _ _ _ _ (GetDrawableIndex d) Hpar), Hclear. simpl.
      rewrite existsb_exists. split.
      - intros (g & Hg & Hp). apply andb_true_iff in Hp as [? ?%bool_decide_eq_true].
        exists g. by rewrite list_elem_of_In.
      - intros (g & Hg & Hgeo & Heq). exists g. rewrite <- list_elem_of_In.
        split; [done|]. apply andb_true_iff. split; [done|]. by apply bool_decide_eq_true. }
    unfold Spec.litCandidate.
    split; intros (range & inside & Hv & Hd & Hm & Hrest); exists range, inside;
      (split; [done|]); (split; [done|]); (split; [by apply Hmark|done]).
Qed.

Lemma point_spot_lit_geometries_witness :
  exists c' added,
    SceneBatchCollector.UpdateAndCollectSourceBatches Scenes2.twoChunks
      Scenes2.threeDrawables Scenes2.startedCollector = Ok c'
    /\ SceneBatchCollector.CollectLitGeometries
         [([Scenes.thirdGeometry; Scenes.firstGeometry], false)] Scenes.wholeSphere
         Scenes.pointLight [] c'
       = Ok ([] ++ added)
    /\ forall d, d ∈ added <->
         exists range inside,
           (range, inside) ∈ [([Scenes.thirdGeometry; Scenes.firstGeometry], false)]
           /\ d ∈ range
           /\ (exists g, g ∈ Spec.processed Scenes2.twoChunks Scenes2.threeDrawables
                         /\ FrameSetup.isGeometry g = true
                         /\ GetDrawableIndex g = GetDrawableIndex d)
           /\ N.land (GetLightMask d) (GetLightMaskEffective Scenes.pointLight) <> 0%N
           /\ (inside = true
               \/ Scenes.wholeSphere (GetWorldBoundingBox d) <> SceneBatchCollector.OUTSIDE).
Proof.
  apply point_spot_lit_geometries.
  - repeat constructor; simpl; lia.
  - repeat constructor; simpl; lia.
  - intros [|[|[|i]]]; reflexivity.
  - by right.
  - intros range inside d Hv Hd.
    apply list_elem_of_singleton in Hv. injection Hv as -> ->.
    apply elem_of_cons in Hd as [->|Hd]; [simpl; lia|].
    apply list_elem_of_singleton in Hd as ->. simpl. lia.
Defined.

(** ** The technique that is found *)

(** X12.  The technique [FindTechnique] returns is the technique of an entry
    of the material.  For a material with several entries of which some
    entry is supported, within the material quality and with its LOD
    threshold at most the LOD distance of the drawable, the technique
    returned is that of such an entry: the fallback to the last entry is
    taken only when no entry qualifies. *)
Theorem FindTechnique_sound (c : SceneBatchCollector.Collector) (drawable : Drawable)
    (material : Material) (tech : Technique) :
  SceneBatchCollector.FindTechnique c drawable material = Some tech ->
  (exists entry, entry ∈ GetTechniques material /\ technique_ entry = Some tech)
  /\ (length (GetTechniques material) <> 1 ->
      (exists entry, entry ∈ GetTechniques material
         /\ Spec.matches (SceneBatchCollector.materialQuality_ c)
              (GetLodDistance drawable) entry = true) ->
      exists entry, entry ∈ GetTechniques material /\ technique_ entry = Some tech
        /\ Spec.matches (SceneBatchCollector.materialQuality_ c)
             (GetLodDistance drawable) entry = true).
Proof.
  unfold SceneBatchCollector.FindTechnique. rewrite FindTechnique_scan_find.
  set (techniques := GetTechniques material).
  set (m := Spec.matches _ _).
  assert (Hscan : forall l : list TechniqueEntry,
    match match List.find m l with Some entry => technique_ entry | None => None end with
    | Some t => Some t
    | None => match list.last l with Some back => technique_ back | None => None end
    end = Some tech ->
    (exists entry, entry ∈ l /\ technique_ entry = Some tech)
    /\ ((exists entry, entry ∈ l /\ m entry = true) ->
        exists entry, entry ∈ l /\ technique_ entry = Some tech /\ m entry = true)).
  { intros l. destruct (List.find m l) as [entry|] eqn:Hfind.
    - apply find_some in Hfind as [Hin Hm]. apply list_elem_of_In in Hin.
      destruct (matches_has_technique _ _ _ Hm) as [t Ht]. rewrite Ht.
      intros [= <-]. split; [by exists entry|]. intros _. by exists entry.
    - intros Hlast. split.
      + destruct (list.last l) as [back|] eqn:Hback; [|done].
        exists back. split; [|done]. apply last_Some in Hback as [l' ->].
        apply elem_of_app. right. by apply list_elem_of_singleton.
      + intros (entry & Hin & Hm). apply list_elem_of_In in Hin.
        by rewrite (find_none _ _ Hfind entry Hin) in Hm. }
  destruct techniques as [|only [|second rest]].
  - intros H. destruct (Hscan [] H) as [Hmem Hq]. split; [done|]. intros _. exact Hq.
  - intros H. split; [|done]. exists only. split; [|done]. by apply list_elem_of_singleton.
  - intros H. destruct (Hscan (only :: second :: rest) H) as [Hmem Hq].
    split; [done|]. intros _. exact Hq.
Qed.

Lemma FindTechnique_sound_witness :
  length (GetTechniques Scenes5.tieredMaterial) = 3
  /\ SceneBatchCollector.FindTechnique Scenes.litCollector Scenes.litGeometry
       Scenes5.tieredMaterial = Some Scenes.techBaseLight
  /\ (exists entry, entry ∈ GetTechniques Scenes5.tieredMaterial
                    /\ technique_ entry = Some Scenes.techBaseLight)
  /\ exists entry, entry ∈ GetTechniques Scenes5.tieredMaterial
       /\ technique_ entry = Some Scenes.techBaseLight
       /\ Spec.matches (SceneBatchCollector.materialQuality_ Scenes.litCollector)
            (GetLodDistance Scenes.litGeometry) entry = true.
Proof.
  assert (Hfound : SceneBatchCollector.FindTechnique Scenes.litCollector Scenes.litGeometry
                     Scenes5.tieredMaterial = Some Scenes.techBaseLight)
    by (vm_compute; reflexivity).
  destruct (FindTechnique_sound Scenes.litCollector Scenes.litGeometry
              Scenes5.tieredMaterial Scenes.techBaseLight Hfound) as [Hentry Hmatch].
  split; [reflexivity|]. split; [exact Hfound|]. split; [exact Hentry|].
  apply Hmatch.
  - simpl. lia.
  - exists {| technique_ := Some Scenes.techBase; qualityLevel_ := 0;
              lodDistance_ := 0%float |}.
    split; [|vm_compute; reflexivity].
    do 2 (apply elem_of_cons; right). apply elem_of_cons. by left.
Defined.

(** ** Adding source batches to a scene pass *)

Lemma tv_Size_alter_snoc {T} (tv : list (list T)) threadIndex x :
  threadIndex < length tv ->
  tv_Size (alter (fun lane => lane ++ [x]) threadIndex tv) = S (tv_Size tv).
Proof.
  intros Hlt. apply lookup_lt_is_Some_2 in Hlt as [lane Hlane].
  unfold tv_Size. rewrite (concat_alter_snoc _ _ _ _ Hlane), length_app. simpl. lia.
Qed.

Lemma Forall_concat_alter_snoc {T} (P : T -> Prop) (tv : list (list T)) threadIndex x :
  threadIndex < length tv -> P x -> Forall P (concat tv) ->
  Forall P (concat (alter (fun lane => lane ++ [x]) threadIndex tv)).
Proof.
  intros Hlt Hx Hall. apply lookup_lt_is_Some_2 in Hlt as [lane Hlane].
  rewrite (concat_alter_snoc _ _ _ _ Hlane). apply Forall_app. split; [done|].
  by constructor.
Qed.

(** X13.  On a lane of the pass, [AddSourceBatch] never runs into undefined
    behaviour.  It aborts when, and only when, the build has assertions and
    the technique has the light pass but neither base pass.  When it returns,
    the lit collection has grown by one batch if it returns true and is
    as before if it returns false, the unlit collection has grown by at
    most one batch, the lit batches still all have an additional pass and
    the unlit batches none, and the caches are untouched. *)
Theorem AddSourceBatch_outcome {Cache} (ndebug : bool) (threadIndex : nat)
    (drawable : Drawable) (sourceBatchIndex : nat) (technique : Technique)
    (sp : ScenePass.ScenePass Cache) :
  threadIndex < length (ScenePass.unlitBatches_ sp) ->
  threadIndex < length (ScenePass.litBatches_ sp) ->
  PassBatches.passSound sp ->
  (ndebug = false ->
   GetPass technique (ScenePass.lightPassIndex_ sp) <> None ->
   GetPass technique (ScenePass.litBasePassIndex_ sp) = None ->
   GetPass technique (ScenePass.unlitBasePassIndex_ sp) = None ->
   ScenePass.AddSourceBatch ndebug threadIndex drawable sourceBatchIndex technique sp
   = AssertFailed)
  /\
  match ScenePass.AddSourceBatch ndebug threadIndex drawable sourceBatchIndex technique sp with
  | Ok (sp', added) =>
      tv_Size (ScenePass.litBatches_ sp')
      = tv_Size (ScenePass.litBatches_ sp) + (if added then 1 else 0)
      /\ tv_Size (ScenePass.unlitBatches_ sp) <= tv_Size (ScenePass.unlitBatches_ sp')
         <= S (tv_Size (ScenePass.unlitBatches_ sp))
      /\ PassBatches.passSound sp'
      /\ sp' = ScenePass.set_batches (ScenePass.unlitBatches_ sp')
                 (ScenePass.litBatches_ sp') sp
  | AssertFailed =>
      ndebug = false
      /\ GetPass technique (ScenePass.lightPassIndex_ sp) <> None
      /\ GetPass technique (ScenePass.litBasePassIndex_ sp) = None
      /\ GetPass technique (ScenePass.unlitBasePassIndex_ sp) = None
  | Undefined => False
  end.
Proof.
  intros Hunlit Hlit [Hl Hu]. unfold ScenePass.AddSourceBatch.
  pose proof (lookup_lt_is_Some_2 _ _ Hunlit) as [unlitLane HunlitLane].
  pose proof (lookup_lt_is_Some_2 _ _ Hlit) as [litLane HlitLane].
  assert (Hsame : sp = ScenePass.set_batches (ScenePass.unlitBatches_ sp)
                         (ScenePass.litBatches_ sp) sp) by (by destruct sp).
  destruct (GetPass technique (ScenePass.lightPassIndex_ sp)) as [lp|],
    (GetPass technique (ScenePass.litBasePassIndex_ sp)) as [lb|],
    (GetPass technique (ScenePass.unlitBasePassIndex_ sp)) as [ub|]; simpl;
    rewrite ?(tv_Insert_Ok _ _ _ _ HunlitLane); simpl;
    rewrite ?(tv_Insert_Ok _ _ _ _ HlitLane); simpl;
    rewrite <- ?(insert_alter_lookup (fun lane => lane ++ [_]) _ _ _ HunlitLane);
    rewrite <- ?(insert_alter_lookup (fun lane => lane ++ [_]) _ _ _ HlitLane);
    try (destruct ndebug; simpl);
    rewrite ?(insert_alter_lookup (fun lane => lane ++ [_]) _ _ _ HunlitLane);
    rewrite ?(insert_alter_lookup (fun lane => lane ++ [_]) _ _ _ HlitLane);
    rewrite ?tv_Size_alter_snoc by done;
    (split; [try done; intros; congruence|]);
    try done;
    (split; [lia|]); (split; [lia|]); (split; [|done]);
    split; simpl; try done;
    apply Forall_concat_alter_snoc; done.
Qed.

Lemma AddSourceBatch_outcome_witness :
  (false = false ->
   GetPass Scenes.techBaseLight (ScenePass.lightPassIndex_ Scenes.startedScenePass)
   <> None ->
   GetPass Scenes.techBaseLight (ScenePass.litBasePassIndex_ Scenes.startedScenePass)
   = None ->
   GetPass Scenes.techBaseLight (ScenePass.unlitBasePassIndex_ Scenes.startedScenePass)
   = None ->
   ScenePass.AddSourceBatch false 0 Scenes.litGeometry 0 Scenes.techBaseLight
     Scenes.startedScenePass = AssertFailed)
  /\
  match ScenePass.AddSourceBatch false 0 Scenes.litGeometry 0 Scenes.techBaseLight
          Scenes.startedScenePass with
  | Ok (sp', added) =>
      tv_Size (ScenePass.litBatches_ sp')
      = tv_Size (ScenePass.litBatches_ Scenes.startedScenePass) + (if added then 1 else 0)
      /\ tv_Size (ScenePass.unlitBatches_ Scenes.startedScenePass)
         <= tv_Size (ScenePass.unlitBatches_ sp')
         <= S (tv_Size (ScenePass.unlitBatches_ Scenes.startedScenePass))
      /\ PassBatches.passSound sp'
      /\ sp' = ScenePass.set_batches (ScenePass.unlitBatches_ sp')
                 (ScenePass.litBatches_ sp') Scenes.startedScenePass
  | AssertFailed =>
      false = false
      /\ GetPass Scenes.techBaseLight (ScenePass.lightPassIndex_ Scenes.startedScenePass)
         <> None
      /\ GetPass Scenes.techBaseLight (ScenePass.litBasePassIndex_ Scenes.startedScenePass)
         = None
      /\ GetPass Scenes.techBaseLight (ScenePass.unlitBasePassIndex_ Scenes.startedScenePass)
         = None
  | Undefined => False
  end.
Proof.
  apply (AddSourceBatch_outcome false 0 Scenes.litGeometry 0 Scenes.techBaseLight
           Scenes.startedScenePass).
  - simpl. lia.
  - simpl. lia.
  - split; constructor.
Defined.

(** ** The unlit path and the cache *)

Section UnlitCache.

Context {Cache : Type}.
Variable GetPipelineState : Cache -> ScenePass.ScenePipelineStateKey -> option PipelineState.
Variable GetOrCreatePipelineState :
  Cache -> ScenePass.ScenePipelineStateKey -> ScenePass.ScenePipelineStateContext ->
  ScenePass.ScenePipelineStateCacheCallback -> Cache * option PipelineState.

(** What the path needs of the cache: a state that get-or-create returns is
    found afterwards under its key, and get-or-create keeps what is found. *)
Hypothesis created_is_found : forall cache key ctx callback cache' ps,
  GetOrCreatePipelineState cache key ctx callback = (cache', Some ps) ->
  GetPipelineState cache' key = Some ps.
Hypothesis found_is_kept : forall cache key ctx callback key' ps,
  GetPipelineState cache key' = Some ps ->
  GetPipelineState (GetOrCreatePipelineState cache key ctx callback).1 key' = Some ps.

Lemma unlitResolve_kept camera callback cache batches key ps :
  GetPipelineState cache key = Some ps ->
  GetPipelineState
    (Spec.unlitResolve GetOrCreatePipelineState camera callback cache batches).2 key
  = Some ps.
Proof.
  revert cache. induction batches as [|b rest IH]; intros cache Hfound; simpl; [done|].
  pose proof (found_is_kept cache (Spec.unlitKey b) (Spec.unlitContext camera b) callback
                key ps Hfound) as Hkept.
  destruct (GetOrCreatePipelineState cache (Spec.unlitKey b) _ callback) as [cache1 created].
  specialize (IH cache1 Hkept).
  by destruct (Spec.unlitResolve GetOrCreatePipelineState camera callback cache1 rest).
Qed.

Lemma unlitResolve_found camera callback cache batches k which key ctx ps :
  (Spec.unlitResolve GetOrCreatePipelineState camera callback cache batches).1 !! k
  = Some (ScenePass.CallGetOrCreate which key ctx (Some ps)) ->
  GetPipelineState
    (Spec.unlitResolve GetOrCreatePipelineState camera callback cache batches).2 key
  = Some ps.
Proof.
  revert cache k. induction batches as [|b rest IH]; intros cache k; simpl; [done|].
  pose proof (created_is_found cache (Spec.unlitKey b) (Spec.unlitContext camera b)
                callback) as Hcreated.
  destruct (GetOrCreatePipelineState cache (Spec.unlitKey b) _ callback) as [cache1 created].
  pose proof (unlitResolve_kept camera callback cache1 rest) as Hkept.
  specialize (IH cache1).
  destruct (Spec.unlitResolve GetOrCreatePipelineState camera callback cache1 rest)
    as [calls cache2].
  simpl in *. destruct k as [|k]; simpl.
  - intros [= _ <- _ ->]. apply Hkept. by eapply Hcreated.
  - apply IH.
Qed.

Lemma CollectUnlitBatches_length schedule camera callback (sp sp' : ScenePass.ScenePass Cache) :
  Spec.covers schedule (tv_Size (ScenePass.unlitBatches_ sp)) ->
  ScenePass.CollectUnlitBatches GetPipelineState GetOrCreatePipelineState schedule camera
    callback sp = Ok sp' ->
  length (ScenePass.unlitBaseBatches_ sp') = tv_Size (ScenePass.unlitBatches_ sp).
Proof.
  intros Hcover Hrun. unfold ScenePass.CollectUnlitBatches in Hrun.
  apply bind_Ok in Hrun as (phase & Hphase & Hrun).
  apply bind_Ok in Hrun as (resolved & Hresolve & Hrun). injection Hrun as <-. simpl.
  apply CollectUnlitBatches_phase in Hphase
    as (made & Hmade & Hbatches & _ & _); [|done|simpl; by rewrite length_resize].
  rewrite tv_ForEach_values in Hresolve.
  apply (forEach_invariant
           (fun s : ScenePass.Resolve Cache =>
              length (ScenePass.rs_batches s) = tv_Size (ScenePass.unlitBatches_ sp)))
    in Hresolve; [done| |].
  - intros p s s' _ Hs Hstep. unfold ScenePass.CollectUnlitBatches_resolve in Hstep.
    apply bind_Ok in Hstep as (b & _ & Hstep).
    destruct (GetOrCreatePipelineState _ _ _ _) as [cache created].
    injection Hstep as <-. simpl. by rewrite length_insert.
  - simpl. rewrite Hbatches, length_fmap. apply Forall2_length in Hmade.
    by rewrite <- Hmade.
Qed.

(** X14.  With a cache in which a state that get-or-create returns is found
    afterwards and found states are kept, the unlit path leaves every final
    batch that has a pipeline state with the state the cache then holds for
    its key: a later lookup of the key finds the state of the batch. *)
Theorem CollectUnlitBatches_cached (schedule : list (nat * nat))
    (camera : ScenePass.Camera) (callback : ScenePass.ScenePipelineStateCacheCallback)
    (sp : ScenePass.ScenePass Cache) :
  Spec.covers schedule (tv_Size (ScenePass.unlitBatches_ sp)) ->
  concat (ScenePass.unlitBaseBatchesDirty_ sp) = [] ->
  Spec.unlitReady schedule sp ->
  exists sp',
    ScenePass.CollectUnlitBatches GetPipelineState GetOrCreatePipelineState schedule camera
      callback sp = Ok sp'
    /\ length (ScenePass.unlitBaseBatches_ sp') = tv_Size (ScenePass.unlitBatches_ sp)
    /\ forall g b ps,
         ScenePass.unlitBaseBatches_ sp' !! g = Some b ->
         ScenePass.pipelineState_ b = Some ps ->
         GetPipelineState (ScenePass.unlitPipelineStateCache_ sp') (Spec.unlitKey b)
         = Some ps.
Proof.
  intros Hcover Hclean Hready.
  destruct (CollectUnlitBatches_defined GetPipelineState GetOrCreatePipelineState
              schedule camera callback sp Hready Hclean) as [sp' Hrun].
  pose proof (CollectUnlitBatches_length _ _ _ _ _ Hcover Hrun) as Hlen.
  destruct (CollectUnlitBatches_tracked GetPipelineState GetOrCreatePipelineState
              schedule camera callback sp sp' Hcover Hclean Hrun)
    as (made & dirtyBatches & Hmade & _ & _ & _ & _ & Hcache & Hdirty & Hclean').
  exists sp'. split; [done|]. split; [done|].
  intros g b ps Hb Hps.
  assert (Hg : g < length made).
  { apply Forall2_length in Hmade. rewrite <- Hmade. unfold tv_CopyTo.
    apply lookup_lt_Some in Hb. unfold tv_Size in Hlen. lia. }
  apply lookup_lt_is_Some_2 in Hg as [b0 Hb0]. rewrite Hcache.
  destruct (decide (g ∈ tv_CopyTo (ScenePass.unlitBaseBatchesDirty_ sp'))) as [Hin|Hnotin].
  - apply list_elem_of_lookup in Hin as [k Hk].
    destruct (Hdirty k g Hk) as (b1 & r & Hb1 & Hcall & Hfinal).
    assert (b1 = b0) as -> by congruence.
    assert (b = ScenePass.set_pipelineState r b0) as -> by congruence.
    simpl in Hps. subst r.
    change (Spec.unlitKey (ScenePass.set_pipelineState (Some ps) b0))
      with (Spec.unlitKey b0).
    by eapply unlitResolve_found.
  - rewrite (Hclean' g b0 Hb0 Hnotin) in Hb. injection Hb as <-. simpl in Hps.
    change (Spec.unlitKey (ScenePass.set_pipelineState _ b0)) with (Spec.unlitKey b0).
    by apply unlitResolve_kept.
Qed.

End UnlitCache.

(** The association-list cache of the scenes keeps the two laws. *)
Lemma sameKey_refl k : Scenes.sameKey k k = true.
Proof.
  unfold Scenes.sameKey. rewrite !bool_decide_true by done.
  by rewrite Nat.eqb_refl, N.eqb_refl.
Defined.

Lemma sameKey_get cache k k' :
  Scenes.sameKey k k' = true -> Scenes.simpleGet cache k = Scenes.simpleGet cache k'.
Proof.
  unfold Scenes.sameKey. intros H.
  apply andb_true_iff in H as [H H4]. apply andb_true_iff in H as [H H3].
  apply andb_true_iff in H as [H1 H2].
  apply bool_decide_eq_true in H1, H2. apply Nat.eqb_eq in H3. apply N.eqb_eq in H4.
  induction cache as [|[k0 ps0] rest IH]; simpl; [done|].
  unfold Scenes.sameKey. by rewrite H1, H2, H3, H4, IH.
Defined.

Lemma simple_created_is_found cache key ctx callback cache' ps :
  Scenes.simpleGetOrCreate cache key ctx callback = (cache', Some ps) ->
  Scenes.simpleGet cache' key = Some ps.
Proof.
  unfold Scenes.simpleGetOrCreate.
  destruct (Scenes.simpleGet cache key) as [found|] eqn:Hget.
  - by intros [= <- <-].
  - destruct (callback key ctx) as [made|]; [|done].
    intros [= <- <-]. simpl. by rewrite sameKey_refl.
Defined.

Lemma simple_found_is_kept cache key ctx callback key' ps :
  Scenes.simpleGet cache key' = Some ps ->
  Scenes.simpleGet (Scenes.simpleGetOrCreate cache key ctx callback).1 key' = Some ps.
Proof.
  unfold Scenes.simpleGetOrCreate. intros Hfound.
  destruct (Scenes.simpleGet cache key) as [found|] eqn:Hget; [done|].
  destruct (callback key ctx) as [made|]; [|done]. simpl.
  destruct (Scenes.sameKey key key') eqn:Hsame; [|done].
  rewrite (sameKey_get cache key key' Hsame) in Hget. congruence.
Defined.

Lemma CollectUnlitBatches_cached_witness :
  exists sp',
    ScenePass.CollectUnlitBatches Scenes.simpleGet Scenes.simpleGetOrCreate [(0, 2)]
      Scenes.camera Scenes.createState Scenes.unlitPass = Ok sp'
    /\ length (ScenePass.unlitBaseBatches_ sp')
       = tv_Size (ScenePass.unlitBatches_ Scenes.unlitPass)
    /\ forall g b ps,
         ScenePass.unlitBaseBatches_ sp' !! g = Some b ->
         ScenePass.pipelineState_ b = Some ps ->
         Scenes.simpleGet (ScenePass.unlitPipelineStateCache_ sp') (Spec.unlitKey b)
         = Some ps.
Proof.
  apply (CollectUnlitBatches_cached Scenes.simpleGet Scenes.simpleGetOrCreate
           simple_created_is_found simple_found_is_kept).
  - vm_compute. reflexivity.
  - vm_compute. reflexivity.
  - split.
    + repeat constructor; simpl; lia.
    + repeat constructor; eexists; vm_compute; reflexivity.
Defined.

(** ** Light batches of the lit path *)

Lemma forEachIndexed_keeps {A St} (P : St -> Prop) (body : nat -> A -> St -> result St)
    (l : list A) i st st' :
  (forall k x s s', x ∈ l -> P s -> body k x s = Ok s' -> P s') ->
  P st -> forEachIndexed body i l st = Ok st' -> P st'.
Proof.
  revert i st. induction l as [|x rest IH]; intros i st Hstep HP H; simpl in H.
  - by injection H as <-.
  - apply bind_Ok in H as (s1 & Hx & H). apply (IH (S i) s1); [| |exact H].
    + intros k y s s' Hy. apply Hstep. apply elem_of_cons. by right.
    + eapply Hstep; [|exact HP|exact Hx]. apply elem_of_cons. by left.
Qed.

Lemma ForEachParallel_keeps {T St} (P : St -> Prop)
    (body : nat -> nat -> nat -> T -> St -> result St) schedule offset
    (collection : list T) st st' :
  (forall threadIndex offset i x s s',
     x ∈ collection -> P s -> body threadIndex offset i x s = Ok s' -> P s') ->
  P st ->
  ForEachParallel schedule
    (fun threadIndex offset batches => forEachIndexed (body threadIndex offset) 0 batches)
    offset collection st = Ok st' ->
  P st'.
Proof.
  revert offset collection st.
  induction schedule as [|[threadIndex count] rest IH]; intros offset collection st
    Hstep HP H; simpl in H.
  - by injection H as <-.
  - apply bind_Ok in H as (s1 & Hchunk & H).
    eapply (IH _ (drop count collection) s1); [| |exact H].
    + intros t off i x s s' Hx. apply Hstep.
      eapply elem_of_sublist; [exact Hx|apply sublist_drop].
    + eapply forEachIndexed_keeps; [|exact HP|exact Hchunk].
      intros k x s s' Hx. apply Hstep.
      eapply elem_of_sublist; [exact Hx|apply sublist_take].
Qed.

Lemma Forall_concat_tv_Set {T} (P : T -> Prop) (tv : list (list T)) t e v :
  P v -> Forall P (concat tv) -> Forall P (concat (tv_Set tv t e v)).
Proof.
  intros Hv. unfold tv_Set. revert t.
  induction tv as [|lane tv IH]; intros [|t]; simpl; try done.
  - rewrite !Forall_app. intros [Hlane Hrest]. split; [|done]. by apply Forall_insert.
  - rewrite !Forall_app. intros [Hlane Hrest]. split; [done|]. by apply IH.
Qed.

Section LightBatches.

Context {Cache : Type}.
Variable GetPipelineState : Cache -> ScenePass.ScenePipelineStateKey -> option PipelineState.
Variable GetOrCreatePipelineState :
  Cache -> ScenePass.ScenePipelineStateKey -> ScenePass.ScenePipelineStateContext ->
  ScenePass.ScenePipelineStateCacheCallback -> Cache * option PipelineState.

Lemma CollectLitBatches_light_sound (sp : ScenePass.ScenePass Cache) sceneLights
    threadIndex intermediateBatch sceneBatch pixelLight st st' :
  additionalPass_ intermediateBatch <> None ->
  ScenePass.CollectLitBatches_light GetPipelineState sp sceneLights threadIndex
    intermediateBatch sceneBatch pixelLight st = Ok st' ->
  Forall (LitLights.lightBatch sceneLights) (concat (ScenePass.lp_light st)) ->
  Forall (LitLights.lightBatch sceneLights) (concat (ScenePass.lp_light st')).
Proof.
  unfold ScenePass.CollectLitBatches_light. intros Hpass H Hall.
  apply bind_Ok in H as (sceneLight & Hlight & H). apply defined_Ok in Hlight.
  apply bind_Ok in H as ([light batchIndex] & Hins & H).
  pose proof (tv_Insert_concat _ _ _ _ _ Hins) as Hperm.
  assert (Hlp : ScenePass.lp_light st' = light).
  { destruct (negb _) in H; simpl in H.
    - apply bind_Ok in H as ([dirty n] & _ & H). by injection H as <-.
    - by injection H as <-. }
  rewrite Hlp, Hperm. apply Forall_app. split; [done|]. constructor; [|done].
  split; simpl; [done|]. by rewrite Hlight.
Qed.

(** X15.  The lit path keeps the light batches sound: when every lit
    intermediate batch has its additional pass, every light batch the path
    leaves has a pass and a light index that names a scene light, those it
    appended and those whose pipeline state it resolved. *)
Theorem CollectLitBatches_light_batches (schedule : list (nat * nat))
    (camera : ScenePass.Camera) (callback : ScenePass.ScenePipelineStateCacheCallback)
    (mainLightIndex : unsigned) (sceneLights : list ScenePass.SceneLight)
    (drawableLighting : list DrawableLightData) (sp sp' : ScenePass.ScenePass Cache) :
  PassBatches.passSound sp ->
  Forall (LitLights.lightBatch sceneLights) (tv_CopyTo (ScenePass.lightBatches_ sp)) ->
  ScenePass.CollectLitBatches GetPipelineState GetOrCreatePipelineState schedule camera
    callback mainLightIndex sceneLights drawableLighting sp = Ok sp' ->
  Forall (LitLights.lightBatch sceneLights) (tv_CopyTo (ScenePass.lightBatches_ sp')).
Proof.
  intros [Hlit _] Hlights Hrun. unfold ScenePass.CollectLitBatches in Hrun.
  apply bind_Ok in Hrun as (mainLight & _ & Hrun).
  apply bind_Ok in Hrun as (phase & Hphase & Hrun).
  apply bind_Ok in Hrun as (resolvedBase & _ & Hrun).
  apply bind_Ok in Hrun as (resolvedLight & Hlight & Hrun). injection Hrun as <-. simpl.
  unfold tv_CopyTo in *.
  assert (Hphase' : Forall (LitLights.lightBatch sceneLights) (concat (ScenePass.lp_light phase))).
  { eapply (ForEachParallel_keeps
              (fun st => Forall (LitLights.lightBatch sceneLights)
                           (concat (ScenePass.lp_light st))));
      [| |exact Hphase]; [|done].
    intros threadIndex offset i ib s s' Hib Hs Hstep.
    rewrite list.Forall_forall in Hlit. destruct (Hlit ib Hib) as [Hpass _].
    unfold ScenePass.CollectLitBatches_element in Hstep.
    apply bind_Ok in Hstep as (slot & _ & Hstep).
    apply bind_Ok in Hstep as (pixelLights & _ & Hstep).
    apply bind_Ok in Hstep as (sceneBatch & _ & Hstep).
    apply bind_Ok in Hstep as (baseDirty & _ & Hstep).
    eapply (forEach_invariant
              (fun st => Forall (LitLights.lightBatch sceneLights)
                           (concat (ScenePass.lp_light st)))); [| |exact Hstep]; [|done].
    intros pixelLight s1 s2 _ Hs1 Hone.
    by eapply CollectLitBatches_light_sound. }
  eapply (forEach_invariant
            (fun st : ScenePass.ResolveLight Cache =>
               Forall (LitLights.lightBatch sceneLights) (concat (ScenePass.rl_light st))));
    [| |exact Hlight]; [|done].
  intros [[t k] e] s s' _ Hs Hstep.
  unfold ScenePass.CollectLitBatches_resolveLight in Hstep.
  apply bind_Ok in Hstep as (lightBatch & Hget & Hstep).
  apply bind_Ok in Hstep as (sceneLight & _ & Hstep).
  destruct (GetOrCreatePipelineState _ _ _ _) as [cache created].
  injection Hstep as <-. simpl.
  apply Forall_concat_tv_Set; [|done].
  unfold tv_Get in Hget. apply bind_Ok in Hget as (lane & Hlane & Hget).
  apply defined_Ok in Hlane, Hget.
  rewrite list.Forall_forall in Hs.
  assert (Hin : lightBatch ∈ concat (ScenePass.rl_light s)).
  { apply list_elem_of_In, in_concat. exists lane.
    split; apply list_elem_of_In; by eapply list_elem_of_lookup_2. }
  by destruct (Hs _ Hin).
Qed.

End LightBatches.

Lemma CollectLitBatches_light_batches_witness :
  exists sp',
    ScenePass.CollectLitBatches Scenes.simpleGet Scenes.simpleGetOrCreate [(0, 1)]
      Scenes.camera Scenes.createState 0%N Scenes.twoLights Scenes.twoPixelLights
      Scenes.mixedPass = Ok sp'
    /\ tv_Size (ScenePass.lightBatches_ sp') = 1
    /\ Forall (LitLights.lightBatch Scenes.twoLights) (tv_CopyTo (ScenePass.lightBatches_ sp')).
Proof.
  eexists. split; [vm_compute; reflexivity|]. split; [vm_compute; reflexivity|].
  eapply (CollectLitBatches_light_batches Scenes.simpleGet Scenes.simpleGetOrCreate
            [(0, 1)] Scenes.camera Scenes.createState 0%N Scenes.twoLights
            Scenes.twoPixelLights Scenes.mixedPass).
  - split; vm_compute; repeat (constructor; [split; (reflexivity || discriminate)|]); constructor.
  - constructor.
  - vm_compute. reflexivity.
Defined.

(** ** The lights of a frame *)

Lemma forEach_app {A St} (body : A -> St -> result St) (l k : list A) st :
  forEach body (l ++ k) st = forEach body l st ≫= forEach body k.
Proof.
  revert st. induction l as [|x l IH]; intros st; simpl; [done|].
  destruct (body x st); simpl; [apply IH|done..].
Qed.

(** A parallel for whose callback runs the same loop body on every element,
    whatever the lane and the offset, is the loop over the whole collection
    when the chunks cover it. *)
Lemma ForEachParallel_forEach {T St} (body : T -> St -> result St) schedule offset
    (collection : list T) st :
  sum_list_with snd schedule = length collection ->
  ForEachParallel schedule (fun _ _ chunk => forEach body chunk) offset collection st
  = forEach body collection st.
Proof.
  revert offset collection st.
  induction schedule as [|[threadIndex count] rest IH]; intros offset collection st Hcover;
    simpl in *.
  - by destruct collection.
  - replace (forEach body collection st)
      with (forEach body (take count collection ++ drop count collection) st)
      by (by rewrite take_drop).
    rewrite forEach_app.
    destruct (forEach body (take count collection) st); simpl; [|done..].
    apply IH. rewrite length_drop. lia.
Qed.

Section Lights.

Context {Accumulator : Type}.
Variable AccumulateLight :
  SceneLighting.DrawableLightDataAccumulationContext -> float -> Accumulator -> Accumulator.
Variable GetLightImportance : Drawable -> N.
Variable GetIntensityDivisor : Drawable -> float.
Variable GetDistanceTo : Drawable -> Drawable -> float.
Variable fdiv fmul : float -> float -> float.
Variable visits : Drawable -> list (list Drawable * bool).
Variable volume : Drawable -> BoundingBox -> SceneBatchCollector.Intersection.

Local Abbreviation accumulated :=
  (LightAccumulation.accumulated Accumulator AccumulateLight GetLightImportance GetIntensityDivisor
     GetDistanceTo fdiv fmul).
Local Abbreviation litOf := (LightAccumulation.litOf visits volume).
Local Abbreviation accumulatedFrom :=
  (LightAccumulation.accumulatedFrom Accumulator AccumulateLight GetLightImportance
     GetIntensityDivisor GetDistanceTo fdiv fmul visits volume).
Local Abbreviation AccumulateForwardLighting :=
  (SceneLighting.AccumulateForwardLighting Accumulator AccumulateLight GetLightImportance
     GetIntensityDivisor GetDistanceTo fdiv fmul).
Local Abbreviation ProcessLightThreaded :=
  (SceneLighting.ProcessLightThreaded Accumulator visits volume).
Local Abbreviation ProcessVisibleLights :=
  (SceneLighting.ProcessVisibleLights Accumulator AccumulateLight GetLightImportance
     GetIntensityDivisor GetDistanceTo fdiv fmul visits volume).
Local Abbreviation LightState := (SceneLighting.LightState Accumulator).

Lemma accumulated_length c light lightIndex lighting geometries :
  length (accumulated c light lightIndex lighting geometries) = length lighting.
Proof.
  unfold LightAccumulation.accumulated. revert lighting.
  induction geometries as [|g rest IH]; intros lighting; simpl; [done|].
  by rewrite IH, length_alter.
Qed.

Lemma accumulated_other c light lightIndex lighting geometries j :
  j ∉ GetDrawableIndex <$> geometries ->
  accumulated c light lightIndex lighting geometries !! j = lighting !! j.
Proof.
  unfold LightAccumulation.accumulated. revert lighting.
  induction geometries as [|g rest IH]; intros lighting Hj; simpl; [done|].
  rewrite fmap_cons in Hj. apply not_elem_of_cons in Hj as [Hne Hj].
  rewrite IH by done. by apply list_lookup_alter_ne.
Qed.

Lemma accumulateOne_loop accumContext light penalty geometries
    (lighting : list Accumulator) :
  Forall (fun g => GetDrawableIndex g < length lighting) geometries ->
  forEach (SceneLighting.accumulateOne Accumulator AccumulateLight GetDistanceTo fmul
             accumContext light penalty) geometries lighting
  = Ok (foldl (fun lighting geometry =>
                 alter (AccumulateLight accumContext
                          (fmul (GetDistanceTo light geometry) penalty))
                       (GetDrawableIndex geometry) lighting)
              lighting geometries).
Proof.
  revert lighting. induction geometries as [|g rest IH]; intros lighting Hin; simpl;
    [done|].
  apply list.Forall_cons in Hin as [Hg Hrest].
  destruct (lookup_lt_is_Some_2 lighting (GetDrawableIndex g) Hg) as [acc Hacc].
  assert (Hone : SceneLighting.accumulateOne Accumulator AccumulateLight GetDistanceTo fmul
                   accumContext light penalty g lighting
                 = Ok (alter (AccumulateLight accumContext
                                (fmul (GetDistanceTo light g) penalty))
                             (GetDrawableIndex g) lighting)).
  { unfold SceneLighting.accumulateOne. rewrite Hacc. simpl.
    by rewrite (insert_alter_lookup (AccumulateLight accumContext _) _ _ _ Hacc). }
  rewrite Hone. simpl.
  apply IH. eapply list.Forall_impl; [exact Hrest|]. intros g'. by rewrite length_alter.
Qed.

Lemma AccumulateForwardLighting_run (schedule : list (nat * nat))
    (c : SceneBatchCollector.Collector) (lightIndex : nat) (s : LightState)
    (light : Drawable) (key : nat) (lightData : SceneLighting.LightData) :
  SceneBatchCollector.visibleLights_ c !! lightIndex = Some light ->
  SceneLighting.visibleLightsData_ Accumulator s !! lightIndex = Some key ->
  SceneLighting.cachedLightData_ Accumulator s !! key = Some lightData ->
  Spec.covers schedule (length (SceneLighting.litGeometries_ lightData)) ->
  Forall (fun g => GetDrawableIndex g < length (SceneLighting.drawableLighting_ Accumulator s))
    (SceneLighting.litGeometries_ lightData) ->
  let lighting :=
    accumulated c light lightIndex (SceneLighting.drawableLighting_ Accumulator s)
      (SceneLighting.litGeometries_ lightData) in
  AccumulateForwardLighting schedule c lightIndex s
  = Ok {| SceneLighting.cachedLightData_ := SceneLighting.cachedLightData_ Accumulator s;
          SceneLighting.visibleLightsData_ := SceneLighting.visibleLightsData_ Accumulator s;
          SceneLighting.drawableLighting_ := lighting |}
  /\ length lighting = length (SceneLighting.drawableLighting_ Accumulator s)
  /\ forall j, j ∉ GetDrawableIndex <$> SceneLighting.litGeometries_ lightData ->
       lighting !! j = SceneLighting.drawableLighting_ Accumulator s !! j.
Proof.
  intros Hlight Hkey Hdata Hcover Hin lighting.
  split; [|split; [apply accumulated_length|apply accumulated_other]].
  unfold SceneLighting.AccumulateForwardLighting.
  rewrite Hlight. simpl. rewrite Hkey. simpl. rewrite Hdata. simpl.
  rewrite ForEachParallel_forEach by exact Hcover.
  by rewrite accumulateOne_loop.
Qed.

(** X16.  [AccumulateForwardLighting] for a visible light whose lit
    geometries have their accumulators completes, whatever the chunks of a
    covering schedule are; it accumulates the light into the accumulators
    of its lit geometries, one geometry after the other, and leaves the
    number of accumulators, every accumulator of another drawable index and
    the light data as they are. *)
Theorem AccumulateForwardLighting_sequential (schedule : list (nat * nat))
    (c : SceneBatchCollector.Collector) (lightIndex : nat) (s : LightState)
    (light : Drawable) (key : nat) (lightData : SceneLighting.LightData) :
  SceneBatchCollector.visibleLights_ c !! lightIndex = Some light ->
  SceneLighting.visibleLightsData_ Accumulator s !! lightIndex = Some key ->
  SceneLighting.cachedLightData_ Accumulator s !! key = Some lightData ->
  Spec.covers schedule (length (SceneLighting.litGeometries_ lightData)) ->
  Forall (fun g => GetDrawableIndex g < length (SceneLighting.drawableLighting_ Accumulator s))
    (SceneLighting.litGeometries_ lightData) ->
  let lighting :=
    accumulated c light lightIndex (SceneLighting.drawableLighting_ Accumulator s)
      (SceneLighting.litGeometries_ lightData) in
  AccumulateForwardLighting schedule c lightIndex s
  = Ok {| SceneLighting.cachedLightData_ := SceneLighting.cachedLightData_ Accumulator s;
          SceneLighting.visibleLightsData_ := SceneLighting.visibleLightsData_ Accumulator s;
          SceneLighting.drawableLighting_ := lighting |}
  /\ length lighting = length (SceneLighting.drawableLighting_ Accumulator s)
  /\ forall j, j ∉ GetDrawableIndex <$> SceneLighting.litGeometries_ lightData ->
       lighting !! j = SceneLighting.drawableLighting_ Accumulator s !! j.
Proof.
  intros Hlight Hkey Hdata Hcover Hin.
  by apply (AccumulateForwardLighting_run schedule c lightIndex s light key lightData).
Qed.

End Lights.

Section VisibleLights.

Context {Accumulator : Type}.
Variable AccumulateLight :
  SceneLighting.DrawableLightDataAccumulationContext -> float -> Accumulator -> Accumulator.
Variable GetLightImportance : Drawable -> N.
Variable GetIntensityDivisor : Drawable -> float.
Variable GetDistanceTo : Drawable -> Drawable -> float.
Variable fdiv fmul : float -> float -> float.
Variable visits : Drawable -> list (list Drawable * bool).
Variable volume : Drawable -> BoundingBox -> SceneBatchCollector.Intersection.

Local Abbreviation accumulated :=
  (LightAccumulation.accumulated Accumulator AccumulateLight GetLightImportance GetIntensityDivisor
     GetDistanceTo fdiv fmul).
Local Abbreviation litOf := (LightAccumulation.litOf visits volume).
Local Abbreviation accumulatedFrom :=
  (LightAccumulation.accumulatedFrom Accumulator AccumulateLight GetLightImportance
     GetIntensityDivisor GetDistanceTo fdiv fmul visits volume).
Local Abbreviation AccumulateForwardLighting :=
  (SceneLighting.AccumulateForwardLighting Accumulator AccumulateLight GetLightImportance
     GetIntensityDivisor GetDistanceTo fdiv fmul).
Local Abbreviation ProcessLightThreaded :=
  (SceneLighting.ProcessLightThreaded Accumulator visits volume).
Local Abbreviation ProcessVisibleLights :=
  (SceneLighting.ProcessVisibleLights Accumulator AccumulateLight GetLightImportance
     GetIntensityDivisor GetDistanceTo fdiv fmul visits volume).
Local Abbreviation LightState := (SceneLighting.LightState Accumulator).
Local Abbreviation cached := (SceneLighting.cachedLightData_ Accumulator).
Local Abbreviation pointers := (SceneLighting.visibleLightsData_ Accumulator).
Local Abbreviation lightingOf := (SceneLighting.drawableLighting_ Accumulator).
Local Abbreviation queried := (LightAccumulation.queried Accumulator visits volume).

(** The first loop: storage for the lights. *)
Lemma allocate_loop (lights : list Drawable) (s : LightState) :
  let s1 := foldl (fun s light => SceneLighting.allocateLightData Accumulator light s)
              s lights in
  pointers s1 = pointers s ++ (GetDrawableIndex <$> lights)
  /\ lightingOf s1 = lightingOf s
  /\ forall key,
       cached s1 !! key
       = if bool_decide (key ∈ GetDrawableIndex <$> lights)
         then Some {| SceneLighting.litGeometries_ := [] |}
         else cached s !! key.
Proof.
  revert s. induction lights as [|light rest IH]; intros s; simpl.
  - by rewrite app_nil_r.
  - destruct (IH (SceneLighting.allocateLightData Accumulator light s)) as (Hp & Hl & Hc).
    rewrite Hp, Hl. simpl. split; [by rewrite <- app_assoc|]. split; [done|].
    intros key. rewrite Hc. simpl.
    destruct (decide (key ∈ GetDrawableIndex <$> rest)) as [Hin|Hnotin].
    + rewrite !bool_decide_true; [done| |done]. apply elem_of_cons. by right.
    + rewrite (bool_decide_false _ Hnotin).
      destruct (decide (GetDrawableIndex light = key)) as [<-|Hne].
      * rewrite lookup_insert_eq, bool_decide_true; [done|]. apply elem_of_cons. by left.
      * rewrite lookup_insert_ne by done. rewrite bool_decide_false; [done|].
        intros [?|?]%elem_of_cons; [congruence|done].
Qed.

Lemma query_loop (c : SceneBatchCollector.Collector) (s0 : LightState) rest done s :
  NoDup (GetDrawableIndex <$> SceneBatchCollector.visibleLights_ c) ->
  (forall light, light ∈ SceneBatchCollector.visibleLights_ c ->
     exists litGeometries,
       SceneBatchCollector.CollectLitGeometries (visits light) (volume light) light [] c
       = Ok litGeometries) ->
  drop done (SceneBatchCollector.visibleLights_ c) = rest ->
  queried c s0 done s ->
  exists s',
    forEachIndexed (fun i _ s => ProcessLightThreaded c i s) done rest s = Ok s'
    /\ queried c s0 (length (SceneBatchCollector.visibleLights_ c)) s'.
Proof.
  intros Hdup Hquery. revert done s.
  induction rest as [|light rest IH]; intros done s Hdrop Hinv; simpl.
  - exists s. split; [done|].
    assert (Hge : length (SceneBatchCollector.visibleLights_ c) <= done).
    { destruct (decide (length (SceneBatchCollector.visibleLights_ c) <= done)); [done|].
      apply (f_equal length) in Hdrop. rewrite length_drop in Hdrop. simpl in Hdrop. lia. }
    destruct Hinv as (Hp & Hl & Hc & Ho). repeat split; try done.
    intros i l Hi. rewrite (Hc i l Hi).
    apply lookup_lt_Some in Hi.
    by rewrite !bool_decide_true by lia.
  - assert (Hat : SceneBatchCollector.visibleLights_ c !! done = Some light).
    { rewrite <- (Nat.add_0_r done), <- lookup_drop, Hdrop. done. }
    destruct Hinv as (Hp & Hl & Hc & Ho).
    destruct (Hquery light) as [lit Hlit]; [by eapply list_elem_of_lookup_2|].
    assert (Hone : ProcessLightThreaded c done s
              = Ok {| SceneLighting.cachedLightData_ :=
                        <[GetDrawableIndex light :=
                            {| SceneLighting.litGeometries_ := lit |}]> (cached s);
                      SceneLighting.visibleLightsData_ := pointers s;
                      SceneLighting.drawableLighting_ := lightingOf s |}).
    { unfold SceneLighting.ProcessLightThreaded. rewrite Hat. simpl.
      rewrite Hp, list_lookup_fmap, Hat. simpl.
      rewrite (Hc done light Hat), bool_decide_false by lia. simpl.
      by rewrite Hlit. }
    rewrite Hone. simpl. apply IH.
    + by rewrite (drop_S _ _ _ Hat) in Hdrop; injection Hdrop.
    + split; [done|]. split; [done|]. simpl. split.
      * intros i l Hi.
        destruct (decide (i = done)) as [->|Hne].
        -- assert (l = light) as -> by congruence.
           rewrite lookup_insert_eq, bool_decide_true by lia.
           unfold LightAccumulation.litOf. by rewrite Hlit.
        -- rewrite lookup_insert_ne.
           ++ rewrite (Hc i l Hi).
              by rewrite (bool_decide_ext (i < done) (i < S done)) by lia.
           ++ intros Heq. apply Hne. symmetry.
              eapply (NoDup_lookup _ done i); [exact Hdup|..];
                rewrite list_lookup_fmap; [by rewrite Hat|by rewrite Hi, Heq].
      * intros key Hkey. rewrite lookup_insert_ne; [by apply Ho|].
        intros <-. apply Hkey. apply list_elem_of_fmap_2.
        by eapply list_elem_of_lookup_2.
Qed.

(** The third loop: the lights are accumulated one after the other. *)
Lemma accumulate_loop (schedule : nat -> list (nat * nat))
    (c : SceneBatchCollector.Collector) rest done (s : LightState) :
  drop done (SceneBatchCollector.visibleLights_ c) = rest ->
  pointers s = GetDrawableIndex <$> SceneBatchCollector.visibleLights_ c ->
  (forall i light, SceneBatchCollector.visibleLights_ c !! i = Some light ->
     cached s !! GetDrawableIndex light
     = Some {| SceneLighting.litGeometries_ := litOf c light |}) ->
  (forall i light, SceneBatchCollector.visibleLights_ c !! i = Some light ->
     Spec.covers (schedule i) (length (litOf c light))
     /\ Forall (fun g => GetDrawableIndex g < length (lightingOf s)) (litOf c light)) ->
  forEachIndexed (fun i _ s => AccumulateForwardLighting (schedule i) c i s) done rest s
  = Ok {| SceneLighting.cachedLightData_ := cached s;
          SceneLighting.visibleLightsData_ := pointers s;
          SceneLighting.drawableLighting_ := accumulatedFrom c done rest (lightingOf s) |}.
Proof.
  revert done s. induction rest as [|light rest IH]; intros done s Hdrop Hp Hc Hok; simpl.
  - by destruct s.
  - assert (Hat : SceneBatchCollector.visibleLights_ c !! done = Some light).
    { rewrite <- (Nat.add_0_r done), <- lookup_drop, Hdrop. done. }
    destruct (Hok done light Hat) as [Hcover Hin].
    destruct (AccumulateForwardLighting_run AccumulateLight GetLightImportance
                GetIntensityDivisor GetDistanceTo fdiv fmul (schedule done) c done s light
                (GetDrawableIndex light)
                {| SceneLighting.litGeometries_ := litOf c light |})
      as (Hrun & Hlen & _); try done.
    { by rewrite Hp, list_lookup_fmap, Hat. }
    { by eapply Hc. }
    simpl in Hrun, Hlen. rewrite Hrun. simpl.
    rewrite IH; simpl; try done.
    + by rewrite (drop_S _ _ _ Hat) in Hdrop; injection Hdrop.
    + intros i l Hi. destruct (Hok i l Hi) as [? ?]. split; [done|].
      by rewrite Hlen.
Qed.

End VisibleLights.

Section VisibleLightsStage.

Context {Accumulator : Type}.
Variable AccumulateLight :
  SceneLighting.DrawableLightDataAccumulationContext -> float -> Accumulator -> Accumulator.
Variable GetLightImportance : Drawable -> N.
Variable GetIntensityDivisor : Drawable -> float.
Variable GetDistanceTo : Drawable -> Drawable -> float.
Variable fdiv fmul : float -> float -> float.
Variable visits : Drawable -> list (list Drawable * bool).
Variable volume : Drawable -> BoundingBox -> SceneBatchCollector.Intersection.

(** X17.  [ProcessVisibleLights] for pairwise different visible lights
    whose queries are defined, with covering schedules and lit geometries
    that have their accumulators, completes.  It leaves one pointer per
    visible light, in the order of the lights; the light data of every
    visible light holds what the query of the light yields on cleared light
    data, so nothing of an earlier frame; the cached light data of every
    other light is kept; and the lights are accumulated one after the
    other, in the order of the lights, into their lit geometries. *)
Theorem ProcessVisibleLights_lights (schedule : nat -> list (nat * nat))
    (c : SceneBatchCollector.Collector) (s : SceneLighting.LightState Accumulator) :
  NoDup (GetDrawableIndex <$> SceneBatchCollector.visibleLights_ c) ->
  (forall light, light ∈ SceneBatchCollector.visibleLights_ c ->
     exists litGeometries,
       SceneBatchCollector.CollectLitGeometries (visits light) (volume light) light [] c
       = Ok litGeometries) ->
  (forall i light, SceneBatchCollector.visibleLights_ c !! i = Some light ->
     Spec.covers (schedule i) (length (LightAccumulation.litOf visits volume c light))
     /\ Forall (fun g => GetDrawableIndex g
                         < length (SceneLighting.drawableLighting_ Accumulator s))
          (LightAccumulation.litOf visits volume c light)) ->
  exists s',
    SceneLighting.ProcessVisibleLights Accumulator AccumulateLight GetLightImportance
      GetIntensityDivisor GetDistanceTo fdiv fmul visits volume schedule c s = Ok s'
    /\ SceneLighting.visibleLightsData_ Accumulator s'
       = GetDrawableIndex <$> SceneBatchCollector.visibleLights_ c
    /\ (forall light, light ∈ SceneBatchCollector.visibleLights_ c ->
          exists litGeometries,
            SceneBatchCollector.CollectLitGeometries (visits light) (volume light) light []
              c = Ok litGeometries
            /\ SceneLighting.cachedLightData_ Accumulator s' !! GetDrawableIndex light
               = Some {| SceneLighting.litGeometries_ := litGeometries |})
    /\ (forall key, key ∉ GetDrawableIndex <$> SceneBatchCollector.visibleLights_ c ->
          SceneLighting.cachedLightData_ Accumulator s' !! key
          = SceneLighting.cachedLightData_ Accumulator s !! key)
    /\ SceneLighting.drawableLighting_ Accumulator s'
       = LightAccumulation.accumulatedFrom Accumulator AccumulateLight GetLightImportance
           GetIntensityDivisor GetDistanceTo fdiv fmul visits volume c 0
           (SceneBatchCollector.visibleLights_ c)
           (SceneLighting.drawableLighting_ Accumulator s).
Proof.
  intros Hdup Hquery Hok. unfold SceneLighting.ProcessVisibleLights.
  set (lights := SceneBatchCollector.visibleLights_ c) in *.
  set (init := {| SceneLighting.cachedLightData_ :=
                    SceneLighting.cachedLightData_ Accumulator s;
                  SceneLighting.visibleLightsData_ := [];
                  SceneLighting.drawableLighting_ :=
                    SceneLighting.drawableLighting_ Accumulator s |}).
  destruct (allocate_loop lights init) as (Hp & Hl & Hc).
  set (s1 := foldl _ init lights) in *. simpl in Hp, Hl, Hc.
  assert (Hinv : LightAccumulation.queried Accumulator visits volume c s 0 s1).
  { split; [done|]. split; [done|]. split.
    - intros i light Hi. rewrite Hc, bool_decide_true.
      + by rewrite bool_decide_false by lia.
      + apply list_elem_of_fmap_2. by eapply list_elem_of_lookup_2.
    - intros key Hkey. by rewrite Hc, bool_decide_false. }
  destruct (query_loop visits volume c s lights 0 s1 Hdup Hquery eq_refl Hinv)
    as (s2 & Hrun2 & Hp2 & Hl2 & Hc2 & Ho2).
  rewrite Hrun2. simpl.
  assert (Hc2' : forall i light, lights !! i = Some light ->
            SceneLighting.cachedLightData_ Accumulator s2 !! GetDrawableIndex light
            = Some {| SceneLighting.litGeometries_ := LightAccumulation.litOf visits volume c light |}).
  { intros i light Hi. rewrite (Hc2 i light Hi), bool_decide_true; [done|].
    by eapply lookup_lt_Some. }
  rewrite (accumulate_loop AccumulateLight GetLightImportance GetIntensityDivisor
             GetDistanceTo fdiv fmul visits volume schedule c lights 0 s2 eq_refl Hp2 Hc2').
  - eexists. split; [done|]. simpl. split; [done|]. split; [|split; [done|by rewrite Hl2]].
    intros light Hin. apply list_elem_of_lookup in Hin as [i Hi].
    destruct (Hquery light) as [lit Hlit]; [by eapply list_elem_of_lookup_2|].
    exists lit. split; [done|]. rewrite (Hc2' i light Hi).
    unfold LightAccumulation.litOf. by rewrite Hlit.
  - intros i light Hi. rewrite Hl2. by apply Hok.
Qed.

End VisibleLightsStage.

Lemma ProcessVisibleLights_lights_witness :
  exists s',
    SceneLighting.ProcessVisibleLights nat Scenes4.countLight Scenes4.importance
      Scenes4.divisor Scenes4.distanceTo PrimFloat.div PrimFloat.mul Scenes4.visits
      Scenes4.volume (fun _ => [(0, 1)]) Scenes4.lightsCollector Scenes4.newLights = Ok s'
    /\ SceneLighting.visibleLightsData_ nat s'
       = GetDrawableIndex <$> SceneBatchCollector.visibleLights_ Scenes4.lightsCollector
    /\ (forall light, light ∈ SceneBatchCollector.visibleLights_ Scenes4.lightsCollector ->
          exists litGeometries,
            SceneBatchCollector.CollectLitGeometries (Scenes4.visits light)
              (Scenes4.volume light) light [] Scenes4.lightsCollector = Ok litGeometries
            /\ SceneLighting.cachedLightData_ nat s' !! GetDrawableIndex light
               = Some {| SceneLighting.litGeometries_ := litGeometries |})
    /\ (forall key,
          key ∉ GetDrawableIndex <$> SceneBatchCollector.visibleLights_ Scenes4.lightsCollector ->
          SceneLighting.cachedLightData_ nat s' !! key
          = SceneLighting.cachedLightData_ nat Scenes4.newLights !! key)
    /\ SceneLighting.drawableLighting_ nat s'
       = LightAccumulation.accumulatedFrom nat Scenes4.countLight Scenes4.importance Scenes4.divisor
           Scenes4.distanceTo PrimFloat.div PrimFloat.mul Scenes4.visits Scenes4.volume
           Scenes4.lightsCollector 0
           (SceneBatchCollector.visibleLights_ Scenes4.lightsCollector)
           (SceneLighting.drawableLighting_ nat Scenes4.newLights).
Proof.
  apply ProcessVisibleLights_lights.
  - apply (bool_decide_unpack _). vm_compute. exact I.
  - intros light Hin. apply list_elem_of_singleton in Hin as ->.
    eexists. vm_compute. reflexivity.
  - intros [|i] light H; [|discriminate]. injection H as <-.
    split; [vm_compute; reflexivity|]. vm_compute. repeat constructor.
Defined.

Lemma AccumulateForwardLighting_sequential_witness :
  SceneLighting.AccumulateForwardLighting nat Scenes4.countLight Scenes4.importance
    Scenes4.divisor Scenes4.distanceTo PrimFloat.div PrimFloat.mul [(0, 1)]
    Scenes4.lightsCollector 0 Scenes4.queriedLights
  = Ok {| SceneLighting.cachedLightData_ :=
            SceneLighting.cachedLightData_ nat Scenes4.queriedLights;
          SceneLighting.visibleLightsData_ :=
            SceneLighting.visibleLightsData_ nat Scenes4.queriedLights;
          SceneLighting.drawableLighting_ :=
            LightAccumulation.accumulated nat Scenes4.countLight Scenes4.importance Scenes4.divisor
              Scenes4.distanceTo PrimFloat.div PrimFloat.mul Scenes4.lightsCollector
              Scenes.pointLight 0 [0] [Scenes.litGeometry] |}
  /\ length (LightAccumulation.accumulated nat Scenes4.countLight Scenes4.importance Scenes4.divisor
               Scenes4.distanceTo PrimFloat.div PrimFloat.mul Scenes4.lightsCollector
               Scenes.pointLight 0 [0] [Scenes.litGeometry]) = 1
  /\ forall j, j ∉ GetDrawableIndex <$> [Scenes.litGeometry] ->
       LightAccumulation.accumulated nat Scenes4.countLight Scenes4.importance Scenes4.divisor
         Scenes4.distanceTo PrimFloat.div PrimFloat.mul Scenes4.lightsCollector
         Scenes.pointLight 0 [0] [Scenes.litGeometry] !! j
       = [0] !! j.
Proof.
  apply (AccumulateForwardLighting_sequential Scenes4.countLight Scenes4.importance
           Scenes4.divisor Scenes4.distanceTo PrimFloat.div PrimFloat.mul [(0, 1)]
           Scenes4.lightsCollector 0 Scenes4.queriedLights Scenes.pointLight 1
           {| SceneLighting.litGeometries_ := [Scenes.litGeometry] |}).
  - reflexivity.
  - reflexivity.
  - apply lookup_insert_eq.
  - reflexivity.
  - repeat constructor.
Defined.

(** ** A frame of a scene pass *)

Lemma BeginFrame_inFrame {Cache} numWorkers (sp : ScenePass.ScenePass Cache) :
  PassFrame.inFrame numWorkers (ScenePass.BeginFrame numWorkers sp)
  /\ PassBatches.passSound (ScenePass.BeginFrame numWorkers sp).
Proof.
  unfold PassFrame.inFrame, PassBatches.passSound, tv_CopyTo, tv_Clear. simpl.
  unfold tv_Clear. rewrite !length_replicate, !concat_replicate_nil.
  repeat split; try lia; constructor.
Qed.

Lemma AddSourceBatch_inFrame {Cache} numWorkers threadIndex drawable sourceBatchIndex
    technique (sp : ScenePass.ScenePass Cache) :
  threadIndex <= numWorkers ->
  sourceBatchIndex < length (GetBatches drawable) ->
  PassFrame.inFrame numWorkers sp -> PassBatches.passSound sp ->
  exists sp' added,
    ScenePass.AddSourceBatch true threadIndex drawable sourceBatchIndex technique sp
    = Ok (sp', added)
    /\ PassFrame.inFrame numWorkers sp' /\ PassBatches.passSound sp'.
Proof.
  intros Ht Hi (Hlu & Hll & Hld & Hclean & Hwu & Hwl) [Hsl Hsu].
  unfold ScenePass.AddSourceBatch.
  destruct (lookup_lt_is_Some_2 (ScenePass.unlitBatches_ sp) threadIndex)
    as [unlitLane HunlitLane]; [lia|].
  destruct (lookup_lt_is_Some_2 (ScenePass.litBatches_ sp) threadIndex)
    as [litLane HlitLane]; [lia|].
  apply lookup_lt_is_Some_2 in Hi as [sourceBatch HsourceBatch].
  assert (Hwf : forall basePass additionalPass,
    FrameBuckets.wellFormed {| geometry_ := Some drawable; sourceBatchIndex_ := sourceBatchIndex;
                         basePass_ := basePass; additionalPass_ := additionalPass |}).
  { intros. by exists drawable, sourceBatch. }
  destruct (GetPass technique (ScenePass.lightPassIndex_ sp)) as [lp|],
    (GetPass technique (ScenePass.litBasePassIndex_ sp)) as [lb|],
    (GetPass technique (ScenePass.unlitBasePassIndex_ sp)) as [ub|]; simpl;
    rewrite ?(tv_Insert_Ok _ _ _ _ HunlitLane); simpl;
    rewrite ?(tv_Insert_Ok _ _ _ _ HlitLane); simpl;
    rewrite ?(insert_alter_lookup (fun lane => lane ++ [_]) _ _ _ HunlitLane);
    rewrite ?(insert_alter_lookup (fun lane => lane ++ [_]) _ _ _ HlitLane);
    eexists; eexists; (split; [reflexivity|]);
    unfold PassFrame.inFrame, PassBatches.passSound, tv_CopyTo in *; simpl;
    rewrite ?length_alter;
    repeat split; try done;
    apply Forall_concat_alter_snoc; try done; try lia; by split.
Qed.

Lemma addAll_inFrame {Cache} numWorkers calls (sp : ScenePass.ScenePass Cache) :
  Forall (PassFrame.callInRange numWorkers) calls ->
  PassFrame.inFrame numWorkers sp -> PassBatches.passSound sp ->
  exists sp', PassFrame.addAll true calls sp = Ok sp'
              /\ PassFrame.inFrame numWorkers sp' /\ PassBatches.passSound sp'.
Proof.
  intros Hcalls. revert sp.
  induction Hcalls as [|[[[t d] i] tech] calls [Ht Hi] _ IH]; intros sp Hin Hsound.
  - exists sp. split; [done|]. by split.
  - unfold PassFrame.addAll. simpl.
    destruct (AddSourceBatch_inFrame numWorkers t d i tech sp Ht Hi Hin Hsound)
      as (sp1 & added & -> & Hin1 & Hsound1).
    simpl. by apply IH.
Qed.

Lemma wellFormed_unlitBatchOf {Cache} (sp : ScenePass.ScenePass Cache) b :
  FrameBuckets.wellFormed b -> exists final, Spec.unlitBatchOf sp b = Ok final.
Proof.
  intros (d & sb & Hd & Hsb). unfold Spec.unlitBatchOf, ScenePass.BaseSceneBatch_make.
  rewrite Hd. simpl. rewrite Hsb. simpl. eauto.
Qed.

(** X18.  A frame of a scene pass runs to the end of its unlit path in a
    build without assertions: after [BeginFrame], calls of [AddSourceBatch]
    on lanes up to the number of worker threads, each for a source batch
    its drawable has, all complete and leave lit batches with, and unlit
    batches without, an additional pass; and [CollectUnlitBatches] then
    completes for every covering schedule on those lanes, with one final
    batch for every unlit intermediate batch. *)
Theorem scene_pass_frame {Cache : Type}
    (GetPipelineState : Cache -> ScenePass.ScenePipelineStateKey -> option PipelineState)
    (GetOrCreatePipelineState :
       Cache -> ScenePass.ScenePipelineStateKey -> ScenePass.ScenePipelineStateContext ->
       ScenePass.ScenePipelineStateCacheCallback -> Cache * option PipelineState)
    (numWorkers : nat) (calls : list PassFrame.AddCall) (sp0 : ScenePass.ScenePass Cache) :
  Forall (PassFrame.callInRange numWorkers) calls ->
  exists sp1,
    PassFrame.addAll true calls (ScenePass.BeginFrame numWorkers sp0) = Ok sp1
    /\ PassBatches.passSound sp1
    /\ forall schedule camera callback,
         Forall (fun chunk => chunk.1 <= numWorkers) schedule ->
         Spec.covers schedule (tv_Size (ScenePass.unlitBatches_ sp1)) ->
         exists sp2,
           ScenePass.CollectUnlitBatches GetPipelineState GetOrCreatePipelineState
             schedule camera callback sp1 = Ok sp2
           /\ length (ScenePass.unlitBaseBatches_ sp2)
              = tv_Size (ScenePass.unlitBatches_ sp1).
Proof.
  intros Hcalls.
  destruct (BeginFrame_inFrame numWorkers sp0) as [Hin0 Hsound0].
  destruct (addAll_inFrame numWorkers calls _ Hcalls Hin0 Hsound0)
    as (sp1 & Hrun & (Hlu & Hll & Hld & Hclean & Hwu & Hwl) & Hsound).
  exists sp1. split; [done|]. split; [done|].
  intros schedule camera callback Hlanes Hcover.
  destruct (CollectUnlitBatches_defined GetPipelineState GetOrCreatePipelineState
              schedule camera callback sp1) as [sp2 Hrun2]; [|done|].
  - split.
    + eapply list.Forall_impl; [exact Hlanes|]. intros chunk. simpl. lia.
    + eapply list.Forall_impl; [exact Hwu|]. intros b. apply wellFormed_unlitBatchOf.
  - exists sp2. split; [done|]. by eapply CollectUnlitBatches_length.
Qed.

Lemma scene_pass_frame_witness :
  exists sp1,
    PassFrame.addAll true
      [(0, Scenes.firstGeometry, 0, Scenes.techBase);
       (1, Scenes.litGeometry, 0, Scenes.techBaseLight)]
      (ScenePass.BeginFrame 1 Scenes.newScenePass) = Ok sp1
    /\ PassBatches.passSound sp1
    /\ forall schedule camera callback,
         Forall (fun chunk => chunk.1 <= 1) schedule ->
         Spec.covers schedule (tv_Size (ScenePass.unlitBatches_ sp1)) ->
         exists sp2,
           ScenePass.CollectUnlitBatches Scenes.simpleGet Scenes.simpleGetOrCreate
             schedule camera callback sp1 = Ok sp2
           /\ length (ScenePass.unlitBaseBatches_ sp2)
              = tv_Size (ScenePass.unlitBatches_ sp1).
Proof.
  apply (scene_pass_frame Scenes.simpleGet Scenes.simpleGetOrCreate 1).
  repeat constructor; simpl; lia.
Defined.
